(* ===== verification/_CoqProject ===== *)
-Q . S2P
Prelude.v
Float.v
FloatRange.v
Types.v
Text.v
Request.v
Chunking.v
Memory.v
Compat.v
Bytes.v
Persist.v
Exec.v
Cuda.v
Observability.v
Explain.v
SchedState.v
SchedOps.v
SchedCycle.v
SchedPersist.v
Protocol.v
ProtocolProps.v
Network.v
RemoteWorker.v
Sockets.v
Cli.v
SchedFrame.v
SchedInv.v
Submission.v
SchedOpsInv.v
SchedOpsInv2.v
SubmitInv.v
CycleInv.v
DispatchInv.v
GroupInv.v
FormInv.v
RunCycle.v
CycleStable.v
Tally.v
Coordinator.v
CliProps.v
ImportInv.v
CycleFrame.v
Reach.v
Safety.v
Evolve.v
Trace.v
Authority.v
Recovery.v
CycleProps.v
CoordProps.v
CoordSpec.v
Tables.v
Typed.v
Restore.v
Progress.v
Drive.v
Workload.v
Bench.v
Programs.v
ProgramProps.v
Examples.v
ExampleProps.v
Order.v
Demo.v
NetDemo.v
Witnesses.v
NetWitnesses.v
CliWitnesses.v
