(* ===== verification/Prelude.v ===== *)
(** * Prefill Fabric: a verification development

    Prefill Fabric schedules the prefill phase of language-model requests.  A
    submitted prompt is cut into chunks; a scheduling cycle packs compatible
    chunks of different requests into groups, reserves device memory and a
    worker for each group and issues it with a fresh generation; a worker
    executes the group and reports one result per member, which the scheduler
    accepts only from the holder of the current authority (epoch, worker, boot,
    attempt, generation).  Workers run in process or behind a coordinator that
    speaks a framed binary protocol; the state of the scheduler can be written
    to a checksummed file and restored.

    ** Parts, files and sources

    Foundations.
    - [Prelude]: machine integers with their wrap-around, record update, the
      traversal order of hash tables ([HashOrder]: any permutation of the
      entries, a choice per table content), shared lemmas and tactics.
    - [Float]: [double] as its bit pattern over the executable IEEE-754
      specification; [FloatEnv] holds what C++ leaves open ([long double], an
      out-of-range conversion to [uint64_t]).
    - [FloatRange]: the operations of [Float] give bit patterns of 64 bits.
    - [Types] ([types.hpp], [result.hpp], [clock.hpp]), [Text] (decimal numbers),
      [Request] ([request.hpp], [policy.hpp]), [Observability]
      ([observability.hpp]), [Explain] ([explain.hpp]).

    Components of the core library.
    - [Chunking]: [ChunkPlanner] of [chunking.cpp].
    - [Memory]: [MemoryGovernor] of [memory.hpp].
    - [Compat]: FNV-1a, compatibility keys ([compatibility.hpp]).
    - [Exec]: the executor contract, the token resolver, the digest of
      [frontend_math.hpp], [CpuExecutor] and the CUDA kernel.
    - [Cuda]: [CudaExecutor] of [cuda_executor.cu] and the stub, over a CUDA
      runtime that is a parameter ([CudaRuntime], [CudaLaws]).
    - [Bytes], [Persist]: [ByteWriter], [ByteReader] and the persistence format
      ([persistence.hpp], [persistence.cpp]).
    - [SchedState], [SchedOps], [SchedCycle], [SchedPersist]: [scheduler.cpp].
      [Impl] is the record of the C++ class of that name; every public member
      function is a function from state to state and result, the whole body in
      its order of effects (each runs under one mutex).  The clock is a
      parameter, the stream of its readings ([ClockSource]); the state counts
      them.  The file system is a parameter ([FileSystem], [ReliableFiles]).

    The distributed system.
    - [Protocol]: messages and their codecs ([protocol.cpp]).
    - [Network]: the transfer loops and framing of [network.cpp] over a stream
      of octets that is a parameter ([Stream], [StreamLaws]).
    - [Sockets]: the [Socket] and [Listener] objects of [network.cpp] and the
      descriptors they own, over system calls that are a parameter ([SocketApi],
      [SocketLaws]).
    - [RemoteWorker]: [worker.cpp] and [client.cpp].
    - [Coordinator]: [coordinator.cpp].  A step relation ([cstep]) interleaves the
      connection threads and the scheduling thread at their critical sections.

    Programs, each a function to its exit code and the lines it prints.
    - [Cli]: the command line of [cli/main.cpp], command by command.
    - [Programs]: [bench/benchmark.cpp] and [tools/consumer/main.cpp].
    - [Examples]: the in-process programs of [examples/].

    ** What is proved

    - One request or table at a time ([Chunking], [Memory], [Compat], [Exec],
      [Cuda]): the plan covers the remaining prefill without gap or overlap and
      within the chunk limit; the governor refines a ledger; the CPU and the
      CUDA executor agree on the digest whatever the order of the atomic
      additions, and the CUDA executor frees what it allocates on every path (while
      [cudaFree] succeeds).
    - The invariant of the scheduler.  [SchedInv] states it, one predicate per
      component; [SchedFrame], [SchedOpsInv], [SchedOpsInv2], [SubmitInv],
      [CycleInv], [DispatchInv], [GroupInv], [FormInv] and [RunCycle] show that
      every operation preserves it, and [ImportInv] that a recovered scheduler
      starts with it; [Reach] defines the reachable states, by any sequence of
      operations and recoveries.
      [Safety] reads off what a user sees: reservations belong exactly to the
      running requests, tenant accounting is exact, admission limits hold,
      progress is a prefix of the plan, authority is unique; statistics and
      token accounting are exact as long as no recovery happened, since a
      snapshot does not keep them ([Origin] of [SchedInv] is what it keeps).
      [Tables] treats the worker and tenant tables; [Typed] shows that every
      stored value stays in the range of its type, so that the snapshot of a
      reachable scheduler is one the file format holds.
    - Behaviour over time.  [Evolve] relates the states before and after any
      sequence of operations; [Authority] characterises accepted reports, shows
      that a completion is applied at most once and that final states absorb;
      [Recovery] describes the loss of a worker, [Restore] recovery from a file
      (also what it does not bring back) and that work of the former process is
      never accepted again.
    - The cycle.  [CycleProps]: the batch returned is exactly the work started,
      expiry is exact, groups respect the limits (the memory limit member by
      member, as the code compares it) and fit the device together; [Order]: the order of dispatch
      depends neither on hash tables nor on the sorting algorithm; [CycleFrame],
      [CycleStable], [Progress], [Drive]: driving an idle scheduler with in-process CPU workers
      finishes every request (liveness, with a number of cycles that suffices).
    - Formats.  [Persist], [ProtocolProps]: encoding followed by decoding is the
      identity (up to what the wire drops, named by the [wire_] functions), cut
      or altered input is refused, accepted input is valid.  [Network]: messages
      arrive intact and in order over short reads and writes, and the transfer
      loops terminate.  [Explain]: the JSON text of an explanation is read back
      by a reader of JSON.
    - The composition.  [CoordProps]: a remote execution has the result of a
      local one and its report is accepted.  [CoordSpec]: every run of the
      coordinator, whatever its threads and peers do, is that of a sequential
      server which serves each connection the calls its frames demand and hands
      every group of a cycle over.
    - Programs.  [Sockets]: no descriptor is closed twice, and none is lost but
      that of a listener started again; [CliProps]:
      arguments read back, a submission of the command line reaches the
      coordinator's scheduler with its tokens.  [Submission], [Workload]: a list
      of submissions that fits the configuration is accepted, and driving it
      completes it with every token counted ([Tally]), every explanation kept
      ([Trace]), no reservation left and a state that can be stored.  [Bench],
      [ProgramProps], [ExampleProps] apply this to the benchmark command, the
      benchmark program, the consumer and the examples; cancelling a request
      that waits ([ExampleProps]) leaves the rest to complete.
    - [Demo], [NetDemo], [Witnesses], [NetWitnesses], [CliWitnesses]: concrete
      executions and the theorems instantiated on them.

    ** Bounds and fuel

    - Submissions have fields in range of their types and fewer than 2^32 prompt
      tokens ([request_fits]), so that 32-bit chunk indices do not wrap; the
      per-tenant token limit leaves room for one more prompt ([config_fits]); a
      cycle runs while the 64-bit generation, reservation and group counters
      have room for one number per request ([cycle_room], [counters_room] for a
      whole drive); readings of the clock are 64-bit ([Clock64]), and a scheduler
      is persisted whose callers gave strings of at most 2^32 octets and at most
      2^24 requests ([storable]).  Beyond these bounds the definitions still compute, with the
      wrap-around of the code; the invariant is not claimed.
    - [plan_fuel] is the number of chunks, shown to be enough by [plan_closed].
      The transfer loops take as fuel a number of calls;
      [Network.transfer_terminates] shows that the number of octets suffices.
      [drive_until_quiescent] has the cycle limit of the code as its argument.

    ** Not modelled

    - [examples/distributed_coordinator_workers.cpp], which runs a coordinator, a
      worker and a client in threads of one process and polls with sleeps; the
      three parts are modelled, their timing is not.  Of the CUDA example the
      run on a device is defined, for any executor, but no theorem is stated of it.
    - Creation of threads; the operating system, the CUDA runtime and the file
      system are parameters.
    - [std::hash] functors (a hash table is its content, traversed in any order)
      and running out of host memory.
    - Every operation is defined on every state, but the invariant of a recovery
      is claimed for [import_state] on a scheduler that has not admitted a
      request, from a snapshot taken under the same configuration: on a running
      scheduler the import drops the requests without releasing their memory
      ([Demo.import_leaks_reservations]). *)

From stdpp Require Export base gmap list list_numbers strings pretty sorting fin_maps fin_map_dom.
From Stdlib Require Export ZArith Lia.

#[global] Open Scope Z_scope.
#[global] Set Default Proof Using "Type".
#[global] Set Warnings "-clear-no-such-hyp".

(** ** Machine integers

    A w-bit unsigned value is a [Z] in [[0, 2^w)]; arithmetic that the code
    performs at that width is written with an explicit wrap. *)

Definition u8 (z : Z) : Z := z mod 2 ^ 8.
Definition u16 (z : Z) : Z := z mod 2 ^ 16.
Definition u32 (z : Z) : Z := z mod 2 ^ 32.
Definition u64 (z : Z) : Z := z mod 2 ^ 64.

(** Two's complement signed values (x64 compilers; signed overflow itself is
    undefined in C++ and is given its usual wrap-around reading here). *)
Definition i32 (z : Z) : Z := (z + 2 ^ 31) mod 2 ^ 32 - 2 ^ 31.
Definition i64 (z : Z) : Z := (z + 2 ^ 63) mod 2 ^ 64 - 2 ^ 63.

Definition U64_MAX : Z := 2 ^ 64 - 1.
Definition I64_MAX : Z := 2 ^ 63 - 1.

Definition is_u8 (z : Z) : Prop := 0 <= z < 2 ^ 8.
Definition is_u32 (z : Z) : Prop := 0 <= z < 2 ^ 32.
Definition is_u64 (z : Z) : Prop := 0 <= z < 2 ^ 64.
Definition is_i32 (z : Z) : Prop := - 2 ^ 31 <= z < 2 ^ 31.
Definition is_i64 (z : Z) : Prop := - 2 ^ 63 <= z < 2 ^ 63.

#[global] Instance is_u8_dec z : Decision (is_u8 z).
Proof. unfold is_u8; apply _. Defined.
#[global] Instance is_u32_dec z : Decision (is_u32 z).
Proof. unfold is_u32; apply _. Defined.
#[global] Instance is_u64_dec z : Decision (is_u64 z).
Proof. unfold is_u64; apply _. Defined.
#[global] Instance is_i32_dec z : Decision (is_i32 z).
Proof. unfold is_i32; apply _. Defined.
#[global] Instance is_i64_dec z : Decision (is_i64 z).
Proof. unfold is_i64; apply _. Defined.

Declare Scope fabric_scope.
Delimit Scope fabric_scope with fabric.

(** [a +u b]: 64-bit unsigned addition with wrap-around; [a -u b] likewise. *)
Notation "a +u b" := (u64 (a + b)) (at level 50, left associativity) : fabric_scope.
Notation "a -u b" := (u64 (a - b)) (at level 50, left associativity) : fabric_scope.
Notation "a *u b" := (u64 (a * b)) (at level 40, left associativity) : fabric_scope.
#[global] Open Scope fabric_scope.

Create HintDb fabric.
Create Rewrite HintDb fabric.

Lemma u64_small z : is_u64 z → u64 z = z.
Proof. intros H; unfold u64; apply Z.mod_small; exact H. Qed.

Lemma u32_small z : is_u32 z → u32 z = z.
Proof. intros H; unfold u32; apply Z.mod_small; exact H. Qed.

Lemma u8_small z : is_u8 z → u8 z = z.
Proof. intros H; unfold u8; apply Z.mod_small; exact H. Qed.

Lemma i64_small z : is_i64 z → i64 z = z.
Proof. unfold is_i64, i64; intros H; rewrite Z.mod_small by lia; lia. Qed.

Lemma i32_small z : is_i32 z → i32 z = z.
Proof. unfold is_i32, i32; intros H; rewrite Z.mod_small by lia; lia. Qed.

Lemma u64_range z : is_u64 (u64 z).
Proof. unfold is_u64, u64; apply Z.mod_pos_bound; lia. Qed.

Lemma u32_range z : is_u32 (u32 z).
Proof. unfold is_u32, u32; apply Z.mod_pos_bound; lia. Qed.

Lemma u8_range z : is_u8 (u8 z).
Proof. unfold is_u8, u8; apply Z.mod_pos_bound; lia. Qed.

Lemma i64_range z : is_i64 (i64 z).
Proof. unfold is_i64, i64; pose proof (Z.mod_pos_bound (z + 2 ^ 63) (2 ^ 64)); lia. Qed.

Lemma i32_range z : is_i32 (i32 z).
Proof. unfold is_i32, i32; pose proof (Z.mod_pos_bound (z + 2 ^ 31) (2 ^ 32)); lia. Qed.

Lemma u64_idem z : u64 (u64 z) = u64 z.
Proof. apply u64_small, u64_range. Qed.

Lemma u64_add_l a b : u64 (u64 a + b) = u64 (a + b).
Proof. unfold u64; rewrite Z.add_mod_idemp_l by lia; reflexivity. Qed.

Lemma u64_add_r a b : u64 (a + u64 b) = u64 (a + b).
Proof. unfold u64; rewrite Z.add_mod_idemp_r by lia; reflexivity. Qed.

#[export] Hint Resolve u64_range u32_range u8_range i64_range i32_range : fabric.
#[export] Hint Rewrite u64_idem u64_add_l u64_add_r : fabric.

(** Signed 64-bit value of an unsigned one and back (the codec's casts). *)
Lemma i64_u64 z : is_i64 z → i64 (u64 z) = z.
Proof.
  unfold is_i64, i64, u64; intros H.
  rewrite Z.add_mod_idemp_l by lia. rewrite Z.mod_small by lia. lia.
Qed.

Lemma i32_u32 z : is_i32 z → i32 (u32 z) = z.
Proof.
  unfold is_i32, i32, u32; intros H.
  rewrite Z.add_mod_idemp_l by lia. rewrite Z.mod_small by lia. lia.
Qed.

(** ** Record update

    [x <| p := v |>] is the record [x] with field [p] replaced by [v]; every
    updatable field has one [Setter] instance, built from the eta-expansion of
    its record. *)

Class Eta (R : Type) := eta : R → R.
Class Setter {R T : Type} (p : R → T) := setf : (T → T) → R → R.
Arguments setf {R T} p {_} _ _ : simpl never.

Ltac mk_setter :=
  lazymatch goal with
  | |- @Setter ?R ?T ?p =>
      let i := constr:(_ : Eta R) in
      let e := eval hnf in i in
      let e' := eval pattern p in e in
      lazymatch e' with
      | ?F _ =>
          let r := eval cbv beta in (fun (f : T → T) => F (fun x => f (p x))) in
          exact r
      end
  end.

#[warnings="-postfix-notation-not-level-1"]
Notation "x <| p := v |>" := (setf p (λ _, v) x)
  (at level 12, p at next level, left associativity,
   format "x  <|  p  :=  v  |>").
#[warnings="-postfix-notation-not-level-1"]
Notation "x <| p ::= f |>" := (setf p f x)
  (at level 12, p at next level, left associativity,
   format "x  <|  p  ::=  f  |>").

(** [rsimp] computes a projection of an updated record, leaving the updates
    that no projection reads folded.  A step rewrites with the equation for an
    arbitrary record, which is decided without looking into the record. *)
Ltac rw_with E :=
  lazymatch type of E with
  | ?t = ?u =>
      pattern t;
      lazymatch goal with |- ?P _ => refine (@eq_ind_r _ u P _ t E) end; cbv beta
  end.
Ltac rsimp_at p H :=
  lazymatch H with
  | @setf ?R ?T ?q ?i ?f ?y =>
      is_const p;
      tryif constr_eq p q
      then (let E := constr:((λ x, eq_refl) : ∀ x : R, p (@setf R T q i f x) = f (p x)) in
            let E := constr:(E y : p (@setf R T q i f y) = f (p y)) in
            rw_with E)
      else (let E := constr:((λ x, eq_refl) : ∀ x : R, p (@setf R T q i f x) = p x) in
            let E := constr:(E y : p (@setf R T q i f y) = p y) in
            rw_with E)
  end.
Ltac rsimp_in p H E :=
  lazymatch H with
  | @setf ?R ?T ?q ?i ?f _ =>
      is_const p;
      tryif constr_eq p q
      then (rewrite (ltac:(intros; reflexivity)
                     : ∀ x : R, p (@setf R T q i f x) = f (p x)) in E; cbv beta in E)
      else rewrite (ltac:(intros; reflexivity) : ∀ x : R, p (@setf R T q i f x) = p x) in E
  end.
Ltac rsimp_goal :=
  repeat match goal with
  | |- context [?p (@setf ?R ?T ?q ?i ?f ?x)] => rsimp_at p (@setf R T q i f x)
  end.
Ltac rsimp_hyps :=
  repeat match goal with
  | E : context [?p (@setf ?R ?T ?q ?i ?f ?x)] |- _ => rsimp_in p (@setf R T q i f x) E
  end.
Tactic Notation "rsimp" := rsimp_goal.
Tactic Notation "rsimp" "in" "*" := rsimp_goal; rsimp_hyps.

(** ** Clean-up tactics *)

(** Turn the boolean tests of the code into the propositions they decide. *)
Ltac bools :=
  repeat match goal with
  | H : (_ && _)%bool = true |- _ => apply andb_true_iff in H as [? ?]
  | H : (_ || _)%bool = false |- _ => apply orb_false_iff in H as [? ?]
  | H : (_ || _)%bool = true |- _ => apply orb_true_iff in H
  | H : (_ && _)%bool = false |- _ => apply andb_false_iff in H
  | H : negb _ = true |- _ => apply negb_true_iff in H
  | H : negb _ = false |- _ => apply negb_false_iff in H
  | H : (_ =? _) = true |- _ => apply Z.eqb_eq in H
  | H : (_ =? _) = false |- _ => apply Z.eqb_neq in H
  | H : (_ <? _) = true |- _ => apply Z.ltb_lt in H
  | H : (_ <? _) = false |- _ => apply Z.ltb_ge in H
  | H : (_ <=? _) = true |- _ => apply Z.leb_le in H
  | H : (_ <=? _) = false |- _ => apply Z.leb_gt in H
  | H : bool_decide _ = true |- _ => apply bool_decide_eq_true in H
  | H : bool_decide _ = false |- _ => apply bool_decide_eq_false in H
  end.

(** Case analysis on the innermost test of a conditional. *)
Ltac case_if :=
  match goal with
  | |- context [if ?b then _ else _] =>
      lazymatch b with
      | context [if _ then _ else _] => fail
      | _ => let E := fresh "E" in destruct b eqn:E; bools
      end
  end.
Ltac case_if_in H :=
  match type of H with
  | context [if ?b then _ else _] =>
      lazymatch b with
      | context [if _ then _ else _] => fail
      | _ => let E := fresh "E" in destruct b eqn:E; bools
      end
  end.

(** Decide equality tests between enumerators. *)
Ltac decide_enums :=
  repeat match goal with
  | |- context [bool_decide (?a = ?b)] =>
      first [rewrite (bool_decide_true (a = b)) by reflexivity
            |rewrite (bool_decide_false (a = b)) by discriminate]
  end.

(** ** Sums over finite maps *)

Section map_sum.
Context {A : Type}.
Implicit Types (f : Z → A → Z) (m : gmap Z A).

Definition map_sum f m : Z := map_fold (λ k x acc, f k x + acc) 0 m.

Lemma map_sum_empty f : map_sum f ∅ = 0.
Proof. apply map_fold_empty. Qed.

Lemma map_sum_insert_new f m k x :
  m !! k = None → map_sum f (<[k:=x]> m) = f k x + map_sum f m.
Proof.
  intros H; unfold map_sum.
  apply (map_fold_insert_L (λ k x acc, f k x + acc)); [intros; lia | exact H].
Qed.

Lemma map_sum_delete f m k x :
  m !! k = Some x → map_sum f m = f k x + map_sum f (delete k m).
Proof.
  intros H. rewrite <- (insert_delete_id m k x H) at 1.
  apply map_sum_insert_new, lookup_delete_eq.
Qed.

Lemma map_sum_insert f m k x y :
  m !! k = Some y → map_sum f (<[k:=x]> m) = map_sum f m - f k y + f k x.
Proof.
  intros H. rewrite (map_sum_delete f m k y H), <- insert_delete_eq.
  rewrite map_sum_insert_new by apply lookup_delete_eq. lia.
Qed.

Lemma map_sum_ext f g m :
  (∀ k x, m !! k = Some x → f k x = g k x) → map_sum f m = map_sum g m.
Proof.
  induction m as [|k x m Hk IH] using map_ind; intros H; [by rewrite !map_sum_empty|].
  rewrite !map_sum_insert_new by done. rewrite IH, H.
  - done.
  - by apply lookup_insert_eq.
  - intros j y Hj. apply H. rewrite lookup_insert_ne; [done|congruence].
Qed.

Lemma map_sum_nonneg f m :
  (∀ k x, m !! k = Some x → 0 <= f k x) → 0 <= map_sum f m.
Proof.
  induction m as [|k x m Hk IH] using map_ind; intros H; [by rewrite map_sum_empty|].
  rewrite map_sum_insert_new by done.
  pose proof (H k x (lookup_insert_eq _ _ _)).
  assert (0 <= map_sum f m); [|lia].
  apply IH. intros j y Hj. apply H. rewrite lookup_insert_ne; [done|congruence].
Qed.

Lemma map_sum_ge_one f m k x :
  (∀ j y, m !! j = Some y → 0 <= f j y) → m !! k = Some x → f k x <= map_sum f m.
Proof.
  intros Hf Hk. rewrite (map_sum_delete f m k x Hk).
  assert (0 <= map_sum f (delete k m)); [|lia].
  apply map_sum_nonneg. intros j y [_ Hj]%lookup_delete_Some. by apply (Hf j y).
Qed.

Lemma map_sum_zero f m :
  (∀ k x, m !! k = Some x → f k x = 0) → map_sum f m = 0.
Proof.
  induction m as [|k x m Hk IH] using map_ind; intros H; [by rewrite map_sum_empty|].
  rewrite map_sum_insert_new by done.
  rewrite (H k x (lookup_insert_eq _ _ _)), IH; [done|].
  intros j y Hj. apply H. rewrite lookup_insert_ne; [done|congruence].
Qed.

Lemma map_sum_bound f m b :
  (∀ k x, m !! k = Some x → f k x <= b) → map_sum f m <= b * Z.of_nat (size m).
Proof.
  induction m as [|k x m Hk IH] using map_ind; intros H; [by rewrite map_sum_empty, map_size_empty; lia|].
  rewrite map_sum_insert_new, map_size_insert_None by done.
  pose proof (H k x (lookup_insert_eq _ _ _)).
  assert (map_sum f m <= b * Z.of_nat (size m)); [|lia].
  apply IH. intros j y Hj. apply H. rewrite lookup_insert_ne; [done|congruence].
Qed.

Lemma map_sum_fmap f (h : A → A) m : map_sum f (h <$> m) = map_sum (λ k x, f k (h x)) m.
Proof.
  induction m as [|k x m Hk IH] using map_ind.
  - by rewrite fmap_empty, !map_sum_empty.
  - rewrite fmap_insert, !map_sum_insert_new; [by rewrite IH|done|].
    by rewrite lookup_fmap, Hk.
Qed.
(** Entry by entry at most those of [m]. *)
Lemma map_sum_le f m m' :
  (∀ k x, m !! k = Some x → 0 <= f k x) →
  (∀ k y, m' !! k = Some y → ∃ x, m !! k = Some x ∧ f k y <= f k x) →
  map_sum f m' <= map_sum f m.
Proof.
  revert m. induction m' as [|k y m' Hk IH] using map_ind; intros m Hpos Hle.
  { rewrite map_sum_empty. by apply map_sum_nonneg. }
  destruct (Hle k y (lookup_insert_eq _ _ _)) as (x & Hx & Hyx).
  rewrite map_sum_insert_new, (map_sum_delete f m k x Hx) by done.
  assert (map_sum f m' <= map_sum f (delete k m)); [|lia]. apply IH.
  - intros j z [_ Hj]%lookup_delete_Some. by apply Hpos.
  - intros j z Hj. assert (j ≠ k) as Hne by congruence.
    destruct (Hle j z) as (x' & Hx' & ?); [by rewrite lookup_insert_ne|].
    exists x'. by rewrite lookup_delete_ne.
Qed.
End map_sum.

(** ** Sums over lists *)

Definition sumZ {A} (f : A → Z) (l : list A) : Z := foldr (λ x acc, f x + acc) 0 l.

Lemma sumZ_cons {A} (f : A → Z) x l : sumZ f (x :: l) = f x + sumZ f l.
Proof. reflexivity. Qed.

Lemma sumZ_ext {A} (f g : A → Z) l : (∀ x, x ∈ l → f x = g x) → sumZ f l = sumZ g l.
Proof.
  induction l as [|x l IH]; intros H; [done|].
  rewrite !sumZ_cons, H by left. f_equal. apply IH. intros y Hy. apply H. by right.
Qed.

Lemma sumZ_fmap {A B} (f : B → Z) (g : A → B) l : sumZ f (g <$> l) = sumZ (λ x, f (g x)) l.
Proof. induction l as [|x l IH]; [done|]. simpl. f_equal. exact IH. Qed.

Lemma sumZ_const0 {A} (l : list A) : sumZ (λ _, 0) l = 0.
Proof. induction l as [|x l IH]; [done|]. rewrite sumZ_cons, IH. lia. Qed.

Lemma sumZ_const {A} c (l : list A) : sumZ (λ _, c) l = c * Z.of_nat (length l).
Proof. induction l as [|x l IH]; [simpl; lia|]. rewrite sumZ_cons, IH. simpl length. lia. Qed.

Lemma sumZ_bound {A} (f : A → Z) c l :
  (∀ x, x ∈ l → f x <= c) → sumZ f l <= c * Z.of_nat (length l).
Proof.
  induction l as [|x l IH]; simpl; intros H; [lia|].
  pose proof (H x ltac:(left)). specialize (IH (λ y Hy, H y (list_elem_of_further _ _ _ Hy))). lia.
Qed.

Lemma sumZ_app {A} (f : A → Z) l k : sumZ f (l ++ k) = sumZ f l + sumZ f k.
Proof. induction l as [|x l IH]; simpl; lia. Qed.

Lemma sumZ_perm {A} (f : A → Z) l k : l ≡ₚ k → sumZ f l = sumZ f k.
Proof. induction 1; simpl; lia. Qed.

Lemma sumZ_nonneg {A} (f : A → Z) l : (∀ x, x ∈ l → 0 <= f x) → 0 <= sumZ f l.
Proof.
  induction l as [|x l IH]; simpl; intros H; [lia|].
  pose proof (H x ltac:(left)). specialize (IH (λ y Hy, H y (list_elem_of_further _ _ _ Hy))). lia.
Qed.

(** [operator[]] of [std::map] / [std::unordered_map] on a value type with a
    default constructor: reading an absent key inserts the default. *)
Definition map_at {A} (d : A) (m : gmap Z A) (k : Z) : A := default d (m !! k).

(** ** Iteration order

    The order in which a [std::unordered_map] is traversed is unspecified.
    Every traversal in the model goes through [iter], of which only the
    documented part is known: each entry is visited exactly once. *)
Class HashOrder := {
  iter : ∀ {A : Type}, gmap Z A → list (Z * A);
  iter_perm : ∀ {A : Type} (m : gmap Z A), iter m ≡ₚ map_to_list m
}.

Definition iter_keys `{HashOrder} {A} (m : gmap Z A) : list Z := (iter m).*1.

(** The traversal by increasing bucket of the underlying trie, used to run the
    model on concrete inputs. *)
#[global] Instance trie_order : HashOrder | 100 := {
  iter A m := map_to_list m;
  iter_perm A m := Permutation_refl _
}.

Section iter.
Context `{HO : HashOrder} {A : Type}.
Implicit Types (m : gmap Z A).

Lemma elem_of_iter m k x : (k, x) ∈ iter m ↔ m !! k = Some x.
Proof. rewrite iter_perm. apply elem_of_map_to_list. Qed.

Lemma elem_of_iter_keys m k : k ∈ iter_keys m ↔ is_Some (m !! k).
Proof.
  unfold iter_keys. rewrite list_elem_of_fmap. split.
  - intros ([k' x] & -> & Hx%elem_of_iter). by exists x.
  - intros [x Hx]. exists (k, x). split; [done|by apply elem_of_iter].
Qed.

Lemma NoDup_iter_keys m : NoDup (iter_keys m).
Proof. unfold iter_keys. rewrite iter_perm. apply NoDup_fst_map_to_list. Qed.
End iter.

(** ** Folds that preserve a property *)

Lemma foldl_preserve {A B} (P : A → Prop) (f : A → B → A) (l : list B) a :
  (∀ a b, b ∈ l → P a → P (f a b)) → P a → P (foldl f a l).
Proof.
  revert a. induction l as [|b l IH]; intros a Hf Ha; simpl; [done|].
  apply IH.
  - intros a' b' Hb'. apply Hf. by right.
  - apply Hf; [left|done].
Qed.
