(* ===== verification/Float.v ===== *)
(** * Floating point

    The code uses [double] for tenant weights, service and the headroom
    fraction, and [long double] for the proportional chunk estimates.  A double
    is carried as its 64-bit pattern (what [ByteWriter::f64] copies out with
    [memcpy]); arithmetic decodes the pattern to the standard library's
    executable IEEE-754 specification [spec_float].

    What C++ leaves to the implementation is collected in [FloatEnv]: the
    format of [long double] (53 bits with MSVC, 64 with x87) and the result of
    converting an unrepresentable value to [uint64_t] (undefined behaviour;
    here any 64-bit value). *)

From Stdlib Require Export SpecFloat.
From S2P Require Import Prelude.

(** ** Binary64 patterns *)

Abbreviation double := Z (only parsing).

Definition d_value (b : double) : spec_float :=
  let s := Z.testbit b 63 in
  let ex := Z.land (Z.shiftr b 52) 2047 in
  let man := Z.land b (2 ^ 52 - 1) in
  if ex =? 0 then
    match man with
    | Zpos m => S754_finite s m (-1074)
    | _ => S754_zero s
    end
  else if ex =? 2047 then
    if man =? 0 then S754_infinity s else S754_nan
  else match man + 2 ^ 52 with
       | Zpos m => S754_finite s m (ex - 1075)
       | _ => S754_zero s
       end.

Definition d_sign_bit (s : bool) : Z := if s then 2 ^ 63 else 0.

(** A NaN result is the quiet NaN of the platform. *)
Definition d_bits (f : spec_float) : double :=
  match f with
  | S754_zero s => d_sign_bit s
  | S754_infinity s => d_sign_bit s + Z.shiftl 2047 52
  | S754_nan => Z.shiftl 4095 51
  | S754_finite s m e =>
      if Zpos m <? 2 ^ 52 then d_sign_bit s + Zpos m
      else d_sign_bit s + Z.shiftl (e + 1075) 52 + (Zpos m - 2 ^ 52)
  end.

Definition d_of_Z (z : Z) : spec_float := binary_normalize 53 1024 z 0 false.

Definition d_add (a b : double) : double := d_bits (SFadd 53 1024 (d_value a) (d_value b)).
Definition d_mul (a b : double) : double := d_bits (SFmul 53 1024 (d_value a) (d_value b)).
Definition d_div (a b : double) : double := d_bits (SFdiv 53 1024 (d_value a) (d_value b)).
Definition d_ltb (a b : double) : bool := SFltb (d_value a) (d_value b).
Definition d_leb (a b : double) : bool := SFleb (d_value a) (d_value b).
Definition d_eqb (a b : double) : bool := SFeqb (d_value a) (d_value b).
Definition d_is_nan (a : double) : bool :=
  match d_value a with S754_nan => true | _ => false end.

Definition d_zero : double := 0.
Definition d_one : double := 0x3FF0000000000000.

Example d_one_plus_one : d_add d_one d_one = 0x4000000000000000.
Proof. vm_compute. reflexivity. Qed.
Example d_third : d_div d_one (d_bits (d_of_Z 3)) = 0x3FD5555555555555.
Proof. vm_compute. reflexivity. Qed.

(** ** What the implementation chooses *)

Class FloatEnv := {
  ld_prec : Z;
  ld_emax : Z;
  f2u_undefined : spec_float → Z;
  f2u_undefined_range : ∀ f, is_u64 (f2u_undefined f)
}.

(** MSVC x64: [long double] is binary64, and the conversion instruction returns
    the "integer indefinite" value. *)
#[global] Program Instance msvc_x64 : FloatEnv | 100 := {
  ld_prec := 53;
  ld_emax := 1024;
  f2u_undefined _ := 2 ^ 63
}.
Next Obligation. unfold is_u64; lia. Qed.

Section env.
Context `{FE : FloatEnv}.

(** [static_cast<std::uint64_t>(f)]: truncation towards zero. *)
Definition f_to_u64 (f : spec_float) : Z :=
  match f with
  | S754_zero _ => 0
  | S754_finite s m e =>
      let t := if 0 <=? e then Z.shiftl (Zpos m) e else Z.shiftr (Zpos m) (- e) in
      if t =? 0 then 0
      else if s then f2u_undefined f
      else if t <? 2 ^ 64 then t else f2u_undefined f
  | _ => f2u_undefined f
  end.

Definition ld_of_u64 (z : Z) : spec_float := binary_normalize ld_prec ld_emax z 0 false.
Definition ld_mul (a b : spec_float) : spec_float := SFmul ld_prec ld_emax a b.
Definition ld_div (a b : spec_float) : spec_float := SFdiv ld_prec ld_emax a b.

Lemma f_to_u64_range f : is_u64 (f_to_u64 f).
Proof.
  destruct f as [s|s| |s m e]; simpl; try apply f2u_undefined_range.
  - unfold is_u64; lia.
  - remember (if 0 <=? e then Z.shiftl (Z.pos m) e else Z.shiftr (Z.pos m) (- e)) as t eqn:Ht.
    assert (0 <= t) by (subst t; case_if; rewrite ?Z.shiftl_nonneg, ?Z.shiftr_nonneg; lia).
    repeat case_if; try apply f2u_undefined_range; unfold is_u64; lia.
Qed.
End env.

