(* ===== verification/FloatRange.v ===== *)
(** * Ranges of floating-point results

    A rounded result has a mantissa of at most 53 bits and an exponent in the
    range of the format, so that the sum of two doubles and the conversion of
    an integer are bit patterns of 64 bits. *)

From Stdlib Require Import SpecFloat.
From S2P Require Import Prelude Float.

Definition in_format (f : spec_float) : Prop :=
  match f with
  | S754_finite _ m e => Zpos m < 2 ^ 53 ∧ -1074 <= e <= 971
  | _ => True
  end.

Lemma d_bits_range f : in_format f → is_u64 (d_bits f).
Proof.
  unfold is_u64, d_bits, d_sign_bit. destruct f as [s|s| |s m e]; intros Hf.
  - destruct s; lia.
  - change (Z.shiftl 2047 52) with (2047 * 2 ^ 52). destruct s; lia.
  - change (Z.shiftl 4095 51) with (4095 * 2 ^ 51). lia.
  - destruct Hf as [Hm He]. rewrite Z.shiftl_mul_pow2 by lia.
    destruct (Z.ltb_spec (Zpos m) (2 ^ 52)); destruct s; lia.
Qed.

Lemma d_value_format b : in_format (d_value b).
Proof.
  unfold d_value. cbv zeta.
  assert (0 <= Z.land b (2 ^ 52 - 1) < 2 ^ 52) as Hm.
  { change (2 ^ 52 - 1) with (Z.ones 52). rewrite Z.land_ones by lia. apply Z.mod_pos_bound. lia. }
  assert (0 <= Z.land (Z.shiftr b 52) 2047 < 2048) as He.
  { change 2047 with (Z.ones 11). rewrite Z.land_ones by lia. apply Z.mod_pos_bound. lia. }
  set (man := Z.land b _) in *. set (ex := Z.land _ 2047) in *. clearbody man ex.
  destruct (Z.eqb_spec ex 0); [destruct man; cbn; lia|].
  destruct (Z.eqb_spec ex 2047); [by case_if|].
  destruct (man + 2 ^ 52) as [|m|m] eqn:E; cbn; lia.
Qed.

(** ** Rounding *)

Lemma digits2_bound p : Zpos p < 2 ^ Zpos (digits2_pos p).
Proof.
  induction p as [p IH|p IH|]; cbn [digits2_pos]; [| |done].
  all: rewrite Pos2Z.inj_succ, Z.pow_succ_r by lia; lia.
Qed.

Lemma shr_1_m mrs : 0 <= shr_m mrs → shr_m (shr_1 mrs) = shr_m mrs / 2.
Proof.
  destruct mrs as [m r s]. cbn [shr_m]. intros Hm. destruct m as [|[p|p|]|p]; try done.
  - cbn [shr_1 shr_m]. apply (Z.div_unique _ _ _ 1); lia.
  - cbn [shr_1 shr_m]. apply (Z.div_unique _ _ _ 0); lia.
Qed.

Lemma iter_shr_m p mrs : 0 <= shr_m mrs → shr_m (iter_pos shr_1 p mrs) = shr_m mrs / 2 ^ Zpos p.
Proof.
  revert mrs. assert (∀ m (n : positive), 0 <= m → 0 <= m / 2 ^ Zpos n) as Hpos
    by (intros; apply Z.div_pos; [done|by apply Z.pow_pos_nonneg]).
  induction p as [p IH|p IH|]; intros mrs Hm; cbn [iter_pos].
  - pose proof (shr_1_m mrs Hm) as E1.
    assert (0 <= shr_m (shr_1 mrs)) as H1 by (rewrite E1; apply Z.div_pos; lia).
    rewrite !IH; [|done|rewrite IH by done; by apply Hpos]. rewrite E1.
    rewrite !Z.div_div by lia. f_equal. rewrite <- !Z.pow_add_r, <- Z.pow_succ_r by lia. f_equal. lia.
  - rewrite !IH; [|done|rewrite IH by done; by apply Hpos].
    rewrite Z.div_div by lia. f_equal. rewrite <- Z.pow_add_r by lia. f_equal. lia.
  - by apply shr_1_m.
Qed.

Lemma shr_fexp_range m e l :
  0 <= m →
  let '(mrs, e') := shr_fexp 53 1024 m e l in 0 <= shr_m mrs < 2 ^ 53 ∧ -1074 <= e'.
Proof.
  intros Hm. unfold shr_fexp, shr.
  assert (shr_m (shr_record_of_loc m l) = m) as El by (by destruct l as [|[]]).
  assert (0 <= Zdigits2 m ∧ m < 2 ^ Zdigits2 m) as [Hd0 Hd].
  { destruct m as [|p|p]; [done| |lia]. split; [done|apply digits2_bound]. }
  set (d := Zdigits2 m) in *. clearbody d.
  assert (fexp 53 1024 (d + e) = Z.max (d + e - 53) (-1074)) as -> by done.
  destruct (Z.max (d + e - 53) (-1074) - e) as [|p|p] eqn:E.
  - rewrite El. assert (2 ^ d <= 2 ^ 53) by (apply Z.pow_le_mono_r; lia). lia.
  - rewrite iter_shr_m, El by (by rewrite El).
    assert (2 ^ d <= 2 ^ (53 + Zpos p)) as Hp by (apply Z.pow_le_mono_r; lia).
    rewrite Z.pow_add_r in Hp by lia. split; [split|lia].
    + apply Z.div_pos; lia.
    + apply Z.div_lt_upper_bound; lia.
  - rewrite El. assert (2 ^ d <= 2 ^ 53) by (apply Z.pow_le_mono_r; lia). lia.
Qed.

Lemma round_aux_format s m e l : 0 <= m → in_format (binary_round_aux 53 1024 s m e l).
Proof.
  intros Hm. unfold binary_round_aux.
  pose proof (shr_fexp_range m e l Hm) as H1. destruct (shr_fexp 53 1024 m e l) as [mrs e'].
  destruct H1 as [Hr1 He1].
  assert (0 <= round_nearest_even (shr_m mrs) (loc_of_shr_record mrs)) as Hn.
  { unfold round_nearest_even. repeat case_match; lia. }
  pose proof (shr_fexp_range _ e' loc_Exact Hn) as H2.
  destruct (shr_fexp 53 1024 _ e' loc_Exact) as [mrs2 e2]. destruct H2 as [Hr2 He2].
  destruct (shr_m mrs2) as [|p|p]; [done| |done]. cbn [in_format].
  destruct (Z.leb_spec e2 (1024 - 53)); [cbn; lia|done].
Qed.

Lemma normalize_format m e b : in_format (binary_normalize 53 1024 m e b).
Proof.
  unfold binary_normalize, binary_round. destruct m as [|p|p]; [done|..].
  all: destruct (shl_align _ _ _) as [mz ez]; by apply round_aux_format.
Qed.

Lemma d_add_range a b : is_u64 (d_add a b).
Proof.
  apply d_bits_range. pose proof (d_value_format a) as Ha. pose proof (d_value_format b) as Hb.
  unfold SFadd. destruct (d_value a) as [s1|s1| |s1 m1 e1], (d_value b) as [s2|s2| |s2 m2 e2];
    try done; [by destruct s1, s2..|]. apply normalize_format.
Qed.

Lemma d_of_Z_range z : is_u64 (d_bits (d_of_Z z)).
Proof. apply d_bits_range, normalize_format. Qed.
