(* ===== verification/Types.v ===== *)
(** * Foundation types ([types.hpp], [result.hpp], the enumeration of [memory.hpp])

    Strong identifiers are 64-bit values of distinct C++ types; in the model
    they are the [Z] they wrap, with [0] the nil identifier.  A C++ scoped
    enumeration with underlying type [int] can hold any integer (the decoders
    build one with [static_cast] from a byte): each enumeration has a [_raw]
    constructor for the values that name no enumerator. *)

From S2P Require Import Prelude Float.

#[global] Open Scope string_scope.
#[global] Open Scope list_scope.
#[global] Open Scope Z_scope.

(** ** Strong identifiers *)

Abbreviation RequestId := Z (only parsing).
Abbreviation AttemptId := Z (only parsing).
Abbreviation TenantId := Z (only parsing).
Abbreviation WorkerId := Z (only parsing).
Abbreviation WorkerBootId := Z (only parsing).
Abbreviation Epoch := Z (only parsing).
Abbreviation AdapterId := Z (only parsing).
Abbreviation DeviceId := Z (only parsing).
Abbreviation GroupId := Z (only parsing).
Abbreviation Generation := Z (only parsing).
Abbreviation ReservationId := Z (only parsing).
Abbreviation Nanoseconds := Z (only parsing).

Definition is_nil (id : Z) : bool := id =? 0.

(** [std::to_string] of an integer. *)
Definition std_to_string (z : Z) : string := pretty z.

(** ** Enumerations and their integer values *)

Class CEnum (X : Type) := {
  enumerators : list X;
  to_int : X → Z;
  raw : Z → X;
  to_int_raw : ∀ z, to_int (raw z) = z;
  enumerators_NoDup : NoDup (to_int <$> enumerators)
}.

(** [static_cast<X>(z)]. *)
Definition of_int {X} `{CEnum X} (z : Z) : X :=
  match list_find (λ x, to_int x = z) enumerators with
  | Some (_, x) => x
  | None => raw z
  end.

Definition declared {X} `{CEnum X} (x : X) : Prop := x ∈ enumerators.

Section enum.
Context {X : Type} `{CEnum X}.

Lemma to_of_int z : to_int (of_int z : X) = z.
Proof.
  unfold of_int. destruct (list_find _ _) as [[i x]|] eqn:E.
  - by apply list_find_Some in E as (_ & ? & _).
  - apply to_int_raw.
Qed.

Lemma of_to_int (x : X) : declared x → of_int (to_int x) = x.
Proof.
  intros Hx. unfold of_int.
  destruct (list_find _ _) as [[i y]|] eqn:E.
  - apply list_find_Some in E as (Hi & Hy & _).
    apply list_elem_of_lookup in Hx as [j Hj].
    pose proof enumerators_NoDup as Hnd. rewrite NoDup_alt in Hnd.
    assert (i = j) as ->.
    { apply (Hnd i j (to_int x)); rewrite list_lookup_fmap, ?Hi, ?Hj; simpl; congruence. }
    congruence.
  - apply list_find_None in E. rewrite Forall_forall in E. by destruct (E x Hx).
Qed.
End enum.

(** Structured error codes of [result.hpp]. *)
Inductive ErrorCode :=
| ErrorCode_ok | ErrorCode_invalid_argument | ErrorCode_out_of_range | ErrorCode_not_found
| ErrorCode_already_exists | ErrorCode_illegal_state | ErrorCode_precondition_failed
| ErrorCode_capacity_exceeded | ErrorCode_not_implemented | ErrorCode_unsupported
| ErrorCode_overflow | ErrorCode_rejected | ErrorCode_admission_rejected_terminal
| ErrorCode_deadline_expired | ErrorCode_deadline_impossible | ErrorCode_memory_unavailable
| ErrorCode_no_compatible_worker | ErrorCode_no_capacity | ErrorCode_backpressure
| ErrorCode_queued_delay_exceeded | ErrorCode_unknown_request | ErrorCode_unknown_attempt
| ErrorCode_unknown_tenant | ErrorCode_unknown_model | ErrorCode_duplicate_request
| ErrorCode_invalid_reusable_prefix | ErrorCode_stale_epoch | ErrorCode_stale_worker
| ErrorCode_stale_attempt | ErrorCode_stale_generation | ErrorCode_duplicate_completion
| ErrorCode_terminal_cancelled | ErrorCode_superseded_retry | ErrorCode_retryable_failure
| ErrorCode_non_retryable_failure | ErrorCode_member_failed | ErrorCode_executor_failure
| ErrorCode_kernel_failure | ErrorCode_device_failure | ErrorCode_cuda_unavailable
| ErrorCode_cuda_error | ErrorCode_corrupt_state | ErrorCode_checksum_mismatch
| ErrorCode_truncation | ErrorCode_unknown_version | ErrorCode_malformed_frame
| ErrorCode_oversized_frame | ErrorCode_protocol_violation | ErrorCode_io_failure
| ErrorCode_service_unavailable | ErrorCode_already_dispatching | ErrorCode_max_code | ErrorCode_raw (v : Z).

#[global] Instance ErrorCode_eq_dec : EqDecision ErrorCode.
Proof. solve_decision. Defined.

Definition ErrorCode_to_int (e : ErrorCode) : Z :=
  match e with
  | ErrorCode_ok => 0
  | ErrorCode_invalid_argument => 100
  | ErrorCode_out_of_range => 101
  | ErrorCode_not_found => 102
  | ErrorCode_already_exists => 103
  | ErrorCode_illegal_state => 104
  | ErrorCode_precondition_failed => 105
  | ErrorCode_capacity_exceeded => 106
  | ErrorCode_not_implemented => 107
  | ErrorCode_unsupported => 108
  | ErrorCode_overflow => 109
  | ErrorCode_rejected => 200
  | ErrorCode_admission_rejected_terminal => 201
  | ErrorCode_deadline_expired => 202
  | ErrorCode_deadline_impossible => 203
  | ErrorCode_memory_unavailable => 204
  | ErrorCode_no_compatible_worker => 205
  | ErrorCode_no_capacity => 206
  | ErrorCode_backpressure => 207
  | ErrorCode_queued_delay_exceeded => 208
  | ErrorCode_unknown_request => 300
  | ErrorCode_unknown_attempt => 301
  | ErrorCode_unknown_tenant => 302
  | ErrorCode_unknown_model => 303
  | ErrorCode_duplicate_request => 304
  | ErrorCode_invalid_reusable_prefix => 305
  | ErrorCode_stale_epoch => 306
  | ErrorCode_stale_worker => 307
  | ErrorCode_stale_attempt => 308
  | ErrorCode_stale_generation => 309
  | ErrorCode_duplicate_completion => 310
  | ErrorCode_terminal_cancelled => 311
  | ErrorCode_superseded_retry => 312
  | ErrorCode_retryable_failure => 400
  | ErrorCode_non_retryable_failure => 401
  | ErrorCode_member_failed => 402
  | ErrorCode_executor_failure => 403
  | ErrorCode_kernel_failure => 404
  | ErrorCode_device_failure => 405
  | ErrorCode_cuda_unavailable => 406
  | ErrorCode_cuda_error => 407
  | ErrorCode_corrupt_state => 500
  | ErrorCode_checksum_mismatch => 501
  | ErrorCode_truncation => 502
  | ErrorCode_unknown_version => 503
  | ErrorCode_malformed_frame => 504
  | ErrorCode_oversized_frame => 505
  | ErrorCode_protocol_violation => 506
  | ErrorCode_io_failure => 507
  | ErrorCode_service_unavailable => 600
  | ErrorCode_already_dispatching => 601
  | ErrorCode_max_code => 700
  | ErrorCode_raw v => v
  end.

Definition ErrorCode_to_string (e : ErrorCode) : string :=
  match e with
  | ErrorCode_ok => "ok"
  | ErrorCode_invalid_argument => "invalid_argument"
  | ErrorCode_out_of_range => "out_of_range"
  | ErrorCode_not_found => "not_found"
  | ErrorCode_already_exists => "already_exists"
  | ErrorCode_illegal_state => "illegal_state"
  | ErrorCode_precondition_failed => "precondition_failed"
  | ErrorCode_capacity_exceeded => "capacity_exceeded"
  | ErrorCode_not_implemented => "not_implemented"
  | ErrorCode_unsupported => "unsupported"
  | ErrorCode_overflow => "overflow"
  | ErrorCode_rejected => "rejected"
  | ErrorCode_admission_rejected_terminal => "admission_rejected_terminal"
  | ErrorCode_deadline_expired => "deadline_expired"
  | ErrorCode_deadline_impossible => "deadline_impossible"
  | ErrorCode_memory_unavailable => "memory_unavailable"
  | ErrorCode_no_compatible_worker => "no_compatible_worker"
  | ErrorCode_no_capacity => "no_capacity"
  | ErrorCode_backpressure => "backpressure"
  | ErrorCode_queued_delay_exceeded => "queued_delay_exceeded"
  | ErrorCode_unknown_request => "unknown_request"
  | ErrorCode_unknown_attempt => "unknown_attempt"
  | ErrorCode_unknown_tenant => "unknown_tenant"
  | ErrorCode_unknown_model => "unknown_model"
  | ErrorCode_duplicate_request => "duplicate_request"
  | ErrorCode_invalid_reusable_prefix => "invalid_reusable_prefix"
  | ErrorCode_stale_epoch => "stale_epoch"
  | ErrorCode_stale_worker => "stale_worker"
  | ErrorCode_stale_attempt => "stale_attempt"
  | ErrorCode_stale_generation => "stale_generation"
  | ErrorCode_duplicate_completion => "duplicate_completion"
  | ErrorCode_terminal_cancelled => "terminal_cancelled"
  | ErrorCode_superseded_retry => "superseded_retry"
  | ErrorCode_retryable_failure => "retryable_failure"
  | ErrorCode_non_retryable_failure => "non_retryable_failure"
  | ErrorCode_member_failed => "member_failed"
  | ErrorCode_executor_failure => "executor_failure"
  | ErrorCode_kernel_failure => "kernel_failure"
  | ErrorCode_device_failure => "device_failure"
  | ErrorCode_cuda_unavailable => "cuda_unavailable"
  | ErrorCode_cuda_error => "cuda_error"
  | ErrorCode_corrupt_state => "corrupt_state"
  | ErrorCode_checksum_mismatch => "checksum_mismatch"
  | ErrorCode_truncation => "truncation"
  | ErrorCode_unknown_version => "unknown_version"
  | ErrorCode_malformed_frame => "malformed_frame"
  | ErrorCode_oversized_frame => "oversized_frame"
  | ErrorCode_protocol_violation => "protocol_violation"
  | ErrorCode_io_failure => "io_failure"
  | ErrorCode_service_unavailable => "service_unavailable"
  | ErrorCode_already_dispatching => "already_dispatching"
  | _ => "unknown_error"
  end.

#[global] Program Instance ErrorCode_enum : CEnum ErrorCode := {
  enumerators := [ErrorCode_ok; ErrorCode_invalid_argument; ErrorCode_out_of_range; ErrorCode_not_found;
    ErrorCode_already_exists; ErrorCode_illegal_state; ErrorCode_precondition_failed; ErrorCode_capacity_exceeded;
    ErrorCode_not_implemented; ErrorCode_unsupported; ErrorCode_overflow; ErrorCode_rejected;
    ErrorCode_admission_rejected_terminal; ErrorCode_deadline_expired; ErrorCode_deadline_impossible; ErrorCode_memory_unavailable;
    ErrorCode_no_compatible_worker; ErrorCode_no_capacity; ErrorCode_backpressure; ErrorCode_queued_delay_exceeded;
    ErrorCode_unknown_request; ErrorCode_unknown_attempt; ErrorCode_unknown_tenant; ErrorCode_unknown_model;
    ErrorCode_duplicate_request; ErrorCode_invalid_reusable_prefix; ErrorCode_stale_epoch; ErrorCode_stale_worker;
    ErrorCode_stale_attempt; ErrorCode_stale_generation; ErrorCode_duplicate_completion; ErrorCode_terminal_cancelled;
    ErrorCode_superseded_retry; ErrorCode_retryable_failure; ErrorCode_non_retryable_failure; ErrorCode_member_failed;
    ErrorCode_executor_failure; ErrorCode_kernel_failure; ErrorCode_device_failure; ErrorCode_cuda_unavailable;
    ErrorCode_cuda_error; ErrorCode_corrupt_state; ErrorCode_checksum_mismatch; ErrorCode_truncation;
    ErrorCode_unknown_version; ErrorCode_malformed_frame; ErrorCode_oversized_frame; ErrorCode_protocol_violation;
    ErrorCode_io_failure; ErrorCode_service_unavailable; ErrorCode_already_dispatching; ErrorCode_max_code];
  to_int := ErrorCode_to_int;
  raw := ErrorCode_raw
}.
Next Obligation. done. Qed.
Next Obligation. apply (bool_decide_unpack _). vm_compute. exact I. Qed.

(** Numeric precision that takes part in packing compatibility. *)
Inductive NumericMode :=
| NumericMode_fp32 | NumericMode_fp16 | NumericMode_bf16 | NumericMode_fp8 | NumericMode_int8
| NumericMode_mixed | NumericMode_raw (v : Z).

#[global] Instance NumericMode_eq_dec : EqDecision NumericMode.
Proof. solve_decision. Defined.

Definition NumericMode_to_int (e : NumericMode) : Z :=
  match e with
  | NumericMode_fp32 => 0
  | NumericMode_fp16 => 1
  | NumericMode_bf16 => 2
  | NumericMode_fp8 => 3
  | NumericMode_int8 => 4
  | NumericMode_mixed => 5
  | NumericMode_raw v => v
  end.

Definition NumericMode_to_string (e : NumericMode) : string :=
  match e with
  | NumericMode_fp32 => "fp32"
  | NumericMode_fp16 => "fp16"
  | NumericMode_bf16 => "bf16"
  | NumericMode_fp8 => "fp8"
  | NumericMode_int8 => "int8"
  | NumericMode_mixed => "mixed"
  | _ => "unknown"
  end.

#[global] Program Instance NumericMode_enum : CEnum NumericMode := {
  enumerators := [NumericMode_fp32; NumericMode_fp16; NumericMode_bf16; NumericMode_fp8;
    NumericMode_int8; NumericMode_mixed];
  to_int := NumericMode_to_int;
  raw := NumericMode_raw
}.
Next Obligation. done. Qed.
Next Obligation. apply (bool_decide_unpack _). vm_compute. exact I. Qed.

(** Requested latency class; a larger value is more urgent. *)
Inductive LatencyClass :=
| LatencyClass_best_effort | LatencyClass_standard | LatencyClass_latency_sensitive
| LatencyClass_interactive | LatencyClass_real_time | LatencyClass_raw (v : Z).

#[global] Instance LatencyClass_eq_dec : EqDecision LatencyClass.
Proof. solve_decision. Defined.

Definition LatencyClass_to_int (e : LatencyClass) : Z :=
  match e with
  | LatencyClass_best_effort => 0
  | LatencyClass_standard => 1
  | LatencyClass_latency_sensitive => 2
  | LatencyClass_interactive => 3
  | LatencyClass_real_time => 4
  | LatencyClass_raw v => v
  end.

Definition LatencyClass_to_string (e : LatencyClass) : string :=
  match e with
  | LatencyClass_best_effort => "best_effort"
  | LatencyClass_standard => "standard"
  | LatencyClass_latency_sensitive => "latency_sensitive"
  | LatencyClass_interactive => "interactive"
  | LatencyClass_real_time => "real_time"
  | _ => "unknown"
  end.

#[global] Program Instance LatencyClass_enum : CEnum LatencyClass := {
  enumerators := [LatencyClass_best_effort; LatencyClass_standard; LatencyClass_latency_sensitive; LatencyClass_interactive;
    LatencyClass_real_time];
  to_int := LatencyClass_to_int;
  raw := LatencyClass_raw
}.
Next Obligation. done. Qed.
Next Obligation. apply (bool_decide_unpack _). vm_compute. exact I. Qed.

(** Input layout family. *)
Inductive InputLayout :=
| InputLayout_seq_major | InputLayout_batch_major | InputLayout_packed | InputLayout_block | InputLayout_raw (v : Z).

#[global] Instance InputLayout_eq_dec : EqDecision InputLayout.
Proof. solve_decision. Defined.

Definition InputLayout_to_int (e : InputLayout) : Z :=
  match e with
  | InputLayout_seq_major => 0
  | InputLayout_batch_major => 1
  | InputLayout_packed => 2
  | InputLayout_block => 3
  | InputLayout_raw v => v
  end.

Definition InputLayout_to_string (e : InputLayout) : string :=
  match e with
  | InputLayout_seq_major => "seq_major"
  | InputLayout_batch_major => "batch_major"
  | InputLayout_packed => "packed"
  | InputLayout_block => "block"
  | _ => "unknown"
  end.

#[global] Program Instance InputLayout_enum : CEnum InputLayout := {
  enumerators := [InputLayout_seq_major; InputLayout_batch_major; InputLayout_packed; InputLayout_block];
  to_int := InputLayout_to_int;
  raw := InputLayout_raw
}.
Next Obligation. done. Qed.
Next Obligation. apply (bool_decide_unpack _). vm_compute. exact I. Qed.

(** Kind of prefill work a chunk or member carries. *)
Inductive WorkKind :=
| WorkKind_full_prompt | WorkKind_partial | WorkKind_chunked | WorkKind_continuation
| WorkKind_reused_suffix | WorkKind_retried | WorkKind_cancelled | WorkKind_deadline_expired
| WorkKind_split | WorkKind_merged | WorkKind_worker_recovered | WorkKind_stale_rejected | WorkKind_raw (v : Z).

#[global] Instance WorkKind_eq_dec : EqDecision WorkKind.
Proof. solve_decision. Defined.

Definition WorkKind_to_int (e : WorkKind) : Z :=
  match e with
  | WorkKind_full_prompt => 0
  | WorkKind_partial => 1
  | WorkKind_chunked => 2
  | WorkKind_continuation => 3
  | WorkKind_reused_suffix => 4
  | WorkKind_retried => 5
  | WorkKind_cancelled => 6
  | WorkKind_deadline_expired => 7
  | WorkKind_split => 8
  | WorkKind_merged => 9
  | WorkKind_worker_recovered => 10
  | WorkKind_stale_rejected => 11
  | WorkKind_raw v => v
  end.

Definition WorkKind_to_string (e : WorkKind) : string :=
  match e with
  | WorkKind_full_prompt => "full_prompt"
  | WorkKind_partial => "partial"
  | WorkKind_chunked => "chunked"
  | WorkKind_continuation => "continuation"
  | WorkKind_reused_suffix => "reused_suffix"
  | WorkKind_retried => "retried"
  | WorkKind_cancelled => "cancelled"
  | WorkKind_deadline_expired => "deadline_expired"
  | WorkKind_split => "split"
  | WorkKind_merged => "merged"
  | WorkKind_worker_recovered => "worker_recovered"
  | WorkKind_stale_rejected => "stale_rejected"
  | _ => "unknown"
  end.

#[global] Program Instance WorkKind_enum : CEnum WorkKind := {
  enumerators := [WorkKind_full_prompt; WorkKind_partial; WorkKind_chunked; WorkKind_continuation;
    WorkKind_reused_suffix; WorkKind_retried; WorkKind_cancelled; WorkKind_deadline_expired;
    WorkKind_split; WorkKind_merged; WorkKind_worker_recovered; WorkKind_stale_rejected];
  to_int := WorkKind_to_int;
  raw := WorkKind_raw
}.
Next Obligation. done. Qed.
Next Obligation. apply (bool_decide_unpack _). vm_compute. exact I. Qed.

(** Relation of an adapter to its base model. *)
Inductive AdapterRelation :=
| AdapterRelation_none | AdapterRelation_same_base | AdapterRelation_base_adapter
| AdapterRelation_distinct | AdapterRelation_raw (v : Z).

#[global] Instance AdapterRelation_eq_dec : EqDecision AdapterRelation.
Proof. solve_decision. Defined.

Definition AdapterRelation_to_int (e : AdapterRelation) : Z :=
  match e with
  | AdapterRelation_none => 0
  | AdapterRelation_same_base => 1
  | AdapterRelation_base_adapter => 2
  | AdapterRelation_distinct => 3
  | AdapterRelation_raw v => v
  end.

Definition AdapterRelation_to_string (e : AdapterRelation) : string :=
  match e with
  | AdapterRelation_none => "none"
  | AdapterRelation_same_base => "same_base"
  | AdapterRelation_base_adapter => "base_adapter"
  | AdapterRelation_distinct => "distinct"
  | _ => "unknown"
  end.

#[global] Program Instance AdapterRelation_enum : CEnum AdapterRelation := {
  enumerators := [AdapterRelation_none; AdapterRelation_same_base; AdapterRelation_base_adapter; AdapterRelation_distinct];
  to_int := AdapterRelation_to_int;
  raw := AdapterRelation_raw
}.
Next Obligation. done. Qed.
Next Obligation. apply (bool_decide_unpack _). vm_compute. exact I. Qed.

(** Lifecycle of a request. *)
Inductive Lifecycle :=
| Lifecycle_submitted | Lifecycle_admitted | Lifecycle_queued | Lifecycle_formed
| Lifecycle_reserved | Lifecycle_dispatched | Lifecycle_running | Lifecycle_awaiting_retry
| Lifecycle_completed | Lifecycle_failed_non_retryable | Lifecycle_cancelled
| Lifecycle_expired | Lifecycle_rejected | Lifecycle_raw (v : Z).

#[global] Instance Lifecycle_eq_dec : EqDecision Lifecycle.
Proof. solve_decision. Defined.

Definition Lifecycle_to_int (e : Lifecycle) : Z :=
  match e with
  | Lifecycle_submitted => 0
  | Lifecycle_admitted => 1
  | Lifecycle_queued => 2
  | Lifecycle_formed => 3
  | Lifecycle_reserved => 4
  | Lifecycle_dispatched => 5
  | Lifecycle_running => 6
  | Lifecycle_awaiting_retry => 7
  | Lifecycle_completed => 8
  | Lifecycle_failed_non_retryable => 9
  | Lifecycle_cancelled => 10
  | Lifecycle_expired => 11
  | Lifecycle_rejected => 12
  | Lifecycle_raw v => v
  end.

Definition Lifecycle_to_string (e : Lifecycle) : string :=
  match e with
  | Lifecycle_submitted => "submitted"
  | Lifecycle_admitted => "admitted"
  | Lifecycle_queued => "queued"
  | Lifecycle_formed => "formed"
  | Lifecycle_reserved => "reserved"
  | Lifecycle_dispatched => "dispatched"
  | Lifecycle_running => "running"
  | Lifecycle_awaiting_retry => "awaiting_retry"
  | Lifecycle_completed => "completed"
  | Lifecycle_failed_non_retryable => "failed_non_retryable"
  | Lifecycle_cancelled => "cancelled"
  | Lifecycle_expired => "expired"
  | Lifecycle_rejected => "rejected"
  | _ => "unknown"
  end.

#[global] Program Instance Lifecycle_enum : CEnum Lifecycle := {
  enumerators := [Lifecycle_submitted; Lifecycle_admitted; Lifecycle_queued; Lifecycle_formed;
    Lifecycle_reserved; Lifecycle_dispatched; Lifecycle_running; Lifecycle_awaiting_retry;
    Lifecycle_completed; Lifecycle_failed_non_retryable; Lifecycle_cancelled; Lifecycle_expired;
    Lifecycle_rejected];
  to_int := Lifecycle_to_int;
  raw := Lifecycle_raw
}.
Next Obligation. done. Qed.
Next Obligation. apply (bool_decide_unpack _). vm_compute. exact I. Qed.

(** Outcome of one member of an execution group. *)
Inductive MemberOutcome :=
| MemberOutcome_success | MemberOutcome_needs_next_chunk | MemberOutcome_retryable_failure
| MemberOutcome_non_retryable_failure | MemberOutcome_cancelled | MemberOutcome_expired
| MemberOutcome_stale_rejected | MemberOutcome_raw (v : Z).

#[global] Instance MemberOutcome_eq_dec : EqDecision MemberOutcome.
Proof. solve_decision. Defined.

Definition MemberOutcome_to_int (e : MemberOutcome) : Z :=
  match e with
  | MemberOutcome_success => 0
  | MemberOutcome_needs_next_chunk => 1
  | MemberOutcome_retryable_failure => 2
  | MemberOutcome_non_retryable_failure => 3
  | MemberOutcome_cancelled => 4
  | MemberOutcome_expired => 5
  | MemberOutcome_stale_rejected => 6
  | MemberOutcome_raw v => v
  end.

Definition MemberOutcome_to_string (e : MemberOutcome) : string :=
  match e with
  | MemberOutcome_success => "success"
  | MemberOutcome_needs_next_chunk => "needs_next_chunk"
  | MemberOutcome_retryable_failure => "retryable_failure"
  | MemberOutcome_non_retryable_failure => "non_retryable_failure"
  | MemberOutcome_cancelled => "cancelled"
  | MemberOutcome_expired => "expired"
  | MemberOutcome_stale_rejected => "stale_rejected"
  | _ => "unknown"
  end.

#[global] Program Instance MemberOutcome_enum : CEnum MemberOutcome := {
  enumerators := [MemberOutcome_success; MemberOutcome_needs_next_chunk; MemberOutcome_retryable_failure; MemberOutcome_non_retryable_failure;
    MemberOutcome_cancelled; MemberOutcome_expired; MemberOutcome_stale_rejected];
  to_int := MemberOutcome_to_int;
  raw := MemberOutcome_raw
}.
Next Obligation. done. Qed.
Next Obligation. apply (bool_decide_unpack _). vm_compute. exact I. Qed.

(** Health of a worker. *)
Inductive WorkerState :=
| WorkerState_unknown | WorkerState_registered | WorkerState_ready | WorkerState_busy
| WorkerState_lost | WorkerState_retired | WorkerState_raw (v : Z).

#[global] Instance WorkerState_eq_dec : EqDecision WorkerState.
Proof. solve_decision. Defined.

Definition WorkerState_to_int (e : WorkerState) : Z :=
  match e with
  | WorkerState_unknown => 0
  | WorkerState_registered => 1
  | WorkerState_ready => 2
  | WorkerState_busy => 3
  | WorkerState_lost => 4
  | WorkerState_retired => 5
  | WorkerState_raw v => v
  end.

Definition WorkerState_to_string (e : WorkerState) : string :=
  match e with
  | WorkerState_unknown => "unknown"
  | WorkerState_registered => "registered"
  | WorkerState_ready => "ready"
  | WorkerState_busy => "busy"
  | WorkerState_lost => "lost"
  | WorkerState_retired => "retired"
  | _ => "unknown"
  end.

#[global] Program Instance WorkerState_enum : CEnum WorkerState := {
  enumerators := [WorkerState_unknown; WorkerState_registered; WorkerState_ready; WorkerState_busy;
    WorkerState_lost; WorkerState_retired];
  to_int := WorkerState_to_int;
  raw := WorkerState_raw
}.
Next Obligation. done. Qed.
Next Obligation. apply (bool_decide_unpack _). vm_compute. exact I. Qed.

(** Stage of a memory reservation. *)
Inductive ReservationKind :=
| ReservationKind_queued | ReservationKind_planned | ReservationKind_reserved
| ReservationKind_dispatched | ReservationKind_running | ReservationKind_raw (v : Z).

#[global] Instance ReservationKind_eq_dec : EqDecision ReservationKind.
Proof. solve_decision. Defined.

Definition ReservationKind_to_int (e : ReservationKind) : Z :=
  match e with
  | ReservationKind_queued => 0
  | ReservationKind_planned => 1
  | ReservationKind_reserved => 2
  | ReservationKind_dispatched => 3
  | ReservationKind_running => 4
  | ReservationKind_raw v => v
  end.

Definition ReservationKind_to_string (e : ReservationKind) : string :=
  match e with
  | ReservationKind_queued => "queued"
  | ReservationKind_planned => "planned"
  | ReservationKind_reserved => "reserved"
  | ReservationKind_dispatched => "dispatched"
  | ReservationKind_running => "running"
  | _ => "unknown"
  end.

#[global] Program Instance ReservationKind_enum : CEnum ReservationKind := {
  enumerators := [ReservationKind_queued; ReservationKind_planned; ReservationKind_reserved; ReservationKind_dispatched;
    ReservationKind_running];
  to_int := ReservationKind_to_int;
  raw := ReservationKind_raw
}.
Next Obligation. done. Qed.
Next Obligation. apply (bool_decide_unpack _). vm_compute. exact I. Qed.

(** ** Results *)

Record ErrorInfo := mkErrorInfo { ei_code : ErrorCode; ei_message : string }.

Definition ErrorInfo_default : ErrorInfo := mkErrorInfo ErrorCode_ok "".

(** [Result<T>] holds a value and an [ErrorInfo] and counts as a value exactly
    when the code is [ok].  Every error the modelled code builds has a code
    other than [ok], so the two cases are a sum. *)
Inductive Result (A : Type) :=
| Ok (v : A)
| Err (e : ErrorInfo).
Arguments Ok {A} v.
Arguments Err {A} e.

Definition err {A} (c : ErrorCode) (m : string) : Result A := Err (mkErrorInfo c m).

Definition has_value {A} (r : Result A) : bool :=
  match r with Ok _ => true | Err _ => false end.

(** The code a caller sees: [ok] for a value. *)
Definition code_of {A} (r : Result A) : ErrorCode :=
  match r with Ok _ => ErrorCode_ok | Err e => ei_code e end.

(** Sequencing of fallible reads: stop at the first error. *)
Definition result_bind {A B} (r : Result A) (k : A → Result B) : Result B :=
  match r with Ok v => k v | Err e => Err e end.

(** ** Value types *)

Record ModelKey := mkModelKey { mk_name : string; mk_revision : string }.
Record VocabSpec := mkVocabSpec { vs_tokenizer : string; vs_vocab_size : Z }.

#[global] Instance ModelKey_eq_dec : EqDecision ModelKey.
Proof. solve_decision. Defined.
#[global] Instance VocabSpec_eq_dec : EqDecision VocabSpec.
Proof. solve_decision. Defined.

Definition ModelKey_default : ModelKey := mkModelKey "" "".
Definition VocabSpec_default : VocabSpec := mkVocabSpec "" 0.

Definition kBackendCpu : string := "cpu".
Definition kBackendCuda : string := "cuda".
Definition kBackendAny : string := "*".

(** [ModelKey::operator<]: by name, then by revision (byte order). *)
Fixpoint string_ltb (a b : string) : bool :=
  match a, b with
  | EmptyString, EmptyString => false
  | EmptyString, String _ _ => true
  | String _ _, EmptyString => false
  | String x a', String y b' =>
      let nx := Ascii.N_of_ascii x in
      let ny := Ascii.N_of_ascii y in
      if N.ltb nx ny then true else if N.ltb ny nx then false else string_ltb a' b'
  end.

Definition ModelKey_ltb (a b : ModelKey) : bool :=
  if bool_decide (mk_name a = mk_name b)
  then string_ltb (mk_revision a) (mk_revision b)
  else string_ltb (mk_name a) (mk_name b).

(** ** Lifecycles that are final

    [is_terminal_lifecycle] of [scheduler.cpp]. *)
Definition is_terminal_lifecycle (l : Lifecycle) : bool :=
  match l with
  | Lifecycle_completed | Lifecycle_cancelled | Lifecycle_expired
  | Lifecycle_failed_non_retryable | Lifecycle_rejected => true
  | _ => false
  end.
