(* ===== verification/Text.v ===== *)
(** * Decimal numbers as text

    What [std::to_string] prints of a number that is not negative: decimal
    digits only, at least one of them; and the induction over the digits that
    readers of such text are shown correct with. *)

From Stdlib Require Import Ascii.
From S2P Require Import Prelude Float Types.

Definition is_digit (c : ascii) : bool :=
  let d := Z.of_N (N_of_ascii c) - 48 in (0 <=? d) && (d <=? 9).

Definition starts_digit (s : string) : bool :=
  match s with String c _ => is_digit c | EmptyString => false end.

Fixpoint all_digits (s : string) : bool :=
  match s with String c s => is_digit c && all_digits s | EmptyString => true end.

Lemma pretty_char_digit x : (x < 10)%N →
  Z.of_N (N_of_ascii (pretty_N_char x)) - 48 = Z.of_N x ∧ is_digit (pretty_N_char x) = true.
Proof.
  intros Hx. assert (x ∈ [0; 1; 2; 3; 4; 5; 6; 7; 8; 9]%N) as H.
  { repeat (rewrite elem_of_cons). lia. }
  revert H. repeat (rewrite elem_of_cons). rewrite elem_of_nil.
  intros H. repeat (destruct H as [->|H]; [done|]). done.
Qed.

(** What holds of the text being extended holds of the number before it. *)
Lemma pretty_go_ind (P : N → string → Prop) :
  (∀ s, P 0%N s) →
  (∀ x s, (0 < x)%N → P (x / 10)%N (String (pretty_N_char (x mod 10)) s) → P x s) →
  ∀ x s, P x s.
Proof.
  intros H0 HS x. induction (N.lt_wf_0 x) as [x _ IH]. intros s.
  destruct (decide (x = 0)%N) as [->|Hx]; [done|]. apply HS; [lia|]. apply IH.
  apply N.div_lt; lia.
Qed.

Lemma starts_pretty x s : starts_digit s = true ∨ (0 < x)%N → starts_digit (pretty_N_go x s) = true.
Proof.
  revert x s.
  apply (pretty_go_ind (λ x s, starts_digit s = true ∨ (0 < x)%N → starts_digit (pretty_N_go x s) = true));
    [by intros s [Hs|Hs]|]. intros x s Hx IH _.
  rewrite pretty_N_go_step by done. apply IH. left. apply pretty_char_digit. by apply N.mod_lt.
Qed.

Lemma all_digits_pretty x s : all_digits s = true → all_digits (pretty_N_go x s) = true.
Proof.
  revert x s. apply (pretty_go_ind (λ x s, all_digits s = true → all_digits (pretty_N_go x s) = true));
    [done|]. intros x s Hx IH Hs.
  rewrite pretty_N_go_step by done. apply IH. cbn [all_digits].
  by rewrite (proj2 (pretty_char_digit (x mod 10) (N.mod_lt x 10 ltac:(done)))).
Qed.

Lemma to_string_pretty z : 0 < z → std_to_string z = pretty_N_go (Z.to_N z) "".
Proof.
  intros Hz. by destruct z as [|p|p].
Qed.

Lemma all_digits_to_string z : 0 <= z → all_digits (std_to_string z) = true.
Proof.
  intros Hz. destruct (decide (z = 0)) as [->|]; [done|].
  rewrite to_string_pretty by lia. by apply all_digits_pretty.
Qed.

