(* ===== verification/Request.v ===== *)
(** * Requests, chunks, plans and policy ([request.hpp], [policy.hpp])

    The submission a caller makes, the checks admission performs on it, the
    chunk and plan records the planner builds, and the scheduler configuration
    with its memory budget. *)

From S2P Require Import Prelude Float Types.

(** ** Records of [request.hpp] *)

Record ReusablePrefixMetadata := mkReusablePrefixMetadata {
  rp_token_count : Z;
  rp_fingerprint : string;
  rp_validated : bool
}.

Record InputShape := mkInputShape {
  is_seq_len : Z; is_hidden_dim : Z; is_num_heads : Z; is_head_dim : Z
}.

Record PrefillRequest := mkPrefillRequest {
  rq_request_id : RequestId;
  rq_tenant_id : TenantId;
  rq_model : ModelKey;
  rq_adapter_id : AdapterId;
  rq_adapter_relation : AdapterRelation;
  rq_vocab : VocabSpec;
  rq_prompt_token_count : Z;
  rq_reusable_prefix : ReusablePrefixMetadata;
  rq_input_shape : InputShape;
  rq_input_layout : InputLayout;
  rq_numeric_mode : NumericMode;
  rq_backend : string;
  rq_device : DeviceId;
  rq_device_match : string;
  rq_latency_class : LatencyClass;
  rq_deadline : option Nanoseconds;
  rq_priority : Z;
  rq_tenant_weight : double;
  rq_arrival_time : Nanoseconds;
  rq_max_queue_delay : option Nanoseconds;
  rq_memory_estimate_bytes : Z;
  rq_compute_estimate : Z;
  rq_max_retries : Z;
  rq_requester : string
}.

#[global] Instance eta_PrefillRequest : Eta PrefillRequest := λ x,
  mkPrefillRequest (rq_request_id x) (rq_tenant_id x) (rq_model x) (rq_adapter_id x)
    (rq_adapter_relation x) (rq_vocab x) (rq_prompt_token_count x)
    (rq_reusable_prefix x) (rq_input_shape x) (rq_input_layout x)
    (rq_numeric_mode x) (rq_backend x) (rq_device x) (rq_device_match x)
    (rq_latency_class x) (rq_deadline x) (rq_priority x) (rq_tenant_weight x)
    (rq_arrival_time x) (rq_max_queue_delay x) (rq_memory_estimate_bytes x)
    (rq_compute_estimate x) (rq_max_retries x) (rq_requester x).
#[global] Instance set_rq_request_id : Setter rq_request_id := ltac:(mk_setter).
#[global] Instance set_rq_tenant_id : Setter rq_tenant_id := ltac:(mk_setter).
#[global] Instance set_rq_model : Setter rq_model := ltac:(mk_setter).
#[global] Instance set_rq_adapter_id : Setter rq_adapter_id := ltac:(mk_setter).
#[global] Instance set_rq_adapter_relation : Setter rq_adapter_relation := ltac:(mk_setter).
#[global] Instance set_rq_vocab : Setter rq_vocab := ltac:(mk_setter).
#[global] Instance set_rq_prompt_token_count : Setter rq_prompt_token_count := ltac:(mk_setter).
#[global] Instance set_rq_reusable_prefix : Setter rq_reusable_prefix := ltac:(mk_setter).
#[global] Instance set_rq_input_shape : Setter rq_input_shape := ltac:(mk_setter).
#[global] Instance set_rq_input_layout : Setter rq_input_layout := ltac:(mk_setter).
#[global] Instance set_rq_numeric_mode : Setter rq_numeric_mode := ltac:(mk_setter).
#[global] Instance set_rq_backend : Setter rq_backend := ltac:(mk_setter).
#[global] Instance set_rq_device : Setter rq_device := ltac:(mk_setter).
#[global] Instance set_rq_device_match : Setter rq_device_match := ltac:(mk_setter).
#[global] Instance set_rq_latency_class : Setter rq_latency_class := ltac:(mk_setter).
#[global] Instance set_rq_deadline : Setter rq_deadline := ltac:(mk_setter).
#[global] Instance set_rq_priority : Setter rq_priority := ltac:(mk_setter).
#[global] Instance set_rq_tenant_weight : Setter rq_tenant_weight := ltac:(mk_setter).
#[global] Instance set_rq_arrival_time : Setter rq_arrival_time := ltac:(mk_setter).
#[global] Instance set_rq_max_queue_delay : Setter rq_max_queue_delay := ltac:(mk_setter).
#[global] Instance set_rq_memory_estimate_bytes : Setter rq_memory_estimate_bytes := ltac:(mk_setter).
#[global] Instance set_rq_compute_estimate : Setter rq_compute_estimate := ltac:(mk_setter).
#[global] Instance set_rq_max_retries : Setter rq_max_retries := ltac:(mk_setter).
#[global] Instance set_rq_requester : Setter rq_requester := ltac:(mk_setter).

(** The default member initializers: [PrefillRequest r;]. *)
Definition PrefillRequest_default : PrefillRequest := {|
  rq_request_id := 0; rq_tenant_id := 0; rq_model := ModelKey_default;
  rq_adapter_id := 0; rq_adapter_relation := AdapterRelation_none;
  rq_vocab := VocabSpec_default; rq_prompt_token_count := 0;
  rq_reusable_prefix := mkReusablePrefixMetadata 0 "" false;
  rq_input_shape := mkInputShape 0 0 0 0;
  rq_input_layout := InputLayout_seq_major; rq_numeric_mode := NumericMode_fp32;
  rq_backend := kBackendAny; rq_device := 0; rq_device_match := "";
  rq_latency_class := LatencyClass_standard; rq_deadline := None; rq_priority := 0;
  rq_tenant_weight := d_one; rq_arrival_time := 0; rq_max_queue_delay := None;
  rq_memory_estimate_bytes := 0; rq_compute_estimate := 0; rq_max_retries := 2;
  rq_requester := "" |}.

Definition remaining_prefill_tokens (r : PrefillRequest) : Z :=
  if rq_prompt_token_count r <=? rp_token_count (rq_reusable_prefix r) then 0
  else rq_prompt_token_count r -u rp_token_count (rq_reusable_prefix r).

Definition has_valid_reusable_prefix (r : PrefillRequest) : bool :=
  rp_validated (rq_reusable_prefix r) && (0 <? rp_token_count (rq_reusable_prefix r)).

(** [PrefillRequest::operator==] looks at identity, model, lengths and numeric
    mode, not at scheduling fields or estimates. *)
Definition PrefillRequest_eqb (a b : PrefillRequest) : bool :=
  if negb (rq_request_id a =? rq_request_id b) || negb (rq_tenant_id a =? rq_tenant_id b) ||
     negb (bool_decide (rq_model a = rq_model b)) then false
  else if negb (rq_prompt_token_count a =? rq_prompt_token_count b) then false
  else if negb (rp_token_count (rq_reusable_prefix a) =? rp_token_count (rq_reusable_prefix b)) then false
  else if negb (bool_decide (rq_numeric_mode a = rq_numeric_mode b)) then false
  else true.

Definition same_request (a b : PrefillRequest) : Prop := PrefillRequest_eqb a b = true.

(** [PrefillRequest::validate]: the first problem found, or [ok]. *)
Definition validate (r : PrefillRequest) : ErrorInfo :=
  let bad c m := mkErrorInfo c m in
  if is_nil (rq_request_id r) then bad ErrorCode_invalid_argument "request_id is nil"
  else if is_nil (rq_tenant_id r) then bad ErrorCode_invalid_argument "tenant_id is nil"
  else if rq_prompt_token_count r =? 0 then
    bad ErrorCode_invalid_argument "prompt_token_count must be > 0"
  else if rq_prompt_token_count r <? rp_token_count (rq_reusable_prefix r) then
    bad ErrorCode_invalid_reusable_prefix "reusable prefix exceeds prompt length"
  else if rp_validated (rq_reusable_prefix r) && (rp_token_count (rq_reusable_prefix r) =? 0) then
    bad ErrorCode_invalid_reusable_prefix "validated reusable prefix has zero tokens"
  else if d_leb (rq_tenant_weight r) d_zero then
    bad ErrorCode_invalid_argument "tenant_weight must be > 0"
  else if rq_max_retries r <? 0 then
    bad ErrorCode_invalid_argument "max_retries must be >= 0"
  else if match rq_deadline r with Some d => d <? rq_arrival_time r | None => false end then
    bad ErrorCode_deadline_impossible "deadline before arrival"
  else if match rq_max_queue_delay r with Some q => q <? 0 | None => false end then
    bad ErrorCode_invalid_argument "max_queue_delay must be >= 0"
  else bad ErrorCode_ok "".

Record PrefillChunk := mkPrefillChunk {
  ck_request_id : RequestId;
  ck_attempt_id : AttemptId;
  ck_group_id : GroupId;
  ck_token_start : Z;
  ck_token_count : Z;
  ck_chunk_index : Z;
  ck_generation : Generation;
  ck_parent_generation : Generation;
  ck_work_kind : WorkKind;
  ck_memory_estimate_bytes : Z;
  ck_compute_estimate : Z;
  ck_deadline : option Nanoseconds
}.

(** [PrefillChunk::validate] against the request it belongs to. *)
Definition chunk_validate (c : PrefillChunk) (req : PrefillRequest) : ErrorInfo :=
  if negb (ck_request_id c =? rq_request_id req) then
    mkErrorInfo ErrorCode_invalid_argument "chunk request_id mismatch"
  else if ck_token_count c =? 0 then
    mkErrorInfo ErrorCode_invalid_argument "chunk token_count must be > 0"
  else if remaining_prefill_tokens req <? ck_token_start c +u ck_token_count c then
    mkErrorInfo ErrorCode_out_of_range "chunk exceeds remaining prefill extent"
  else mkErrorInfo ErrorCode_ok "".

Record PrefillPlan := mkPrefillPlan {
  pl_request : PrefillRequest;
  pl_chunks : list PrefillChunk;
  pl_total_chunk_tokens : Z;
  pl_total_chunk_count : Z
}.

Definition covered_tokens (p : PrefillPlan) : Z := remaining_prefill_tokens (pl_request p).

(** ** Scheduler configuration ([policy.hpp]) *)

Record SchedulerConfig := mkSchedulerConfig {
  cfg_max_tokens_per_chunk : Z;
  cfg_max_work_per_chunk : Z;
  cfg_max_memory_per_chunk : Z;
  cfg_max_prefill_budget_per_cycle : Z;
  cfg_preemption_enabled : bool;
  cfg_max_requests_per_group : Z;
  cfg_max_tokens_per_group : Z;
  cfg_max_compute_per_group : Z;
  cfg_max_memory_per_group : Z;
  cfg_max_pack_wait_ns : Nanoseconds;
  cfg_min_preferred_occupancy : Z;
  cfg_gather_for_occupancy : bool;
  cfg_device_memory_bytes : Z;
  cfg_memory_headroom_bytes : Z;
  cfg_memory_headroom_fraction : double;
  cfg_enforce_memory_headroom : bool;
  cfg_max_admitted_requests : Z;
  cfg_per_tenant_outstanding_limit : Z;
  cfg_per_tenant_admitted_token_limit : Z;
  cfg_max_queued_requests : Z;
  cfg_reject_on_memory_pressure : bool;
  cfg_aging_rate : double;
  cfg_service_by_tokens : bool;
  cfg_fairness_quantum : double;
  cfg_deadline_slack_ns : Nanoseconds;
  cfg_drop_expired : bool;
  cfg_default_max_retries : Z;
  cfg_deterministic_tie_break : bool;
  cfg_track_service_accounting : bool
}.

Definition SchedulerConfig_default : SchedulerConfig := {|
  cfg_max_tokens_per_chunk := 4096;
  cfg_max_work_per_chunk := Z.shiftl 1 40;
  cfg_max_memory_per_chunk := Z.shiftl 512 20;
  cfg_max_prefill_budget_per_cycle := Z.shiftl 1 40;
  cfg_preemption_enabled := true;
  cfg_max_requests_per_group := 16;
  cfg_max_tokens_per_group := 8192;
  cfg_max_compute_per_group := Z.shiftl 1 42;
  cfg_max_memory_per_group := Z.shiftl 1 30;
  cfg_max_pack_wait_ns := 4000000;
  cfg_min_preferred_occupancy := 1;
  cfg_gather_for_occupancy := true;
  cfg_device_memory_bytes := Z.shiftl 8 30;
  cfg_memory_headroom_bytes := Z.shiftl 256 20;
  cfg_memory_headroom_fraction := 0x3FA999999999999A;
  cfg_enforce_memory_headroom := true;
  cfg_max_admitted_requests := 100000;
  cfg_per_tenant_outstanding_limit := 10000;
  cfg_per_tenant_admitted_token_limit := Z.shiftl 1 34;
  cfg_max_queued_requests := 100000;
  cfg_reject_on_memory_pressure := true;
  cfg_aging_rate := 0x3F50624DD2F1A9FC;
  cfg_service_by_tokens := true;
  cfg_fairness_quantum := d_one;
  cfg_deadline_slack_ns := 1000000;
  cfg_drop_expired := true;
  cfg_default_max_retries := 2;
  cfg_deterministic_tie_break := true;
  cfg_track_service_accounting := true |}.

Section policy.
Context `{FE : FloatEnv}.

Definition usable_memory_bytes (c : SchedulerConfig) : Z :=
  let headroom := cfg_memory_headroom_bytes c in
  let frac := f_to_u64 (SFmul 53 1024 (d_of_Z (cfg_device_memory_bytes c))
                              (d_value (cfg_memory_headroom_fraction c))) in
  let headroom := if headroom <? frac then frac else headroom in
  if headroom <? cfg_device_memory_bytes c
  then cfg_device_memory_bytes c -u headroom else 0.
End policy.

(** ** Well-formed values

    The ranges the C++ types impose on the fields the scheduler computes
    with. *)

Definition request_wf (r : PrefillRequest) : Prop :=
  is_u64 (rq_request_id r) ∧ is_u64 (rq_tenant_id r) ∧
  is_u64 (rq_prompt_token_count r) ∧ is_u64 (rp_token_count (rq_reusable_prefix r)) ∧
  is_u64 (rq_memory_estimate_bytes r) ∧ is_u64 (rq_compute_estimate r) ∧
  is_i32 (rq_max_retries r).

Definition config_wf (c : SchedulerConfig) : Prop :=
  is_u64 (cfg_max_tokens_per_chunk c) ∧ is_u64 (cfg_max_work_per_chunk c) ∧
  is_u64 (cfg_max_memory_per_chunk c) ∧ is_u32 (cfg_max_requests_per_group c) ∧
  is_u64 (cfg_max_tokens_per_group c) ∧ is_u64 (cfg_max_compute_per_group c) ∧
  is_u64 (cfg_max_memory_per_group c) ∧ is_u64 (cfg_device_memory_bytes c) ∧
  is_u64 (cfg_memory_headroom_bytes c) ∧ is_u64 (cfg_max_admitted_requests c) ∧
  is_u64 (cfg_per_tenant_outstanding_limit c) ∧
  is_u64 (cfg_per_tenant_admitted_token_limit c).

#[global] Instance request_wf_dec r : Decision (request_wf r).
Proof. unfold request_wf; apply _. Defined.
#[global] Instance config_wf_dec c : Decision (config_wf c).
Proof. unfold config_wf; apply _. Defined.

(** ** Lemmas *)

Lemma remaining_le_prompt r : request_wf r →
  0 <= remaining_prefill_tokens r <= rq_prompt_token_count r ∧
  is_u64 (remaining_prefill_tokens r).
Proof.
  intros (_ & _ & Hp & Hc & _). unfold remaining_prefill_tokens, is_u64 in *.
  case_if; [lia|]. rewrite u64_small by (unfold is_u64; lia). lia.
Qed.

Lemma remaining_exact r : request_wf r →
  rp_token_count (rq_reusable_prefix r) <= rq_prompt_token_count r →
  remaining_prefill_tokens r
  = rq_prompt_token_count r - rp_token_count (rq_reusable_prefix r).
Proof.
  intros (_ & _ & Hp & Hc & _) Hle. unfold remaining_prefill_tokens, is_u64 in *.
  case_if; [lia|]. rewrite u64_small by (unfold is_u64; lia). lia.
Qed.

Lemma same_request_iff a b :
  same_request a b ↔
  rq_request_id a = rq_request_id b ∧ rq_tenant_id a = rq_tenant_id b ∧ rq_model a = rq_model b ∧
  rq_prompt_token_count a = rq_prompt_token_count b ∧
  rp_token_count (rq_reusable_prefix a) = rp_token_count (rq_reusable_prefix b) ∧
  rq_numeric_mode a = rq_numeric_mode b.
Proof.
  unfold same_request, PrefillRequest_eqb. repeat case_bool_decide; repeat case_if; bools; split;
    try done; try lia; intros; destruct_and?; try done; try congruence; try lia; tauto.
Qed.

#[global] Instance same_request_equivalence : Equivalence same_request.
Proof.
  split.
  - intros a. by apply same_request_iff.
  - intros a b (? & ? & ? & ? & ? & ?)%same_request_iff. by apply same_request_iff.
  - intros a b c (? & ? & ? & ? & ? & ?)%same_request_iff (? & ? & ? & ? & ? & ?)%same_request_iff.
    apply same_request_iff. split_and!; congruence.
Qed.

(** Equal requests have the same work left. *)
#[global] Instance remaining_proper : Proper (same_request ==> eq) remaining_prefill_tokens.
Proof.
  intros a b (_ & _ & _ & Hp & Hc & _)%same_request_iff. unfold remaining_prefill_tokens. by rewrite Hp, Hc.
Qed.

(** [validate] accepts exactly the well-formed submissions. *)
Theorem validate_ok_iff r :
  ei_code (validate r) = ErrorCode_ok ↔
  (rq_request_id r ≠ 0 ∧ rq_tenant_id r ≠ 0 ∧ rq_prompt_token_count r ≠ 0 ∧
   rp_token_count (rq_reusable_prefix r) <= rq_prompt_token_count r ∧
   (rp_validated (rq_reusable_prefix r) = true → rp_token_count (rq_reusable_prefix r) ≠ 0) ∧
   d_leb (rq_tenant_weight r) d_zero = false ∧
   0 <= rq_max_retries r ∧
   (∀ d, rq_deadline r = Some d → rq_arrival_time r <= d) ∧
   (∀ q, rq_max_queue_delay r = Some q → 0 <= q)).
Proof.
  unfold validate, is_nil. cbv zeta.
  destruct (rq_deadline r) as [d|], (rq_max_queue_delay r) as [q|];
    repeat case_if; simpl; split; intros Hok; try done;
    repeat match goal with H : _ ∧ _ |- _ => destruct H end;
    repeat match goal with
    | H : ∀ d, Some ?x = Some d → _ |- _ => specialize (H x eq_refl)
    | H : _ ∨ _ |- _ => destruct H; bools
    end; try lia; try congruence; try tauto.
  all: repeat split; try lia; try congruence; intros; simplify_eq; try lia; try done.
Qed.
