(* ===== verification/Chunking.v ===== *)
(** * Chunk planning ([chunking.hpp], [chunking.cpp])

    [ChunkPlanner] decomposes the remaining prefill of a request into an
    ordered list of chunks.  The planner's loop is translated as it stands and
    shown to produce the closed form [chunk_at 0, chunk_at 1, ...]; coverage,
    contiguity, bounds and the index round trip follow from the closed form. *)

From S2P Require Import Prelude Float Types Request.

Section planner.
Context `{FE : FloatEnv}.
Variable cfg : SchedulerConfig.

(** The token bound a limit on work or memory puts on a chunk: the two
    [if (req.*_estimate > 0)] blocks of [effective_chunk_token_count]. *)
Definition limit_by_estimate (remaining limit_per_chunk estimate chunk : Z) : Z :=
  if 0 <? estimate then
    let ratio := ld_div (ld_of_u64 limit_per_chunk) (ld_of_u64 estimate) in
    let limit := f_to_u64 (ld_mul ratio (ld_of_u64 remaining)) in
    let limit := if remaining <? limit then remaining else limit in
    if limit <? chunk then limit else chunk
  else chunk.

Definition effective_chunk_token_count (req : PrefillRequest) : Z :=
  let remaining := remaining_prefill_tokens req in
  if remaining =? 0 then 0 else
  let chunk := cfg_max_tokens_per_chunk cfg in
  let chunk := if chunk =? 0 then 1 else chunk in
  let chunk := limit_by_estimate remaining (cfg_max_work_per_chunk cfg)
                 (rq_compute_estimate req) chunk in
  let chunk := limit_by_estimate remaining (cfg_max_memory_per_chunk cfg)
                 (rq_memory_estimate_bytes req) chunk in
  let chunk := if chunk =? 0 then 1 else chunk in
  let chunk := if remaining <? chunk then remaining else chunk in
  if chunk =? 0 then 1 else chunk.

(** Share of an estimate that falls on [n] of [remaining] tokens, capped. *)
Definition proportional_estimate (n remaining estimate cap : Z) : Z :=
  if 0 <? estimate then
    let frac := ld_div (ld_of_u64 n) (ld_of_u64 remaining) in
    let e := f_to_u64 (ld_mul frac (ld_of_u64 estimate)) in
    if cap <? e then cap else e
  else 0.

(** The chunk built by one iteration of the planning loop. *)
Definition make_chunk (req : PrefillRequest) (attempt : AttemptId) (seed : Generation)
    (remaining offset n idx : Z) : PrefillChunk := {|
  ck_request_id := rq_request_id req;
  ck_attempt_id := attempt;
  ck_group_id := 0;
  ck_token_start := offset;
  ck_token_count := n;
  ck_chunk_index := idx;
  ck_generation := seed +u idx +u 1;
  ck_parent_generation := seed;
  ck_work_kind :=
    if has_valid_reusable_prefix req then WorkKind_reused_suffix
    else if (remaining <=? offset +u n) && (idx =? 0) then WorkKind_full_prompt
    else WorkKind_chunked;
  ck_memory_estimate_bytes :=
    proportional_estimate n remaining (rq_memory_estimate_bytes req)
      (cfg_max_memory_per_chunk cfg);
  ck_compute_estimate :=
    proportional_estimate n remaining (rq_compute_estimate req)
      (cfg_max_work_per_chunk cfg);
  ck_deadline := rq_deadline req |}.

(** [while (offset < remaining) { ... }], with fuel. *)
Fixpoint plan_loop (fuel : nat) (req : PrefillRequest) (attempt : AttemptId)
    (seed : Generation) (remaining chunk_size : Z) (p : PrefillPlan) (offset idx : Z)
    : PrefillPlan :=
  match fuel with
  | O => p
  | S fuel =>
      if offset <? remaining then
        let n := remaining -u offset in
        let n := if chunk_size <? n then chunk_size else n in
        let c := make_chunk req attempt seed remaining offset n idx in
        let p := mkPrefillPlan (pl_request p) (pl_chunks p ++ [c])
                   (pl_total_chunk_tokens p +u n) (pl_total_chunk_count p) in
        plan_loop fuel req attempt seed remaining chunk_size p (offset +u n) (u32 (idx + 1))
      else p
  end.

(** Number of iterations the loop performs (at least). *)
Definition plan_fuel (remaining chunk_size : Z) : nat :=
  Z.to_nat ((remaining + chunk_size - 1) / chunk_size).

Definition plan (req : PrefillRequest) (attempt : AttemptId) (seed : Generation) : PrefillPlan :=
  let remaining := remaining_prefill_tokens req in
  if remaining =? 0 then mkPrefillPlan req [] 0 0 else
  let chunk_size := effective_chunk_token_count req in
  let p := plan_loop (plan_fuel remaining chunk_size) req attempt seed remaining chunk_size
             (mkPrefillPlan req [] 0 0) 0 0 in
  mkPrefillPlan (pl_request p) (pl_chunks p) (pl_total_chunk_tokens p)
    (u32 (Z.of_nat (length (pl_chunks p)))).

(** ** Closed form *)

Definition chunk_at (req : PrefillRequest) (attempt : AttemptId) (seed : Generation)
    (remaining c : Z) (i : nat) : PrefillChunk :=
  let off := Z.of_nat i * c in
  make_chunk req attempt seed remaining off (Z.min c (remaining - off)) (u32 (Z.of_nat i)).

Lemma limit_by_estimate_bounds r l e c :
  0 <= r → 0 <= c → 0 <= limit_by_estimate r l e c <= c.
Proof.
  intros Hr Hc. unfold limit_by_estimate.
  pose proof (f_to_u64_range (ld_mul (ld_div (ld_of_u64 l) (ld_of_u64 e)) (ld_of_u64 r))) as Hf.
  unfold is_u64 in Hf. repeat case_if; lia.
Qed.

Lemma effective_chunk_bounds req :
  request_wf req → config_wf cfg → remaining_prefill_tokens req ≠ 0 →
  1 <= effective_chunk_token_count req <= remaining_prefill_tokens req ∧
  effective_chunk_token_count req <= Z.max 1 (cfg_max_tokens_per_chunk cfg).
Proof.
  intros Hr (Hm & _) Hnz. pose proof (remaining_le_prompt req Hr) as [? _].
  unfold effective_chunk_token_count. cbv zeta. unfold is_u64 in Hm.
  rewrite (proj2 (Z.eqb_neq _ _) Hnz).
  set (c0 := if cfg_max_tokens_per_chunk cfg =? 0 then 1 else cfg_max_tokens_per_chunk cfg).
  assert (1 <= c0 <= Z.max 1 (cfg_max_tokens_per_chunk cfg)) by (unfold c0; case_if; lia).
  pose proof (limit_by_estimate_bounds (remaining_prefill_tokens req)
    (cfg_max_work_per_chunk cfg) (rq_compute_estimate req) c0 ltac:(lia) ltac:(lia)) as H1.
  set (c1 := limit_by_estimate _ (cfg_max_work_per_chunk cfg) _ _) in *.
  pose proof (limit_by_estimate_bounds (remaining_prefill_tokens req)
    (cfg_max_memory_per_chunk cfg) (rq_memory_estimate_bytes req) c1 ltac:(lia) ltac:(lia)) as H2.
  set (c2 := limit_by_estimate _ (cfg_max_memory_per_chunk cfg) _ _) in *.
  repeat case_if; lia.
Qed.

(** One loop step moves the closed form on by one chunk; the loop stops at the
    first index whose offset reaches [remaining]. *)
Lemma plan_loop_closed req attempt seed remaining c fuel p i :
  0 < remaining < 2 ^ 64 → 1 <= c <= remaining →
  (i + fuel)%nat = plan_fuel remaining c →
  let off := Z.min remaining (Z.of_nat i * c) in
  plan_loop fuel req attempt seed remaining c p off (u32 (Z.of_nat i))
  = mkPrefillPlan (pl_request p)
      (pl_chunks p ++ (chunk_at req attempt seed remaining c <$> seq i fuel))
      (if decide (fuel = O) then pl_total_chunk_tokens p
       else pl_total_chunk_tokens p +u (remaining - off))
      (pl_total_chunk_count p).
Proof.
  intros Hrem Hc. revert p i.
  induction fuel as [|fuel IH]; intros p i Hi off; simpl.
  { rewrite app_nil_r. by destruct p. }
  assert (Z.of_nat i * c < remaining) as Hlt.
  { assert (Z.of_nat i < (remaining + c - 1) / c) as Hq by (unfold plan_fuel in Hi; lia).
    pose proof (Z.mul_div_le (remaining + c - 1) c ltac:(lia)). nia. }
  assert (off = Z.of_nat i * c) as Hoff by (unfold off; lia).
  rewrite Hoff. rewrite (proj2 (Z.ltb_lt _ _) Hlt).
  rewrite (u64_small (remaining - Z.of_nat i * c)) by (unfold is_u64; nia).
  set (n := if c <? remaining - Z.of_nat i * c then c else remaining - Z.of_nat i * c).
  assert (n = Z.min c (remaining - Z.of_nat i * c)) as Hn by (unfold n; case_if; lia).
  rewrite (u64_small (Z.of_nat i * c + n)) by (unfold is_u64; nia).
  assert (u32 (u32 (Z.of_nat i) + 1) = u32 (Z.of_nat (S i))) as ->.
  { unfold u32. rewrite Z.add_mod_idemp_l by lia. f_equal. lia. }
  assert (Z.of_nat i * c + n = Z.min remaining (Z.of_nat (S i) * c)) as -> by nia.
  assert (chunk_at req attempt seed remaining c i
    = make_chunk req attempt seed remaining (Z.of_nat i * c) n (u32 (Z.of_nat i))) as ->.
  { unfold chunk_at. by rewrite Hn. }
  rewrite IH by lia. simpl. rewrite <- app_assoc.
  f_equal. destruct (decide (fuel = O)) as [->|Hf].
  - f_equal. unfold n. case_if; [exfalso|lia].
    assert (Z.of_nat (S i) = (remaining + c - 1) / c) as Hq by (unfold plan_fuel in Hi; lia).
    pose proof (Z.mul_succ_div_gt (remaining + c - 1) c ltac:(lia)). nia.
  - rewrite u64_add_l. f_equal. nia.
Qed.

(** The plan of a request with work left, in closed form. *)
Lemma plan_closed req attempt seed :
  request_wf req → config_wf cfg → remaining_prefill_tokens req ≠ 0 →
  let rem := remaining_prefill_tokens req in
  let c := effective_chunk_token_count req in
  plan req attempt seed
  = mkPrefillPlan req (chunk_at req attempt seed rem c <$> seq 0 (plan_fuel rem c))
      rem (u32 (Z.of_nat (plan_fuel rem c))).
Proof.
  intros Hr Hcfg Hnz rem c. unfold plan. fold rem. fold c. cbv zeta.
  rewrite (proj2 (Z.eqb_neq rem 0) Hnz).
  pose proof (effective_chunk_bounds req Hr Hcfg Hnz) as [Hc _]. fold rem c in Hc.
  pose proof (remaining_le_prompt req Hr) as [_ Hrem]. fold rem in Hrem. unfold is_u64 in Hrem.
  pose proof (plan_loop_closed req attempt seed rem c (plan_fuel rem c)
    (mkPrefillPlan req [] 0 0) 0 ltac:(lia) Hc eq_refl) as H.
  cbv zeta in H. rewrite Z.mul_0_l, Z.min_r in H by lia.
  change (u32 (Z.of_nat 0)) with 0 in H. rewrite H. simpl.
  rewrite length_fmap, length_seq. f_equal.
  destruct (decide (plan_fuel rem c = 0%nat)) as [E|E].
  - unfold plan_fuel in E. exfalso.
    assert (1 <= (rem + c - 1) / c) by (apply Z.div_le_lower_bound; lia). lia.
  - rewrite Z.sub_0_r, u64_small; unfold is_u64; lia.
Qed.

(** Membership in a plan, by position. *)
Lemma plan_lookup req attempt seed i ch :
  request_wf req → config_wf cfg →
  let rem := remaining_prefill_tokens req in
  let c := effective_chunk_token_count req in
  pl_chunks (plan req attempt seed) !! i = Some ch ↔
  rem ≠ 0 ∧ Z.of_nat i * c < rem ∧ ch = chunk_at req attempt seed rem c i.
Proof.
  intros Hr Hcfg rem c. destruct (Z.eq_dec rem 0) as [Hz|Hnz].
  { unfold plan. fold rem. rewrite Hz. simpl. split; [done|lia]. }
  rewrite plan_closed by done. simpl. fold rem c.
  pose proof (effective_chunk_bounds req Hr Hcfg Hnz) as [Hc _]. fold rem c in Hc.
  rewrite list_lookup_fmap_Some.
  assert (Z.of_nat i * c < rem ↔ (i < plan_fuel rem c)%nat) as Hi.
  { unfold plan_fuel.
    pose proof (Z.mul_div_le (rem + c - 1) c ltac:(lia)).
    pose proof (Z.mul_succ_div_gt (rem + c - 1) c ltac:(lia)).
    split; intros; [assert (Z.of_nat i < (rem + c - 1) / c); [nia|lia]|].
    assert (Z.of_nat i + 1 <= (rem + c - 1) / c) by lia. nia. }
  split.
  - intros (j & -> & [-> Hj]%lookup_seq). rewrite Hi. auto.
  - intros (_ & Hlt & ->). exists i. split; [done|]. apply lookup_seq. split; [done|]. by apply Hi.
Qed.

(** The chunks cover the interval from [off] to [stop] in order, with no gap
    and no overlap, each holding at least one token. *)
Fixpoint covers (off : Z) (l : list PrefillChunk) (stop : Z) : Prop :=
  match l with
  | [] => off = stop
  | c :: l => ck_token_start c = off ∧ 0 < ck_token_count c ∧
              covers (off + ck_token_count c) l stop
  end.

Lemma covers_chunk_at req attempt seed rem c k i :
  1 <= c → (i + k)%nat = plan_fuel rem c → 0 < rem →
  covers (Z.min rem (Z.of_nat i * c)) (chunk_at req attempt seed rem c <$> seq i k) rem.
Proof.
  intros Hc. revert i. induction k as [|k IH]; intros i Hi Hrem; simpl.
  - pose proof (Z.mul_succ_div_gt (rem + c - 1) c ltac:(lia)) as Hgt.
    assert (Z.of_nat i = (rem + c - 1) / c) as Hq.
    { unfold plan_fuel in Hi. assert (0 <= (rem + c - 1) / c) by (apply Z.div_pos; lia). lia. }
    rewrite <- Hq in Hgt. nia.
  - assert (Z.of_nat i * c < rem) as Hlt.
    { assert (Z.of_nat i < (rem + c - 1) / c) by (unfold plan_fuel in Hi; lia).
      pose proof (Z.mul_div_le (rem + c - 1) c ltac:(lia)). nia. }
    split; [lia|]. split; [lia|].
    replace (Z.min rem (Z.of_nat i * c) + Z.min c (rem - Z.of_nat i * c))
      with (Z.min rem (Z.of_nat (S i) * c)) by lia.
    apply IH; lia.
Qed.

End planner.

Lemma covers_sum off l stop :
  covers off l stop → off + sumZ ck_token_count l = stop.
Proof.
  revert off. induction l as [|c l IH]; simpl; intros off H; [lia|].
  destruct H as (_ & _ & H). apply IH in H. lia.
Qed.

(** [Impl::index_for_token_start]: first chunk with that start, [0] if none. *)
Definition index_for_token_start (p : PrefillPlan) (start : Z) : Z :=
  match list_find (λ c, ck_token_start c = start) (pl_chunks p) with
  | Some (i, _) => u32 (Z.of_nat i)
  | None => 0
  end.

(** ** Properties of the planner *)

Section properties.
Context `{FE : FloatEnv}.

(** The first chunk starts at zero. *)
Lemma plan_first cfg req attempt seed :
  request_wf req → config_wf cfg → remaining_prefill_tokens req ≠ 0 →
  ∃ ch, pl_chunks (plan cfg req attempt seed) !! 0%nat = Some ch ∧ ck_token_start ch = 0.
Proof.
  intros Hr Hc Hnz. pose proof (remaining_le_prompt req Hr) as [Hle _].
  eexists. split; [apply plan_lookup; [done..|]; split_and!; [done|lia|done]|done].
Qed.

Lemma plan_length_le cfg req attempt seed :
  request_wf req → config_wf cfg →
  Z.of_nat (length (pl_chunks (plan cfg req attempt seed))) <= remaining_prefill_tokens req.
Proof.
  intros Hr Hc. destruct (Z.eq_dec (remaining_prefill_tokens req) 0) as [Hz|Hnz].
  { unfold plan. rewrite Hz. simpl. lia. }
  pose proof (effective_chunk_bounds cfg req Hr Hc Hnz) as [Hb _].
  rewrite plan_closed by done. simpl. rewrite length_fmap, length_seq. unfold plan_fuel.
  assert ((remaining_prefill_tokens req + effective_chunk_token_count cfg req - 1)
          / effective_chunk_token_count cfg req <= remaining_prefill_tokens req); [|lia].
  apply Z.div_le_upper_bound; nia.
Qed.

(** A chunk ends where the next one starts; the last one ends at the
    remaining prefill. *)
Lemma plan_next cfg req attempt seed i ch :
  request_wf req → config_wf cfg →
  pl_chunks (plan cfg req attempt seed) !! i = Some ch →
  let stop := ck_token_start ch + ck_token_count ch in
  0 <= ck_token_start ch ∧ 0 < ck_token_count ch ∧ stop <= remaining_prefill_tokens req ∧
  match pl_chunks (plan cfg req attempt seed) !! S i with
  | Some ch' => ck_token_start ch' = stop
  | None => stop = remaining_prefill_tokens req
  end.
Proof.
  intros Hr Hc Hi. pose proof Hi as (Hnz & Hlt & Hch)%plan_lookup; [|done..].
  pose proof (effective_chunk_bounds cfg req Hr Hc Hnz) as [Hb _].
  subst ch. simpl. split_and!; [lia..|].
  destruct (pl_chunks (plan cfg req attempt seed) !! S i) as [ch'|] eqn:E.
  - apply plan_lookup in E as (_ & Hlt' & ->); [|done..]. simpl. nia.
  - assert (¬ (Z.of_nat (S i) * effective_chunk_token_count cfg req
               < remaining_prefill_tokens req)) as Hge; [|nia].
    intros Hlt'. rewrite (proj2 (plan_lookup cfg req attempt seed (S i) _ Hr Hc)
      (conj Hnz (conj Hlt' eq_refl))) in E. done.
Qed.

Lemma proportional_estimate_bounds n rem e cap :
  0 <= cap → 0 <= proportional_estimate n rem e cap <= cap.
Proof.
  intros Hcap. unfold proportional_estimate.
  pose proof (f_to_u64_range (ld_mul (ld_div (ld_of_u64 n) (ld_of_u64 rem)) (ld_of_u64 e))) as Hf.
  unfold is_u64 in Hf. repeat case_if; lia.
Qed.

(** Sizes and estimates of a planned chunk. *)
Lemma plan_chunk_bounds cfg req attempt seed i ch :
  request_wf req → config_wf cfg → pl_chunks (plan cfg req attempt seed) !! i = Some ch →
  1 <= ck_token_count ch <= Z.max 1 (cfg_max_tokens_per_chunk cfg) ∧
  0 <= ck_memory_estimate_bytes ch <= cfg_max_memory_per_chunk cfg ∧
  0 <= ck_compute_estimate ch <= cfg_max_work_per_chunk cfg.
Proof.
  intros Hr Hc (Hnz & Hlt & ->)%plan_lookup; [|done..].
  pose proof (effective_chunk_bounds cfg req Hr Hc Hnz) as [Hb1 Hb2].
  destruct Hc as (_ & Hw & Hm & _). unfold is_u64 in Hw, Hm.
  split_and!; simpl; try apply proportional_estimate_bounds; lia.
Qed.

(** C31: the plan of a request covers exactly its remaining prefill: the chunks
    start at offset 0, follow each other without gap or overlap, end at
    [remaining_prefill_tokens], and the recorded totals are the sums. *)
Theorem plan_covers_remaining cfg req attempt seed
    (Hr : request_wf req) (Hc : config_wf cfg) :
  let p := plan cfg req attempt seed in
  covers 0 (pl_chunks p) (covered_tokens p) ∧
  covered_tokens p = remaining_prefill_tokens req ∧
  pl_total_chunk_tokens p = sumZ ck_token_count (pl_chunks p) ∧
  pl_total_chunk_count p = u32 (Z.of_nat (length (pl_chunks p))).
Proof.
  intros p. destruct (Z.eq_dec (remaining_prefill_tokens req) 0) as [Hz|Hnz].
  { unfold p, plan, covered_tokens. rewrite Hz. simpl. done. }
  pose proof (remaining_le_prompt req Hr) as [Hle _].
  pose proof (effective_chunk_bounds cfg req Hr Hc Hnz) as [Hb _].
  assert (covers 0 (pl_chunks p) (remaining_prefill_tokens req)) as Hcov.
  { unfold p. rewrite plan_closed by done. simpl.
    replace 0 with (Z.min (remaining_prefill_tokens req)
      (Z.of_nat 0 * effective_chunk_token_count cfg req)) by lia.
    apply covers_chunk_at; [lia|done|lia]. }
  pose proof (covers_sum _ _ _ Hcov) as Hsum.
  unfold p in *. rewrite plan_closed in * by done. simpl in *.
  rewrite length_fmap, length_seq. unfold covered_tokens; simpl. split_and!; [done|done|by symmetry|done].
Qed.

(** C32: every chunk of a plan passes [PrefillChunk::validate] for its request,
    holds between one and [max(1, max_tokens_per_chunk)] tokens, carries the
    request's identity, and keeps its estimates within the per-chunk caps. *)
Theorem plan_chunks_valid cfg req attempt seed ch
    (Hr : request_wf req) (Hc : config_wf cfg)
    (Hin : ch ∈ pl_chunks (plan cfg req attempt seed)) :
  ei_code (chunk_validate ch req) = ErrorCode_ok ∧
  ck_attempt_id ch = attempt ∧
  1 <= ck_token_count ch <= Z.max 1 (cfg_max_tokens_per_chunk cfg) ∧
  0 <= ck_memory_estimate_bytes ch <= cfg_max_memory_per_chunk cfg ∧
  0 <= ck_compute_estimate ch <= cfg_max_work_per_chunk cfg.
Proof.
  apply list_elem_of_lookup in Hin as [i Hi].
  pose proof (plan_chunk_bounds cfg req attempt seed i ch Hr Hc Hi) as (Hb1 & Hb2 & Hb3).
  pose proof (plan_next cfg req attempt seed i ch Hr Hc Hi) as (Hs0 & Hs1 & Hs2 & _).
  pose proof (remaining_le_prompt req Hr) as [_ Hrem]. unfold is_u64 in Hrem.
  apply plan_lookup in Hi as (Hnz & Hlt & Hch); [|done..].
  assert (ck_request_id ch = rq_request_id req ∧ ck_attempt_id ch = attempt) as [E1 E2]
    by (by subst ch).
  split_and!; [|done|lia..].
  unfold chunk_validate. rewrite E1, Z.eqb_refl. simpl.
  rewrite u64_small by (unfold is_u64; lia). repeat case_if; simpl; try done; lia.
Qed.

(** Every chunk but the last has the planner's full chunk size, so the
    number of chunks is the rounded-up quotient. *)
Theorem plan_chunks_uniform cfg req attempt seed i ch
    (Hr : request_wf req) (Hc : config_wf cfg)
    (Hi : pl_chunks (plan cfg req attempt seed) !! i = Some ch) :
  let c := effective_chunk_token_count cfg req in
  ck_token_start ch = Z.of_nat i * c ∧
  (S i < length (pl_chunks (plan cfg req attempt seed)) → ck_token_count ch = c)%nat ∧
  Z.of_nat (length (pl_chunks (plan cfg req attempt seed)))
  = (remaining_prefill_tokens req + c - 1) / c.
Proof.
  intros c. pose proof Hi as (Hnz & Hlt & ->)%plan_lookup; [|done..].
  pose proof (effective_chunk_bounds cfg req Hr Hc Hnz) as [Hb1 _]. fold c in Hb1, Hlt.
  assert (length (pl_chunks (plan cfg req attempt seed))
          = plan_fuel (remaining_prefill_tokens req) c) as Hlen.
  { rewrite plan_closed by done. simpl. by rewrite length_fmap, length_seq. }
  assert (0 <= (remaining_prefill_tokens req + c - 1) / c) by (apply Z.div_pos; lia).
  split_and!; [done| |rewrite Hlen; unfold plan_fuel; lia].
  intros Hs. simpl. rewrite Hlen in Hs. unfold plan_fuel in Hs.
  pose proof (Z.mul_div_le (remaining_prefill_tokens req + c - 1) c ltac:(lia)).
  assert (Z.of_nat i + 2 <= (remaining_prefill_tokens req + c - 1) / c) by lia. nia.
Qed.

(** Looking a chunk's start up finds its index: the recovery mapping
    [next_chunk_token_start -> next_chunk_index] is exact on the plan that
    produced the start. *)
Theorem index_for_token_start_exact cfg req attempt seed i ch
    (Hr : request_wf req) (Hc : config_wf cfg)
    (Hi : pl_chunks (plan cfg req attempt seed) !! i = Some ch)
    (Hb : Z.of_nat i < 2 ^ 32) :
  index_for_token_start (plan cfg req attempt seed) (ck_token_start ch) = Z.of_nat i.
Proof.
  pose proof Hi as (Hnz & Hlt & Hch)%plan_lookup; [|done..].
  pose proof (effective_chunk_bounds cfg req Hr Hc Hnz) as [Hb1 _].
  unfold index_for_token_start.
  assert (list_find (λ c, ck_token_start c = ck_token_start ch)
            (pl_chunks (plan cfg req attempt seed)) = Some (i, ch)) as ->.
  { apply list_find_Some. split_and!; [done..|].
    intros j y (_ & _ & ->)%plan_lookup Hj Heq; [|done..]. subst ch. simpl in Heq. nia. }
  apply u32_small. unfold is_u32. lia.
Qed.
End properties.
