(* ===== verification/Memory.v ===== *)
(** * Memory governance ([memory.hpp])

    [MemoryGovernor] tracks reservations under a byte budget.  Its abstract
    view is a ledger, the finite map of active reservations to their owner and
    size; [reserve] and [release] refine insertion and deletion, and the
    counter [reserved_] is always the total of the ledger. *)

From S2P Require Import Prelude Float Types Request.

Record ReservationRecord := mkReservationRecord {
  rr_id : ReservationId;
  rr_request_id : RequestId;
  rr_bytes : Z;
  rr_kind : ReservationKind;
  rr_active : bool
}.

Record MemoryGovernor := mkMemoryGovernor {
  mg_max_bytes : Z;
  mg_headroom : Z;
  mg_reserved : Z;
  mg_double_releases : Z;
  mg_underlying_flags : Z;
  mg_records : gmap Z ReservationRecord
}.

#[global] Instance eta_MemoryGovernor : Eta MemoryGovernor := λ g,
  mkMemoryGovernor (mg_max_bytes g) (mg_headroom g) (mg_reserved g)
    (mg_double_releases g) (mg_underlying_flags g) (mg_records g).
#[global] Instance set_mg_max_bytes : Setter mg_max_bytes := ltac:(mk_setter).
#[global] Instance set_mg_reserved : Setter mg_reserved := ltac:(mk_setter).
#[global] Instance set_mg_double_releases : Setter mg_double_releases := ltac:(mk_setter).
#[global] Instance set_mg_underlying_flags : Setter mg_underlying_flags := ltac:(mk_setter).
#[global] Instance set_mg_records : Setter mg_records := ltac:(mk_setter).

(** ** Operations *)

Definition MemoryGovernor_new (max_bytes headroom : Z) : MemoryGovernor :=
  mkMemoryGovernor max_bytes headroom 0 0 0 ∅.

Definition set_capacity (g : MemoryGovernor) (bytes : Z) : MemoryGovernor :=
  let newmax := bytes in
  let newmax := if newmax <? mg_headroom g then mg_headroom g else newmax in
  g <| mg_max_bytes := newmax |>.

Definition budget (g : MemoryGovernor) : Z :=
  if mg_headroom g <? mg_max_bytes g then mg_max_bytes g -u mg_headroom g else 0.

Definition reserved_bytes (g : MemoryGovernor) : Z := mg_reserved g.

Definition available_bytes (g : MemoryGovernor) : Z :=
  if budget g <? mg_reserved g then 0 else budget g -u mg_reserved g.

Definition can_reserve (g : MemoryGovernor) (bytes : Z) : bool :=
  if budget g <? mg_reserved g then false else bytes <=? budget g -u mg_reserved g.

Definition record_active (g : MemoryGovernor) (id : ReservationId) : bool :=
  match mg_records g !! id with Some r => rr_active r | None => false end.

Definition reserve (g : MemoryGovernor) (id : ReservationId) (req : RequestId) (bytes : Z)
    (kind : ReservationKind) : MemoryGovernor * Result unit :=
  if record_active g id then
    (g, err ErrorCode_duplicate_request "reservation id already active")
  else if bytes =? 0 then
    (g <| mg_records := <[id := mkReservationRecord id req 0 kind true]> (mg_records g) |>, Ok tt)
  else if (budget g <? mg_reserved g) || (budget g -u mg_reserved g <? bytes) then
    (g, err ErrorCode_memory_unavailable "insufficient memory budget")
  else
    (g <| mg_reserved := mg_reserved g +u bytes |>
       <| mg_records := <[id := mkReservationRecord id req bytes kind true]> (mg_records g) |>,
     Ok tt).

Definition transition (g : MemoryGovernor) (id : ReservationId) (kind : ReservationKind)
    : MemoryGovernor * Result unit :=
  match mg_records g !! id with
  | Some r =>
      if rr_active r then
        (g <| mg_records := <[id := mkReservationRecord (rr_id r) (rr_request_id r) (rr_bytes r)
                                      kind (rr_active r)]> (mg_records g) |>, Ok tt)
      else (g, err ErrorCode_illegal_state "reservation not active")
  | None => (g, err ErrorCode_illegal_state "reservation not active")
  end.

Definition release (g : MemoryGovernor) (id : ReservationId) : MemoryGovernor :=
  match mg_records g !! id with
  | Some r =>
      if rr_active r then
        let g :=
          if 0 <? rr_bytes r then
            if mg_reserved g <? rr_bytes r then
              g <| mg_underlying_flags := Z.lor (mg_underlying_flags g) 1 |>
                <| mg_reserved := 0 |>
            else g <| mg_reserved := mg_reserved g -u rr_bytes r |>
          else g in
        g <| mg_records := <[id := mkReservationRecord (rr_id r) (rr_request_id r) 0
                                     (rr_kind r) false]> (mg_records g) |>
      else g <| mg_double_releases := mg_double_releases g +u 1 |>
  | None => g <| mg_double_releases := mg_double_releases g +u 1 |>
  end.

Definition is_active (g : MemoryGovernor) (id : ReservationId) : bool := record_active g id.

Definition active_reservation_count (g : MemoryGovernor) : Z :=
  u64 (map_sum (λ _ r, if rr_active r then 1 else 0) (mg_records g)).

Definition underflow_happened (g : MemoryGovernor) : bool :=
  negb (Z.land (mg_underlying_flags g) 1 =? 0).

(** ** The ledger *)

(** Active reservations, with owner and size. *)
Definition ledger (g : MemoryGovernor) : gmap Z (RequestId * Z) :=
  omap (λ r, if rr_active r then Some (rr_request_id r, rr_bytes r) else None) (mg_records g).

Definition ledger_total (l : gmap Z (RequestId * Z)) : Z := map_sum (λ _ x, x.2) l.

(** The invariant of the governor: the counter is the ledger's total and fits
    the 64-bit width, no size is negative, no underflow was ever recorded. *)
Record gov_inv (g : MemoryGovernor) : Prop := {
  gi_total : mg_reserved g = ledger_total (ledger g);
  gi_range : is_u64 (mg_reserved g);
  gi_sizes : ∀ id x, ledger g !! id = Some x → 0 <= x.2;
  gi_flags : mg_underlying_flags g = 0;
  gi_caps : is_u64 (mg_max_bytes g) ∧ is_u64 (mg_headroom g)
}.

Lemma ledger_lookup g id x :
  ledger g !! id = Some x ↔
  ∃ r, mg_records g !! id = Some r ∧ rr_active r = true ∧ x = (rr_request_id r, rr_bytes r).
Proof.
  unfold ledger. rewrite lookup_omap_Some. split.
  - intros (r & Hr & Hx). destruct (rr_active r) eqn:E; [|done]. exists r. naive_solver.
  - intros (r & Hr & Ha & ->). exists r. by rewrite Ha.
Qed.

Lemma record_active_ledger g id : record_active g id = true ↔ is_Some (ledger g !! id).
Proof.
  unfold record_active, ledger. rewrite lookup_omap.
  destruct (mg_records g !! id) as [r|]; simpl; [destruct (rr_active r)|]; split; intros H;
    try done; by destruct H.
Qed.

Lemma ledger_insert g id r :
  omap (λ r, if rr_active r then Some (rr_request_id r, rr_bytes r) else None)
    (<[id := r]> (mg_records g))
  = if rr_active r then <[id := (rr_request_id r, rr_bytes r)]> (ledger g)
    else delete id (ledger g).
Proof.
  apply map_eq. intros j. unfold ledger. rewrite lookup_omap.
  destruct (decide (id = j)) as [->|Hne].
  - rewrite lookup_insert_eq. simpl.
    destruct (rr_active r); by rewrite ?lookup_insert_eq, ?lookup_delete_eq.
  - rewrite lookup_insert_ne by done.
    destruct (rr_active r); rewrite ?lookup_insert_ne, ?lookup_delete_ne, ?lookup_omap by done; done.
Qed.

Lemma budget_range g : is_u64 (budget g).
Proof. unfold budget. case_if; [apply u64_range|unfold is_u64; lia]. Qed.

Lemma release_active g id x :
  gov_inv g → ledger g !! id = Some x →
  ∃ r, mg_records g !! id = Some r ∧ rr_active r = true ∧ x = (rr_request_id r, rr_bytes r) ∧
  0 <= rr_bytes r <= mg_reserved g.
Proof.
  intros [Ht Hr Hs _ _] Hx. pose proof Hx as (r & Hrec & Ha & ->)%ledger_lookup.
  exists r. split_and!; [done..| |].
  - by apply (Hs id _ Hx).
  - rewrite Ht. apply (map_sum_ge_one (λ _ y, y.2) _ id (rr_request_id r, rr_bytes r));
      [|done]. intros j y. apply Hs.
Qed.

(** ** Refinement: the operations on the ledger *)

(** A reservation is refused exactly when its id is active or a positive size
    does not fit; a refusal changes nothing, an acceptance adds the entry. *)
Lemma reserve_ledger g id req bytes kind :
  gov_inv g → 0 <= bytes →
  match reserve g id req bytes kind with
  | (g', Ok _) =>
      ledger g !! id = None ∧ (bytes = 0 ∨ mg_reserved g + bytes <= budget g) ∧
      ledger g' = <[id := (req, bytes)]> (ledger g) ∧
      mg_reserved g' = mg_reserved g + bytes ∧
      mg_max_bytes g' = mg_max_bytes g ∧ mg_headroom g' = mg_headroom g ∧
      mg_underlying_flags g' = mg_underlying_flags g
  | (g', Err e) =>
      g' = g ∧
      (is_Some (ledger g !! id) ∧ ei_code e = ErrorCode_duplicate_request ∨
       ledger g !! id = None ∧ 0 < bytes ∧ budget g < mg_reserved g + bytes ∧
       ei_code e = ErrorCode_memory_unavailable)
  end.
Proof.
  intros [Ht Hr Hs Hf Hc] Hb. unfold reserve.
  pose proof (budget_range g) as Hbud. unfold is_u64 in *.
  destruct (record_active g id) eqn:Ea.
  { apply record_active_ledger in Ea. split; [done|]. by left. }
  assert (ledger g !! id = None) as Hn.
  { apply eq_None_not_Some. intros H%record_active_ledger. congruence. }
  case_if.
  { subst. rsimp. split_and!; try done; try lia.
    unfold ledger at 1. rsimp. by rewrite ledger_insert. }
  destruct (Z.ltb_spec (budget g) (mg_reserved g)) as [Hlt|Hge]; simpl.
  { split; [done|]. right. split_and!; [done|lia|lia|done]. }
  rewrite u64_small by (unfold is_u64; lia). case_if; simpl.
  { split; [done|]. right. split_and!; [done|lia|lia|done]. }
  rsimp. rewrite u64_small by (unfold is_u64; lia).
  split_and!; try done; [right; lia|]. unfold ledger at 1. rsimp. by rewrite ledger_insert.
Qed.

Lemma release_ledger g id :
  gov_inv g →
  ledger (release g id) = delete id (ledger g) ∧
  mg_reserved (release g id)
  = mg_reserved g - match ledger g !! id with Some x => x.2 | None => 0 end ∧
  mg_underlying_flags (release g id) = 0 ∧
  mg_max_bytes (release g id) = mg_max_bytes g ∧ mg_headroom (release g id) = mg_headroom g.
Proof.
  intros Hi. pose proof Hi as [Ht Hr Hs Hf Hc].
  destruct (ledger g !! id) as [x|] eqn:E.
  - destruct (release_active g id x Hi E) as (r & Hrec & Ha & -> & Hle).
    unfold release. rewrite Hrec, Ha. simpl.
    unfold is_u64 in Hr.
    assert (ledger (g <| mg_records := <[id:=mkReservationRecord (rr_id r) (rr_request_id r) 0
              (rr_kind r) false]> (mg_records g) |>) = delete id (ledger g)) as Hl.
    { unfold ledger at 1. rsimp. by rewrite ledger_insert. }
    case_if; [case_if; [lia|]|]; rsimp;
      (split_and!; [exact Hl| |done..]); [rewrite u64_small by (unfold is_u64; lia)|]; lia.
  - assert (release g id = g <| mg_double_releases := mg_double_releases g +u 1 |>) as ->.
    { unfold release. unfold ledger in E. rewrite lookup_omap in E.
      destruct (mg_records g !! id) as [r|]; [|done]. simpl in E. by destruct (rr_active r). }
    rsimp. split_and!; try done; [|lia].
    rewrite delete_id by done. unfold ledger. by rsimp.
Qed.

Lemma transition_ledger g id kind :
  ledger (transition g id kind).1 = ledger g.
Proof.
  unfold transition. destruct (mg_records g !! id) as [r|] eqn:E; [|done].
  destruct (rr_active r) eqn:Ha; [|done]. simpl. unfold ledger at 1. rsimp.
  rewrite ledger_insert. simpl. try rewrite Ha. apply insert_id.
  apply ledger_lookup. by exists r.
Qed.

(** ** The invariant is inductive *)

Lemma gov_inv_new max_bytes headroom :
  is_u64 max_bytes → is_u64 headroom → gov_inv (MemoryGovernor_new max_bytes headroom).
Proof.
  intros Hm Hh. split; simpl; try done; unfold is_u64; try lia.
Qed.

Lemma gov_inv_reserve g id req bytes kind :
  gov_inv g → 0 <= bytes → gov_inv (reserve g id req bytes kind).1.
Proof.
  intros Hi Hb. pose proof (reserve_ledger g id req bytes kind Hi Hb) as H.
  destruct (reserve g id req bytes kind) as [g' [[]|e]]; simpl in *; [|by destruct H as [-> _]].
  destruct H as (Hn & Hfit & Hl & Hr & Hm & Hh & Hf). destruct Hi as [Ht Hr0 Hs Hf0 Hc].
  pose proof (budget_range g) as Hbud. unfold is_u64 in Hbud, Hr0.
  split.
  - rewrite Hl, Hr. unfold ledger_total. rewrite map_sum_insert_new by done. simpl.
    rewrite Ht. unfold ledger_total. lia.
  - unfold is_u64. rewrite Hr. destruct Hfit; lia.
  - intros j x. rewrite Hl. intros [[<- <-]|[_ Hx]]%lookup_insert_Some; [done|by apply (Hs j)].
  - congruence.
  - by rewrite Hm, Hh.
Qed.

Lemma gov_inv_release g id : gov_inv g → gov_inv (release g id).
Proof.
  intros Hi. destruct (release_ledger g id Hi) as (Hl & Hr & Hf & Hm & Hh).
  pose proof Hi as [Ht Hr0 Hs _ Hc].
  assert (mg_reserved (release g id) = ledger_total (delete id (ledger g))) as Htot.
  { rewrite Hr, Ht. unfold ledger_total. destruct (ledger g !! id) as [x|] eqn:E.
    - rewrite (map_sum_delete _ _ id x E). lia.
    - rewrite delete_id by done. lia. }
  split.
  - by rewrite Hl.
  - unfold is_u64 in *. rewrite Hr. destruct (ledger g !! id) as [x|] eqn:E; [|lia].
    destruct (release_active g id x Hi E) as (r & _ & _ & -> & Hle). simpl. lia.
  - intros j x. rewrite Hl. intros [_ Hx]%lookup_delete_Some. by apply (Hs j).
  - done.
  - by rewrite Hm, Hh.
Qed.

(** Every public call that changes the governor. *)
Inductive gov_step : MemoryGovernor → MemoryGovernor → Prop :=
| gstep_reserve g id req bytes kind :
    is_u64 bytes → gov_step g (reserve g id req bytes kind).1
| gstep_transition g id kind : gov_step g (transition g id kind).1
| gstep_release g id : gov_step g (release g id)
| gstep_set_capacity g bytes : is_u64 bytes → gov_step g (set_capacity g bytes).

Lemma gov_inv_step g g' : gov_inv g → gov_step g g' → gov_inv g'.
Proof.
  intros Hi Hst. destruct Hst as [g id req bytes kind Hb|g id kind|g id|g bytes Hb].
  - apply gov_inv_reserve; [done|]. unfold is_u64 in Hb; lia.
  - pose proof (transition_ledger g id kind) as Hl. pose proof Hi as [Ht Hr Hs Hf Hc].
    split; rewrite ?Hl; try done; unfold transition;
      destruct (mg_records g !! id) as [r|]; try destruct (rr_active r); rsimp; done.
  - by apply gov_inv_release.
  - destruct Hi as [Ht Hr Hs Hf Hc]. split; unfold set_capacity; rsimp; try done.
    split; [|by apply Hc]. case_if; [by apply Hc|done].
Qed.

(** ** Theorems *)

(** In every state reachable from a fresh governor by reserve, transition,
    release and set_capacity in any order, [reserved_] is exactly the sum of
    the active reservations and the underflow flag was never raised. *)
Theorem governor_reachable_inv max_bytes headroom g
    (Hm : is_u64 max_bytes) (Hh : is_u64 headroom)
    (Hreach : rtc gov_step (MemoryGovernor_new max_bytes headroom) g) :
  mg_reserved g = ledger_total (ledger g) ∧ is_u64 (mg_reserved g) ∧
  underflow_happened g = false.
Proof.
  assert (gov_inv g) as [Ht Hr _ Hf _].
  { remember (MemoryGovernor_new max_bytes headroom) as g0 eqn:E.
    assert (gov_inv g0) as H0 by (subst; by apply gov_inv_new). clear E Hm Hh.
    induction Hreach as [|x y z Hxy _ IH]; [done|]. eauto using gov_inv_step. }
  split_and!; [done..|]. unfold underflow_happened. by rewrite Hf.
Qed.

(** C33: [reserve] refines insertion into the ledger: it succeeds exactly when
    the id is free and the bytes fit the budget (or are zero), and a refused
    reservation leaves the governor as it was. *)
Theorem reserve_refines_ledger g id req bytes kind (Hi : gov_inv g) (Hb : is_u64 bytes) :
  let fits := ledger g !! id = None ∧ (bytes = 0 ∨ mg_reserved g + bytes <= budget g) in
  (has_value (reserve g id req bytes kind).2 = true ↔ fits) ∧
  (fits → ledger (reserve g id req bytes kind).1 = <[id := (req, bytes)]> (ledger g)) ∧
  (~ fits → (reserve g id req bytes kind).1 = g).
Proof.
  intros fits. assert (0 <= bytes) as Hb' by (unfold is_u64 in Hb; lia).
  pose proof (reserve_ledger g id req bytes kind Hi Hb') as H.
  destruct (reserve g id req bytes kind) as [g' [[]|e]]; simpl in *.
  - destruct H as (Hn & Hfit & Hl & _). unfold fits.
    split_and!; [by split|by intros _|]. intros Hf. by destruct Hf.
  - destruct H as [-> [[Hs _]|(Hn & Hpos & Hlt & _)]]; unfold fits.
    + split_and!; [split; [done|]|..]; try done; intros [Hn _]; rewrite Hn in Hs; by destruct Hs.
    + split_and!; [split; [done|]|..]; try done; intros [_ [?|?]]; lia.
Qed.

(** [release] refines deletion: it removes exactly the named reservation,
    gives back its bytes, and a second release of the same id (or of an
    unknown one) changes nothing but the double-release counter. *)
Theorem release_refines_ledger g id (Hi : gov_inv g) :
  ledger (release g id) = delete id (ledger g) ∧
  mg_reserved (release g id) + match ledger g !! id with Some x => x.2 | None => 0 end
  = mg_reserved g ∧
  release (release g id) id
  = release g id <| mg_double_releases := mg_double_releases (release g id) +u 1 |>.
Proof.
  destruct (release_ledger g id Hi) as (Hl & Hr & _). split_and!; [done|lia|].
  assert (record_active (release g id) id = false) as Hn.
  { apply not_true_iff_false. rewrite record_active_ledger, Hl, lookup_delete_eq.
    by intros [? ?]. }
  unfold release at 1. unfold record_active in Hn.
  destruct (mg_records (release g id) !! id) as [r|]; [by rewrite Hn|done].
Qed.

(** Reserving and then releasing gives the governor back its free bytes. *)
Theorem reserve_release_roundtrip g id req bytes kind
    (Hi : gov_inv g) (Hb : is_u64 bytes)
    (Hok : has_value (reserve g id req bytes kind).2 = true) :
  let g' := release (reserve g id req bytes kind).1 id in
  ledger g' = ledger g ∧ mg_reserved g' = mg_reserved g ∧
  available_bytes g' = available_bytes g ∧ record_active g' id = false.
Proof.
  intros g'. assert (0 <= bytes) as Hb' by (unfold is_u64 in Hb; lia).
  pose proof (reserve_ledger g id req bytes kind Hi Hb') as H.
  pose proof (gov_inv_reserve g id req bytes kind Hi Hb') as Hi'.
  unfold g'. destruct (reserve g id req bytes kind) as [g1 [[]|e]]; [|done]. simpl in *.
  destruct H as (Hn & _ & Hl & Hr & Hm & Hh & _).
  destruct (release_ledger g1 id Hi') as (Hl' & Hr' & _ & Hm' & Hh').
  assert (ledger (release g1 id) = ledger g) as Hlg.
  { rewrite Hl', Hl. by apply delete_insert_id. }
  assert (mg_reserved (release g1 id) = mg_reserved g) as Hres.
  { rewrite Hr', Hl, lookup_insert_eq. simpl. lia. }
  split_and!; [done..| |].
  - unfold available_bytes, budget. by rewrite Hres, Hm', Hh', Hm, Hh.
  - apply not_true_iff_false. rewrite record_active_ledger, Hlg, Hn. by intros [? ?].
Qed.
