(* ===== verification/Compat.v ===== *)
(** * Packing compatibility ([compatibility.hpp], [make_compat_key] of [scheduler.cpp])

    The FNV-1a hash used for keys and persistence checksums, the typed
    compatibility key and the explained packing decision. *)

From S2P Require Import Prelude Float Types Request.

(** ** Octets *)

(** Little-endian octets of the low [n] bytes of an integer. *)
Fixpoint le_bytes (n : nat) (v : Z) : list Z :=
  match n with
  | O => []
  | S n => Z.land v 255 :: le_bytes n (Z.shiftr v 8)
  end.

Fixpoint string_bytes (s : string) : list Z :=
  match s with
  | EmptyString => []
  | String c s => Z.of_N (Ascii.N_of_ascii c) :: string_bytes s
  end.

(** ** FNV-1a *)

Definition fnv_offset_basis : Z := 1469598103934665603.
Definition fnv_prime : Z := 1099511628211.

Fixpoint fnv1a64 (h : Z) (data : list Z) : Z :=
  match data with
  | [] => h
  | b :: data => fnv1a64 (Z.lxor h b *u fnv_prime) data
  end.

Definition fnv1a64_str (h : Z) (s : string) : Z := fnv1a64 h (string_bytes s).

(** Inverse of the FNV prime modulo 2^64. *)
Definition fnv_prime_inv : Z := 14886173955864302971.

Lemma lxor_u64_u8 h b : is_u64 h → is_u8 b → is_u64 (Z.lxor h b).
Proof.
  unfold is_u64, is_u8. intros Hh Hb.
  assert (0 <= Z.lxor h b) by (apply Z.lxor_nonneg; lia). split; [done|].
  destruct (Z.eq_dec (Z.lxor h b) 0) as [->|Hnz]; [lia|].
  apply Z.log2_lt_pow2; [lia|].
  pose proof (Z.log2_lxor h b ltac:(lia) ltac:(lia)).
  assert (Z.log2 h < 64).
  { destruct (Z.eq_dec h 0) as [->|]; [simpl; lia|]. apply Z.log2_lt_pow2; lia. }
  assert (Z.log2 b < 64).
  { destruct (Z.eq_dec b 0) as [->|]; [simpl; lia|]. apply Z.log2_lt_pow2; lia. }
  lia.
Qed.

Lemma mul_prime_inj x y :
  is_u64 x → is_u64 y → x *u fnv_prime = y *u fnv_prime → x = y.
Proof.
  intros Hx Hy H.
  assert (∀ z, is_u64 z → u64 (u64 (z * fnv_prime) * fnv_prime_inv) = z) as Hinv.
  { intros z Hz. unfold u64. rewrite Z.mul_mod_idemp_l by lia.
    rewrite <- Z.mul_assoc, <- Z.mul_mod_idemp_r by lia.
    change (fnv_prime * fnv_prime_inv mod 2 ^ 64) with 1. rewrite Z.mul_1_r.
    by apply Z.mod_small. }
  rewrite <- (Hinv x Hx), <- (Hinv y Hy). by rewrite H.
Qed.

Lemma fnv_step_inj_state h h' b :
  is_u64 h → is_u64 h' → is_u8 b →
  Z.lxor h b *u fnv_prime = Z.lxor h' b *u fnv_prime → h = h'.
Proof.
  intros Hh Hh' Hb H. apply mul_prime_inj in H; [|by apply lxor_u64_u8..].
  apply (f_equal (λ z, Z.lxor z b)) in H.
  by rewrite !Z.lxor_assoc, Z.lxor_nilpotent, !Z.lxor_0_r in H.
Qed.

Lemma fnv_step_inj_byte h b b' :
  is_u64 h → is_u8 b → is_u8 b' →
  Z.lxor h b *u fnv_prime = Z.lxor h b' *u fnv_prime → b = b'.
Proof.
  intros Hh Hb Hb' H. apply mul_prime_inj in H; [|by apply lxor_u64_u8..].
  apply (f_equal (Z.lxor h)) in H.
  by rewrite <- !Z.lxor_assoc, Z.lxor_nilpotent, !Z.lxor_0_l in H.
Qed.

Lemma fnv1a64_inj_state data h h' :
  Forall is_u8 data → is_u64 h → is_u64 h' →
  fnv1a64 h data = fnv1a64 h' data → h = h'.
Proof.
  intros Hd. revert h h'. induction Hd as [|b data Hb Hd IH]; intros h h' Hh Hh' H; [done|].
  simpl in H. apply IH in H; [|by apply u64_range..]. by apply fnv_step_inj_state in H.
Qed.

Lemma fnv1a64_app data1 data2 h : fnv1a64 h (data1 ++ data2) = fnv1a64 (fnv1a64 h data1) data2.
Proof. revert h. induction data1; intros; simpl; auto. Qed.

Lemma fnv1a64_range data h : is_u64 h → is_u64 (fnv1a64 h data).
Proof. revert h. induction data; intros; simpl; auto using u64_range. Qed.

(** The checksum detects every corruption of a single octet: two inputs
    that differ in exactly one byte never have the same FNV-1a value. *)
Lemma fnv1a64_detects_byte h pre post b b' :
  is_u64 h → Forall is_u8 post → is_u8 b → is_u8 b' → b ≠ b' →
  fnv1a64 h (pre ++ b :: post) ≠ fnv1a64 h (pre ++ b' :: post).
Proof.
  intros Hh Hpost Hb Hb' Hne. rewrite !fnv1a64_app. simpl. intros H.
  apply fnv1a64_inj_state in H; [|done|by apply u64_range..].
  apply fnv_step_inj_byte in H; [done| |done..]. by apply fnv1a64_range.
Qed.

(** ** Keys and decisions *)

Record CompatibilityKey := mkCompatibilityKey {
  cky_model : ModelKey;
  cky_base_model : string;
  cky_relation : AdapterRelation;
  cky_backend : string;
  cky_device : DeviceId;
  cky_layout : InputLayout;
  cky_numeric_mode : NumericMode;
  cky_vocab : VocabSpec;
  cky_executor_family : string;
  cky_policy_fingerprint : string
}.

#[global] Instance CompatibilityKey_eq_dec : EqDecision CompatibilityKey.
Proof. solve_decision. Defined.

Definition CompatibilityKey_default : CompatibilityKey := {|
  cky_model := ModelKey_default; cky_base_model := ""; cky_relation := AdapterRelation_none;
  cky_backend := kBackendAny; cky_device := 0; cky_layout := InputLayout_seq_major;
  cky_numeric_mode := NumericMode_fp32; cky_vocab := VocabSpec_default;
  cky_executor_family := ""; cky_policy_fingerprint := "" |}.

(** [CompatibilityKey::hash]; an enumeration contributes the four octets of
    its [int], an identifier its eight. *)
Definition CompatibilityKey_hash (k : CompatibilityKey) : Z :=
  let h := fnv_offset_basis in
  let h := fnv1a64_str h (mk_name (cky_model k)) in
  let h := fnv1a64_str h (mk_revision (cky_model k)) in
  let h := fnv1a64_str h (cky_base_model k) in
  let h := fnv1a64 h (le_bytes 4 (to_int (cky_relation k))) in
  let h := fnv1a64_str h (cky_backend k) in
  let h := fnv1a64 h (le_bytes 8 (cky_device k)) in
  let h := fnv1a64 h (le_bytes 4 (to_int (cky_layout k))) in
  let h := fnv1a64 h (le_bytes 4 (to_int (cky_numeric_mode k))) in
  let h := fnv1a64_str h (vs_tokenizer (cky_vocab k)) in
  let h := fnv1a64 h (le_bytes 8 (vs_vocab_size (cky_vocab k))) in
  let h := fnv1a64_str h (cky_executor_family k) in
  fnv1a64_str h (cky_policy_fingerprint k).

Record CompatibilityReason := mkCompatibilityReason { crn_code : Z; crn_text : string }.

Record CompatibilityDecision := mkCompatibilityDecision {
  cd_compatible : bool;
  cd_reasons : list CompatibilityReason;
  cd_key : CompatibilityKey;
  cd_non_compat_reason_count : Z
}.

Definition CompatibilityDecision_to_text (d : CompatibilityDecision) : string :=
  let s := if cd_compatible d then "compatible" else "not compatible" in
  match cd_reasons d with
  | [] => s
  | rs => foldl (λ s r, s +:+ " [" +:+ std_to_string (crn_code r) +:+ "] " +:+ crn_text r)
            (s +:+ ":") rs
  end.

(** [make_compat_key] of [scheduler.cpp]. *)
Definition make_compat_key (req : PrefillRequest) (cfg : SchedulerConfig) : CompatibilityKey :=
  let backend := if bool_decide (rq_backend req = "") then kBackendAny else rq_backend req in
  {| cky_model := rq_model req;
     cky_base_model := mk_name (rq_model req);
     cky_relation := rq_adapter_relation req;
     cky_backend := backend;
     cky_device := rq_device req;
     cky_layout := rq_input_layout req;
     cky_numeric_mode := rq_numeric_mode req;
     cky_vocab := rq_vocab req;
     cky_executor_family := if bool_decide (backend = kBackendAny) then "default" else backend;
     cky_policy_fingerprint :=
       std_to_string (cfg_max_requests_per_group cfg) +:+ "|" +:+
       std_to_string (cfg_max_tokens_per_group cfg) +:+ "|" +:+
       std_to_string (cfg_max_memory_per_chunk cfg) |}.

(** Two requests get the same key exactly when they agree on every
    packing-relevant attribute (an empty backend meaning any). *)
Theorem make_compat_key_eq r1 r2 cfg :
  make_compat_key r1 cfg = make_compat_key r2 cfg ↔
  rq_model r1 = rq_model r2 ∧ rq_adapter_relation r1 = rq_adapter_relation r2 ∧
  cky_backend (make_compat_key r1 cfg) = cky_backend (make_compat_key r2 cfg) ∧
  rq_device r1 = rq_device r2 ∧ rq_input_layout r1 = rq_input_layout r2 ∧
  rq_numeric_mode r1 = rq_numeric_mode r2 ∧ rq_vocab r1 = rq_vocab r2.
Proof.
  unfold make_compat_key; simpl. split.
  - intros H. injection H. naive_solver.
  - intros (-> & -> & -> & -> & -> & -> & ->). done.
Qed.
