(* ===== verification/Bytes.v ===== *)
(** * Octet streams ([ByteWriter] and [ByteReader] of [persistence.hpp])

    The little-endian writer and the bounds-checked reader that the persistence
    format and the wire protocol share.  A writer call is the list of octets it
    appends, so a sequence of calls is a concatenation.  A reader is a state
    and error monad over the octets between the offset and the end of the
    buffer.

    [codec rd bs a] is what a reader owes its writer: it reads [a] back from the
    octets [bs] whatever follows them, and reports truncation on every proper
    prefix of [bs].  It composes along [bind], so a record's codec is proved by
    walking through its fields. *)

From S2P Require Import Prelude Float Types Compat.

(** ** Writer *)

Definition w_u8 (v : Z) : list Z := [u8 v].
Definition w_u16 (v : Z) : list Z := [Z.land v 0xff; Z.land (Z.shiftr v 8) 0xff].
Definition w_u32 (v : Z) : list Z := le_bytes 4 v.
Definition w_u64 (v : Z) : list Z := le_bytes 8 v.
Definition w_i64 (v : Z) : list Z := w_u64 (u64 v).
Definition w_f64 (v : double) : list Z := w_u64 v.
Definition w_str (s : string) : list Z :=
  w_u64 (Z.of_nat (String.length s)) ++ string_bytes s.
Definition w_raw (p : list Z) : list Z := p.
Definition w_strong (id : Z) : list Z := w_u64 id.
Definition w_bool (b : bool) : list Z := w_u8 (if b then 1 else 0).

(** [w.u8(static_cast<std::uint8_t>(e))]. *)
Definition w_enum {X} `{CEnum X} (x : X) : list Z := w_u8 (to_int x).

(** ** Reader *)

Definition Reader (A : Type) : Type := list Z → Result (A * list Z).

#[global] Instance reader_ret : MRet Reader := λ A a bs, Ok (a, bs).
#[global] Instance reader_bind : MBind Reader := λ A B k rd bs,
  match rd bs with Ok (a, rest) => k a rest | Err e => Err e end.

Definition r_fail {A} (e : ErrorInfo) : Reader A := λ _, Err e.

Definition err_trunc : ErrorInfo := mkErrorInfo ErrorCode_truncation "truncated persistence blob".

Definition r_remaining (bs : list Z) : Z := Z.of_nat (length bs).

(** [v |= byte << (8 * i)] over the octets in order. *)
Fixpoint le_value (bs : list Z) : Z :=
  match bs with
  | [] => 0
  | b :: bs => Z.lor b (Z.shiftl (le_value bs) 8)
  end.

(** Consume [n] octets: the bound [n > len_ - off_] is tested first. *)
Definition r_raw_bytes (n : Z) : Reader (list Z) := λ bs,
  if r_remaining bs <? n then Err err_trunc
  else Ok (take (Z.to_nat n) bs, drop (Z.to_nat n) bs).

Definition r_u8 : Reader Z := l ← r_raw_bytes 1; mret (le_value l).
Definition r_u16 : Reader Z := l ← r_raw_bytes 2; mret (le_value l).
Definition r_u32 : Reader Z := l ← r_raw_bytes 4; mret (le_value l).
Definition r_u64 : Reader Z := l ← r_raw_bytes 8; mret (le_value l).
Definition r_i64 : Reader Z := v ← r_u64; mret (i64 v).
Definition r_f64 : Reader double := r_u64.
Definition r_strong : Reader Z := r_u64.

Fixpoint bytes_string (bs : list Z) : string :=
  match bs with
  | [] => EmptyString
  | b :: bs => String (Ascii.ascii_of_N (Z.to_N b)) (bytes_string bs)
  end.

(** The characters of a string whose length was read. *)
Definition r_chars (n : Z) : Reader string := λ bs,
  if r_remaining bs <? n then Err err_trunc
  else if Z.shiftl 1 32 <? n then err ErrorCode_corrupt_state "string length unreasonable"
  else Ok (bytes_string (take (Z.to_nat n) bs), drop (Z.to_nat n) bs).

Definition r_str : Reader string := n ← r_u64; r_chars n.

(** [u8.value() != 0]. *)
Definition r_bool : Reader bool := v ← r_u8; mret (negb (v =? 0)).

(** [static_cast<X>(u8.value())]. *)
Definition r_enum (X : Type) `{CEnum X} : Reader X := v ← r_u8; mret (of_int v).

(** [static_cast<int>(u32.value())]. *)
Definition r_int : Reader Z := v ← r_u32; mret (i32 v).

(** [for (i = 0; i < n; ++i) v.push_back(rd())]. *)
Fixpoint r_times {A} (n : nat) (rd : Reader A) : Reader (list A) :=
  match n with
  | O => mret []
  | S n => x ← rd; l ← r_times n rd; mret (x :: l)
  end.

(** Read a count, refuse it above [limit], and read that many items. *)
Definition r_vector {A} (limit : Z) (e : ErrorInfo) (rd : Reader A) : Reader (list A) :=
  n ← r_u64;
  if limit <? n then r_fail e else r_times (Z.to_nat n) rd.

(** The octets of [n] items after their count. *)
Definition w_vector {A} (w : A → list Z) (l : list A) : list Z :=
  w_u64 (Z.of_nat (length l)) ++ concat (w <$> l).

(** ** The contract of a reader *)

Record codec {A} (rd : Reader A) (bs : list Z) (a : A) : Prop := {
  codec_reads : ∀ rest, rd (bs ++ rest) = Ok (a, rest);
  codec_truncated : ∀ p, p `prefix_of` bs → p ≠ bs → rd p = Err err_trunc
}.

Lemma codec_ret {A} (a : A) : codec (mret a) [] a.
Proof. split; [done|]. intros p [k Hp] Hne. by destruct p. Qed.

Lemma codec_bind {A B} (rd : Reader A) (k : A → Reader B) b1 b2 a b :
  codec rd b1 a → codec (k a) b2 b → codec (rd ≫= k) (b1 ++ b2) b.
Proof.
  intros [H1 T1] [H2 T2]. split.
  - intros rest. unfold mbind, reader_bind. by rewrite <- app_assoc, H1, H2.
  - intros p Hp Hne. unfold mbind, reader_bind.
    destruct (decide (p `prefix_of` b1)) as [Hp1|Hp1].
    + destruct (decide (p = b1)) as [->|Hn].
      * rewrite <- (app_nil_r b1), H1. apply T2; [apply prefix_nil|].
        intros <-. by rewrite app_nil_r in Hne.
      * by rewrite (T1 p Hp1 Hn).
    + destruct (prefix_weak_total p b1 (b1 ++ b2) Hp) as [?|[p2 ->]]; [by apply prefix_app_r|done|].
      rewrite H1. apply T2; [by eapply prefix_app_inv|]. by intros ->.
Qed.

(** A last step that only transforms the value. *)
Lemma codec_map {A B} (rd : Reader A) (f : A → B) bs a :
  codec rd bs a → codec (x ← rd; mret (f x)) bs (f a).
Proof.
  intros H. rewrite <- (app_nil_r bs). eapply codec_bind; [done|apply codec_ret].
Qed.

(** ** Codecs of the primitive types *)

Lemma le_bytes_length n v : length (le_bytes n v) = n.
Proof. revert v. induction n; intros; simpl; auto. Qed.

Lemma le_bytes_u8 n v : Forall is_u8 (le_bytes n v).
Proof.
  revert v. induction n as [|n IH]; intros v; simpl; constructor; [|apply IH].
  change 255 with (Z.ones 8). rewrite Z.land_ones by lia. apply (u8_range v).
Qed.

Lemma le_value_bytes n v : le_value (le_bytes n v) = v mod 2 ^ (8 * Z.of_nat n).
Proof.
  revert v. induction n as [|n IH]; intros v; cbn [le_bytes le_value].
  { by rewrite Z.mod_1_r. }
  rewrite IH, <- !Z.land_ones by lia. change 255 with (Z.ones 8).
  apply Z.bits_inj'. intros i Hi. rewrite Z.lor_spec, !Z.land_spec.
  destruct (decide (i < 8)) as [Hlt|Hge].
  - rewrite Z.shiftl_spec_low by lia. rewrite !Z.ones_spec_low by lia. by rewrite orb_false_r.
  - rewrite Z.shiftl_spec, Z.land_spec, Z.shiftr_spec by lia.
    rewrite (Z.ones_spec_high 8) by lia. rewrite andb_false_r. cbn [orb].
    replace (i - 8 + 8) with i by lia. f_equal.
    destruct (decide (i < 8 * Z.of_nat (S n))).
    + rewrite !Z.ones_spec_low; [done|lia..].
    + rewrite !Z.ones_spec_high; [done|lia..].
Qed.

Lemma lor_octet b v : is_u8 b → Z.lor b (Z.shiftl v 8) = b + 2 ^ 8 * v.
Proof.
  intros Hb. rewrite (Z.mul_comm _ v), <- Z.shiftl_mul_pow2, <- Z.add_lor_land by lia.
  enough (Z.land b (Z.shiftl v 8) = 0) by lia.
  apply Z.bits_inj'. intros j Hj. rewrite Z.land_spec, Z.bits_0.
  destruct (decide (j < 8)); [rewrite Z.shiftl_spec_low by lia; apply andb_false_r|].
  rewrite <- (u8_small b Hb). unfold u8. by rewrite Z.mod_pow2_bits_high by lia.
Qed.

Lemma le_value_range l : Forall is_u8 l → 0 <= le_value l < 2 ^ (8 * Z.of_nat (length l)).
Proof.
  intros Hl. induction Hl as [|b l Hb Hl IH]; [simpl; lia|]. cbn [le_value length].
  rewrite lor_octet by done. unfold is_u8 in Hb.
  replace (2 ^ (8 * Z.of_nat (S (length l)))) with (2 ^ 8 * 2 ^ (8 * Z.of_nat (length l)))
    by (rewrite <- Z.pow_add_r by lia; f_equal; lia).
  nia.
Qed.

Lemma le_bytes_value l : Forall is_u8 l → le_bytes (length l) (le_value l) = l.
Proof.
  intros Hl. induction Hl as [|b l Hb Hl IH]; [done|]. cbn [le_value length le_bytes].
  rewrite lor_octet by done. unfold is_u8 in Hb.
  change 255 with (Z.ones 8). rewrite Z.land_ones, Z.shiftr_div_pow2 by lia.
  rewrite (Z.mul_comm (2 ^ 8)), Z_mod_plus_full, Z.div_add, Z.mod_small, Z.div_small by lia.
  f_equal. exact IH.
Qed.

(** Changing one octet of an integer changes the integer. *)
Lemma le_bytes_insert n v i b b0 :
  is_u8 b → le_bytes n v !! i = Some b0 → b ≠ b0 →
  ∃ v', <[i := b]> (le_bytes n v) = le_bytes n v' ∧
        0 <= v' < 2 ^ (8 * Z.of_nat n) ∧ v' ≠ v.
Proof.
  intros Hb Hi Hne. set (l := <[i := b]> (le_bytes n v)).
  assert (Forall is_u8 l) as Hl by (apply Forall_insert; [apply le_bytes_u8|done]).
  assert (length l = n) as Hn by (unfold l; by rewrite length_insert, le_bytes_length).
  exists (le_value l). pose proof (le_bytes_value l Hl) as Hv. pose proof (le_value_range l Hl) as Hr.
  rewrite Hn in Hv, Hr. split_and!; [done|lia..|]. intros Heq.
  rewrite Heq in Hv. assert (l !! i = Some b) as Hlb.
  { unfold l. apply list_lookup_insert_eq. by eapply lookup_lt_Some. }
  rewrite <- Hv, Hi in Hlb. congruence.
Qed.

(** The same for an integer field inside a record. *)
Lemma field_insert pre n v post i b b0 :
  is_u8 b → (pre ++ le_bytes n v ++ post) !! i = Some b0 → b ≠ b0 →
  (length pre <= i < length pre + n)%nat →
  ∃ v', <[i := b]> (pre ++ le_bytes n v ++ post) = pre ++ le_bytes n v' ++ post ∧
        0 <= v' < 2 ^ (8 * Z.of_nat n) ∧ v' ≠ v.
Proof.
  intros Hb Hi Hne Hr. pose proof (le_bytes_length n v) as Hn.
  rewrite lookup_app_r, lookup_app_l in Hi by lia.
  destruct (le_bytes_insert n v (i - length pre) b b0 Hb Hi Hne) as (v' & Hv & ? & ?).
  exists v'. split; [|done]. rewrite insert_app_r_alt, insert_app_l by lia. by rewrite Hv.
Qed.

Lemma codec_raw_bytes bs n : n = Z.of_nat (length bs) → codec (r_raw_bytes n) bs bs.
Proof.
  intros ->. split.
  - intros rest. unfold r_raw_bytes, r_remaining. rewrite length_app, (proj2 (Z.ltb_ge _ _)) by lia.
    by rewrite Nat2Z.id, take_app_length, drop_app_length.
  - intros p Hp Hne. unfold r_raw_bytes, r_remaining. rewrite (proj2 (Z.ltb_lt _ _)); [done|].
    pose proof (prefix_length _ _ Hp). enough (length p ≠ length bs) by lia.
    intros Hl. by apply Hne, prefix_length_eq; [|lia].
Qed.

Lemma codec_le n v w :
  w = Z.of_nat n → codec (l ← r_raw_bytes w; mret (le_value l)) (le_bytes n v)
                     (v mod 2 ^ (8 * Z.of_nat n)).
Proof.
  intros ->. rewrite <- le_value_bytes. apply codec_map, codec_raw_bytes. by rewrite le_bytes_length.
Qed.

Lemma codec_u8 v : is_u8 v → codec r_u8 (w_u8 v) v.
Proof.
  intros H. unfold w_u8. rewrite (u8_small v H).
  replace v with (le_value [v]) at 2 by (simpl; by rewrite Z.lor_0_r).
  by apply codec_map, codec_raw_bytes.
Qed.

Lemma codec_u16 v : 0 <= v < 2 ^ 16 → codec r_u16 (w_u16 v) v.
Proof.
  intros H. pose proof (codec_le 2 v 2 eq_refl) as Hc.
  by rewrite Z.mod_small in Hc by (simpl; lia).
Qed.

Lemma codec_u32_wrap v : codec r_u32 (w_u32 v) (u32 v).
Proof. exact (codec_le 4 v 4 eq_refl). Qed.

Lemma codec_u64_wrap v : codec r_u64 (w_u64 v) (u64 v).
Proof. exact (codec_le 8 v 8 eq_refl). Qed.

Lemma codec_u32 v : is_u32 v → codec r_u32 (w_u32 v) v.
Proof. intros H. pose proof (codec_u32_wrap v) as Hc. by rewrite (u32_small v H) in Hc. Qed.

Lemma codec_u64 v : is_u64 v → codec r_u64 (w_u64 v) v.
Proof. intros H. pose proof (codec_u64_wrap v) as Hc. by rewrite (u64_small v H) in Hc. Qed.

Lemma codec_strong v : is_u64 v → codec r_strong (w_strong v) v.
Proof. apply codec_u64. Qed.

Lemma codec_f64 v : is_u64 v → codec r_f64 (w_f64 v) v.
Proof. apply codec_u64. Qed.

Lemma codec_i64 v : is_i64 v → codec r_i64 (w_i64 v) v.
Proof.
  intros H. rewrite <- (i64_u64 v H) at 2. unfold w_i64.
  apply (codec_map r_u64 i64). apply codec_u64, u64_range.
Qed.

Lemma codec_int v : is_i32 v → codec r_int (w_u32 (u32 v)) v.
Proof.
  intros H. rewrite <- (i32_u32 v H) at 2. apply (codec_map r_u32 i32). apply codec_u32, u32_range.
Qed.

Lemma codec_bool b : codec r_bool (w_bool b) b.
Proof.
  replace b with (negb ((if b then 1 else 0) =? 0)) at 2 by (by destruct b).
  apply (codec_map r_u8 (λ v, negb (v =? 0))). apply codec_u8. unfold is_u8. destruct b; lia.
Qed.

(** An enumeration value that survives the cast to an octet and back. *)
Definition enum_byte {X} `{CEnum X} (x : X) : Prop := is_u8 (to_int x) ∧ of_int (to_int x) = x.
#[global] Instance enum_byte_dec {X} `{CEnum X} `{EqDecision X} (x : X) : Decision (enum_byte x).
Proof. unfold enum_byte; apply _. Defined.

Lemma codec_enum {X} `{CEnum X} (x : X) : enum_byte x → codec (r_enum X) (w_enum x) x.
Proof.
  intros [Hb Hx]. rewrite <- Hx at 2. apply (codec_map r_u8 of_int). by apply codec_u8.
Qed.

(** An enumeration value keeps its low octet. *)
Lemma codec_enum_low {X} `{CEnum X} (x : X) :
  codec (r_enum X) (w_u8 (to_int x)) (of_int (u8 (to_int x))).
Proof.
  apply (codec_map r_u8 of_int).
  replace (w_u8 (to_int x)) with (w_u8 (u8 (to_int x))); [apply codec_u8, u8_range|].
  unfold w_u8. by rewrite (u8_small (u8 _)) by apply u8_range.
Qed.

Lemma string_bytes_length s : length (string_bytes s) = String.length s.
Proof. induction s; simpl; auto. Qed.

Lemma string_bytes_u8 s : Forall is_u8 (string_bytes s).
Proof.
  induction s as [|c s IH]; simpl; constructor; [|done].
  pose proof (Ascii.N_ascii_bounded c). unfold is_u8. lia.
Qed.

Lemma bytes_string_bytes s : bytes_string (string_bytes s) = s.
Proof.
  induction s as [|c s IH]; simpl; [done|].
  by rewrite IH, N2Z.id, Ascii.ascii_N_embedding.
Qed.

(** A string the format can hold. *)
Definition short_string (s : string) : Prop := Z.of_nat (String.length s) <= 2 ^ 32.
#[global] Instance short_string_dec s : Decision (short_string s).
Proof. unfold short_string; apply _. Defined.

Lemma codec_str s : short_string s → codec r_str (w_str s) s.
Proof.
  intros Hs. unfold short_string in Hs.
  apply (codec_bind r_u64 r_chars _ _ (Z.of_nat (String.length s))).
  { apply codec_u64. unfold is_u64. lia. }
  rewrite <- string_bytes_length in *. destruct (codec_raw_bytes (string_bytes s) _ eq_refl) as [Hr Ht].
  unfold r_raw_bytes in Hr, Ht. split.
  - intros rest. specialize (Hr rest). unfold r_chars. destruct (_ <? _); [done|].
    rewrite (proj2 (Z.ltb_ge _ _)) by (change (Z.shiftl 1 32) with (2 ^ 32); lia).
    injection Hr as -> ->. by rewrite bytes_string_bytes.
  - intros p Hp Hne. specialize (Ht p Hp Hne). unfold r_chars. by destruct (_ <? _).
Qed.

(** ** Lengths *)

Lemma w_str_length s : short_string s → Z.of_nat (length (w_str s)) <= 2 ^ 32 + 8.
Proof.
  unfold short_string, w_str. intros Hs. rewrite length_app, string_bytes_length.
  unfold w_u64. rewrite le_bytes_length. lia.
Qed.

Lemma w_vector_length {A} (w : A → list Z) l b :
  Forall (λ x, Z.of_nat (length (w x)) <= b) l →
  Z.of_nat (length (w_vector w l)) <= 8 + Z.of_nat (length l) * b.
Proof.
  intros Hl. unfold w_vector, w_u64. rewrite length_app, le_bytes_length.
  enough (Z.of_nat (length (concat (w <$> l))) <= Z.of_nat (length l) * b) by lia.
  induction Hl as [|x l Hx Hl IH]; [done|]. cbn. rewrite length_app. lia.
Qed.

(** The length of a record: its strings are short, its other fields fixed. *)
Ltac payload_length :=
  destruct_and?; unfold w_strong, w_bool, w_enum, w_u8, w_u32, w_u64; rewrite !length_app, ?le_bytes_length;
  repeat match goal with
    | H : short_string ?x |- _ => apply w_str_length in H
  end; cbn [length]; lia.

(** ** Sequences *)

Lemma codec_times_map {A} (rd : Reader A) (w : A → list Z) (f : A → A) l :
  (∀ x, x ∈ l → codec rd (w x) (f x)) →
  codec (r_times (length l) rd) (concat (w <$> l)) (f <$> l).
Proof.
  induction l as [|x l IH]; intros H; simpl; [apply codec_ret|].
  eapply codec_bind; [apply H; left|]. apply (codec_map _ (cons (f x))). apply IH.
  intros y Hy. apply H. by right.
Qed.

Lemma codec_vector_map {A} limit e (rd : Reader A) (w : A → list Z) (f : A → A) l :
  (∀ x, x ∈ l → codec rd (w x) (f x)) → Z.of_nat (length l) <= limit < 2 ^ 64 →
  codec (r_vector limit e rd) (w_vector w l) (f <$> l).
Proof.
  intros H Hl. eapply codec_bind.
  { apply codec_u64. unfold is_u64. lia. }
  rewrite (proj2 (Z.ltb_ge _ _)) by lia. rewrite Nat2Z.id. by apply codec_times_map.
Qed.

Lemma codec_times {A} (rd : Reader A) (w : A → list Z) l :
  (∀ x, x ∈ l → codec rd (w x) x) → codec (r_times (length l) rd) (concat (w <$> l)) l.
Proof. intros H. rewrite <- (list_fmap_id l) at 3. by apply codec_times_map. Qed.

Lemma codec_vector {A} limit e (rd : Reader A) (w : A → list Z) l :
  (∀ x, x ∈ l → codec rd (w x) x) → Z.of_nat (length l) <= limit < 2 ^ 64 →
  codec (r_vector limit e rd) (w_vector w l) l.
Proof. intros H Hl. rewrite <- (list_fmap_id l) at 2. by apply codec_vector_map. Qed.

(** Octets are octets. *)
Lemma w_u8_u8 v : Forall is_u8 (w_u8 v).
Proof. constructor; [apply u8_range|constructor]. Qed.

Lemma w_str_u8 s : Forall is_u8 (w_str s).
Proof. apply Forall_app. split; [apply le_bytes_u8|apply string_bytes_u8]. Qed.

Lemma w_vector_u8 {A} (w : A → list Z) l :
  (∀ x, Forall is_u8 (w x)) → Forall is_u8 (w_vector w l).
Proof.
  intros H. apply Forall_app. split; [apply le_bytes_u8|].
  induction l; simpl; [constructor|]. by apply Forall_app.
Qed.

Create HintDb codec.
#[export] Hint Resolve codec_ret codec_u8 codec_u16 codec_u32 codec_u64 codec_strong codec_f64
  codec_i64 codec_int codec_bool codec_enum codec_str : codec.
#[export] Hint Resolve le_bytes_u8 w_u8_u8 w_str_u8 w_vector_u8 : codec.

Lemma codec_last {A B} (rd : Reader A) (f : A → B) bs a b :
  codec rd bs a → f a = b → codec (x ← rd; mret (f x)) bs b.
Proof. intros H <-. by apply codec_map. Qed.

(** Walk through the fields of a record; the last one returns it. *)
Ltac codec_fields :=
  repeat (eapply codec_bind; [solve [eauto with codec]|]); cbv beta;
  first [apply codec_ret | eapply codec_last; [solve [eauto with codec]|reflexivity]].

(** A record whose fields are in range, [ok], is a codec field by field. *)
Ltac destruct_and_hyp := repeat match goal with H : _ ∧ _ |- _ => destruct H end.
Ltac record_codec ok read write :=
  let H := fresh in
  intros H; unfold ok in H; destruct_and_hyp; unfold read, write; codec_fields.

(** ** What a reader can return

    [yields rd P]: from octets, whatever [rd] accepts satisfies [P]. *)

Definition yields {A} (rd : Reader A) (P : A → Prop) : Prop :=
  ∀ bs a rest, Forall is_u8 bs → rd bs = Ok (a, rest) → P a ∧ Forall is_u8 rest.

Lemma yields_ret {A} (P : A → Prop) a : P a → yields (mret a) P.
Proof. intros Ha bs a' rest Hbs [= <- <-]. done. Qed.

Lemma yields_bind {A B} (P : A → Prop) (Q : B → Prop) (rd : Reader A) (k : A → Reader B) :
  yields rd P → (∀ a, P a → yields (k a) Q) → yields (rd ≫= k) Q.
Proof.
  intros Hrd Hk bs b rest Hbs H. unfold mbind, reader_bind in H.
  destruct (rd bs) as [[a r]|] eqn:E; [|done].
  destruct (Hrd bs a r Hbs E) as [Ha Hr]. by apply (Hk a Ha r).
Qed.

Lemma yields_raw n : 0 <= n →
  yields (r_raw_bytes n) (λ l, Forall is_u8 l ∧ Z.of_nat (length l) = n).
Proof.
  intros Hn bs a rest Hbs H. unfold r_raw_bytes, r_remaining in H. case_if_in H; [done|].
  injection H as <- <-. split_and!; [by apply Forall_take|rewrite length_take; lia|by apply Forall_drop].
Qed.

Lemma yields_le n : 0 <= n →
  yields (l ← r_raw_bytes n; mret (le_value l)) (λ v, 0 <= v < 2 ^ (8 * n)).
Proof.
  intros Hn. eapply yields_bind; [by apply yields_raw|]. intros l [Hl <-].
  apply yields_ret. by apply le_value_range.
Qed.

Lemma yields_u8 : yields r_u8 is_u8.
Proof. by apply (yields_le 1). Qed.
Lemma yields_u32 : yields r_u32 is_u32.
Proof. by apply (yields_le 4). Qed.
Lemma yields_u64 : yields r_u64 is_u64.
Proof. by apply (yields_le 8). Qed.
Lemma yields_strong : yields r_strong is_u64.
Proof. apply yields_u64. Qed.
Lemma yields_f64 : yields r_f64 is_u64.
Proof. apply yields_u64. Qed.
Lemma yields_i64 : yields r_i64 is_i64.
Proof. eapply yields_bind; [apply yields_u64|]. intros v _. apply yields_ret, i64_range. Qed.
Lemma yields_int : yields r_int is_i32.
Proof. eapply yields_bind; [apply yields_u32|]. intros v _. apply yields_ret, i32_range. Qed.
Lemma yields_bool : yields r_bool (λ _, True).
Proof. eapply yields_bind; [apply yields_u8|]. intros v _. by apply yields_ret. Qed.

Lemma yields_enum {X} `{CEnum X} : yields (r_enum X) enum_byte.
Proof.
  eapply yields_bind; [apply yields_u8|]. intros v Hv. apply yields_ret.
  unfold enum_byte. by rewrite to_of_int.
Qed.

Lemma bytes_string_length bs : String.length (bytes_string bs) = length bs.
Proof. induction bs; simpl; auto. Qed.

Lemma yields_str : yields r_str short_string.
Proof.
  eapply yields_bind; [apply yields_u64|]. intros n Hn bs a rest Hbs H.
  unfold r_chars, r_remaining, is_u64 in *. do 2 (case_if_in H; [done|]). injection H as <- <-.
  split; [|by apply Forall_drop]. unfold short_string. rewrite bytes_string_length, length_take.
  change (Z.shiftl 1 32) with (2 ^ 32) in *. lia.
Qed.

Lemma yields_times {A} (P : A → Prop) rd n :
  yields rd P → yields (r_times n rd) (λ l, Forall P l ∧ length l = n).
Proof.
  intros Hrd. induction n as [|n IH]; simpl; [by apply yields_ret|].
  eapply yields_bind; [done|]. intros x Hx. eapply yields_bind; [done|]. intros l [Hl <-].
  apply yields_ret. split; [by constructor|done].
Qed.

Lemma yields_vector {A} (P : A → Prop) limit e rd :
  yields rd P → yields (r_vector limit e rd) (λ l, Forall P l ∧ Z.of_nat (length l) <= limit).
Proof.
  intros Hrd. eapply yields_bind; [apply yields_u64|]. intros n Hn. unfold is_u64 in Hn.
  case_if; [intros bs a rest _ H; done|].
  intros bs a rest Hbs H. destruct (yields_times P rd _ Hrd bs a rest Hbs H) as [[Hl Hlen] Hr].
  split_and!; [done|lia|done].
Qed.

Create HintDb yields.
#[export] Hint Resolve yields_u8 yields_u32 yields_u64 yields_strong yields_f64 yields_i64
  yields_int yields_bool yields_enum yields_str : yields.

(** Walk through the fields; the facts gathered prove the record's predicate. *)
Ltac yields_fields :=
  repeat (eapply yields_bind; [solve [eauto with yields]|intros ? ?]); cbv beta in *;
  apply yields_ret.
