(* ===== verification/Persist.v ===== *)
(** * Persistence format ([persistence.hpp], [persistence.cpp])

    The records of a persisted snapshot, their octets, the checksummed blob and
    its validation, and the file operations on top of them. *)

From S2P Require Import Prelude Float Types Compat Bytes.

Definition kPersistenceMagic : Z := 0x50524631.
Definition kPersistenceVersion : Z := 1.

(** ** Records *)

Record PersistedRequestRecord := mkPersistedRequestRecord {
  pr_request_id : RequestId;
  pr_attempt_id : AttemptId;
  pr_tenant_id : TenantId;
  pr_model : ModelKey;
  pr_adapter_id : AdapterId;
  pr_relation : AdapterRelation;
  pr_prompt_token_count : Z;
  pr_cached_tokens : Z;
  pr_completed_uncached_tokens : Z;
  pr_current_generation : Generation;
  pr_parent_generation : Generation;
  pr_next_chunk_token_start : Z;
  pr_work_kind : WorkKind;
  pr_lifecycle : Lifecycle;
  pr_priority : Z;
  pr_tenant_weight : double;
  pr_normalized_service : double;
  pr_last_chunk_token_count : Z;
  pr_completed_token_total : Z;
  pr_needs_recovery_full_prefill : bool;
  pr_vocab : VocabSpec;
  pr_numeric_mode : NumericMode;
  pr_latency_class : LatencyClass;
  pr_deadline_ns : Z;
  pr_arrival_ns : Z;
  pr_has_deadline : bool;
  pr_has_queue_delay : bool;
  pr_max_queue_delay_ns : Z
}.

Record PersistedWorkerRecord := mkPersistedWorkerRecord {
  pw_worker_id : WorkerId;
  pw_boot_id : WorkerBootId;
  pw_host : string;
  pw_port : Z;
  pw_backend : string;
  pw_state : WorkerState;
  pw_capacity_units : Z
}.

Record PersistedTenantRecord := mkPersistedTenantRecord {
  pt_tenant_id : TenantId;
  pt_weight : double;
  pt_scheduled_tokens : Z;
  pt_completed_requests : Z;
  pt_wait_total_ns : Z;
  pt_outstanding : Z;
  pt_normalized_service : double
}.

Record PersistedState := mkPersistedState {
  ps_magic : Z;
  ps_version : Z;
  ps_epoch : Epoch;
  ps_next_generation_value : Z;
  ps_next_attempt_value : Z;
  ps_requests : list PersistedRequestRecord;
  ps_workers : list PersistedWorkerRecord;
  ps_tenants : list PersistedTenantRecord;
  ps_was_clean_shutdown : bool
}.

(** ** Record codecs *)

Definition write_req (r : PersistedRequestRecord) : list Z :=
  w_strong (pr_request_id r) ++
  w_strong (pr_attempt_id r) ++
  w_strong (pr_tenant_id r) ++
  w_str (mk_name (pr_model r)) ++
  w_str (mk_revision (pr_model r)) ++
  w_strong (pr_adapter_id r) ++
  w_enum (pr_relation r) ++
  w_u64 (pr_prompt_token_count r) ++
  w_u64 (pr_cached_tokens r) ++
  w_u64 (pr_completed_uncached_tokens r) ++
  w_strong (pr_current_generation r) ++
  w_strong (pr_parent_generation r) ++
  w_u64 (pr_next_chunk_token_start r) ++
  w_enum (pr_work_kind r) ++
  w_enum (pr_lifecycle r) ++
  w_u32 (u32 (pr_priority r)) ++
  w_f64 (pr_tenant_weight r) ++
  w_f64 (pr_normalized_service r) ++
  w_u64 (pr_last_chunk_token_count r) ++
  w_u64 (pr_completed_token_total r) ++
  w_bool (pr_needs_recovery_full_prefill r) ++
  w_str (vs_tokenizer (pr_vocab r)) ++
  w_u64 (vs_vocab_size (pr_vocab r)) ++
  w_enum (pr_numeric_mode r) ++
  w_enum (pr_latency_class r) ++
  w_i64 (pr_deadline_ns r) ++
  w_i64 (pr_arrival_ns r) ++
  w_bool (pr_has_deadline r) ++
  w_bool (pr_has_queue_delay r) ++
  w_i64 (pr_max_queue_delay_ns r).

Definition read_req : Reader PersistedRequestRecord :=
  request_id ← r_strong;
  attempt_id ← r_strong;
  tenant_id ← r_strong;
  model_name ← r_str;
  model_revision ← r_str;
  adapter_id ← r_strong;
  relation ← r_enum AdapterRelation;
  prompt_token_count ← r_u64;
  cached_tokens ← r_u64;
  completed_uncached_tokens ← r_u64;
  current_generation ← r_strong;
  parent_generation ← r_strong;
  next_chunk_token_start ← r_u64;
  work_kind ← r_enum WorkKind;
  lifecycle ← r_enum Lifecycle;
  priority ← r_int;
  tenant_weight ← r_f64;
  normalized_service ← r_f64;
  last_chunk_token_count ← r_u64;
  completed_token_total ← r_u64;
  needs_recovery_full_prefill ← r_bool;
  tokenizer ← r_str;
  vocab_size ← r_u64;
  numeric_mode ← r_enum NumericMode;
  latency_class ← r_enum LatencyClass;
  deadline_ns ← r_i64;
  arrival_ns ← r_i64;
  has_deadline ← r_bool;
  has_queue_delay ← r_bool;
  max_queue_delay_ns ← r_i64;
  mret (mkPersistedRequestRecord request_id attempt_id tenant_id
          (mkModelKey model_name model_revision) adapter_id relation prompt_token_count
          cached_tokens completed_uncached_tokens current_generation parent_generation
          next_chunk_token_start work_kind lifecycle priority tenant_weight
          normalized_service last_chunk_token_count completed_token_total
          needs_recovery_full_prefill (mkVocabSpec tokenizer vocab_size) numeric_mode
          latency_class deadline_ns arrival_ns has_deadline has_queue_delay
          max_queue_delay_ns).

Definition write_worker (a : PersistedWorkerRecord) : list Z :=
  w_strong (pw_worker_id a) ++
  w_strong (pw_boot_id a) ++
  w_str (pw_host a) ++
  w_u32 (pw_port a) ++
  w_str (pw_backend a) ++
  w_enum (pw_state a) ++
  w_u64 (pw_capacity_units a).

Definition read_worker : Reader PersistedWorkerRecord :=
  worker_id ← r_strong;
  boot_id ← r_strong;
  host ← r_str;
  port ← r_u32;
  backend ← r_str;
  state ← r_enum WorkerState;
  capacity_units ← r_u64;
  mret (mkPersistedWorkerRecord worker_id boot_id host port backend state capacity_units).

Definition write_tenant (t : PersistedTenantRecord) : list Z :=
  w_strong (pt_tenant_id t) ++
  w_f64 (pt_weight t) ++
  w_u64 (pt_scheduled_tokens t) ++
  w_u64 (pt_completed_requests t) ++
  w_i64 (pt_wait_total_ns t) ++
  w_u64 (pt_outstanding t) ++
  w_f64 (pt_normalized_service t).

Definition read_tenant : Reader PersistedTenantRecord :=
  tenant_id ← r_strong;
  weight ← r_f64;
  scheduled_tokens ← r_u64;
  completed_requests ← r_u64;
  wait_total_ns ← r_i64;
  outstanding ← r_u64;
  normalized_service ← r_f64;
  mret (mkPersistedTenantRecord tenant_id weight scheduled_tokens completed_requests
          wait_total_ns outstanding normalized_service).

(** ** The blob *)

Definition write_payload (st : PersistedState) : list Z :=
  w_strong (ps_epoch st) ++
  w_u64 (ps_next_generation_value st) ++
  w_u64 (ps_next_attempt_value st) ++
  w_bool (ps_was_clean_shutdown st) ++
  w_vector write_req (ps_requests st) ++
  w_vector write_worker (ps_workers st) ++
  w_vector write_tenant (ps_tenants st).

Definition checksum_of (payload : list Z) : Z := fnv1a64 1469598103934665603 payload.

Definition serialize_state (st : PersistedState) : Result (list Z) :=
  let pl := write_payload st in
  Ok (w_u32 (ps_magic st) ++
      w_u32 (ps_version st) ++
      w_u32 0 ++
      w_u64 (Z.of_nat (length pl)) ++
      w_u64 (checksum_of pl) ++
      w_raw pl).

Definition read_payload (magic version : Z) : Reader PersistedState :=
  epoch ← r_strong;
  next_generation_value ← r_u64;
  next_attempt_value ← r_u64;
  was_clean_shutdown ← r_bool;
  requests ← r_vector (Z.shiftl 1 24)
    (mkErrorInfo ErrorCode_corrupt_state "unreasonable request count") read_req;
  workers ← r_vector (Z.shiftl 1 20)
    (mkErrorInfo ErrorCode_corrupt_state "unreasonable worker count") read_worker;
  tenants ← r_vector (Z.shiftl 1 20)
    (mkErrorInfo ErrorCode_corrupt_state "unreasonable tenant count") read_tenant;
  mret (mkPersistedState magic version epoch next_generation_value next_attempt_value
          requests workers tenants was_clean_shutdown).

(** The semantic validation of one record; [ok] if it passes. *)
Definition check_record (rec : PersistedRequestRecord) : ErrorInfo :=
  if (to_int (pr_lifecycle rec) <? to_int Lifecycle_submitted)
     || (to_int Lifecycle_rejected <? to_int (pr_lifecycle rec)) then
    mkErrorInfo ErrorCode_corrupt_state "bad lifecycle in record"
  else if pr_prompt_token_count rec <? pr_cached_tokens rec then
    mkErrorInfo ErrorCode_corrupt_state "cached_tokens exceeds prompt length"
  else ErrorInfo_default.

Fixpoint check_records (l : list PersistedRequestRecord) : ErrorInfo :=
  match l with
  | [] => ErrorInfo_default
  | rec :: l =>
      let e := check_record rec in
      if bool_decide (ei_code e = ErrorCode_ok) then check_records l else e
  end.

(** The five header fields. *)
Definition read_header : Reader (Z * Z * Z * Z * Z) :=
  magic ← r_u32;
  version ← r_u32;
  flags ← r_u32;
  plen ← r_u64;
  stored_checksum ← r_u64;
  mret (magic, version, flags, plen, stored_checksum).

Definition deserialize_state (blob : list Z) : Result PersistedState :=
  match read_header blob with
  | Err e => Err e
  | Ok ((magic, version, flags, plen, stored_checksum), rest) =>
      if negb (magic =? kPersistenceMagic) then err ErrorCode_corrupt_state "bad magic"
      else if negb (version =? kPersistenceVersion) then
        err ErrorCode_unknown_version "unsupported persistence version"
      else if r_remaining rest <? plen then
        err ErrorCode_truncation "payload length exceeds blob"
      else
        let payload := take (Z.to_nat plen) rest in
        if negb (checksum_of payload =? stored_checksum) then
          err ErrorCode_checksum_mismatch "checksum mismatch"
        else
          match read_payload magic version payload with
          | Err e => Err e
          | Ok (s, unread) =>
              if negb (r_remaining unread =? 0) then
                err ErrorCode_corrupt_state "trailing bytes in payload"
              else
                let e := check_records (ps_requests s) in
                if bool_decide (ei_code e = ErrorCode_ok) then Ok s else Err e
          end
  end.

(** ** States the format can hold

    [state_ok] says which snapshots survive: every field in the range of its
    C++ type, enumerations that fit an octet, strings and vectors within the
    reader's limits, and records that pass the semantic validation.  It is both
    sufficient (round trip) and necessary (what the reader accepts). *)

Definition req_ok (r : PersistedRequestRecord) : Prop :=
  is_u64 (pr_request_id r) ∧ is_u64 (pr_attempt_id r) ∧ is_u64 (pr_tenant_id r) ∧
  short_string (mk_name (pr_model r)) ∧ short_string (mk_revision (pr_model r)) ∧
  is_u64 (pr_adapter_id r) ∧ enum_byte (pr_relation r) ∧
  is_u64 (pr_prompt_token_count r) ∧ is_u64 (pr_cached_tokens r) ∧
  is_u64 (pr_completed_uncached_tokens r) ∧
  is_u64 (pr_current_generation r) ∧ is_u64 (pr_parent_generation r) ∧
  is_u64 (pr_next_chunk_token_start r) ∧
  enum_byte (pr_work_kind r) ∧ enum_byte (pr_lifecycle r) ∧
  is_i32 (pr_priority r) ∧ is_u64 (pr_tenant_weight r) ∧ is_u64 (pr_normalized_service r) ∧
  is_u64 (pr_last_chunk_token_count r) ∧ is_u64 (pr_completed_token_total r) ∧
  short_string (vs_tokenizer (pr_vocab r)) ∧ is_u64 (vs_vocab_size (pr_vocab r)) ∧
  enum_byte (pr_numeric_mode r) ∧ enum_byte (pr_latency_class r) ∧
  is_i64 (pr_deadline_ns r) ∧ is_i64 (pr_arrival_ns r) ∧ is_i64 (pr_max_queue_delay_ns r).

Definition worker_ok (a : PersistedWorkerRecord) : Prop :=
  is_u64 (pw_worker_id a) ∧ is_u64 (pw_boot_id a) ∧ short_string (pw_host a) ∧
  is_u32 (pw_port a) ∧ short_string (pw_backend a) ∧ enum_byte (pw_state a) ∧
  is_u64 (pw_capacity_units a).

Definition tenant_ok (t : PersistedTenantRecord) : Prop :=
  is_u64 (pt_tenant_id t) ∧ is_u64 (pt_weight t) ∧ is_u64 (pt_scheduled_tokens t) ∧
  is_u64 (pt_completed_requests t) ∧ is_i64 (pt_wait_total_ns t) ∧ is_u64 (pt_outstanding t) ∧
  is_u64 (pt_normalized_service t).

(** What the semantic validation demands of a record. *)
Definition record_sane (r : PersistedRequestRecord) : Prop :=
  to_int Lifecycle_submitted <= to_int (pr_lifecycle r) <= to_int Lifecycle_rejected ∧
  pr_cached_tokens r <= pr_prompt_token_count r.

Record state_ok (s : PersistedState) : Prop := {
  so_magic : ps_magic s = kPersistenceMagic;
  so_version : ps_version s = kPersistenceVersion;
  so_epoch : is_u64 (ps_epoch s);
  so_generation : is_u64 (ps_next_generation_value s);
  so_attempt : is_u64 (ps_next_attempt_value s);
  so_requests : Forall req_ok (ps_requests s) ∧ Z.of_nat (length (ps_requests s)) <= 2 ^ 24;
  so_workers : Forall worker_ok (ps_workers s) ∧ Z.of_nat (length (ps_workers s)) <= 2 ^ 20;
  so_tenants : Forall tenant_ok (ps_tenants s) ∧ Z.of_nat (length (ps_tenants s)) <= 2 ^ 20;
  so_sane : Forall record_sane (ps_requests s)
}.

#[global] Instance req_ok_dec r : Decision (req_ok r).
Proof. unfold req_ok; apply _. Defined.
#[global] Instance worker_ok_dec a : Decision (worker_ok a).
Proof. unfold worker_ok; apply _. Defined.
#[global] Instance tenant_ok_dec t : Decision (tenant_ok t).
Proof. unfold tenant_ok; apply _. Defined.
#[global] Instance record_sane_dec r : Decision (record_sane r).
Proof. unfold record_sane; apply _. Defined.

Lemma check_records_ok l : ei_code (check_records l) = ErrorCode_ok ↔ Forall record_sane l.
Proof.
  induction l as [|rec l IH]; simpl; [by split; [constructor|]|].
  rewrite Forall_cons. unfold check_record, record_sane.
  destruct (_ || _) eqn:E1; simpl.
  { split; [done|]. intros [[? ?] _]. bools. destruct E1; bools; simpl in *; lia. }
  bools. destruct (_ <? _) eqn:E2; simpl; bools.
  { split; [done|]. intros [[? ?] _]. lia. }
  rewrite IH. intuition lia.
Qed.

(** ** The record codecs are codecs *)

Lemma codec_req r : req_ok r → codec read_req (write_req r) r.
Proof.
  destruct r as [??? [??] ???????????????? [??] ???????]. record_codec req_ok read_req write_req.
Qed.

Lemma codec_worker a : worker_ok a → codec read_worker (write_worker a) a.
Proof. destruct a. record_codec worker_ok read_worker write_worker. Qed.

Lemma codec_tenant t : tenant_ok t → codec read_tenant (write_tenant t) t.
Proof. destruct t. record_codec tenant_ok read_tenant write_tenant. Qed.

Lemma codec_payload s :
  state_ok s → codec (read_payload (ps_magic s) (ps_version s)) (write_payload s) s.
Proof.
  intros [Hm Hv He Hg Ha [Hr Hrn] [Hw Hwn] [Ht Htn] _].
  rewrite Forall_forall in Hr; rewrite Forall_forall in Hw; rewrite Forall_forall in Ht.
  assert (∀ e, codec (r_vector (Z.shiftl 1 24) e read_req) (w_vector write_req (ps_requests s))
            (ps_requests s)) by (intros; apply codec_vector; [eauto using codec_req|change (Z.shiftl 1 24) with (2 ^ 24); lia]).
  assert (∀ e, codec (r_vector (Z.shiftl 1 20) e read_worker)
            (w_vector write_worker (ps_workers s)) (ps_workers s))
    by (intros; apply codec_vector; [eauto using codec_worker|change (Z.shiftl 1 20) with (2 ^ 20); lia]).
  assert (∀ e, codec (r_vector (Z.shiftl 1 20) e read_tenant)
            (w_vector write_tenant (ps_tenants s)) (ps_tenants s))
    by (intros; apply codec_vector; [eauto using codec_tenant|change (Z.shiftl 1 20) with (2 ^ 20); lia]).
  destruct s. unfold read_payload, write_payload. codec_fields.
Qed.

(** *** The header *)

Definition header (m v f n c : Z) : list Z := w_u32 m ++ w_u32 v ++ w_u32 f ++ w_u64 n ++ w_u64 c.

Lemma codec_header m v f n c :
  is_u32 m → is_u32 v → is_u32 f → is_u64 n → is_u64 c →
  codec read_header (header m v f n c) (m, v, f, n, c).
Proof. intros. unfold read_header, header. codec_fields. Qed.

Lemma header_length m v f n c : length (header m v f n c) = 28%nat.
Proof. done. Qed.

Lemma serialize_split s :
  let pl := write_payload s in
  serialize_state s
  = Ok (header (ps_magic s) (ps_version s) 0 (Z.of_nat (length pl)) (checksum_of pl) ++ pl).
Proof. unfold serialize_state, header. cbv zeta. by rewrite <- !app_assoc. Qed.

Lemma serialize_inv s blob :
  serialize_state s = Ok blob → state_ok s →
  let pl := write_payload s in
  blob = header kPersistenceMagic kPersistenceVersion 0 (Z.of_nat (length pl)) (checksum_of pl) ++ pl.
Proof.
  intros H Hs pl. rewrite serialize_split, (so_magic s Hs), (so_version s Hs) in H.
  assert (∀ x y : list Z, Ok x = Ok y → x = y) as Hinj by congruence. by apply Hinj in H.
Qed.

Lemma checksum_range pl : is_u64 (checksum_of pl).
Proof. apply fnv1a64_range. unfold is_u64. lia. Qed.

Lemma write_req_u8 r : Forall is_u8 (write_req r).
Proof. unfold write_req. rewrite !Forall_app. repeat split; eauto with codec; apply le_bytes_u8 || apply w_u8_u8. Qed.
Lemma write_worker_u8 r : Forall is_u8 (write_worker r).
Proof. unfold write_worker. rewrite !Forall_app. repeat split; eauto with codec; apply le_bytes_u8 || apply w_u8_u8. Qed.
Lemma write_tenant_u8 r : Forall is_u8 (write_tenant r).
Proof. unfold write_tenant. rewrite !Forall_app. repeat split; eauto with codec; apply le_bytes_u8 || apply w_u8_u8. Qed.
Lemma write_payload_u8 s : Forall is_u8 (write_payload s).
Proof.
  unfold write_payload. rewrite !Forall_app.
  repeat split; eauto using w_vector_u8, write_req_u8, write_worker_u8, write_tenant_u8;
    apply le_bytes_u8 || apply w_u8_u8.
Qed.

(** A blob is read through its header: what happens after it. *)
Lemma deserialize_header m v f n c rest :
  is_u32 m → is_u32 v → is_u32 f → is_u64 n → is_u64 c →
  deserialize_state (header m v f n c ++ rest) =
    if negb (m =? kPersistenceMagic) then err ErrorCode_corrupt_state "bad magic"
    else if negb (v =? kPersistenceVersion) then
      err ErrorCode_unknown_version "unsupported persistence version"
    else if r_remaining rest <? n then err ErrorCode_truncation "payload length exceeds blob"
    else
      let payload := take (Z.to_nat n) rest in
      if negb (checksum_of payload =? c) then
        err ErrorCode_checksum_mismatch "checksum mismatch"
      else
        match read_payload m v payload with
        | Err e => Err e
        | Ok (s, unread) =>
            if negb (r_remaining unread =? 0) then
              err ErrorCode_corrupt_state "trailing bytes in payload"
            else
              let e := check_records (ps_requests s) in
              if bool_decide (ei_code e = ErrorCode_ok) then Ok s else Err e
        end.
Proof.
  intros. unfold deserialize_state. by rewrite (codec_reads _ _ _ (codec_header m v f n c ltac:(done) ltac:(done) ltac:(done) ltac:(done) ltac:(done))).
Qed.

(** ** Properties *)

(** The octets of a record whose strings are short, and of a whole payload. *)
Lemma write_req_length r : req_ok r → Z.of_nat (length (write_req r)) <= 2 ^ 34.
Proof. unfold req_ok, write_req, w_i64, w_f64. intros. payload_length. Qed.
Lemma write_worker_length a : worker_ok a → Z.of_nat (length (write_worker a)) <= 2 ^ 34.
Proof. unfold worker_ok, write_worker. intros. payload_length. Qed.
Lemma write_tenant_length t : Z.of_nat (length (write_tenant t)) <= 2 ^ 34.
Proof. unfold write_tenant, w_i64, w_f64. payload_length. Qed.

(** A snapshot within the limits of the format has a length of 64 bits. *)
Lemma payload_addressable s : state_ok s → is_u64 (Z.of_nat (length (write_payload s))).
Proof.
  intros Hs. destruct (so_requests s Hs) as [Hr Hnr], (so_workers s Hs) as [Hw Hnw],
    (so_tenants s Hs) as [_ Hnt].
  unfold is_u64, write_payload. rewrite !length_app.
  pose proof (w_vector_length write_req (ps_requests s) (2 ^ 34)
    ltac:(by apply (Forall_impl _ _ _ Hr), write_req_length)).
  pose proof (w_vector_length write_worker (ps_workers s) (2 ^ 34)
    ltac:(by apply (Forall_impl _ _ _ Hw), write_worker_length)).
  pose proof (w_vector_length write_tenant (ps_tenants s) (2 ^ 34)
    ltac:(by apply Forall_forall; intros; apply write_tenant_length)).
  unfold w_strong, w_bool, w_u8, w_u64 in *. rewrite !le_bytes_length. cbn [length]. lia.
Qed.

Lemma roundtrip_blob s junk :
  state_ok s →
  ∃ blob, serialize_state s = Ok blob ∧ deserialize_state (blob ++ junk) = Ok s.
Proof.
  intros Hs. pose proof (payload_addressable s Hs) as Hl.
  rewrite serialize_split. eexists; split; [done|].
  rewrite <- app_assoc, deserialize_header.
  - rewrite (so_magic s Hs), (so_version s Hs), !Z.eqb_refl. cbn [negb].
    unfold r_remaining. rewrite length_app, (proj2 (Z.ltb_ge _ _)) by lia. cbv zeta.
    rewrite Nat2Z.id, take_app_length, Z.eqb_refl. cbn [negb].
    rewrite <- (so_magic s Hs), <- (so_version s Hs), <- (app_nil_r (write_payload s)).
    rewrite (codec_reads _ _ _ (codec_payload s Hs)). cbn.
    rewrite bool_decide_true; [done|]. apply check_records_ok, Hs.
  - rewrite (so_magic s Hs). done.
  - rewrite (so_version s Hs). done.
  - done.
  - exact Hl.
  - apply checksum_range.
Qed.

(** C15: persistence round trip: a snapshot the format can hold is written, and
    read back exactly from its blob. *)
Theorem persist_roundtrip s (Hs : state_ok s) :
  ∃ blob, serialize_state s = Ok blob ∧ deserialize_state blob = Ok s.
Proof.
  destruct (roundtrip_blob s [] Hs) as (blob & E & Hd). rewrite app_nil_r in Hd. by exists blob.
Qed.

(** The reader does not look past the payload: octets after a blob are accepted. *)
Lemma trailing_octets_accepted s junk :
  state_ok s → ∃ blob, serialize_state s = Ok blob ∧ deserialize_state (blob ++ junk) = Ok s.
Proof. by apply roundtrip_blob. Qed.

(** A blob cut short anywhere is refused with [truncation]. *)
Theorem truncated_blob_rejected s blob p (Hs : state_ok s)
    (Hb : serialize_state s = Ok blob) (Hp : p `prefix_of` blob) (Hne : p ≠ blob) :
  code_of (deserialize_state p) = ErrorCode_truncation.
Proof.
  apply serialize_inv in Hb; [|done]. cbv zeta in Hb. subst blob. pose proof (payload_addressable s Hs) as Hn.
  set (n := Z.of_nat (length (write_payload s))) in *.
  set (c := checksum_of (write_payload s)) in *.
  assert (is_u64 c) as Hc by apply checksum_range.
  destruct (decide (header kPersistenceMagic kPersistenceVersion 0 n c `prefix_of` p)) as [[q ->]|Hh].
  - rewrite deserialize_header by done. cbn [negb].
    apply prefix_app_inv in Hp. unfold r_remaining. rewrite (proj2 (Z.ltb_lt _ _)); [done|].
    pose proof (prefix_length _ _ Hp). enough (length q ≠ length (write_payload s)) by lia.
    intros Hq. apply Hne. f_equal. apply prefix_length_eq; [done|lia].
  - destruct (prefix_weak_total _ _ _ Hp (prefix_app_r _ _ (write_payload s) (reflexivity _))) as [Hp'|]; [|done].
    unfold deserialize_state. rewrite (codec_truncated _ _ _
      (codec_header kPersistenceMagic kPersistenceVersion 0 n c ltac:(done) ltac:(done) ltac:(done) Hn Hc)); [done..|].
    intros ->. by apply Hh.
Qed.

(** One octet changed in a field of the header. *)
Lemma header_insert m v f n c pl i b b0 :
  is_u8 b → (header m v f n c ++ pl) !! i = Some b0 → b ≠ b0 →
  let blob' := <[i := b]> (header m v f n c ++ pl) in
  ((i < 4)%nat → ∃ m', is_u32 m' ∧ m' ≠ m ∧ blob' = header m' v f n c ++ pl) ∧
  ((4 <= i < 8)%nat → ∃ v', is_u32 v' ∧ v' ≠ v ∧ blob' = header m v' f n c ++ pl) ∧
  ((8 <= i < 12)%nat → ∃ f', is_u32 f' ∧ blob' = header m v f' n c ++ pl) ∧
  ((20 <= i < 28)%nat → ∃ c', is_u64 c' ∧ c' ≠ c ∧ blob' = header m v f n c' ++ pl).
Proof.
  intros Hb Hi Hne blob'. subst blob'. unfold header in *. rewrite <- !app_assoc in *.
  split_and!; intros Hr.
  - edestruct (field_insert [] 4 m) as (m' & E & H1 & H2); [exact Hb|exact Hi|exact Hne|simpl; lia|].
    exists m'. split_and!; [exact H1..|exact H2|exact E].
  - edestruct (field_insert (w_u32 m) 4 v) as (m' & E & H1 & H2);
      [exact Hb|exact Hi|exact Hne|exact Hr|].
    exists m'. split_and!; [exact H1..|exact H2|exact E].
  - edestruct (field_insert (w_u32 m ++ w_u32 v) 4 f) as (m' & E & H1 & H2);
      [exact Hb|exact Hi|exact Hne|exact Hr|]. exists m'. split_and!; [exact H1..|exact E].
  - edestruct (field_insert (w_u32 m ++ w_u32 v ++ w_u32 f ++ w_u64 n) 8 c) as (m' & E & H1 & H2);
      [exact Hb|exact Hi|exact Hne|exact Hr|]. exists m'. split_and!; [exact H1..|exact H2|exact E].
Qed.

Lemma checksum_insert pl i b b0 :
  Forall is_u8 pl → is_u8 b → pl !! i = Some b0 → b ≠ b0 →
  checksum_of (<[i := b]> pl) ≠ checksum_of pl.
Proof.
  intros Hpl Hb Hi Hne.
  pose proof (take_drop_middle pl i b0 Hi) as Hsplit.
  pose proof (lookup_lt_Some _ _ _ Hi) as Hlt.
  rewrite insert_take_drop by done. rewrite <- Hsplit at 3.
  apply fnv1a64_detects_byte; [unfold is_u64; lia|by apply Forall_drop|done| |done].
  rewrite Forall_lookup in Hpl. by eapply Hpl.
Qed.

(** C37: a blob with one octet changed is refused: in the magic or version with
    its own error, in the stored checksum or anywhere in the payload with
    [checksum_mismatch].  A change in the reserved flags is not looked at; the
    octets of the payload length (12 to 19) are not covered: a shorter payload
    is refused only if its own checksum differs from the stored one. *)
Theorem corrupted_blob_detected s blob i b b0 (Hs : state_ok s)
    (Hb : serialize_state s = Ok blob) (Hi : blob !! i = Some b0) (Ho : is_u8 b) (Hne : b ≠ b0) :
  ((i < 4)%nat → code_of (deserialize_state (<[i := b]> blob)) = ErrorCode_corrupt_state) ∧
  ((4 <= i < 8)%nat → code_of (deserialize_state (<[i := b]> blob)) = ErrorCode_unknown_version) ∧
  ((8 <= i < 12)%nat → deserialize_state (<[i := b]> blob) = deserialize_state blob) ∧
  ((20 <= i)%nat → code_of (deserialize_state (<[i := b]> blob)) = ErrorCode_checksum_mismatch).
Proof.
  apply serialize_inv in Hb; [|done]. cbv zeta in Hb. subst blob. pose proof (payload_addressable s Hs) as Hn.
  pose proof (write_payload_u8 s) as Hu.
  set (pl := write_payload s) in *. set (n := Z.of_nat (length pl)) in *.
  pose proof (checksum_range pl) as Hc. set (c := checksum_of pl) in *.
  assert (is_u32 kPersistenceMagic ∧ is_u32 kPersistenceVersion ∧ is_u32 0) as (Hmg & Hvs & Hz) by done.
  destruct (header_insert kPersistenceMagic kPersistenceVersion 0 n c pl i b b0 Ho Hi Hne)
    as (H1 & H2 & H3 & H4). cbv zeta in *. split_and!; intros Hr.
  - destruct (H1 Hr) as (m' & Hm' & Hd & ->). rewrite deserialize_header by done.
    by rewrite (proj2 (Z.eqb_neq _ _) Hd).
  - destruct (H2 Hr) as (v' & Hv' & Hd & ->). rewrite deserialize_header by done.
    by rewrite Z.eqb_refl, (proj2 (Z.eqb_neq _ _) Hd).
  - destruct (H3 Hr) as (f' & Hf' & ->). by rewrite !deserialize_header.
  - pose proof (header_length kPersistenceMagic kPersistenceVersion 0 n c) as Hh.
    assert (∀ c' pl', is_u64 c' → length pl' = length pl → checksum_of pl' ≠ c' →
      code_of (deserialize_state (header kPersistenceMagic kPersistenceVersion 0 n c' ++ pl'))
      = ErrorCode_checksum_mismatch) as Hbad.
    { intros c' pl' Hc' Hlen Hsum. rewrite deserialize_header by done. rewrite !Z.eqb_refl.
      cbn [negb]. unfold r_remaining. rewrite (proj2 (Z.ltb_ge _ _)) by lia. cbv zeta.
      unfold n. rewrite Nat2Z.id, <- Hlen, firstn_all. by rewrite (proj2 (Z.eqb_neq _ _) Hsum). }
    destruct (decide (i < length (header kPersistenceMagic kPersistenceVersion 0 n c))%nat) as [Hlt|Hge].
    + destruct H4 as (c' & Hc' & Hd & ->); [lia|]. apply Hbad; [done..|]. intros E. by apply Hd.
    + rewrite lookup_app_r in Hi by lia. rewrite insert_app_r_alt by lia.
      apply Hbad; [done|by rewrite length_insert|]. by eapply checksum_insert.
Qed.

(** ** What the reader accepts *)

Lemma yields_req : yields read_req req_ok.
Proof. unfold read_req. yields_fields. unfold req_ok; split_and?; assumption. Qed.
Lemma yields_worker : yields read_worker worker_ok.
Proof. unfold read_worker. yields_fields. unfold worker_ok; split_and?; assumption. Qed.
Lemma yields_tenant : yields read_tenant tenant_ok.
Proof. unfold read_tenant. yields_fields. unfold tenant_ok; split_and?; assumption. Qed.

Lemma yields_header :
  yields read_header (λ h, is_u32 h.1.1.1.1 ∧ is_u32 h.1.1.1.2 ∧ is_u32 h.1.1.2 ∧ is_u64 h.1.2 ∧ is_u64 h.2).
Proof. unfold read_header. yields_fields. split_and?; assumption. Qed.

Lemma yields_payload :
  yields (read_payload kPersistenceMagic kPersistenceVersion)
    (λ s, Forall record_sane (ps_requests s) → state_ok s).
Proof.
  pose proof (λ l e, yields_vector _ l e _ yields_req).
  pose proof (λ l e, yields_vector _ l e _ yields_worker).
  pose proof (λ l e, yields_vector _ l e _ yields_tenant).
  unfold read_payload. yields_fields. intros Hsane. by split.
Qed.

(** C38: what the reader accepts is a valid snapshot: whatever octets a file
    holds, an accepted state has the magic and version of this format, every
    field in range, record counts within the limits, known lifecycles and no
    record with more cached than prompt tokens; so writing it and reading it
    back gives it again. *)
Theorem deserialize_valid blob s (Ho : Forall is_u8 blob) (Hd : deserialize_state blob = Ok s) :
  state_ok s ∧
  ∃ blob', serialize_state s = Ok blob' ∧ deserialize_state blob' = Ok s.
Proof.
  assert (state_ok s) as Hs.
  { unfold deserialize_state in Hd. destruct (read_header blob) as [[[[[[m v] f] n] c] rest]|] eqn:Eh; [|done].
    destruct (yields_header _ _ _ Ho Eh) as [_ Hrest].
    cbv zeta in Hd. do 4 (case_if_in Hd; [done|]). subst m v.
    destruct (read_payload _ _ _) as [[s' unread]|] eqn:Ep; [|done]. case_if_in Hd; [done|].
    destruct (yields_payload _ _ _ (Forall_take _ _ _ Hrest) Ep) as [Hok _].
    case_bool_decide as Hcheck; [|done]. injection Hd as ->. apply Hok. by apply check_records_ok. }
  split; [done|]. destruct (roundtrip_blob s [] Hs) as (blob' & E & Hr).
  exists blob'. by rewrite app_nil_r in Hr.
Qed.
