(* ===== verification/Exec.v ===== *)
(** * Execution ([executor.hpp], [frontend_math.hpp], the CPU and CUDA executors)

    Descriptors, groups and results; the executor and token-resolver contracts
    as records of operations; the digest both backends must agree on, computed
    in order by the CPU executor and by atomic additions in an arbitrary thread
    order by the CUDA kernel. *)

From S2P Require Import Prelude Float Types Request Compat.

(** ** Records of [executor.hpp] *)

Record DeviceDescriptor := mkDeviceDescriptor {
  dd_id : DeviceId;
  dd_name : string;
  dd_backend : string;
  dd_total_memory_bytes : Z;
  dd_available_memory_bytes : Z;
  dd_capability : string;
  dd_available : bool
}.

Definition DeviceDescriptor_default : DeviceDescriptor :=
  mkDeviceDescriptor 0 "" kBackendCpu 0 0 "" false.

Record WorkerDescriptor := mkWorkerDescriptor {
  wd_worker_id : WorkerId;
  wd_boot_id : WorkerBootId;
  wd_host : string;
  wd_port : Z;
  wd_backend : string;
  wd_devices : list DeviceDescriptor;
  wd_state : WorkerState;
  wd_capacity_units : Z;
  wd_info : string
}.

Definition WorkerDescriptor_default : WorkerDescriptor :=
  mkWorkerDescriptor 0 0 "" 0 kBackendAny [] WorkerState_unknown 1 "".

#[global] Instance eta_WorkerDescriptor : Eta WorkerDescriptor := λ w,
  mkWorkerDescriptor (wd_worker_id w) (wd_boot_id w) (wd_host w) (wd_port w) (wd_backend w)
    (wd_devices w) (wd_state w) (wd_capacity_units w) (wd_info w).
#[global] Instance set_wd_worker_id : Setter wd_worker_id := ltac:(mk_setter).
#[global] Instance set_wd_boot_id : Setter wd_boot_id := ltac:(mk_setter).
#[global] Instance set_wd_host : Setter wd_host := ltac:(mk_setter).
#[global] Instance set_wd_port : Setter wd_port := ltac:(mk_setter).
#[global] Instance set_wd_backend : Setter wd_backend := ltac:(mk_setter).
#[global] Instance set_wd_devices : Setter wd_devices := ltac:(mk_setter).
#[global] Instance set_wd_state : Setter wd_state := ltac:(mk_setter).
#[global] Instance set_wd_capacity_units : Setter wd_capacity_units := ltac:(mk_setter).

Record ExecutableMember := mkExecutableMember {
  em_request_id : RequestId;
  em_attempt_id : AttemptId;
  em_generation : Generation;
  em_parent_generation : Generation;
  em_token_start : Z;
  em_token_count : Z;
  em_work_kind : WorkKind;
  em_memory_estimate_bytes : Z;
  em_compute_estimate : Z;
  em_assigned_worker : WorkerId;
  em_member_index : Z
}.

#[global] Instance eta_ExecutableMember : Eta ExecutableMember := λ m,
  mkExecutableMember (em_request_id m) (em_attempt_id m) (em_generation m)
    (em_parent_generation m) (em_token_start m) (em_token_count m) (em_work_kind m)
    (em_memory_estimate_bytes m) (em_compute_estimate m) (em_assigned_worker m)
    (em_member_index m).
#[global] Instance set_em_generation : Setter em_generation := ltac:(mk_setter).
#[global] Instance set_em_assigned_worker : Setter em_assigned_worker := ltac:(mk_setter).

Record ExecutionGroup := mkExecutionGroup {
  eg_group_id : GroupId;
  eg_key : CompatibilityKey;
  eg_backend : string;
  eg_device : DeviceId;
  eg_members : list ExecutableMember;
  eg_total_token_count : Z;
  eg_max_memory_estimate_bytes : Z;
  eg_sum_compute_estimate : Z
}.

Definition ExecutionGroup_default : ExecutionGroup :=
  mkExecutionGroup 0 CompatibilityKey_default kBackendAny 0 [] 0 0 0.

#[global] Instance eta_ExecutionGroup : Eta ExecutionGroup := λ g,
  mkExecutionGroup (eg_group_id g) (eg_key g) (eg_backend g) (eg_device g) (eg_members g)
    (eg_total_token_count g) (eg_max_memory_estimate_bytes g) (eg_sum_compute_estimate g).
#[global] Instance set_eg_members : Setter eg_members := ltac:(mk_setter).
#[global] Instance set_eg_total_token_count : Setter eg_total_token_count := ltac:(mk_setter).
#[global] Instance set_eg_max_memory : Setter eg_max_memory_estimate_bytes := ltac:(mk_setter).
#[global] Instance set_eg_sum_compute : Setter eg_sum_compute_estimate := ltac:(mk_setter).

(** [ExecutionGroup::size]. *)
Definition group_size (g : ExecutionGroup) : Z := u32 (Z.of_nat (length (eg_members g))).

Record MemberResult := mkMemberResult {
  mr_request_id : RequestId;
  mr_attempt_id : AttemptId;
  mr_generation : Generation;
  mr_outcome : MemberOutcome;
  mr_tokens_completed : Z;
  mr_digest : Z;
  mr_failure_code : ErrorCode;
  mr_message : string;
  mr_next_token_start : Z;
  mr_requires_next_chunk : bool;
  mr_epoch : Epoch;
  mr_worker : WorkerId;
  mr_boot : WorkerBootId
}.

Definition MemberResult_default : MemberResult :=
  mkMemberResult 0 0 0 MemberOutcome_success 0 0 ErrorCode_ok "" 0 false 0 0 0.

#[global] Instance eta_MemberResult : Eta MemberResult := λ m,
  mkMemberResult (mr_request_id m) (mr_attempt_id m) (mr_generation m) (mr_outcome m)
    (mr_tokens_completed m) (mr_digest m) (mr_failure_code m) (mr_message m)
    (mr_next_token_start m) (mr_requires_next_chunk m) (mr_epoch m) (mr_worker m) (mr_boot m).
#[global] Instance set_mr_request_id : Setter mr_request_id := ltac:(mk_setter).
#[global] Instance set_mr_attempt_id : Setter mr_attempt_id := ltac:(mk_setter).
#[global] Instance set_mr_generation : Setter mr_generation := ltac:(mk_setter).
#[global] Instance set_mr_outcome : Setter mr_outcome := ltac:(mk_setter).
#[global] Instance set_mr_digest : Setter mr_digest := ltac:(mk_setter).
#[global] Instance set_mr_failure_code : Setter mr_failure_code := ltac:(mk_setter).
#[global] Instance set_mr_message : Setter mr_message := ltac:(mk_setter).
#[global] Instance set_mr_epoch : Setter mr_epoch := ltac:(mk_setter).
#[global] Instance set_mr_worker : Setter mr_worker := ltac:(mk_setter).
#[global] Instance set_mr_boot : Setter mr_boot := ltac:(mk_setter).

Record ExecutorResult := mkExecutorResult {
  er_group_succeeded : bool;
  er_members : list MemberResult;
  er_executor_family : string;
  er_elapsed_ns : Nanoseconds;
  er_status_message : string
}.

(** ** Contracts *)

(** [TokenResolver]: a successful resolution is the token array from the
    requested offset on (what the returned pointer can be read through). *)
Record TokenResolver := mkTokenResolver {
  resolve_tokens : RequestId → AttemptId → Generation → Z → Z → Result (list Z)
}.

(** [Executor]: the vendor-neutral contract the scheduler drives. *)
Record Executor := mkExecutor {
  ex_execute : ExecutionGroup → TokenResolver → Result ExecutorResult;
  ex_name : string;
  ex_available : bool;
  ex_device : DeviceDescriptor;
  ex_backend : string
}.

(** [InMemoryTokenResolver]. *)
Definition register_request (m : gmap Z (list Z)) (req : PrefillRequest) (tokens : list Z)
    : gmap Z (list Z) * Result unit :=
  if negb (Z.of_nat (length tokens) =? rq_prompt_token_count req) then
    (m, err ErrorCode_invalid_argument "token buffer length != prompt_token_count")
  else (<[rq_request_id req := tokens]> m, Ok tt).

Definition in_memory_resolve (m : gmap Z (list Z)) (r : RequestId) (a : AttemptId)
    (g : Generation) (offset count : Z) : Result (list Z) :=
  match m !! r with
  | Some toks =>
      if Z.of_nat (length toks) <? offset +u count then
        err ErrorCode_unknown_request "no token data for request"
      else Ok (drop (Z.to_nat offset) toks)
  | None => err ErrorCode_unknown_request "no token data for request"
  end.

Definition InMemoryTokenResolver (m : gmap Z (list Z)) : TokenResolver :=
  mkTokenResolver (in_memory_resolve m).

(** ** The digest ([frontend_math.hpp]) *)

Definition kFfM1 : Z := 0x5851F42D4C957F2D.
Definition kFfM2 : Z := 0x94D049BB133111EB.
Definition kFfM3 : Z := 0x9E3779B97F4A7C15.
Definition kFfM4 : Z := 0xBF58476D1CE4E5B9.

Definition ff_token_position_value (token position : Z) : Z :=
  Z.lxor (Z.lxor (token *u kFfM1) (position *u kFfM2)) (u64 (Z.shiftl position 7)).

(** The accumulation loop; [tokens] is what the pointer designates. *)
Fixpoint ff_acc (tokens : list Z) (pos : Z) (count : nat) (acc : Z) {struct count} : Z :=
  match count, tokens with
  | S count, t :: tokens =>
      ff_acc tokens (pos +u 1) count (acc +u ff_token_position_value t pos)
  | _, _ => acc
  end.

(** One round of identity mixing. *)
Definition mix_id (h v : Z) : Z :=
  Z.lxor h (v +u 0x9e3779b97f4a7c15 +u u64 (Z.shiftl h 6) +u Z.shiftr h 2).

Definition ff_finish (r : RequestId) (a : AttemptId) (g : Generation) (count acc : Z) : Z :=
  let h := Z.lxor kFfM3 r in
  let h := mix_id h a in
  let h := mix_id h g in
  let h := mix_id h count in
  Z.lxor h (acc *u kFfM4).

Definition ff_member_digest (r : RequestId) (a : AttemptId) (g : Generation)
    (tokens : list Z) (token_start count : Z) : Z :=
  ff_finish r a g count (ff_acc tokens token_start (Z.to_nat count) 0).

(** ** [CpuExecutor::execute] *)

Definition cpu_member_base (m : ExecutableMember) : MemberResult := {|
  mr_request_id := em_request_id m; mr_attempt_id := em_attempt_id m;
  mr_generation := em_generation m; mr_outcome := MemberOutcome_success;
  mr_tokens_completed := em_token_count m; mr_digest := 0;
  mr_failure_code := ErrorCode_ok; mr_message := "";
  mr_next_token_start := em_token_start m +u em_token_count m;
  mr_requires_next_chunk := false; mr_epoch := 0; mr_worker := 0; mr_boot := 0 |}.

Definition member_failure (mr : MemberResult) (c : ErrorCode) (msg : string) : MemberResult :=
  mr <| mr_outcome := MemberOutcome_non_retryable_failure |>
     <| mr_failure_code := c |> <| mr_message := msg |>.

Definition cpu_execute_member (tokens : TokenResolver) (m : ExecutableMember) : MemberResult :=
  let mr := cpu_member_base m in
  if em_token_count m =? 0 then
    member_failure mr ErrorCode_invalid_argument "zero-token member"
  else match resolve_tokens tokens (em_request_id m) (em_attempt_id m) (em_generation m)
               (em_token_start m) (em_token_count m) with
       | Err e => member_failure mr (ei_code e) (ei_message e)
       | Ok tok => mr <| mr_digest := ff_member_digest (em_request_id m) (em_attempt_id m)
                           (em_generation m) tok (em_token_start m) (em_token_count m) |>
       end.

Definition is_success (mr : MemberResult) : bool :=
  bool_decide (mr_outcome mr = MemberOutcome_success).

Definition cpu_execute (group : ExecutionGroup) (tokens : TokenResolver) : Result ExecutorResult :=
  let out := foldl (λ out m,
      let mr := cpu_execute_member tokens m in
      mkExecutorResult (er_group_succeeded out && is_success mr) (er_members out ++ [mr])
        (er_executor_family out) (er_elapsed_ns out) (er_status_message out))
    (mkExecutorResult true [] "cpu" 0 "") (eg_members group) in
  Ok out.

Definition CpuExecutor_device : DeviceDescriptor :=
  mkDeviceDescriptor 1 "cpu0" kBackendCpu 0 0 "" true.

Definition CpuExecutor : Executor :=
  mkExecutor cpu_execute "cpu" true CpuExecutor_device kBackendCpu.

(** ** The CUDA kernel

    [ff_reduce_kernel] runs one thread per token; thread [i] adds the value of
    token [i] to the accumulator with [atomicAdd].  The order of the additions
    is the hardware's: any list [order] of thread indices. *)

Definition kernel_thread (tokens : list Z) (token_start : Z) (n : Z) (acc : Z) (i : nat) : Z :=
  if n <=? Z.of_nat i then acc
  else match tokens !! i with
       | Some t => acc +u ff_token_position_value t (token_start +u Z.of_nat i)
       | None => acc
       end.

Definition ff_reduce_kernel (tokens : list Z) (token_start n : Z) (order : list nat) : Z :=
  foldl (kernel_thread tokens token_start n) 0 order.

(** Threads launched: [blocks * 256] with [blocks = (n + 255) / 256]. *)
Definition kernel_threads (n : Z) : nat := Z.to_nat ((n + 255) / 256 * 256).

Definition cuda_member_digest (r : RequestId) (a : AttemptId) (g : Generation)
    (tokens : list Z) (token_start count : Z) (order : list nat) : Z :=
  ff_finish r a g count (ff_reduce_kernel tokens token_start count order).

(** ** Lemmas *)

(** The value token [i] contributes, [0] past the end. *)
Definition token_value (tokens : list Z) (start : Z) (i : nat) : Z :=
  match tokens !! i with
  | Some t => ff_token_position_value t (start +u Z.of_nat i)
  | None => 0
  end.

Lemma ff_acc_take tokens pos count acc :
  ff_acc (take count tokens) pos count acc = ff_acc tokens pos count acc.
Proof.
  revert tokens pos acc. induction count as [|count IH]; intros [|t tokens] pos acc; [done..|].
  simpl. apply IH.
Qed.

Lemma ff_acc_sum tokens pos count acc :
  is_u64 pos → is_u64 acc →
  ff_acc tokens pos count acc = u64 (acc + sumZ (token_value tokens pos) (seq 0 count)).
Proof.
  revert tokens pos acc. induction count as [|count IH]; intros tokens pos acc Hp Ha.
  { simpl. by rewrite Z.add_0_r, u64_small. }
  rewrite <- cons_seq, <- fmap_S_seq, sumZ_cons.
  destruct tokens as [|t tokens].
  { rewrite sumZ_fmap, (sumZ_ext _ (λ _, 0)) by done.
    rewrite sumZ_const0. cbn. by rewrite Z.add_0_r, u64_small. }
  cbn [ff_acc]. rewrite IH by apply u64_range. rewrite u64_add_l, sumZ_fmap.
  f_equal. rewrite <- Z.add_assoc. f_equal. f_equal.
  - unfold token_value. simpl. by rewrite Z.add_0_r, (u64_small pos).
  - apply sumZ_ext. intros i _. unfold token_value. simpl.
    destruct (tokens !! i); [|done]. rewrite u64_add_l.
    by replace (pos + 1 + Z.of_nat i) with (pos + Z.of_nat (S i)) by lia.
Qed.

Lemma kernel_sum tokens start n order acc :
  is_u64 acc →
  foldl (kernel_thread tokens start n) acc order
  = u64 (acc + sumZ (λ i, if n <=? Z.of_nat i then 0 else token_value tokens start i) order).
Proof.
  revert acc. induction order as [|i order IH]; intros acc Ha; simpl.
  { by rewrite Z.add_0_r, u64_small. }
  assert (kernel_thread tokens start n acc i
    = u64 (acc + if n <=? Z.of_nat i then 0 else token_value tokens start i)) as ->.
  { unfold kernel_thread, token_value.
    case_if; [|destruct (tokens !! i)]; rewrite ?Z.add_0_r, ?(u64_small acc); done. }
  rewrite IH by apply u64_range. rewrite u64_add_l. f_equal. lia.
Qed.


(** Whatever order the hardware performs the kernel's atomic additions in, the
    CUDA digest of a member equals the CPU digest. *)
Lemma cuda_digest_agrees r a g tokens token_start count order
    (Hs : is_u64 token_start) (Hc : 0 <= count)
    (Horder : order ≡ₚ seq 0 (kernel_threads count)) :
  cuda_member_digest r a g tokens token_start count order
  = ff_member_digest r a g tokens token_start count.
Proof.
  unfold cuda_member_digest, ff_member_digest. f_equal.
  unfold ff_reduce_kernel.
  rewrite kernel_sum, ff_acc_sum by (try done; unfold is_u64; lia).
  f_equal. f_equal. rewrite (sumZ_perm _ _ _ Horder).
  assert (Z.to_nat count <= kernel_threads count)%nat as Hle.
  { unfold kernel_threads. pose proof (Z.mul_succ_div_gt (count + 255) 256). lia. }
  replace (kernel_threads count) with (Z.to_nat count + (kernel_threads count - Z.to_nat count))%nat
    by lia.
  rewrite seq_app, sumZ_app.
  rewrite (sumZ_ext _ (token_value tokens token_start) (seq 0 (Z.to_nat count))).
  2:{ intros i Hi%elem_of_seq. case_if; [lia|done]. }
  rewrite (sumZ_ext _ (λ _, 0) (seq (0 + _) _)).
  2:{ intros i Hi%elem_of_seq. case_if; [done|lia]. }
  rewrite sumZ_const0. lia.
Qed.

(** The CPU executor answers every member of a group, in order and with the
    member's own request, attempt and generation, and the group counts as
    succeeded exactly when every member did. *)
Lemma cpu_execute_members group tokens :
  ∃ out, cpu_execute group tokens = Ok out ∧
  er_members out = cpu_execute_member tokens <$> eg_members group ∧
  (er_group_succeeded out = true ↔ Forall (λ mr, is_success mr = true) (er_members out)) ∧
  Forall2 (λ m mr, mr_request_id mr = em_request_id m ∧ mr_attempt_id mr = em_attempt_id m ∧
                   mr_generation mr = em_generation m) (eg_members group) (er_members out).
Proof.
  unfold cpu_execute. eexists; split; [done|].
  set (f := λ out m, _).
  assert (∀ ms out, er_members (foldl f out ms)
            = er_members out ++ (cpu_execute_member tokens <$> ms)) as Hm.
  { induction ms as [|m ms IH]; intros out; simpl; [by rewrite app_nil_r|].
    rewrite IH. simpl. by rewrite <- app_assoc. }
  assert (∀ ms out, er_group_succeeded (foldl f out ms) = true ↔
            er_group_succeeded out = true ∧
            Forall (λ mr, is_success mr = true) (cpu_execute_member tokens <$> ms)) as Hs.
  { induction ms as [|m ms IH]; intros out; simpl; [split; [by auto|by intros [? _]]|].
    rewrite IH. simpl. rewrite andb_true_iff, Forall_cons. tauto. }
  rewrite Hm. simpl. split_and!; [done| |].
  - rewrite Hs. simpl. tauto.
  - induction (eg_members group) as [|m ms IH]; simpl; constructor; [|done].
    unfold cpu_execute_member, member_failure. repeat case_match; done.
Qed.
