(* ===== verification/Cuda.v ===== *)
(** * The CUDA executor ([cuda_executor.hpp], [cuda_executor.cu], [cuda_executor_stub.cpp])

    [CudaExecutor] drives the CUDA runtime: for every member of a group it
    allocates two device buffers, copies the tokens, launches the reduction
    kernel of [Exec], copies the sum back and frees the buffers.  The runtime is
    a parameter, a class of state-passing calls any of which may fail; what the
    code relies on is the class [CudaLaws].  The stub that is built without CUDA
    is at the end. *)

From S2P Require Import Prelude Float Types Request Compat Exec.

(** ** The runtime *)

(** Computations over the state of the device and its driver. *)
Definition DevM (dev A : Type) : Type := dev → A * dev.
#[global] Instance devm_ret {dev} : MRet (DevM dev) := λ A a d, (a, d).
#[global] Instance devm_bind {dev} : MBind (DevM dev) := λ A B k m d, let '(a, d) := m d in k a d.

(** [cudaError_t]. *)
Abbreviation cudaError := Z.
Definition cudaSuccess : cudaError := 0.

(** [cudaDeviceProp], the fields that are read. *)
Record cudaDeviceProp := mkDeviceProp { dp_name : string; dp_major : Z; dp_minor : Z }.

(** The calls of the runtime.  Out parameters are results; [cudaMemGetInfo] is
    given what the two variables held before. *)
Class CudaRuntime (dev : Type) := {
  cudaGetErrorString : cudaError → string;
  cudaGetDeviceCount : DevM dev (cudaError * Z);
  cudaSetDevice : Z → DevM dev cudaError;
  cudaMemGetInfo : Z * Z → DevM dev (Z * Z);
  cudaGetDeviceProperties : Z → DevM dev (cudaError * cudaDeviceProp);
  cudaMalloc : Z → DevM dev (cudaError * Z);
  cudaFree : Z → DevM dev cudaError;
  cudaMemset : Z → Z → Z → DevM dev cudaError;
  cudaMemcpyHostToDevice : Z → list Z → DevM dev cudaError;
  cudaMemcpyDeviceToHost : Z → Z → DevM dev (cudaError * Z);
  (** [ff_reduce_kernel<<<blocks, threads>>>(tokens, start, n, acc)]. *)
  launch_reduce : Z → Z → Z → Z → Z → Z → DevM dev unit;
  cudaGetLastError : DevM dev cudaError;
  cudaDeviceSynchronize : DevM dev cudaError
}.

(** The width of [long]: 32 bits with MSVC, 64 elsewhere on x64. *)
Class LongWidth := long_bits : Z.
#[global] Instance msvc_long : LongWidth | 100 := 32.

Definition to_long `{LongWidth} (z : Z) : Z := (z + 2 ^ (long_bits - 1)) mod 2 ^ long_bits - 2 ^ (long_bits - 1).

Section executor.
Context {dev : Type} `{CudaRuntime dev} `{LongWidth}.

(** [CudaExecutor]: the device index and the free memory when it was built. *)
Record CudaExecutor := mkCudaExecutor { device_index_ : Z; baseline_avail_mem_ : Z }.

Definition cuda_available : DevM dev bool :=
  '(e, count) ← cudaGetDeviceCount;
  mret ((e =? cudaSuccess) && (0 <? count)).

Definition CudaExecutor_new (index : Z) : DevM dev CudaExecutor :=
  ok ← cuda_available;
  if (ok : bool) then
    _ ← cudaSetDevice index;
    '(free_b, _) ← cudaMemGetInfo (0, 0);
    mret (mkCudaExecutor index free_b)
  else mret (mkCudaExecutor index 0).

(** [query_device]; the two sizes are uninitialised before [cudaMemGetInfo]. *)
Definition query_device (junk : Z * Z) (index : Z) : DevM dev (Result DeviceDescriptor) :=
  ok ← cuda_available;
  if negb ok then mret (err ErrorCode_cuda_unavailable "no CUDA device")
  else
    '(e, prop) ← cudaGetDeviceProperties index;
    if negb (e =? cudaSuccess) then mret (err ErrorCode_cuda_error (cudaGetErrorString e))
    else
      '(free_b, tot_b) ← cudaMemGetInfo junk;
      mret (Ok (mkDeviceDescriptor (u64 index) (dp_name prop) kBackendCuda tot_b free_b
                  ("sm_" +:+ std_to_string (dp_major prop) +:+ std_to_string (dp_minor prop)) true)).

Definition cuda_device (junk : Z * Z) (x : CudaExecutor) : DevM dev DeviceDescriptor :=
  r ← query_device junk (device_index_ x);
  mret (match r with
        | Ok d => d
        | Err _ => mkDeviceDescriptor 0 "" kBackendCuda 0 0 "" false
        end).

(** A member that a failed call of the runtime ends. *)
Definition cuda_failure (mr : MemberResult) (ce : cudaError) : MemberResult :=
  member_failure mr ErrorCode_cuda_error (cudaGetErrorString ce).

(** From the launch to the digest.  The block count is computed in [long], where
    an overflow is taken to wrap around. *)
Definition cuda_reduce (m : ExecutableMember) (mr : MemberResult) (n d_tokens d_acc : Z)
    : DevM dev MemberResult :=
  let blocks := i32 (Z.quot (to_long (n + 255)) 256) in
  _ ← launch_reduce blocks 256 d_tokens (em_token_start m) n d_acc;
  ce ← cudaGetLastError;
  if negb (ce =? cudaSuccess) then
    _ ← cudaFree d_tokens; _ ← cudaFree d_acc; mret (cuda_failure mr ce)
  else
    _ ← cudaDeviceSynchronize;
    '(_, acc) ← cudaMemcpyDeviceToHost d_acc 0;
    _ ← cudaFree d_tokens; _ ← cudaFree d_acc;
    mret (mr <| mr_digest := ff_finish (em_request_id m) (em_attempt_id m) (em_generation m)
                               (u64 n) acc |>).

(** One member of the group. *)
Definition cuda_execute_member (tokens : TokenResolver) (m : ExecutableMember)
    : DevM dev MemberResult :=
  let mr := cpu_member_base m in
  if em_token_count m =? 0 then
    mret (member_failure mr ErrorCode_invalid_argument "zero-token cuda member")
  else match resolve_tokens tokens (em_request_id m) (em_attempt_id m) (em_generation m)
               (em_token_start m) (em_token_count m) with
       | Err e => mret (member_failure mr (ei_code e) (ei_message e))
       | Ok tok =>
           let n := to_long (em_token_count m) in
           '(ce, d_tokens) ← cudaMalloc (u64 n *u 4);
           if negb (ce =? cudaSuccess) then mret (cuda_failure mr ce)
           else
             '(ce, d_acc) ← cudaMalloc 8;
             if negb (ce =? cudaSuccess) then
               _ ← cudaFree d_tokens; mret (cuda_failure mr ce)
             else
               _ ← cudaMemset d_acc 0 8;
               ce ← cudaMemcpyHostToDevice d_tokens (take (Z.to_nat n) tok);
               if negb (ce =? cudaSuccess) then
                 _ ← cudaFree d_tokens; _ ← cudaFree d_acc; mret (cuda_failure mr ce)
               else cuda_reduce m mr n d_tokens d_acc
       end.

(** The loop over the members; every branch that is not a success clears
    [group_succeeded]. *)
Fixpoint cuda_members (tokens : TokenResolver) (ms : list ExecutableMember) (out : ExecutorResult)
    : DevM dev ExecutorResult :=
  match ms with
  | [] => mret out
  | m :: ms =>
      mr ← cuda_execute_member tokens m;
      cuda_members tokens ms
        (mkExecutorResult (er_group_succeeded out && is_success mr) (er_members out ++ [mr])
           (er_executor_family out) (er_elapsed_ns out) (er_status_message out))
  end.

(** What follows the loop: the last error, and whether the free memory is back
    within 16 MiB. *)
Definition cuda_cleanup (free_before tot : Z) (out : ExecutorResult) : DevM dev ExecutorResult :=
  '(free_after, _) ← cudaMemGetInfo (0, tot);
  last ← cudaGetLastError;
  let ok := er_group_succeeded out && (last =? cudaSuccess) in
  mret (if free_before <=? free_after +u 16 * 1024 * 1024
        then mkExecutorResult ok (er_members out) (er_executor_family out) (er_elapsed_ns out)
               "mem-cleanup-verified"
        else mkExecutorResult false (er_members out) (er_executor_family out) (er_elapsed_ns out)
               "device memory not recovered").

Definition cuda_execute (x : CudaExecutor) (group : ExecutionGroup) (tokens : TokenResolver)
    : DevM dev (Result ExecutorResult) :=
  ok ← cuda_available;
  if negb ok then mret (err ErrorCode_cuda_unavailable "CUDA not available")
  else
    e ← cudaSetDevice (device_index_ x);
    if negb (e =? cudaSuccess) then mret (err ErrorCode_cuda_error "cudaSetDevice failed")
    else
      '(free_before, tot) ← cudaMemGetInfo (0, 0);
      out ← cuda_members tokens (eg_members group) (mkExecutorResult true [] "cuda" 0 "");
      out ← cuda_cleanup free_before tot out;
      mret (Ok out).
End executor.

(** ** What the runtime promises *)

(** [cl_mem] is the device memory: every live allocation with its words, of the
    type the kernel uses it at.  A call that fails leaves the set of live
    allocations as it is. *)
Class CudaLaws (dev : Type) `{CudaRuntime dev} := {
  cl_mem : dev → gmap Z (list Z);
  cl_count d : cl_mem (cudaGetDeviceCount d).2 = cl_mem d;
  cl_set d i : cl_mem (cudaSetDevice i d).2 = cl_mem d;
  cl_info d old : cl_mem (cudaMemGetInfo old d).2 = cl_mem d;
  cl_last d : cl_mem (cudaGetLastError d).2 = cl_mem d;
  cl_malloc d n e p d' : cudaMalloc n d = ((e, p), d') →
    if e =? cudaSuccess
    then cl_mem d !! p = None ∧ ∃ junk, cl_mem d' = <[p := junk]> (cl_mem d)
    else cl_mem d' = cl_mem d;
  cl_free d p : p ∈ dom (cl_mem d) →
    cl_mem (cudaFree p d).2
    = if (cudaFree p d).1 =? cudaSuccess then delete p (cl_mem d) else cl_mem d;
  cl_memset d p : p ∈ dom (cl_mem d) →
    dom (cl_mem (cudaMemset p 0 8 d).2) = dom (cl_mem d) ∧
    ((cudaMemset p 0 8 d).1 = cudaSuccess →
     cl_mem (cudaMemset p 0 8 d).2 = <[p := [0]]> (cl_mem d));
  cl_to_device d p ws : p ∈ dom (cl_mem d) →
    dom (cl_mem (cudaMemcpyHostToDevice p ws d).2) = dom (cl_mem d) ∧
    ((cudaMemcpyHostToDevice p ws d).1 = cudaSuccess →
     cl_mem (cudaMemcpyHostToDevice p ws d).2 = <[p := ws]> (cl_mem d));
  cl_to_host d p old : cl_mem (cudaMemcpyDeviceToHost p old d).2 = cl_mem d ∧
    (∀ w, cl_mem d !! p = Some [w] → (cudaMemcpyDeviceToHost p old d).1.1 = cudaSuccess →
     (cudaMemcpyDeviceToHost p old d).1.2 = w);
  cl_launch_dom d b t p s n q : dom (cl_mem (launch_reduce b t p s n q d).2) = dom (cl_mem d);
  cl_sync_dom d : dom (cl_mem (cudaDeviceSynchronize d).2) = dom (cl_mem d);
  (** A launch that was accepted and completed has run every thread once, in
      some order. *)
  cl_kernel d b t p s n q toks acc :
    let d1 := (launch_reduce b t p s n q d).2 in
    let d2 := (cudaGetLastError d1).2 in
    cl_mem d !! p = Some toks → cl_mem d !! q = Some [acc] → p ≠ q →
    (cudaGetLastError d1).1 = cudaSuccess → (cudaDeviceSynchronize d2).1 = cudaSuccess →
    ∃ order, order ≡ₚ seq 0 (Z.to_nat (b * t)) ∧
      cl_mem (cudaDeviceSynchronize d2).2
      = <[q := [foldl (kernel_thread toks s n) acc order]]> (cl_mem d)
}.

(** [cudaFree] of a live allocation succeeds; the executor ignores its result. *)
Class FreesSucceed (dev : Type) `{CudaLaws dev} : Prop :=
  free_succeeds (d : dev) p : p ∈ dom (cl_mem d) → (cudaFree p d).1 = cudaSuccess.

(** The other calls whose result the executor does not look at. *)
Class UncheckedCallsSucceed (dev : Type) `{CudaRuntime dev} : Prop := {
  uc_memset p (d : dev) : (cudaMemset p 0 8 d).1 = cudaSuccess;
  uc_sync (d : dev) : (cudaDeviceSynchronize d).1 = cudaSuccess;
  uc_to_host p old (d : dev) : (cudaMemcpyDeviceToHost p old d).1.1 = cudaSuccess
}.

(** ** Device memory *)

Section memory.
Context {dev : Type} `{CL : CudaLaws dev} `{FS : !FreesSucceed dev} `{LongWidth}.

(** A computation that leaves the set of live allocations as it found it. *)
Definition neutral {A} (c : DevM dev A) : Prop :=
  ∀ d, dom (cl_mem (c d).2) = dom (cl_mem d).

Lemma neutral_ret {A} (a : A) : neutral (mret a).
Proof. done. Qed.
Lemma neutral_bind {A B} (c : DevM dev A) (k : A → DevM dev B) :
  neutral c → (∀ a, neutral (k a)) → neutral (c ≫= k).
Proof.
  intros Hc Hk d. specialize (Hc d). unfold mbind, devm_bind.
  destruct (c d) as [a d1]. rewrite Hk. exact Hc.
Qed.

Lemma neutral_available : neutral cuda_available.
Proof.
  intros d. unfold cuda_available, mbind, devm_bind. pose proof (cl_count d) as Hd.
  destruct (cudaGetDeviceCount d) as [[e n] d']. cbn in *. by rewrite Hd.
Qed.
Lemma neutral_set i : neutral (cudaSetDevice i).
Proof. intros d. by rewrite cl_set. Qed.
Lemma neutral_info old : neutral (cudaMemGetInfo old).
Proof. intros d. by rewrite cl_info. Qed.
Lemma neutral_last : neutral cudaGetLastError.
Proof. intros d. by rewrite cl_last. Qed.
Lemma neutral_to_host p old : neutral (cudaMemcpyDeviceToHost p old).
Proof. intros d. by rewrite (proj1 (cl_to_host d p old)). Qed.
Lemma neutral_launch b t p s n q : neutral (launch_reduce b t p s n q).
Proof. intros d. apply cl_launch_dom. Qed.
Lemma neutral_sync : neutral cudaDeviceSynchronize.
Proof. intros d. apply cl_sync_dom. Qed.

(** A computation that frees [ps] of the live allocations. *)
Definition frees {A} (ps : list Z) (c : DevM dev A) : Prop :=
  ∀ d, list_to_set ps ⊆ dom (cl_mem d) → dom (cl_mem (c d).2) = dom (cl_mem d) ∖ list_to_set ps.

Lemma frees_neutral {A} (c : DevM dev A) : frees [] c → neutral c.
Proof. intros Hc d. rewrite Hc by apply empty_subseteq. apply difference_empty_L. Qed.
Lemma neutral_frees {A} (c : DevM dev A) : neutral c → frees [] c.
Proof. intros Hc d _. rewrite Hc. symmetry. apply difference_empty_L. Qed.
Lemma frees_free p {A} (k : cudaError → DevM dev A) ps :
  p ∉ ps → (∀ e, frees ps (k e)) → frees (p :: ps) (cudaFree p ≫= k).
Proof using FS.
  intros Hp Hk d Hd. assert (p ∈ dom (cl_mem d)) as Hin by set_solver.
  pose proof (cl_free d p Hin) as Hf. rewrite (free_succeeds d p Hin), Z.eqb_refl in Hf.
  unfold mbind, devm_bind. destruct (cudaFree p d) as [e d1]. cbn in Hf. apply (f_equal dom) in Hf.
  rewrite dom_delete_L in Hf. rewrite Hk; set_solver.
Qed.
Lemma frees_bind {A B} ps (c : DevM dev A) (k : A → DevM dev B) :
  neutral c → (∀ a, frees ps (k a)) → frees ps (c ≫= k).
Proof.
  intros Hc Hk d Hd. specialize (Hc d). unfold mbind, devm_bind.
  destruct (c d) as [a d1]. cbn in Hc. rewrite Hk; by rewrite Hc.
Qed.
(** The same for a call that is only specified on live allocations. *)
Lemma frees_bind_live {A B} p ps (c : DevM dev A) (k : A → DevM dev B) :
  p ∈ ps → (∀ d, p ∈ dom (cl_mem d) → dom (cl_mem (c d).2) = dom (cl_mem d)) →
  (∀ a, frees ps (k a)) → frees ps (c ≫= k).
Proof using FS.
  intros Hp Hc Hk d Hd. specialize (Hc d ltac:(set_solver)). unfold mbind, devm_bind.
  destruct (c d) as [a d1]. cbn in Hc. rewrite Hk; by rewrite Hc.
Qed.

(** After an allocation the continuation owns one more buffer, if it
    succeeded. *)
Lemma frees_malloc {B} n ps (k : cudaError * Z → DevM dev B) :
  (∀ e p, e ≠ cudaSuccess → frees ps (k (e, p))) →
  (∀ p, p ∉ ps → frees (p :: ps) (k (cudaSuccess, p))) →
  frees ps (cudaMalloc n ≫= k).
Proof using FS.
  intros Hbad Hgood d Hd. unfold mbind, devm_bind.
  destruct (cudaMalloc n d) as [[e p] d1] eqn:E. pose proof (cl_malloc _ _ _ _ _ E) as Hm.
  destruct (e =? cudaSuccess) eqn:He; bools.
  - subst e. destruct Hm as (Hfresh & junk & Hm). apply (f_equal dom) in Hm.
    rewrite dom_insert_L in Hm. apply not_elem_of_dom in Hfresh.
    rewrite Hgood by set_solver. set_solver.
  - rewrite Hbad by (rewrite ?Hm; done). by rewrite Hm.
Qed.

(** What ends a path: freeing what it owns. *)
Lemma frees_two {A} p q (a : A) :
  p ≠ q → frees [p; q] (_ ← cudaFree p; _ ← cudaFree q; mret a).
Proof using FS.
  intros Hpq. apply frees_free; [set_solver|]. intros _. apply frees_free; [set_solver|].
  intros _. apply neutral_frees, neutral_ret.
Qed.

Lemma cuda_reduce_frees m mr n p q : p ≠ q → frees [p; q] (cuda_reduce m mr n p q).
Proof using FS.
  intros Hpq. unfold cuda_reduce.
  apply frees_bind; [apply neutral_launch|intros _].
  apply frees_bind; [apply neutral_last|intros ce].
  case_if; [by apply frees_two|].
  apply frees_bind; [apply neutral_sync|intros _].
  apply frees_bind; [apply neutral_to_host|intros [? acc]]. by apply frees_two.
Qed.

Lemma cuda_member_neutral tokens m : neutral (cuda_execute_member tokens m).
Proof using FS.
  apply frees_neutral. unfold cuda_execute_member. cbv zeta.
  case_if; [apply neutral_frees, neutral_ret|].
  destruct (resolve_tokens _ _ _ _ _ _) as [tok|e]; [|apply neutral_frees, neutral_ret].
  apply frees_malloc.
  { intros e p He. rewrite (proj2 (Z.eqb_neq _ _) He). apply neutral_frees, neutral_ret. }
  intros p _. rewrite Z.eqb_refl. cbn [negb]. apply frees_malloc.
  { intros e q He. rewrite (proj2 (Z.eqb_neq _ _) He). cbn [negb].
    apply frees_free; [set_solver|]. intros _. apply neutral_frees, neutral_ret. }
  intros q Hq. rewrite Z.eqb_refl. cbn [negb].
  assert (p ≠ q) as Hpq by set_solver.
  assert (∀ A (c : DevM dev A), frees [p; q] c → frees [q; p] c) as Hswap.
  { intros A c Hc d Hd. rewrite Hc; set_solver. }
  apply Hswap. apply (frees_bind_live q); [set_solver|intros d Hd; by apply cl_memset|intros _].
  apply (frees_bind_live p); [set_solver|intros d Hd; by apply cl_to_device|intros ce].
  case_if; [by apply frees_two|]. by apply cuda_reduce_frees.
Qed.

Lemma cuda_members_neutral tokens ms out : neutral (cuda_members tokens ms out).
Proof using FS.
  revert out. induction ms as [|m ms IH]; intros out; cbn [cuda_members]; [done|].
  apply neutral_bind; [apply cuda_member_neutral|done].
Qed.

(** C35: no device memory is leaked: whichever calls of the runtime other than
    [cudaFree] of a live allocation fail, after [CudaExecutor::execute] returns
    the live allocations are those there were before it was called. *)
Theorem cuda_execute_no_leak x group tokens (d : dev) :
  dom (cl_mem (cuda_execute x group tokens d).2) = dom (cl_mem d).
Proof using FS.
  revert d. change (neutral (cuda_execute x group tokens)). unfold cuda_execute.
  apply neutral_bind; [apply neutral_available|intros ok]. case_if; [done|].
  apply neutral_bind; [apply neutral_set|intros e]. case_if; [done|].
  apply neutral_bind; [apply neutral_info|intros [f t]].
  apply neutral_bind; [apply cuda_members_neutral|intros out].
  apply neutral_bind; [|done]. unfold cuda_cleanup.
  apply neutral_bind; [apply neutral_info|intros [? ?]].
  by apply neutral_bind; [apply neutral_last|].
Qed.
End memory.

(** ** Agreement with the CPU executor *)

Section agreement.
Context {dev : Type} `{CL : CudaLaws dev} `{UC : !UncheckedCallsSucceed dev} `{LW : LongWidth}.

(** What a member's result can be: the CPU executor's, or a failure of a call. *)
Definition cuda_agrees (tokens : TokenResolver) (m : ExecutableMember) (mr : MemberResult) : Prop :=
  mr = cpu_execute_member tokens m ∨
  (em_token_count m = 0 ∧
   mr = cpu_execute_member tokens m <| mr_message := "zero-token cuda member" |>) ∨
  ∃ ce, ce ≠ cudaSuccess ∧ mr = cuda_failure (cpu_member_base m) ce.

(** A member whose sizes fit an [int] and, rounded up to blocks, a [long]. *)
Definition member_sized (m : ExecutableMember) : Prop :=
  is_u64 (em_token_start m) ∧ 0 <= em_token_count m < 2 ^ 31 ∧
  em_token_count m + 255 < 2 ^ (long_bits - 1).

Lemma to_long_small z : 32 <= long_bits → 0 <= z < 2 ^ (long_bits - 1) → to_long z = z.
Proof.
  intros Hw Hz. unfold to_long.
  replace (2 ^ long_bits) with (2 * 2 ^ (long_bits - 1))
    by (rewrite <- Z.pow_succ_r by lia; f_equal; lia).
  rewrite Z.mod_small by lia. lia.
Qed.

Lemma cuda_reduce_agrees tokens m tok p q (d d' : dev) mr :
  32 <= long_bits → member_sized m → em_token_count m ≠ 0 →
  resolve_tokens tokens (em_request_id m) (em_attempt_id m) (em_generation m)
    (em_token_start m) (em_token_count m) = Ok tok →
  cl_mem d !! p = Some (take (Z.to_nat (em_token_count m)) tok) → cl_mem d !! q = Some [0] → p ≠ q →
  cuda_reduce m (cpu_member_base m) (em_token_count m) p q d = (mr, d') →
  cuda_agrees tokens m mr.
Proof using All.
  intros Hw (Hstart & Hcount & Hlong) Hnz Hres Hp Hq Hpq. unfold cuda_reduce, mbind, devm_bind.
  set (n := em_token_count m) in *. set (b := i32 _).
  assert (b = (n + 255) / 256) as Hb.
  { unfold b. rewrite to_long_small by lia. rewrite Z.quot_div_nonneg by lia. unfold i32.
    assert ((n + 255) / 256 < 2 ^ 31) by (apply Z.div_lt_upper_bound; lia).
    pose proof (Z.div_pos (n + 255) 256). rewrite Z.mod_small by lia. lia. }
  pose proof (cl_kernel d b 256 p (em_token_start m) n q _ 0 Hp Hq Hpq) as Hk. cbv zeta in Hk.
  destruct (launch_reduce b 256 p (em_token_start m) n q d) as [[] d1]. cbn [snd] in Hk.
  destruct (cudaGetLastError d1) as [ce d2]. cbn [fst snd] in Hk.
  destruct (negb (ce =? cudaSuccess)) eqn:Hce; bools.
  { destruct (cudaFree p d2) as [? d3]. destruct (cudaFree q d3). intros [= <- _].
    right; right. eauto. }
  destruct (Hk Hce (uc_sync d2)) as (order & Hord & Hmem).
  destruct (cudaDeviceSynchronize d2) as [? d3]. cbn [snd] in Hmem.
  pose proof (proj2 (cl_to_host d3 q 0) _ ltac:(by rewrite Hmem, lookup_insert_eq) (uc_to_host q 0 d3)) as Hacc.
  destruct (cudaMemcpyDeviceToHost q 0 d3) as [[? acc] d4]. cbn in Hacc. subst acc.
  destruct (cudaFree p d4) as [? d5]. destruct (cudaFree q d5). intros [= <- _].
  left. unfold cpu_execute_member. fold n. rewrite (proj2 (Z.eqb_neq _ _) Hnz), Hres.
  rewrite (u64_small n) by (unfold is_u64; lia).
  assert (order ≡ₚ seq 0 (kernel_threads n)) as Hord'
    by (unfold kernel_threads; by rewrite <- Hb).
  pose proof (cuda_digest_agrees (em_request_id m) (em_attempt_id m) (em_generation m)
    (take (Z.to_nat n) tok) (em_token_start m) n order Hstart ltac:(lia) Hord') as Hdig.
  unfold cuda_member_digest, ff_reduce_kernel in Hdig. rewrite Hdig.
  unfold ff_member_digest. by rewrite ff_acc_take.
Qed.

Lemma cuda_member_agrees tokens m (d d' : dev) mr :
  32 <= long_bits → member_sized m → cuda_execute_member tokens m d = (mr, d') →
  cuda_agrees tokens m mr.
Proof using All.
  intros Hw Hm. unfold cuda_execute_member. cbv zeta.
  destruct (em_token_count m =? 0) eqn:Hz; bools.
  { intros [= <- _]. right; left. split; [done|].
    unfold cpu_execute_member. by rewrite Hz, Z.eqb_refl. }
  destruct (resolve_tokens _ _ _ _ _ _) as [tok|e] eqn:Hres.
  2:{ intros [= <- _]. left. unfold cpu_execute_member.
      by rewrite (proj2 (Z.eqb_neq _ _) Hz), Hres. }
  rewrite to_long_small by (done || (destruct Hm as (_ & ? & ?); lia)). unfold mbind, devm_bind.
  destruct (cudaMalloc _ d) as [[ce p] d1] eqn:E1. apply cl_malloc in E1.
  destruct (ce =? cudaSuccess) eqn:Hce; cbn [negb]; bools.
  2:{ intros [= <- _]. right; right. eauto. }
  destruct E1 as (Hp & junk & H1).
  destruct (cudaMalloc 8 d1) as [[ce2 q] d2] eqn:E2. apply cl_malloc in E2.
  destruct (ce2 =? cudaSuccess) eqn:Hce2; cbn [negb]; bools.
  2:{ destruct (cudaFree p d2). intros [= <- _]. right; right. eauto. }
  destruct E2 as (Hq & junk2 & H2).
  assert (p ≠ q) as Hpq by (intros ->; by rewrite H1, lookup_insert_eq in Hq).
  assert (q ∈ dom (cl_mem d2)) as Hq2 by (rewrite H2; set_solver).
  pose proof (proj2 (cl_memset d2 q Hq2) (uc_memset q d2)) as H3.
  destruct (cudaMemset q 0 8 d2) as [? d3]. cbn [snd] in H3.
  assert (p ∈ dom (cl_mem d3)) as Hp3 by (rewrite H3, H2, H1; set_solver).
  pose proof (proj2 (cl_to_device d3 p (take (Z.to_nat (em_token_count m)) tok) Hp3)) as H4.
  destruct (cudaMemcpyHostToDevice p _ d3) as [ce3 d4]. cbn [fst snd] in H4.
  destruct (ce3 =? cudaSuccess) eqn:Hce3; cbn [negb]; bools.
  2:{ destruct (cudaFree p d4) as [? d5]. destruct (cudaFree q d5). intros [= <- _].
      right; right. eauto. }
  specialize (H4 Hce3). apply (cuda_reduce_agrees tokens m tok p q d4 d'); try done.
  - by rewrite H4, lookup_insert_eq.
  - by rewrite H4, lookup_insert_ne, H3, lookup_insert_eq.
Qed.

Lemma cuda_members_agree tokens ms out (d d' : dev) out' :
  32 <= long_bits → Forall member_sized ms → cuda_members tokens ms out d = (out', d') →
  ∃ mrs, er_members out' = er_members out ++ mrs ∧ Forall2 (cuda_agrees tokens) ms mrs ∧
    (er_group_succeeded out' = true → Forall (λ mr, is_success mr = true) mrs).
Proof using All.
  intros Hw. revert out d. induction ms as [|m ms IH]; intros out d Hms; cbn [cuda_members].
  { intros [= <- _]. exists []. rewrite app_nil_r. split_and!; [done|constructor|constructor]. }
  apply Forall_cons in Hms as [Hm Hms]. unfold mbind at 1, devm_bind at 1.
  destruct (cuda_execute_member tokens m d) as [mr d1] eqn:E. intros Hrun.
  destruct (IH _ _ Hms Hrun) as (mrs & Hout & Hall & Hok). cbn in Hout.
  exists (mr :: mrs). split_and!.
  - by rewrite Hout, <- app_assoc.
  - constructor; [by eapply cuda_member_agrees|done].
  - intros Hs. constructor; [|by apply Hok]. clear -Hrun Hs. revert d1 Hrun.
    generalize (er_members out ++ [mr]). generalize (er_group_succeeded out) as b.
    generalize (is_success mr) as c. intros c b l d1 Hrun.
    destruct c; [done|]. rewrite andb_false_r in Hrun. exfalso.
    revert l d1 Hrun. induction ms as [|m ms IH]; intros l d1; cbn [cuda_members].
    { intros [= <- _]. done. }
    unfold mbind at 1, devm_bind at 1. destruct (cuda_execute_member tokens m d1) as [mr' d2].
    apply IH.
Qed.

(** C34: the CUDA executor agrees with the CPU executor: whatever order the
    kernel's threads run in and whichever checked calls of the runtime fail,
    every member's result is the CPU executor's or the failure of a call; if the
    group counts as succeeded, the results are exactly the CPU executor's. *)
Theorem cuda_execute_agrees x group tokens (d d' : dev) out
    (Hw : 32 <= long_bits) (Hms : Forall member_sized (eg_members group))
    (Hx : cuda_execute x group tokens d = (Ok out, d')) :
  Forall2 (cuda_agrees tokens) (eg_members group) (er_members out) ∧
  (er_group_succeeded out = true →
   er_members out = cpu_execute_member tokens <$> eg_members group).
Proof using All.
  assert (∃ out0 d0 d1, cuda_members tokens (eg_members group)
            (mkExecutorResult true [] "cuda" 0 "") d0 = (out0, d1) ∧
          er_members out = er_members out0 ∧
          (er_group_succeeded out = true → er_group_succeeded out0 = true))
    as (out0 & d0 & d1 & Hrun & Heq & Hsucc).
  { revert Hx. unfold cuda_execute, mbind, devm_bind.
    destruct (cuda_available d) as [ok da]. case_if; [done|].
    destruct (cudaSetDevice _ da) as [e db]. case_if; [done|].
    destruct (cudaMemGetInfo _ db) as [[f t] dc].
    destruct (cuda_members _ _ _ dc) as [out0 d1] eqn:Hrun.
    unfold cuda_cleanup, mbind, devm_bind.
    destruct (cudaMemGetInfo _ d1) as [[f' t'] d2]. destruct (cudaGetLastError d2) as [l d3].
    intros [= <- _]. exists out0, dc, d1. split; [done|]. case_if; cbn; [|done].
    rewrite andb_true_iff. tauto. }
  destruct (cuda_members_agree _ _ _ _ _ _ Hw Hms Hrun) as (mrs & Hout & Hall & Hok).
  cbn in Hout. rewrite Heq, Hout. split; [done|]. intros Hs%Hsucc%Hok. clear -Hall Hs.
  induction Hall as [|m mr ms mrs Hm _ IH]; [done|]. apply Forall_cons in Hs as [Hs Hrest].
  rewrite fmap_cons, <- IH by done. f_equal.
  destruct Hm as [->|[[Hz ->]|(ce & _ & ->)]]; [done| |done].
  revert Hs. unfold cpu_execute_member. rewrite (proj2 (Z.eqb_eq _ _) Hz). done.
Qed.
End agreement.

(** ** A simulated device

    Memory as a map, allocation within a budget of octets, kernels run when they
    are launched with the threads in ascending order.  On a device with a
    [fault] kernels fail while they run: nothing is computed and the
    synchronisation reports error 700. *)

Record SimDevice (fault : bool) := mkSim { sm_mem : gmap Z (list Z); sm_budget : Z }.
Arguments mkSim {_} _ _.
Arguments sm_mem {_} _.
Arguments sm_budget {_} _.

Definition sim_put {f} (d : SimDevice f) (p : Z) (ws : list Z) : SimDevice f :=
  mkSim (<[p := ws]> (sm_mem d)) (sm_budget d).

#[global] Instance sim_runtime f : CudaRuntime (SimDevice f) := {
  cudaGetErrorString e := "cuda error " +:+ std_to_string e;
  cudaGetDeviceCount d := ((cudaSuccess, 1), d);
  cudaSetDevice i d := (if i =? 0 then cudaSuccess else 101, d);
  cudaMemGetInfo old d := ((sm_budget d, sm_budget d), d);
  cudaGetDeviceProperties i d := ((cudaSuccess, mkDeviceProp "sim" 9 0), d);
  cudaMalloc n d :=
    if sm_budget d <? n then ((2, 0), d)
    else let p := fresh (dom (sm_mem d)) in ((cudaSuccess, p), sim_put d p []);
  cudaFree p d := (cudaSuccess, mkSim (delete p (sm_mem d)) (sm_budget d));
  cudaMemset p v n d := (cudaSuccess, sim_put d p [v]);
  cudaMemcpyHostToDevice p ws d := (cudaSuccess, sim_put d p ws);
  cudaMemcpyDeviceToHost p old d :=
    ((cudaSuccess, match sm_mem d !! p with Some (w :: _) => w | _ => old end), d);
  launch_reduce b t p s n q d :=
    (tt, match sm_mem d !! p, sm_mem d !! q with
         | Some toks, Some (acc :: _) =>
             if f then d
             else sim_put d q [foldl (kernel_thread toks s n) acc (seq 0 (Z.to_nat (b * t)))]
         | _, _ => d
         end);
  cudaGetLastError d := (cudaSuccess, d);
  cudaDeviceSynchronize d := (if f then 700 else cudaSuccess, d)
}.

Lemma sim_put_dom {f} (d : SimDevice f) p ws :
  p ∈ dom (sm_mem d) → dom (sm_mem (sim_put d p ws)) = dom (sm_mem d).
Proof. intros Hp. cbn. rewrite dom_insert_L. set_solver. Qed.

#[global] Program Instance sim_laws f : CudaLaws (SimDevice f) := { cl_mem := sm_mem }.
Solve Obligations with (try done).
Next Obligation.
  intros f d n e p d'. cbn. case_if; intros [= <- <- <-]; cbn; [done|].
  split; [|eauto]. apply not_elem_of_dom, is_fresh.
Qed.
Next Obligation. intros f d p Hp. split; [by apply sim_put_dom|done]. Qed.
Next Obligation. intros f d p ws Hp. split; [by apply sim_put_dom|done]. Qed.
Next Obligation. intros f d p old. cbn. split; [done|]. by intros w ->. Qed.
Next Obligation.
  intros f d b t p s n q. cbn. destruct (sm_mem d !! p) as [toks|]; [|done].
  destruct (sm_mem d !! q) as [[|acc ws]|] eqn:Hq; [done| |done]. destruct f; [done|].
  apply sim_put_dom. by apply elem_of_dom_2 in Hq.
Qed.
Next Obligation.
  intros f d b t p s n q toks acc. cbn. intros Hp Hq Hpq _. rewrite Hp, Hq.
  destruct f; [done|]. intros _. eexists. by split.
Qed.

#[global] Instance sim_frees f : FreesSucceed (SimDevice f).
Proof. by intros d p. Qed.

#[global] Instance sim_unchecked : UncheckedCallsSucceed (SimDevice false).
Proof. by constructor. Qed.

(** Why the unchecked calls matter: when a kernel fails while it runs, the
    member is reported as a success with the digest of an empty sum, and the
    group as succeeded. *)
Example failed_kernel_reported_success :
  let R := InMemoryTokenResolver {[ 11 := [5; 6; 7] ]} in
  let m := mkExecutableMember 11 1 1 0 0 3 WorkKind_full_prompt 0 0 0 0 in
  let group := ExecutionGroup_default <| eg_members := [m] |> in
  match (cuda_execute (mkCudaExecutor 0 0) group R (mkSim ∅ 4096 : SimDevice true)).1 with
  | Ok out =>
      er_group_succeeded out = true ∧ is_success <$> er_members out = [true] ∧
      er_members out ≠ cpu_execute_member R <$> eg_members group
  | Err _ => False
  end.
Proof. vm_compute. split_and!; [done|done|discriminate]. Qed.

(** ** Without CUDA: the stub *)

Definition stub_execute (group : ExecutionGroup) (tokens : TokenResolver) : Result ExecutorResult :=
  err ErrorCode_cuda_unavailable "CUDA build disabled".
Definition stub_device : DeviceDescriptor := mkDeviceDescriptor 0 "" kBackendCuda 0 0 "" false.
Definition stub_query_device (index : Z) : Result DeviceDescriptor :=
  err ErrorCode_cuda_unavailable "no CUDA device".
Definition stub_executor : Executor := mkExecutor stub_execute "cuda" false stub_device kBackendCuda.
(** [create_cuda_executor] of the stub: a null pointer. *)
Definition stub_create_cuda_executor : option Executor := None.
