(* ===== verification/Observability.v ===== *)
(** * Observability ([observability.hpp], [explain.hpp])

    Per-tenant accounting, the cumulative statistics, the bounded event log,
    the snapshot and the explanation records. *)

From S2P Require Import Prelude Float Types Request.

(** Service accounting of one tenant. *)
Record TenantService := mkTenantService {
  ts_weight : double;
  ts_scheduled_tokens : Z;
  ts_completed_requests : Z;
  ts_wait_total_ns : Nanoseconds;
  ts_outstanding : Z;
  ts_normalized_service : double;
  ts_admitted_tokens : Z
}.

#[global] Instance eta_TenantService : Eta TenantService := λ x,
  mkTenantService (ts_weight x) (ts_scheduled_tokens x) (ts_completed_requests x)
    (ts_wait_total_ns x) (ts_outstanding x) (ts_normalized_service x) (ts_admitted_tokens x).
#[global] Instance set_ts_weight : Setter ts_weight := ltac:(mk_setter).
#[global] Instance set_ts_scheduled_tokens : Setter ts_scheduled_tokens := ltac:(mk_setter).
#[global] Instance set_ts_completed_requests : Setter ts_completed_requests := ltac:(mk_setter).
#[global] Instance set_ts_wait_total_ns : Setter ts_wait_total_ns := ltac:(mk_setter).
#[global] Instance set_ts_outstanding : Setter ts_outstanding := ltac:(mk_setter).
#[global] Instance set_ts_normalized_service : Setter ts_normalized_service := ltac:(mk_setter).
#[global] Instance set_ts_admitted_tokens : Setter ts_admitted_tokens := ltac:(mk_setter).
Definition TenantService_default : TenantService := mkTenantService d_one 0 0 0 0 d_zero 0.

Record DeviceWork := mkDeviceWork {
  dw_groups_run : Z; dw_tokens_processed : Z; dw_busy_total_ns : Nanoseconds;
  dw_peak_reserved_bytes : Z
}.

(** Cumulative scheduler statistics. *)
Record Stats := mkStats {
  st_submitted : Z;
  st_admitted : Z;
  st_rejected : Z;
  st_cancelled : Z;
  st_retried : Z;
  st_completed : Z;
  st_failed_non_retryable : Z;
  st_expired : Z;
  st_deadline_missed : Z;
  st_groups_formed : Z;
  st_mem_underflow_flag : Z;
  st_scheduled_tokens : Z;
  st_completed_tokens : Z;
  st_chunk_count : Z;
  st_stale_authority_rejected : Z;
  st_duplicate_completion_rejected : Z;
  st_queue_delay_exceeded : Z;
  st_queue_depth : Z;
  st_waiting_tokens : Z;
  st_running_requests : Z;
  st_remaining_prefill_tokens : Z;
  st_reserved_memory_bytes : Z;
  st_available_memory_bytes : Z;
  st_queue_latency_total_ns : Nanoseconds;
  st_execution_latency_total_ns : Nanoseconds;
  st_queue_latency_samples : Z;
  st_execution_latency_samples : Z;
  st_rejection_by_reason : gmap Z Z;
  st_group_size_distribution : gmap Z Z;
  st_per_tenant : gmap Z TenantService;
  st_per_device : gmap Z DeviceWork
}.

#[global] Instance eta_Stats : Eta Stats := λ x,
  mkStats (st_submitted x) (st_admitted x) (st_rejected x) (st_cancelled x) (st_retried x)
    (st_completed x) (st_failed_non_retryable x) (st_expired x) (st_deadline_missed x)
    (st_groups_formed x) (st_mem_underflow_flag x) (st_scheduled_tokens x)
    (st_completed_tokens x) (st_chunk_count x) (st_stale_authority_rejected x)
    (st_duplicate_completion_rejected x) (st_queue_delay_exceeded x) (st_queue_depth x)
    (st_waiting_tokens x) (st_running_requests x) (st_remaining_prefill_tokens x)
    (st_reserved_memory_bytes x) (st_available_memory_bytes x) (st_queue_latency_total_ns x)
    (st_execution_latency_total_ns x) (st_queue_latency_samples x)
    (st_execution_latency_samples x) (st_rejection_by_reason x) (st_group_size_distribution x)
    (st_per_tenant x) (st_per_device x).
#[global] Instance set_st_submitted : Setter st_submitted := ltac:(mk_setter).
#[global] Instance set_st_admitted : Setter st_admitted := ltac:(mk_setter).
#[global] Instance set_st_rejected : Setter st_rejected := ltac:(mk_setter).
#[global] Instance set_st_cancelled : Setter st_cancelled := ltac:(mk_setter).
#[global] Instance set_st_retried : Setter st_retried := ltac:(mk_setter).
#[global] Instance set_st_completed : Setter st_completed := ltac:(mk_setter).
#[global] Instance set_st_failed_non_retryable : Setter st_failed_non_retryable := ltac:(mk_setter).
#[global] Instance set_st_expired : Setter st_expired := ltac:(mk_setter).
#[global] Instance set_st_deadline_missed : Setter st_deadline_missed := ltac:(mk_setter).
#[global] Instance set_st_groups_formed : Setter st_groups_formed := ltac:(mk_setter).
#[global] Instance set_st_scheduled_tokens : Setter st_scheduled_tokens := ltac:(mk_setter).
#[global] Instance set_st_completed_tokens : Setter st_completed_tokens := ltac:(mk_setter).
#[global] Instance set_st_stale_authority_rejected : Setter st_stale_authority_rejected := ltac:(mk_setter).
#[global] Instance set_st_duplicate_completion_rejected : Setter st_duplicate_completion_rejected := ltac:(mk_setter).
#[global] Instance set_st_queue_delay_exceeded : Setter st_queue_delay_exceeded := ltac:(mk_setter).
#[global] Instance set_st_queue_depth : Setter st_queue_depth := ltac:(mk_setter).
#[global] Instance set_st_waiting_tokens : Setter st_waiting_tokens := ltac:(mk_setter).
#[global] Instance set_st_remaining_prefill_tokens : Setter st_remaining_prefill_tokens := ltac:(mk_setter).
#[global] Instance set_st_queue_latency_total_ns : Setter st_queue_latency_total_ns := ltac:(mk_setter).
#[global] Instance set_st_execution_latency_total_ns : Setter st_execution_latency_total_ns := ltac:(mk_setter).
#[global] Instance set_st_queue_latency_samples : Setter st_queue_latency_samples := ltac:(mk_setter).
#[global] Instance set_st_execution_latency_samples : Setter st_execution_latency_samples := ltac:(mk_setter).
#[global] Instance set_st_rejection_by_reason : Setter st_rejection_by_reason := ltac:(mk_setter).
#[global] Instance set_st_group_size_distribution : Setter st_group_size_distribution := ltac:(mk_setter).
Definition Stats_default : Stats :=
  mkStats 0 0 0 0 0 0 0 0 0 0 0 0 0 0 0 0 0 0 0 0 0 0 0 0 0 0 0 ∅ ∅ ∅ ∅.

(** ** Events *)

Record Event := mkEvent {
  ev_time_ns : Nanoseconds;
  ev_type : string;
  ev_request_id : RequestId;
  ev_attempt_id : AttemptId;
  ev_detail : string
}.

Record EventLog := mkEventLog { el_events : list Event; el_capacity : Z }.

Definition EventLog_default : EventLog := mkEventLog [] 10000.

(** [EventLog::record]: append, then drop the oldest event if over capacity. *)
Definition record_event (l : EventLog) (e : Event) : EventLog :=
  let events := el_events l ++ [e] in
  let events := if el_capacity l <? Z.of_nat (length events) then tail events else events in
  mkEventLog events (el_capacity l).

Record Snapshot := mkSnapshot {
  sn_queue_depth : Z;
  sn_waiting_tokens : Z;
  sn_running_requests : Z;
  sn_reserved_memory_bytes : Z;
  sn_remaining_prefill_tokens : Z;
  sn_completed_requests : Z;
  sn_waiting_request_ids : list RequestId;
  sn_running_request_ids : list RequestId;
  sn_stats : Stats
}.

(** ** Explanations *)

Record Explain := mkExplain {
  xp_request_id : RequestId;
  xp_attempt_id : AttemptId;
  xp_lifecycle : string;
  xp_trace : list string
}.

Definition Explain_to_text (x : Explain) : string :=
  foldl (λ out t, out +:+ String (Ascii.ascii_of_nat 10) "  - " +:+ t)
    ("request " +:+ std_to_string (xp_request_id x) +:+ "/attempt " +:+
     std_to_string (xp_attempt_id x) +:+ " lifecycle=" +:+ xp_lifecycle x) (xp_trace x).

(** ** The event log is bounded and keeps the latest events *)

(** Recording never lets the log grow past its capacity, keeps the order,
    and the log is always the most recent suffix of everything recorded. *)
Theorem event_log_suffix cap evs
    (Hcap : 1 <= cap) :
  let l := foldl record_event (mkEventLog [] cap) evs in
  el_events l = drop (length evs - Z.to_nat cap) evs ∧
  Z.of_nat (length (el_events l)) <= cap.
Proof.
  intros l.
  assert (el_capacity l = cap ∧ el_events l = drop (length evs - Z.to_nat cap) evs) as [Hc He].
  { unfold l. clear l. induction evs as [|e evs IH] using rev_ind; [done|].
    rewrite foldl_snoc. destruct (foldl _ _ evs) as [es c]. simpl in IH. destruct IH as [-> ->].
    unfold record_event. simpl. split; [done|].
    rewrite !length_app, length_drop. simpl.
    case_if.
    - replace (length evs + 1 - Z.to_nat cap)%nat with (S (length evs - Z.to_nat cap)) by lia.
      set (k := (length evs - Z.to_nat cap)%nat) in *.
      destruct (drop k evs) as [|x es] eqn:Ed.
      { apply (f_equal length) in Ed. rewrite length_drop in Ed. simpl in Ed. lia. }
      rewrite drop_app_le by (unfold k; lia).
      replace (S k) with (k + 1)%nat by lia. by rewrite <- drop_drop, Ed.
    - replace (length evs + 1 - Z.to_nat cap)%nat with 0%nat by lia.
      replace (length evs - Z.to_nat cap)%nat with 0%nat by lia. done. }
  split; [done|]. rewrite He, length_drop. lia.
Qed.
