(* ===== verification/Explain.v ===== *)
(** * Explanations as JSON ([explain.hpp])

    [json_escape] and [Explain::to_json], and a reader of JSON texts after RFC
    8259 as the reference: what is printed is one JSON object, and reading it
    gives back the identifiers, the lifecycle and every line of the trace,
    whatever characters they hold. *)

From Stdlib Require Import Ascii.
From S2P Require Import Prelude Float Types Text Observability.

#[local] Set Warnings "-register-all".

(** ** Printing *)

Definition dquote : ascii := "034"%char.
Definition backslash : ascii := "\"%char.

Definition hex_digit (n : N) : ascii :=
  if (n <? 10)%N then ascii_of_N (48 + n) else ascii_of_N (87 + n).

(** [snprintf] with [%04x], below 2^16. *)
Definition hex4 (n : N) : string :=
  String (hex_digit (n / 4096 mod 16)) (String (hex_digit (n / 256 mod 16))
    (String (hex_digit (n / 16 mod 16)) (String (hex_digit (n mod 16)) ""))).

Definition escape_char (c : ascii) : string :=
  if (c =? dquote)%char then String backslash (String dquote "")
  else if (c =? backslash)%char then String backslash (String backslash "")
  else if (c =? "010")%char then String backslash "n"
  else if (c =? "013")%char then String backslash "r"
  else if (c =? "009")%char then String backslash "t"
  else if (N_of_ascii c <? 32)%N then String backslash ("u" +:+ hex4 (N_of_ascii c))
  else String c "".

Fixpoint json_escape (s : string) : string :=
  match s with
  | EmptyString => ""
  | String c s => escape_char c +:+ json_escape s
  end.

Definition quoted (s : string) : string := String dquote (s +:+ String dquote "").

(** The loop over the trace; a comma before every line but the first. *)
Fixpoint json_items (first : bool) (l : list string) : string :=
  match l with
  | [] => ""
  | t :: l => (if first then "" else ",") +:+ quoted (json_escape t) +:+ json_items false l
  end.

Definition Explain_to_json (x : Explain) : string :=
  "{" +:+ quoted "request_id" +:+ ":" +:+ std_to_string (xp_request_id x) +:+ "," +:+
  quoted "attempt_id" +:+ ":" +:+ std_to_string (xp_attempt_id x) +:+ "," +:+
  quoted "lifecycle" +:+ ":" +:+ quoted (json_escape (xp_lifecycle x)) +:+ "," +:+
  quoted "trace" +:+ ":[" +:+ json_items true (xp_trace x) +:+ "]}".

(** ** Reading *)

Inductive json :=
| JNum (z : Z)
| JStr (s : string)
| JArr (l : list json)
| JObj (l : list (string * json)).

Definition hex_value (c : ascii) : option N :=
  let n := N_of_ascii c in
  (if (48 <=? n) && (n <=? 57) then Some (n - 48)
   else if (97 <=? n) && (n <=? 102) then Some (n - 87)
   else if (65 <=? n) && (n <=? 70) then Some (n - 55) else None)%N.

Definition hex4_value (a b c d : ascii) : option N :=
  a ← hex_value a; b ← hex_value b; c ← hex_value c; d ← hex_value d;
  Some (4096 * a + 256 * b + 16 * c + d)%N.

(** A code point of the basic plane in UTF-8; half a surrogate pair has none. *)
Definition utf8 (n : N) : option string :=
  (if n <? 128 then Some (String (ascii_of_N n) "")
   else if n <? 2048 then
     Some (String (ascii_of_N (192 + n / 64)) (String (ascii_of_N (128 + n mod 64)) ""))
   else if (55296 <=? n) && (n <=? 57343) then None
   else Some (String (ascii_of_N (224 + n / 4096)) (String (ascii_of_N (128 + n / 64 mod 64))
          (String (ascii_of_N (128 + n mod 64)) ""))))%N.

Definition unescape (c : ascii) : option ascii :=
  if (c =? dquote)%char then Some dquote
  else if (c =? backslash)%char then Some backslash
  else if (c =? "/")%char then Some "/"%char
  else if (c =? "b")%char then Some "008"%char
  else if (c =? "f")%char then Some "012"%char
  else if (c =? "n")%char then Some "010"%char
  else if (c =? "r")%char then Some "013"%char
  else if (c =? "t")%char then Some "009"%char
  else None.

(** The rest of a string literal, after its opening quote. *)
Fixpoint read_chars (s : string) : option (string * string) :=
  match s with
  | EmptyString => None
  | String c s =>
      if (c =? dquote)%char then Some ("", s)
      else if (c =? backslash)%char then
        match s with
        | String e s1 =>
            if (e =? "u")%char then
              match s1 with
              | String a (String b (String c' (String d s))) =>
                  n ← hex4_value a b c' d; u ← utf8 n;
                  '(t, rest) ← read_chars s; Some (u +:+ t, rest)
              | _ => None
              end
            else x ← unescape e; '(t, rest) ← read_chars s1; Some (String x t, rest)
        | EmptyString => None
        end
      else if (N_of_ascii c <? 32)%N then None
      else '(t, rest) ← read_chars s; Some (String c t, rest)
  end.

Definition json_space (c : ascii) : bool :=
  (c =? " ")%char || (c =? "009")%char || (c =? "010")%char || (c =? "013")%char.

Fixpoint skip_ws (s : string) : string :=
  match s with
  | String c s' => if json_space c then skip_ws s' else s
  | EmptyString => s
  end.

Fixpoint read_digits (acc : Z) (s : string) : Z * string :=
  match s with
  | String c s' => if is_digit c then read_digits (10 * acc + (Z.of_N (N_of_ascii c) - 48)) s' else (acc, s)
  | EmptyString => (acc, s)
  end.

(** An integer that is not negative; no superfluous zero in front. *)
Definition read_number (s : string) : option (json * string) :=
  match s with
  | String c s' =>
      if (c =? "0")%char then if starts_digit s' then None else Some (JNum 0, s')
      else let '(z, rest) := read_digits 0 s in Some (JNum z, rest)
  | EmptyString => None
  end.

(** The character after white space, if it is the one expected. *)
Definition expect (c : ascii) (s : string) : option string :=
  match skip_ws s with
  | String c' s => if (c' =? c)%char then Some s else None
  | EmptyString => None
  end.

Fixpoint read_value (fuel : nat) (s : string) : option (json * string) :=
  match fuel with
  | O => None
  | S n =>
      match skip_ws s with
      | EmptyString => None
      | String c s' =>
          if (c =? dquote)%char then '(t, rest) ← read_chars s'; Some (JStr t, rest)
          else if (c =? "[")%char then
            match expect "]" s' with
            | Some rest => Some (JArr [], rest)
            | None => '(l, rest) ← read_elements n s'; Some (JArr l, rest)
            end
          else if (c =? "{")%char then
            match expect "}" s' with
            | Some rest => Some (JObj [], rest)
            | None => '(l, rest) ← read_members n s'; Some (JObj l, rest)
            end
          else if is_digit c then read_number (String c s')
          else None
      end
  end
with read_elements (fuel : nat) (s : string) : option (list json * string) :=
  match fuel with
  | O => None
  | S n =>
      '(v, s) ← read_value n s;
      match expect "," s with
      | Some s => '(l, rest) ← read_elements n s; Some (v :: l, rest)
      | None => rest ← expect "]" s; Some ([v], rest)
      end
  end
with read_members (fuel : nat) (s : string) : option (list (string * json) * string) :=
  match fuel with
  | O => None
  | S n =>
      s ← expect dquote s; '(k, s) ← read_chars s; s ← expect ":" s;
      '(v, s) ← read_value n s;
      match expect "," s with
      | Some s => '(l, rest) ← read_members n s; Some ((k, v) :: l, rest)
      | None => rest ← expect "}" s; Some ([(k, v)], rest)
      end
  end.

(** A whole text; its length bounds the nesting and the number of elements. *)
Definition read_json (s : string) : option json :=
  '(v, rest) ← read_value (2 + String.length s) s;
  match skip_ws rest with EmptyString => Some v | _ => None end.

(** ** Strings *)

Lemma app_assoc_s (a b c : string) : (a +:+ b) +:+ c = a +:+ (b +:+ c).
Proof. induction a as [|x a IH]; [done|]. exact (f_equal (String x) IH). Qed.

Lemma app_char c s : String c "" +:+ s = String c s.
Proof. done. Qed.

Lemma app_two c d s : String c (String d "") +:+ s = String c (String d s).
Proof. done. Qed.

(** What [\u] makes of a control character. *)
Lemma control_char c :
  (N_of_ascii c <? 32)%N = true →
  ∃ a b d e, hex4 (N_of_ascii c) = String a (String b (String d (String e ""))) ∧
    hex4_value a b d e = Some (N_of_ascii c) ∧ utf8 (N_of_ascii c) = Some (String c "").
Proof.
  intros Hc. do 4 eexists. split; [done|].
  by destruct c as [[] [] [] [] [] [] [] []]; vm_compute in Hc |- *.
Qed.

Lemma read_backslash e x s t rest :
  (e =? "u")%char = false → unescape e = Some x → read_chars s = Some (t, rest) →
  read_chars (String backslash (String e s)) = Some (String x t, rest).
Proof.
  intros He Hx Hs. cbn [read_chars]. change ((backslash =? dquote)%char) with false.
  change ((backslash =? backslash)%char) with true. cbv iota. by rewrite He, Hx; cbn [mbind option_bind]; rewrite Hs.
Qed.

Lemma read_unicode a b d e n u s t rest :
  hex4_value a b d e = Some n → utf8 n = Some u → read_chars s = Some (t, rest) →
  read_chars (String backslash (String "u" (String a (String b (String d (String e s))))))
  = Some (u +:+ t, rest).
Proof.
  intros Hn Hu Hs. cbn [read_chars]. change ((backslash =? dquote)%char) with false.
  change ((backslash =? backslash)%char) with true. change (("u" =? "u")%char) with true. cbv iota.
  rewrite Hn. cbn [mbind option_bind]. rewrite Hu. cbn [mbind option_bind]. by rewrite Hs.
Qed.

(** Reading an escaped character gives it back. *)
Lemma read_escaped c s t rest :
  read_chars s = Some (t, rest) → read_chars (escape_char c +:+ s) = Some (String c t, rest).
Proof.
  intros Hs. unfold escape_char.
  destruct (Ascii.eqb_spec c dquote) as [->|H1]; [by apply read_backslash|].
  destruct (Ascii.eqb_spec c backslash) as [->|H2]; [by apply read_backslash|].
  destruct (Ascii.eqb_spec c "010") as [->|H3]; [by apply read_backslash|].
  destruct (Ascii.eqb_spec c "013") as [->|H4]; [by apply read_backslash|].
  destruct (Ascii.eqb_spec c "009") as [->|H5]; [by apply read_backslash|].
  destruct (N_of_ascii c <? 32)%N eqn:Hc.
  - destruct (control_char c Hc) as (a & b & d & e & -> & Hv & Hu).
    exact (read_unicode a b d e _ _ s t rest Hv Hu Hs).
  - change (String c "" +:+ s) with (String c s). cbn [read_chars].
    rewrite (proj2 (Ascii.eqb_neq _ _) H1), (proj2 (Ascii.eqb_neq _ _) H2), Hc. by rewrite Hs.
Qed.

Lemma read_escape s rest : read_chars (json_escape s +:+ String dquote rest) = Some (s, rest).
Proof.
  induction s as [|c s IH]; [done|]. cbn [json_escape]. rewrite app_assoc_s. by apply read_escaped.
Qed.

(** ** Numbers *)

Lemma pretty_go_app x s r : pretty_N_go x s +:+ r = pretty_N_go x (s +:+ r).
Proof.
  revert x s. apply (pretty_go_ind (λ x s, pretty_N_go x s +:+ r = pretty_N_go x (s +:+ r))); [done|].
  intros x s Hx IH. by rewrite !(pretty_N_go_step x) by done.
Qed.

Lemma read_digits_pretty x s : read_digits 0 (pretty_N_go x s) = read_digits (Z.of_N x) s.
Proof.
  revert x s. apply pretty_go_ind; [done|]. intros x s Hx IH.
  rewrite pretty_N_go_step by done. rewrite IH. cbn [read_digits].
  pose proof (N.mod_lt x 10 ltac:(done)) as Hm. pose proof (N.div_mod x 10 ltac:(done)) as Hx10.
  destruct (pretty_char_digit (x mod 10) Hm) as [-> ->]. f_equal. lia.
Qed.

(** No number but zero is printed with a zero in front. *)
Lemma pretty_head x s : (0 < x)%N → ∃ c s', pretty_N_go x s = String c s' ∧ is_digit c = true ∧ c ≠ "0"%char.
Proof.
  revert x s. apply (pretty_go_ind (λ x s, (0 < x)%N →
    ∃ c s', pretty_N_go x s = String c s' ∧ is_digit c = true ∧ c ≠ "0"%char)); [done|].
  intros x s Hx IH _. rewrite pretty_N_go_step by done.
  destruct (decide (x < 10)%N) as [Hlt|Hge].
  - rewrite N.div_small by done. rewrite N.mod_small by done. eexists _, s. split; [done|].
    destruct (pretty_char_digit x Hlt) as [Hv Hd]. split; [done|]. intros E. rewrite E in Hv.
    change (Z.of_N (N_of_ascii "0") - 48) with 0 in Hv. lia.
  - apply IH. apply N.div_str_pos. lia.
Qed.

Lemma read_number_printed z rest :
  0 <= z → starts_digit rest = false →
  read_number (std_to_string z +:+ rest) = Some (JNum z, rest).
Proof.
  intros Hz Hr. destruct (decide (z = 0)) as [->|Hne].
  { change (std_to_string 0 +:+ rest) with (String "0" rest). cbn [read_number].
    change (("0" =? "0")%char) with true. by rewrite Hr. }
  rewrite to_string_pretty by lia. rewrite pretty_go_app. change ("" +:+ rest) with rest.
  destruct (pretty_head (Z.to_N z) rest ltac:(lia)) as (c & s' & E & Hd & Hc0).
  pose proof (read_digits_pretty (Z.to_N z) rest) as Hv. rewrite E in Hv |- *. cbn [read_number].
  rewrite (proj2 (Ascii.eqb_neq _ _) Hc0), Hv, Z2N.id by lia.
  destruct rest as [|c' rest]; [done|]. cbn [starts_digit] in Hr. cbn [read_digits]. by rewrite Hr.
Qed.

(** ** Values *)

Lemma expect_hit c s : json_space c = false → expect c (String c s) = Some s.
Proof. intros Hc. unfold expect. cbn [skip_ws]. by rewrite Hc, Ascii.eqb_refl. Qed.

Lemma expect_miss c c' s : json_space c' = false → (c' =? c)%char = false → expect c (String c' s) = None.
Proof. intros Hc He. unfold expect. cbn [skip_ws]. by rewrite Hc, He. Qed.

Lemma quoted_app s rest : quoted s +:+ rest = String dquote (s +:+ String dquote rest).
Proof. unfold quoted. exact (f_equal (String dquote) (app_assoc_s s (String dquote "") rest)). Qed.

Lemma expect_quoted c s rest : (dquote =? c)%char = false → expect c (quoted s +:+ rest) = None.
Proof. intros Hc. rewrite quoted_app. by apply expect_miss. Qed.

Lemma read_string n t rest :
  read_value (S n) (quoted (json_escape t) +:+ rest) = Some (JStr t, rest).
Proof.
  rewrite quoted_app. cbn [read_value skip_ws]. change (json_space dquote) with false.
  change ((dquote =? dquote)%char) with true. cbv iota. by rewrite read_escape.
Qed.

Lemma digit_char c : is_digit c = true →
  json_space c = false ∧ (c =? dquote)%char = false ∧ (c =? "[")%char = false ∧ (c =? "{")%char = false.
Proof. by destruct c as [[] [] [] [] [] [] [] []]. Qed.

Lemma read_integer n z rest :
  0 <= z → starts_digit rest = false →
  read_value (S n) (std_to_string z +:+ rest) = Some (JNum z, rest).
Proof.
  intros Hz Hr. pose proof (read_number_printed z rest Hz Hr) as Hn.
  assert (∃ c s, std_to_string z +:+ rest = String c s ∧ is_digit c = true) as (c & s & E & Hd).
  { destruct (decide (z = 0)) as [->|Hne]; [by exists "0"%char, rest|].
    rewrite to_string_pretty, pretty_go_app by lia.
    destruct (pretty_head (Z.to_N z) ("" +:+ rest) ltac:(lia)) as (c & s & E & Hd & _). eauto. }
  rewrite E in Hn |- *. destruct (digit_char c Hd) as (H1 & H2 & H3 & H4).
  cbn [read_value skip_ws]. by rewrite H1, H2, H3, H4, Hd.
Qed.

Lemma read_elements_S n s :
  read_elements (S n) s =
  '(v, s) ← read_value n s;
  match expect "," s with
  | Some s => '(l, rest) ← read_elements n s; Some (v :: l, rest)
  | None => rest ← expect "]" s; Some ([v], rest)
  end.
Proof. done. Qed.

Lemma read_items l : ∀ n t rest, (length l + 2 <= n)%nat →
  read_elements n (quoted (json_escape t) +:+ json_items false l +:+ String "]" rest)
  = Some (JStr <$> (t :: l), rest).
Proof.
  induction l as [|u l IH]; intros n t rest Hn; cbn [json_items length] in *.
  all: destruct n as [|[|n]]; [lia..|]; rewrite read_elements_S, read_string; cbn [mbind option_bind].
  - change ("" +:+ String "]" rest) with (String "]" rest). by rewrite expect_miss, expect_hit.
  - rewrite !app_assoc_s. change ("," +:+ ?s) with (String "," s). rewrite expect_hit by done.
    by rewrite IH by lia.
Qed.

Lemma read_trace n l rest : (length l + 2 <= n)%nat →
  read_value (S n) (String "[" (json_items true l +:+ String "]" rest)) = Some (JArr (JStr <$> l), rest).
Proof.
  intros Hn. cbn [read_value skip_ws]. change (json_space "[") with false.
  change (("[" =? dquote)%char) with false. change (("[" =? "[")%char) with true. cbv iota.
  destruct l as [|t l]; cbn [json_items length] in *.
  { change ("" +:+ String "]" rest) with (String "]" rest). by rewrite expect_hit. }
  rewrite !app_assoc_s. change ("" +:+ ?s) with s.
  rewrite expect_quoted by done. by rewrite read_items by lia.
Qed.

(** A member whose value is followed by a comma, or by the end of the object. *)
Lemma read_member k n s v s' :
  json_escape k = k → read_value n s = Some (v, s') →
  read_members (S n) (quoted k +:+ String ":" s)
  = match expect "," s' with
    | Some s => '(l, rest) ← read_members n s; Some ((k, v) :: l, rest)
    | None => rest ← expect "}" s'; Some ([(k, v)], rest)
    end.
Proof.
  intros Hk Hv. rewrite <- Hk at 1. rewrite quoted_app. cbn [read_members].
  rewrite expect_hit by done. cbn [mbind option_bind]. rewrite read_escape. cbn [mbind option_bind].
  rewrite expect_hit by done. cbn [mbind option_bind]. by rewrite Hv.
Qed.

Lemma read_object n k s :
  read_value (S n) (String "{" (quoted k +:+ s))
  = '(l, rest) ← read_members n (quoted k +:+ s); Some (JObj l, rest).
Proof.
  cbn [read_value skip_ws]. change (json_space "{") with false.
  change (("{" =? dquote)%char) with false. change (("{" =? "[")%char) with false.
  change (("{" =? "{")%char) with true. cbv iota. by rewrite expect_quoted.
Qed.

Lemma length_app_s a b : String.length (a +:+ b) = (String.length a + String.length b)%nat.
Proof. induction a as [|c a IH]; [done|]. exact (f_equal S IH). Qed.

Lemma length_items first l : (length l <= String.length (json_items first l))%nat.
Proof.
  revert first. induction l as [|t l IH]; intros first; [done|]. cbn [json_items length].
  rewrite !length_app_s. specialize (IH false). unfold quoted. cbn [String.length]. lia.
Qed.

(** C40: the JSON text of an explanation is one object, whose members are the
    identifiers as numbers, the lifecycle and the trace line by line: a reader
    of JSON gets them back exactly, whatever octets the strings hold. *)
Theorem explain_json_roundtrip x
    (Hr : is_u64 (xp_request_id x)) (Ha : is_u64 (xp_attempt_id x)) :
  read_json (Explain_to_json x)
  = Some (JObj [("request_id", JNum (xp_request_id x)); ("attempt_id", JNum (xp_attempt_id x));
                ("lifecycle", JStr (xp_lifecycle x)); ("trace", JArr (JStr <$> xp_trace x))]).
Proof.
  unfold is_u64 in *.
  assert (length (xp_trace x) + 8 <= 2 + String.length (Explain_to_json x))%nat as Hlen.
  { unfold Explain_to_json. rewrite !length_app_s. pose proof (length_items true (xp_trace x)).
    unfold quoted. cbn [String.length]. rewrite !length_app_s. cbn [String.length]. lia. }
  unfold read_json. destruct (2 + String.length (Explain_to_json x))%nat as [|n] eqn:En; [lia|]. clear En.
  do 5 (destruct n as [|n]; [lia|]). unfold Explain_to_json.
  rewrite !app_char, app_two, read_object.
  erewrite read_member; [|done|by apply read_integer; [lia|]]. rewrite expect_hit by done.
  erewrite read_member; [|done|by apply read_integer; [lia|]]. rewrite expect_hit by done.
  erewrite read_member; [|done|by apply read_string]. rewrite expect_hit by done.
  erewrite read_member; [|done|by apply read_trace; lia]. rewrite expect_miss by done.
  by rewrite expect_hit by done.
Qed.
