(* ===== verification/SchedState.v ===== *)
(** * Scheduler state ([PrefillScheduler::Impl] of [scheduler.cpp])

    The authoritative state of the scheduler, with one record per C++ struct
    and the helpers its operations share.  Each public operation runs under one
    mutex, so an operation is a function from state to state.

    [Impl::clock] is an interface; [clock_now n] is the value of the [n]-th
    reading since the scheduler was built, and the state counts readings. *)

From S2P Require Import Prelude Float Types Request Chunking Memory Compat Exec Observability.

(** ** Records *)

(** Per-request state [Impl::Rs]. *)
Record Rs := mkRs {
  rs_request : PrefillRequest;
  rs_attempt : AttemptId;
  rs_lifecycle : Lifecycle;
  rs_plan : PrefillPlan;
  rs_next_chunk_index : Z;
  rs_completed_uncached : Z;
  rs_completed_token_total : Z;
  rs_current_generation : Generation;
  rs_reservation : ReservationId;
  rs_reserved_bytes : Z;
  rs_in_flight : bool;
  rs_current_group : GroupId;
  rs_dispatched_worker : WorkerId;
  rs_dispatch_time : Nanoseconds;
  rs_last_work_kind : WorkKind;
  rs_retries_used : Z;
  rs_normalized_service : double;
  rs_aging_cycles : Z;
  rs_admit_time : Nanoseconds;
  rs_first_dispatch_time : Nanoseconds;
  rs_chunks_done : Z;
  rs_cancel_pending : bool;
  rs_recovered_work : bool;
  rs_trace : list string
}.

#[global] Instance eta_Rs : Eta Rs := λ x,
  mkRs (rs_request x) (rs_attempt x) (rs_lifecycle x) (rs_plan x) (rs_next_chunk_index x)
    (rs_completed_uncached x) (rs_completed_token_total x) (rs_current_generation x)
    (rs_reservation x) (rs_reserved_bytes x) (rs_in_flight x) (rs_current_group x)
    (rs_dispatched_worker x) (rs_dispatch_time x) (rs_last_work_kind x) (rs_retries_used x)
    (rs_normalized_service x) (rs_aging_cycles x) (rs_admit_time x) (rs_first_dispatch_time x)
    (rs_chunks_done x) (rs_cancel_pending x) (rs_recovered_work x) (rs_trace x).
#[global] Instance set_rs_request : Setter rs_request := ltac:(mk_setter).
#[global] Instance set_rs_attempt : Setter rs_attempt := ltac:(mk_setter).
#[global] Instance set_rs_lifecycle : Setter rs_lifecycle := ltac:(mk_setter).
#[global] Instance set_rs_plan : Setter rs_plan := ltac:(mk_setter).
#[global] Instance set_rs_next_chunk_index : Setter rs_next_chunk_index := ltac:(mk_setter).
#[global] Instance set_rs_completed_uncached : Setter rs_completed_uncached := ltac:(mk_setter).
#[global] Instance set_rs_completed_token_total : Setter rs_completed_token_total := ltac:(mk_setter).
#[global] Instance set_rs_current_generation : Setter rs_current_generation := ltac:(mk_setter).
#[global] Instance set_rs_reservation : Setter rs_reservation := ltac:(mk_setter).
#[global] Instance set_rs_reserved_bytes : Setter rs_reserved_bytes := ltac:(mk_setter).
#[global] Instance set_rs_in_flight : Setter rs_in_flight := ltac:(mk_setter).
#[global] Instance set_rs_current_group : Setter rs_current_group := ltac:(mk_setter).
#[global] Instance set_rs_dispatched_worker : Setter rs_dispatched_worker := ltac:(mk_setter).
#[global] Instance set_rs_dispatch_time : Setter rs_dispatch_time := ltac:(mk_setter).
#[global] Instance set_rs_last_work_kind : Setter rs_last_work_kind := ltac:(mk_setter).
#[global] Instance set_rs_retries_used : Setter rs_retries_used := ltac:(mk_setter).
#[global] Instance set_rs_normalized_service : Setter rs_normalized_service := ltac:(mk_setter).
#[global] Instance set_rs_aging_cycles : Setter rs_aging_cycles := ltac:(mk_setter).
#[global] Instance set_rs_admit_time : Setter rs_admit_time := ltac:(mk_setter).
#[global] Instance set_rs_first_dispatch_time : Setter rs_first_dispatch_time := ltac:(mk_setter).
#[global] Instance set_rs_chunks_done : Setter rs_chunks_done := ltac:(mk_setter).
#[global] Instance set_rs_cancel_pending : Setter rs_cancel_pending := ltac:(mk_setter).
#[global] Instance set_rs_recovered_work : Setter rs_recovered_work := ltac:(mk_setter).
#[global] Instance set_rs_trace : Setter rs_trace := ltac:(mk_setter).
Definition Rs_default : Rs := {|
  rs_request := PrefillRequest_default; rs_attempt := 0; rs_lifecycle := Lifecycle_submitted;
  rs_plan := mkPrefillPlan PrefillRequest_default [] 0 0; rs_next_chunk_index := 0;
  rs_completed_uncached := 0; rs_completed_token_total := 0; rs_current_generation := 0;
  rs_reservation := 0; rs_reserved_bytes := 0; rs_in_flight := false; rs_current_group := 0;
  rs_dispatched_worker := 0; rs_dispatch_time := 0;
  rs_last_work_kind := WorkKind_full_prompt; rs_retries_used := 0;
  rs_normalized_service := d_zero; rs_aging_cycles := 0; rs_admit_time := 0;
  rs_first_dispatch_time := 0; rs_chunks_done := 0; rs_cancel_pending := false;
  rs_recovered_work := false; rs_trace := [] |}.

(** An in-flight group [Impl::Gs]. *)
Record Gs := mkGs {
  gs_group : ExecutionGroup;
  gs_worker : WorkerId;
  gs_outstanding : gset Z
}.

#[global] Instance eta_Gs : Eta Gs := λ x,
  mkGs (gs_group x) (gs_worker x) (gs_outstanding x).
#[global] Instance set_gs_group : Setter gs_group := ltac:(mk_setter).
#[global] Instance set_gs_worker : Setter gs_worker := ltac:(mk_setter).
#[global] Instance set_gs_outstanding : Setter gs_outstanding := ltac:(mk_setter).
(** A registered worker [Impl::Ws]. *)
Record Ws := mkWs {
  ws_desc : WorkerDescriptor;
  ws_busy_units : Z;
  ws_local_exec : option Executor
}.

#[global] Instance eta_Ws : Eta Ws := λ x,
  mkWs (ws_desc x) (ws_busy_units x) (ws_local_exec x).
#[global] Instance set_ws_desc : Setter ws_desc := ltac:(mk_setter).
#[global] Instance set_ws_busy_units : Setter ws_busy_units := ltac:(mk_setter).
#[global] Instance set_ws_local_exec : Setter ws_local_exec := ltac:(mk_setter).
Definition Ws_default : Ws := mkWs WorkerDescriptor_default 0 None.

(** The scheduler [Impl]. *)
Record Impl := mkImpl {
  im_cfg : SchedulerConfig;
  im_attached_executor : option Executor;
  im_token_resolver : gmap Z (list Z);
  im_mem : MemoryGovernor;
  im_events : EventLog;
  im_stats : Stats;
  im_epoch : Epoch;
  im_next_generation_value : Z;
  im_next_attempt_value : Z;
  im_next_group_value : Z;
  im_next_reservation_value : Z;
  im_next_boot_value : Z;
  requests_ : gmap Z Rs;
  groups_ : gmap Z Gs;
  workers_ : gmap Z Ws;
  tenants_ : gmap Z TenantService;
  im_clock_reads : nat
}.

#[global] Instance eta_Impl : Eta Impl := λ x,
  mkImpl (im_cfg x) (im_attached_executor x) (im_token_resolver x) (im_mem x) (im_events x)
    (im_stats x) (im_epoch x) (im_next_generation_value x) (im_next_attempt_value x)
    (im_next_group_value x) (im_next_reservation_value x) (im_next_boot_value x) (requests_ x)
    (groups_ x) (workers_ x) (tenants_ x) (im_clock_reads x).
#[global] Instance set_im_attached_executor : Setter im_attached_executor := ltac:(mk_setter).
#[global] Instance set_im_token_resolver : Setter im_token_resolver := ltac:(mk_setter).
#[global] Instance set_im_mem : Setter im_mem := ltac:(mk_setter).
#[global] Instance set_im_events : Setter im_events := ltac:(mk_setter).
#[global] Instance set_im_stats : Setter im_stats := ltac:(mk_setter).
#[global] Instance set_im_epoch : Setter im_epoch := ltac:(mk_setter).
#[global] Instance set_im_next_generation_value : Setter im_next_generation_value := ltac:(mk_setter).
#[global] Instance set_im_next_attempt_value : Setter im_next_attempt_value := ltac:(mk_setter).
#[global] Instance set_im_next_group_value : Setter im_next_group_value := ltac:(mk_setter).
#[global] Instance set_im_next_reservation_value : Setter im_next_reservation_value := ltac:(mk_setter).
#[global] Instance set_im_next_boot_value : Setter im_next_boot_value := ltac:(mk_setter).
#[global] Instance set_requests_ : Setter requests_ := ltac:(mk_setter).
#[global] Instance set_groups_ : Setter groups_ := ltac:(mk_setter).
#[global] Instance set_workers_ : Setter workers_ := ltac:(mk_setter).
#[global] Instance set_tenants_ : Setter tenants_ := ltac:(mk_setter).
#[global] Instance set_im_clock_reads : Setter im_clock_reads := ltac:(mk_setter).

(** The injected clock, by reading. *)
Class ClockSource := clock_now : nat → Nanoseconds.

(** A clock that advances by one microsecond per reading. *)
#[global] Instance microsecond_clock : ClockSource | 100 := λ n, i64 (1000 * (Z.of_nat n + 1)).

Section helpers.
Context `{FE : FloatEnv} `{CK : ClockSource} `{HO : HashOrder}.

(** ** Construction *)

Definition Impl_new (c : SchedulerConfig) : Impl :=
  let w := mkWorkerDescriptor 0 1 "local" 0 kBackendCpu [] WorkerState_ready 1 "" in
  {| im_cfg := c; im_attached_executor := None; im_token_resolver := ∅;
     im_mem := MemoryGovernor_new (usable_memory_bytes c) (cfg_memory_headroom_bytes c);
     im_events := EventLog_default; im_stats := Stats_default; im_epoch := 1;
     im_next_generation_value := 1; im_next_attempt_value := 1; im_next_group_value := 1;
     im_next_reservation_value := 1; im_next_boot_value := 2;
     requests_ := ∅; groups_ := ∅; workers_ := {[ 0 := mkWs w 0 None ]}; tenants_ := ∅;
     im_clock_reads := 0 |}.

(** ** Helpers *)

(** [now()]. *)
Definition im_now (st : Impl) : Nanoseconds * Impl :=
  (clock_now (im_clock_reads st), st <| im_clock_reads ::= S |>).

(** [events.record(now(), type, request, attempt, detail)]. *)
Definition log (st : Impl) (type : string) (r : RequestId) (a : AttemptId) (detail : string)
    : Impl :=
  let '(t, st) := im_now st in
  st <| im_events := record_event (im_events st) (mkEvent t type r a detail) |>.

(** [events.record(now, ...)] with a reading taken earlier. *)
Definition log_at (st : Impl) (t : Nanoseconds) (type : string) (r : RequestId) (a : AttemptId)
    (detail : string) : Impl :=
  st <| im_events := record_event (im_events st) (mkEvent t type r a detail) |>.

Definition upd_stats (st : Impl) (f : Stats → Stats) : Impl := st <| im_stats ::= f |>.

(** [stats.field++]. *)
Definition bump (p : Stats → Z) `{Setter Stats Z p} (st : Impl) : Impl :=
  st <| im_stats ::= setf p (λ n, n +u 1) |>.

(** [tenants_[t]] as a reference that is written through. *)
Definition upd_tenant (st : Impl) (t : TenantId) (f : TenantService → TenantService) : Impl :=
  st <| tenants_ ::= λ m, <[t := f (map_at TenantService_default m t)]> m |>.

(** Write a request's state back ([Rs&] is a reference into the map). *)
Definition put_rs (st : Impl) (r : RequestId) (s : Rs) : Impl :=
  st <| requests_ ::= <[r := s]> |>.

Definition trace_push (s : Rs) (line : string) : Rs := s <| rs_trace ::= λ t, t ++ [line] |>.

Definition chunk_count (s : Rs) : Z := Z.of_nat (length (pl_chunks (rs_plan s))).

Definition has_pending_chunk (s : Rs) : bool := rs_next_chunk_index s <? chunk_count s.

(** [s.plan.chunks[s.next_chunk_index]]; the code indexes only in range. *)
Definition pending_chunk (s : Rs) : option PrefillChunk :=
  pl_chunks (rs_plan s) !! Z.to_nat (rs_next_chunk_index s).

Definition pending_token_count (s : Rs) : Z :=
  if chunk_count s <=? rs_next_chunk_index s then 0
  else match pending_chunk s with Some c => ck_token_count c | None => 0 end.

Definition alloc_reservation (st : Impl) : ReservationId * Impl :=
  (im_next_reservation_value st, st <| im_next_reservation_value ::= λ n, n +u 1 |>).
Definition alloc_group (st : Impl) : GroupId * Impl :=
  (im_next_group_value st, st <| im_next_group_value ::= λ n, n +u 1 |>).
Definition alloc_generation (st : Impl) : Generation * Impl :=
  (im_next_generation_value st, st <| im_next_generation_value ::= λ n, n +u 1 |>).
Definition alloc_attempt (st : Impl) : AttemptId * Impl :=
  (im_next_attempt_value st, st <| im_next_attempt_value ::= λ n, n +u 1 |>).

Definition release_reservation (st : Impl) (s : Rs) : Impl * Rs :=
  if negb (is_nil (rs_reservation s)) then
    (st <| im_mem := release (im_mem st) (rs_reservation s) |>,
     s <| rs_reservation := 0 |> <| rs_reserved_bytes := 0 |>)
  else (st, s).

Definition is_waiting (s : Rs) : bool :=
  bool_decide (rs_lifecycle s = Lifecycle_queued) && negb (rs_in_flight s).

Definition queued_count_locked (st : Impl) : Z :=
  foldl (λ n kv, if is_waiting kv.2 then n +u 1 else n) 0 (iter (requests_ st)).

Definition waiting_tokens_locked (st : Impl) : Z :=
  foldl (λ n kv, if is_waiting kv.2 then n +u pending_token_count kv.2 else n) 0
    (iter (requests_ st)).

Definition remaining_tokens_locked (st : Impl) : Z :=
  foldl (λ n kv,
    if is_terminal_lifecycle (rs_lifecycle kv.2) then n
    else n +u (remaining_prefill_tokens (rs_request kv.2) -u rs_completed_uncached kv.2)) 0
    (iter (requests_ st)).

(** [if (wit != end && wit->second.busy_units > 0) wit->second.busy_units--;] *)
Definition worker_dec (st : Impl) (w : WorkerId) : Impl :=
  match workers_ st !! w with
  | Some ws =>
      if 0 <? ws_busy_units ws
      then st <| workers_ ::= <[w := ws <| ws_busy_units ::= λ n, n -u 1 |>]> |>
      else st
  | None => st
  end.

(** Remove a member from its group and free the worker if the group finished. *)
Definition group_erase_member (st : Impl) (gid : GroupId) (rid : RequestId) : Impl :=
  match groups_ st !! gid with
  | Some g =>
      let out := gs_outstanding g ∖ {[rid]} in
      if bool_decide (out = ∅) then
        worker_dec st (gs_worker g) <| groups_ ::= delete gid |>
      else st <| groups_ ::= <[gid := g <| gs_outstanding := out |>]> |>
  | None => st
  end.

(** [ts.outstanding = ts.outstanding > 0 ? ts.outstanding - 1 : 0;] *)
Definition dec_outstanding (ts : TenantService) : TenantService :=
  ts <| ts_outstanding ::= λ n, if 0 <? n then n -u 1 else 0 |>.

(** [if (ts.admitted_tokens >= rem) ts.admitted_tokens -= rem;] *)
Definition sub_admitted (rem : Z) (ts : TenantService) : TenantService :=
  if rem <=? ts_admitted_tokens ts
  then ts <| ts_admitted_tokens ::= λ n, n -u rem |> else ts.

(** Tenant accounting of a request that leaves the scheduler. *)
Definition close_tenant (rem : Z) (ts : TenantService) : TenantService :=
  sub_admitted rem (dec_outstanding ts).

(** The fields every retry resets, after the new attempt was allocated. *)
Definition restart_attempt (st : Impl) (s : Rs) : Impl * Rs :=
  let s := s <| rs_retries_used ::= λ n, i32 (n + 1) |> in
  let '(a, st) := alloc_attempt st in
  (st,
   s <| rs_attempt := a |>
     <| rs_plan := plan (im_cfg st) (rs_request s) a 0 |>
     <| rs_next_chunk_index := 0 |>
     <| rs_completed_uncached := 0 |>
     <| rs_completed_token_total := 0 |>
     <| rs_current_generation := 0 |>
     <| rs_lifecycle := Lifecycle_queued |>
     <| rs_last_work_kind := WorkKind_retried |>
     <| rs_recovered_work := false |>).
End helpers.
