(* ===== verification/SchedOps.v ===== *)
(** * Scheduler operations ([scheduler.cpp], all but [run_cycle] and persistence)

    Submission, completion, cancellation, retry, worker lifecycle, epoch and
    the read-only queries.  Each definition is the whole body of the C++ member
    function, in its order of effects. *)

From S2P Require Import Prelude Float Types Request Chunking Memory Compat Exec Observability SchedState.

Record CancelResult := mkCancelResult {
  cr_applied : bool; cr_was_terminal : bool; cr_code : ErrorCode; cr_message : string
}.

(** Ascending traversal of a [std::set]. *)
Definition set_elements (X : gset Z) : list Z := merge_sort Z.le (elements X).

Section ops.
Context `{FE : FloatEnv} `{CK : ClockSource} `{HO : HashOrder}.

(** ** Submission *)

(** A capacity rejection: counted by reason. *)
Definition reject_capacity (st : Impl) (msg : string) : Impl * Result unit :=
  let st := bump st_rejected st in
  let code := to_int ErrorCode_capacity_exceeded in
  let st := upd_stats st (λ s, s <| st_rejection_by_reason ::=
                                  λ m, <[code := map_at 0 m code +u 1]> m |>) in
  (st, err ErrorCode_capacity_exceeded msg).

(** The state of a freshly admitted request. *)
Definition admit_rs (cfg : SchedulerConfig) (req : PrefillRequest) (a : AttemptId)
    (t : Nanoseconds) : Rs :=
  Rs_default <| rs_request := req |> <| rs_attempt := a |>
    <| rs_lifecycle := Lifecycle_queued |> <| rs_admit_time := t |>
    <| rs_plan := plan cfg req a 0 |>
    <| rs_trace := ["admitted; remaining_prefill=" +:+ std_to_string (remaining_prefill_tokens req)] |>.

Definition submit_with_tokens (st : Impl) (req : PrefillRequest) (tokens : list Z)
    : Impl * Result unit :=
  let e := validate req in
  if negb (bool_decide (ei_code e = ErrorCode_ok)) then (st, Err e)
  else if bool_decide (is_Some (requests_ st !! rq_request_id req)) then
    (st, err ErrorCode_duplicate_request "duplicate request id")
  else
    let '(tr, res) := register_request (im_token_resolver st) req tokens in
    let st := st <| im_token_resolver := tr |> in
    match res with
    | Err e => (st, Err e)
    | Ok _ =>
        if cfg_max_admitted_requests (im_cfg st) <=? Z.of_nat (size (requests_ st)) then
          reject_capacity st "admission capacity exceeded"
        else
          let tid := rq_tenant_id req in
          let st := upd_tenant st tid (λ ts,
                      if d_eqb (ts_weight ts) d_zero
                      then ts <| ts_weight := rq_tenant_weight req |> else ts) in
          let ts := map_at TenantService_default (tenants_ st) tid in
          if cfg_per_tenant_outstanding_limit (im_cfg st) <=? ts_outstanding ts then
            reject_capacity st "tenant outstanding limit exceeded"
          else
            let rem := remaining_prefill_tokens req in
            if cfg_per_tenant_admitted_token_limit (im_cfg st) <? ts_admitted_tokens ts +u rem then
              reject_capacity st "tenant admitted-token limit exceeded"
            else
              let '(a, st) := alloc_attempt st in
              let '(t, st) := im_now st in
              let s := admit_rs (im_cfg st) req a t in
              let st := bump st_submitted st in
              let st := bump st_admitted st in
              let st := upd_tenant st tid (λ ts,
                          ts <| ts_outstanding ::= λ n, n +u 1 |>
                             <| ts_admitted_tokens ::= λ n, n +u rem |>) in
              if rem =? 0 then
                let s := s <| rs_lifecycle := Lifecycle_completed |> in
                let st := bump st_completed st in
                let s := trace_push s "fully-cached prompt; no prefill work remains" in
                let st := upd_tenant st tid (λ ts,
                            dec_outstanding (ts <| ts_completed_requests ::= λ n, n +u 1 |>)) in
                let st := log st "submit" (rq_request_id req) a "complete-immediate" in
                (put_rs st (rq_request_id req) s, Ok tt)
              else
                let st := log st "submit" (rq_request_id req) a "queued" in
                (put_rs st (rq_request_id req) s, Ok tt)
    end.

(** The xorshift stream that fills the prompt of a request without tokens. *)
Fixpoint gen_tokens (n : nat) (seed : Z) : list Z :=
  match n with
  | O => []
  | S n =>
      let seed := Z.lxor seed (u64 (Z.shiftl seed 13)) in
      let seed := Z.lxor seed (Z.shiftr seed 7) in
      let seed := Z.lxor seed (u64 (Z.shiftl seed 17)) in
      Z.land seed 0xFFFFFFFF :: gen_tokens n seed
  end.

Definition submit (st : Impl) (req : PrefillRequest) : Impl * Result unit :=
  submit_with_tokens st req
    (gen_tokens (Z.to_nat (rq_prompt_token_count req))
       (Z.lxor 0x9E3779B97F4A7C15 (rq_request_id req))).

(** ** Completion *)

Definition reject_with (p : Stats → Z) `{Setter Stats Z p} (st : Impl) (r : MemberResult)
    (detail : string) (c : ErrorCode) (msg : string) : Impl * Result unit :=
  (log (bump p st) "stale" (mr_request_id r) (mr_attempt_id r) detail, err c msg).

(** Effects common to every outcome: the chunk is no longer in flight and its
    tokens are accounted. *)
Definition account_chunk (st : Impl) (s : Rs) : Impl * Rs :=
  let n := pending_token_count s in
  let s := s <| rs_in_flight := false |>
             <| rs_chunks_done ::= λ k, k +u 1 |>
             <| rs_completed_uncached ::= λ k, k +u n |>
             <| rs_completed_token_total ::= λ k, k +u n |> in
  let '(t, st) := im_now st in
  let st := upd_stats st (λ x,
              x <| st_completed_tokens ::= λ k, k +u n |>
                <| st_execution_latency_total_ns ::= λ k, i64 (k + i64 (t - rs_dispatch_time s)) |>
                <| st_execution_latency_samples ::= λ k, k +u 1 |>) in
  let st := upd_tenant st (rq_tenant_id (rs_request s)) (λ ts,
              ts <| ts_scheduled_tokens ::= λ k, k +u n |>) in
  (st, s <| rs_normalized_service ::= λ d, d_add d (d_bits (d_of_Z n)) |>).

(** A request that reaches a final lifecycle: counter, tenant and trace. *)
Definition finish (p : Stats → Z) `{Setter Stats Z p} (st : Impl) (s : Rs) (l : Lifecycle)
    (line : string) : Impl * Rs :=
  let st := bump p st in
  let st := upd_tenant st (rq_tenant_id (rs_request s))
              (close_tenant (remaining_prefill_tokens (rs_request s))) in
  (st, trace_push (s <| rs_lifecycle := l |>) line).

Definition apply_outcome (st : Impl) (s : Rs) (r : MemberResult) : Impl * Rs :=
  let rid := rq_request_id (rs_request s) in
  match mr_outcome r with
  | MemberOutcome_stale_rejected => (bump st_stale_authority_rejected st, s)
  | MemberOutcome_retryable_failure =>
      if rs_retries_used s <? rq_max_retries (rs_request s) then
        let '(st, s) := restart_attempt st s in
        let st := bump st_retried st in
        let s := trace_push s ("retryable failure; new attempt " +:+ std_to_string (rs_attempt s)) in
        (log st "retry" rid (rs_attempt s) ("attempt " +:+ std_to_string (rs_attempt s)), s)
      else
        let '(st, s) := finish st_failed_non_retryable st s Lifecycle_failed_non_retryable
                          "retry budget exhausted; non-retryable failure" in
        (log st "fail" rid (rs_attempt s) "non-retryable", s)
  | MemberOutcome_non_retryable_failure =>
      let '(st, s) := finish st_failed_non_retryable st s Lifecycle_failed_non_retryable
                        ("non-retryable failure: " +:+ mr_message r) in
      (log st "fail" rid (rs_attempt s) (mr_message r), s)
  | MemberOutcome_cancelled =>
      let '(st, s) := finish st_cancelled st (s <| rs_cancel_pending := false |>)
                        Lifecycle_cancelled "cancelled" in
      (log st "cancel" rid (rs_attempt s) "completion", s)
  | MemberOutcome_expired =>
      let '(st, s) := finish st_expired st s Lifecycle_expired "expired during execution" in
      (bump st_deadline_missed st, s)
  | _ =>
      if rs_cancel_pending s then
        let '(st, s) := finish st_cancelled st (s <| rs_cancel_pending := false |>)
                          Lifecycle_cancelled "cancelled at chunk boundary" in
        (log st "cancel" rid (rs_attempt s) "chunk-boundary", s)
      else if u32 (rs_next_chunk_index s + 1) <? chunk_count s then
        (st, trace_push (s <| rs_next_chunk_index ::= λ i, u32 (i + 1) |>
                           <| rs_lifecycle := Lifecycle_queued |>)
               "chunk complete; advancing to next chunk")
      else
        let st := upd_tenant st (rq_tenant_id (rs_request s)) (λ ts,
                    ts <| ts_completed_requests ::= λ k, k +u 1 |>) in
        let '(st, s) := finish st_completed st s Lifecycle_completed "prefill completed" in
        (log st "complete" rid (rs_attempt s) "ok", s)
  end.

(** Leave the current group, if any. *)
Definition detach (st : Impl) (s : Rs) : Impl * Rs :=
  if negb (is_nil (rs_current_group s)) then
    (group_erase_member st (rs_current_group s) (rq_request_id (rs_request s)),
     s <| rs_current_group := 0 |>)
  else (st, s).

(** The authoritative application, from line 616 on. *)
Definition apply_completion (st : Impl) (s : Rs) (r : MemberResult) : Impl * Result unit :=
  let '(st, s) := account_chunk st s in
  let '(st, s) := apply_outcome st s r in
  let '(st, s) := release_reservation st s in
  let '(st, s) := detach st s in
  let st := put_rs st (mr_request_id r) s in
  (upd_stats st (λ x, x <| st_remaining_prefill_tokens := remaining_tokens_locked st |>), Ok tt).

Definition boot_mismatch (st : Impl) (r : MemberResult) : bool :=
  match workers_ st !! mr_worker r with
  | Some ws => negb (wd_boot_id (ws_desc ws) =? mr_boot r)
  | None => true
  end.

Definition report_completion (st : Impl) (r : MemberResult) : Impl * Result unit :=
  if is_nil (mr_epoch r) then
    (st, err ErrorCode_illegal_state "completion carries no epoch")
  else if negb (mr_epoch r =? im_epoch st) then
    reject_with st_stale_authority_rejected st r "epoch" ErrorCode_stale_epoch
      "stale scheduler epoch"
  else match requests_ st !! mr_request_id r with
  | None => (st, err ErrorCode_unknown_request "unknown request")
  | Some s =>
      if (negb (is_nil (mr_worker r)) || negb (is_nil (mr_boot r))) && boot_mismatch st r then
        reject_with st_stale_authority_rejected st r "worker-boot" ErrorCode_stale_worker
          "stale worker boot id"
      else if negb (mr_attempt_id r =? rs_attempt s) then
        reject_with st_stale_authority_rejected st r "attempt" ErrorCode_stale_attempt
          "stale attempt"
      else if negb (mr_generation r =? rs_current_generation s) then
        reject_with st_stale_authority_rejected st r "generation" ErrorCode_stale_generation
          "stale chunk/work generation"
      else if is_terminal_lifecycle (rs_lifecycle s) then
        reject_with st_duplicate_completion_rejected st r "terminal" ErrorCode_terminal_cancelled
          "completion for terminal request"
      else if negb (rs_in_flight s) then
        reject_with st_duplicate_completion_rejected st r "no-inflight"
          ErrorCode_duplicate_completion "no in-flight work for this generation"
      else if negb (is_nil (mr_worker r)) && negb (mr_worker r =? rs_dispatched_worker s) then
        (bump st_stale_authority_rejected st,
         err ErrorCode_stale_worker "completion from a different worker")
      else apply_completion st s r
  end.

(** ** Cancellation and retry *)

Definition cancel (st : Impl) (rid : RequestId) : Impl * CancelResult :=
  match requests_ st !! rid with
  | None => (st, mkCancelResult false false ErrorCode_not_found "unknown request")
  | Some s =>
      if is_terminal_lifecycle (rs_lifecycle s) then
        (st, mkCancelResult false true ErrorCode_terminal_cancelled "request already terminal")
      else if rs_in_flight s then
        let s := trace_push (s <| rs_cancel_pending := true |>)
                   "cancel requested; authoritative at next safe chunk boundary" in
        let st := log (put_rs st rid s) "cancel" rid (rs_attempt s) "pending chunk boundary" in
        (st, mkCancelResult true false ErrorCode_ok "cancellation pending at chunk boundary")
      else
        let s := s <| rs_lifecycle := Lifecycle_cancelled |> in
        let '(st, s) := release_reservation st s in
        let st := bump st_cancelled st in
        let st := upd_tenant st (rq_tenant_id (rs_request s))
                    (close_tenant (remaining_prefill_tokens (rs_request s))) in
        let '(st, s) :=
          if negb (is_nil (rs_current_group s))
          then (group_erase_member st (rs_current_group s) rid, s <| rs_current_group := 0 |>)
          else (st, s) in
        let s := trace_push s "cancelled while waiting" in
        let st := log (put_rs st rid s) "cancel" rid (rs_attempt s) "waiting" in
        (st, mkCancelResult true false ErrorCode_ok "cancelled")
  end.

Definition cancel_generation (st : Impl) (rid : RequestId) (only_gen : Generation)
    : Impl * CancelResult :=
  match requests_ st !! rid with
  | None => (st, mkCancelResult false false ErrorCode_not_found "unknown request")
  | Some s =>
      if is_terminal_lifecycle (rs_lifecycle s) then
        (st, mkCancelResult false true ErrorCode_terminal_cancelled "request already terminal")
      else if rs_in_flight s && (rs_current_generation s =? only_gen) then
        let s := trace_push (s <| rs_cancel_pending := true |>)
                   "generation cancel requested; authoritative at chunk boundary" in
        (put_rs st rid s,
         mkCancelResult true false ErrorCode_ok "generation cancellation pending")
      else (st, mkCancelResult false false ErrorCode_not_found "generation not in-flight")
  end.

(** The in-flight part of [force_retry]: the whole group is dropped. *)
Definition drop_group (st : Impl) (s : Rs) : Impl * Rs :=
  if negb (is_nil (rs_current_group s)) then
    let st := match groups_ st !! rs_current_group s with
              | Some g => worker_dec st (gs_worker g) <| groups_ ::= delete (rs_current_group s) |>
              | None => st
              end in
    (st, s <| rs_current_group := 0 |>)
  else (st, s).

Definition force_retry (st : Impl) (rid : RequestId) : Impl * Result unit :=
  match requests_ st !! rid with
  | None => (st, err ErrorCode_not_found "unknown request")
  | Some s =>
      if is_terminal_lifecycle (rs_lifecycle s) then
        (st, err ErrorCode_illegal_state "cannot retry a terminal request")
      else
        let '(st, s) :=
          if rs_in_flight s then
            let '(st, s) := release_reservation st s in
            drop_group st (s <| rs_in_flight := false |>)
          else (st, s) in
        if rq_max_retries (rs_request s) <=? rs_retries_used s then
          (put_rs st rid s, err ErrorCode_capacity_exceeded "retry budget exhausted")
        else
          let '(st, s) := restart_attempt st s in
          let st := bump st_retried st in
          let s := trace_push s ("forced retry; new attempt " +:+ std_to_string (rs_attempt s)) in
          (log (put_rs st rid s) "retry" rid (rs_attempt s) "forced", Ok tt)
  end.

(** ** Workers *)

Definition register_worker (st : Impl) (w : WorkerDescriptor) : Impl * Result unit :=
  if is_nil (wd_worker_id w) then
    (st, err ErrorCode_invalid_argument "worker id is nil")
  else
    let ws := map_at Ws_default (workers_ st) (wd_worker_id w) in
    let '(d, st) :=
      if negb (is_nil (wd_boot_id w)) then (w, st)
      else (w <| wd_boot_id := im_next_boot_value st |>,
            st <| im_next_boot_value ::= λ n, n +u 1 |>) in
    let d := if bool_decide (wd_state d = WorkerState_unknown)
             then d <| wd_state := WorkerState_ready |> else d in
    let ws := ws <| ws_desc := d |> <| ws_busy_units := 0 |> <| ws_local_exec := None |> in
    let st := st <| workers_ ::= <[wd_worker_id w := ws]> |> in
    (log st "worker-register" 0 0 ("id=" +:+ std_to_string (wd_worker_id w)), Ok tt).

Definition unregister_worker (st : Impl) (w : WorkerId) : Impl * Result unit :=
  match workers_ st !! w with
  | None => (st, err ErrorCode_not_found "unknown worker")
  | Some ws =>
      let st := st <| workers_ ::= <[w := ws <| ws_desc ::= setf wd_state
                                                  (λ _, WorkerState_retired) |>]> |> in
      (log st "worker-retire" 0 0 ("id=" +:+ std_to_string w), Ok tt)
  end.

(** One member of a lost worker's group. *)
Definition recover_member (st : Impl) (rid : RequestId) : Impl :=
  match requests_ st !! rid with
  | Some s =>
      if rs_in_flight s && bool_decide (rs_lifecycle s = Lifecycle_dispatched) then
        let s := s <| rs_in_flight := false |> <| rs_recovered_work := true |> in
        let '(st, s) := release_reservation st s in
        let s := trace_push (s <| rs_current_generation := 0 |>
                               <| rs_lifecycle := Lifecycle_queued |>)
                   "recovered after worker loss" in
        log (put_rs st rid s) "worker-lost" rid (rs_attempt s) "recovered"
      else st
  | None => st
  end.

Definition recover_group (w : WorkerId) (st : Impl) (gid : GroupId) : Impl :=
  match groups_ st !! gid with
  | Some g =>
      if gs_worker g =? w then
        foldl recover_member st (set_elements (gs_outstanding g)) <| groups_ ::= delete gid |>
      else st
  | None => st
  end.

Definition worker_lost (st : Impl) (w : WorkerId) : Impl * Result unit :=
  let st := foldl (recover_group w) st (iter_keys (groups_ st)) in
  let st := match workers_ st !! w with
            | Some ws =>
                st <| workers_ ::= <[w := ws <| ws_busy_units := 0 |>
                                            <| ws_desc ::= setf wd_state (λ _, WorkerState_lost) |>]> |>
            | None => st
            end in
  (log st "worker-lost" 0 0 ("id=" +:+ std_to_string w), Ok tt).

Definition roll_epoch (st : Impl) : Impl * Result unit :=
  let st := st <| im_epoch ::= λ e, e +u 1 |> in
  (log st "epoch-roll" 0 0 ("epoch=" +:+ std_to_string (im_epoch st)), Ok tt).

(** [attach_executor]; [ex] may be a null pointer. *)
Definition attach_executor (st : Impl) (ex : option Executor) (backend : string) : Impl :=
  let st := st <| im_attached_executor := ex |> in
  let be := if bool_decide (backend = "")
            then match ex with Some e => ex_backend e | None => kBackendCpu end
            else backend in
  match workers_ st !! 0 with
  | None =>
      let dev := match ex with Some e => ex_device e | None => DeviceDescriptor_default end in
      let d := mkWorkerDescriptor 0 (im_next_boot_value st) "local" 0 be [dev]
                 WorkerState_ready 1 "" in
      st <| im_next_boot_value ::= λ n, n +u 1 |>
         <| workers_ ::= <[0 := mkWs d 0 ex]> |>
  | Some ws =>
      let devs := match ex with Some e => [ex_device e] | None => [] end in
      let d := ws_desc ws <| wd_backend := be |> <| wd_state := WorkerState_ready |>
                          <| wd_devices := devs |> in
      st <| workers_ ::= <[0 := ws <| ws_local_exec := ex |> <| ws_desc := d |>]> |>
  end.

(** ** Queries *)

Definition snapshot (st : Impl) : Snapshot := {|
  sn_queue_depth := queued_count_locked st;
  sn_waiting_tokens := waiting_tokens_locked st;
  sn_running_requests := u64 (Z.of_nat (length (filter (λ kv, rs_in_flight kv.2 = true)
                                                  (iter (requests_ st)))));
  sn_reserved_memory_bytes := reserved_bytes (im_mem st);
  sn_remaining_prefill_tokens := remaining_tokens_locked st;
  sn_completed_requests := st_completed (im_stats st);
  sn_waiting_request_ids := (filter (λ kv, is_waiting kv.2 = true) (iter (requests_ st))).*1;
  sn_running_request_ids := (filter (λ kv, rs_in_flight kv.2 = true) (iter (requests_ st))).*1;
  sn_stats := im_stats st |}.

Definition explain (st : Impl) (rid : RequestId) : Result Explain :=
  match requests_ st !! rid with
  | None => err ErrorCode_not_found "unknown request"
  | Some s => Ok (mkExplain rid (rs_attempt s) (Lifecycle_to_string (rs_lifecycle s)) (rs_trace s))
  end.

Definition running_count (st : Impl) : Z :=
  u64 (Z.of_nat (length (filter (λ kv, rs_in_flight kv.2 = true) (iter (requests_ st))))).

Definition is_terminal (st : Impl) (rid : RequestId) : bool :=
  match requests_ st !! rid with
  | None => false
  | Some s => is_terminal_lifecycle (rs_lifecycle s)
  end.

Definition lifecycle (st : Impl) (rid : RequestId) : option Lifecycle :=
  rs_lifecycle <$> requests_ st !! rid.

Definition current_generation (st : Impl) (rid : RequestId) : Generation :=
  match requests_ st !! rid with None => 0 | Some s => rs_current_generation s end.

Definition workers (st : Impl) : list WorkerDescriptor :=
  (λ kv, ws_desc kv.2) <$> iter (workers_ st).

Definition worker (st : Impl) (w : WorkerId) : option WorkerDescriptor :=
  ws_desc <$> workers_ st !! w.

Record InFlightInfo := mkInFlightInfo {
  ifi_group_id : GroupId; ifi_worker : WorkerId; ifi_requests : list RequestId;
  ifi_lifecycle : Lifecycle
}.

Definition in_flight (st : Impl) : list InFlightInfo :=
  (λ kv, mkInFlightInfo kv.1 (gs_worker kv.2) (set_elements (gs_outstanding kv.2))
           Lifecycle_dispatched) <$> iter (groups_ st).
End ops.
