(* ===== verification/SchedCycle.v ===== *)
(** * The scheduling cycle ([run_cycle] and [drive_until_quiescent] of [scheduler.cpp])

    One cycle expires overdue requests, orders the waiting ones, packs them
    into groups by compatibility, reserves memory and a worker for each group
    and commits the groups that fit.  The phases are separate definitions,
    composed by [run_cycle] in the order of the code. *)

From S2P Require Import Prelude Float Types Request Chunking Memory Compat Exec Observability SchedState SchedOps.

(** ** Batches *)

Record DispatchedGroup := mkDispatchedGroup {
  dg_group_id : GroupId;
  dg_group : ExecutionGroup;
  dg_assigned_worker : WorkerId;
  dg_reservation_id : ReservationId;
  dg_reserved_bytes : Z
}.

Record DispatchBatch := mkDispatchBatch {
  db_groups : list DispatchedGroup;
  db_notes : list string;
  db_cycle_scheduled_tokens : Z
}.

#[global] Instance eta_DispatchBatch : Eta DispatchBatch := λ x,
  mkDispatchBatch (db_groups x) (db_notes x) (db_cycle_scheduled_tokens x).
#[global] Instance set_db_groups : Setter db_groups := ltac:(mk_setter).
#[global] Instance set_db_notes : Setter db_notes := ltac:(mk_setter).
#[global] Instance set_db_cycle_scheduled_tokens : Setter db_cycle_scheduled_tokens := ltac:(mk_setter).

Definition DispatchBatch_empty : DispatchBatch := mkDispatchBatch [] [] 0.
Definition any_dispatch (b : DispatchBatch) : bool := negb (bool_decide (length (db_groups b) = 0%nat)).

(** A group under formation ([OpenGroup]). *)
Record OpenGroup := mkOpenGroup {
  og_key : CompatibilityKey;
  og_group : ExecutionGroup;
  og_rids : list RequestId;
  og_total_tokens : Z;
  og_total_compute : Z;
  og_max_mem : Z;
  og_tenant_tokens : gmap Z Z
}.

(** ** Candidate order *)

(** [std::sort]: with a strict total order the result is the only sorted
    permutation, whatever the algorithm (see [sort_by_unique]). *)
Fixpoint sort_insert {A} (lt : A → A → bool) (x : A) (l : list A) : list A :=
  match l with
  | [] => [x]
  | y :: l' => if lt y x then y :: sort_insert lt x l' else x :: l
  end.
Definition sort_by {A} (lt : A → A → bool) (l : list A) : list A := foldr (sort_insert lt) [] l.

Section cycle.
Context `{FE : FloatEnv} `{CK : ClockSource} `{HO : HashOrder}.

(** ** Expiry sweep *)

(** The two expiry tests: whether the request expires, and whether it is the
    queue delay that was exceeded. *)
Definition past_deadline (now : Nanoseconds) (s : Rs) : bool :=
  match rq_deadline (rs_request s) with Some d => d <? now | None => false end.

Definition queue_delay_exceeded (now : Nanoseconds) (s : Rs) : bool :=
  negb (rs_in_flight s) &&
  match rq_max_queue_delay (rs_request s) with
  | Some q => q <? i64 (now - rs_admit_time s)
  | None => false
  end.

Definition expire_one (now : Nanoseconds) (st : Impl) (rid : RequestId) : Impl :=
  match requests_ st !! rid with
  | None => st
  | Some s =>
      if is_terminal_lifecycle (rs_lifecycle s) then st
      else if past_deadline now s || queue_delay_exceeded now s then
        let st := if past_deadline now s then st else bump st_queue_delay_exceeded st in
        let s := s <| rs_lifecycle := Lifecycle_expired |> in
        let st := if rs_in_flight s
                  then group_erase_member st (rs_current_group s) (rq_request_id (rs_request s))
                  else st in
        let '(st, s) := release_reservation st s in
        let st := bump st_expired st in
        let st := bump st_deadline_missed st in
        let st := upd_tenant st (rq_tenant_id (rs_request s)) dec_outstanding in
        let s := trace_push s ("expired; deadline=" +:+
                   std_to_string (default 0 (rq_deadline (rs_request s)))) in
        log_at (put_rs st rid s) now "expire" (rq_request_id (rs_request s)) (rs_attempt s)
          "deadline"
      else st
  end.

Definition expire_sweep (now : Nanoseconds) (st : Impl) : Impl :=
  foldl (expire_one now) st (iter_keys (requests_ st)).

(** ** Candidates *)

Definition is_candidate (s : Rs) : bool := is_waiting s && has_pending_chunk s.

Definition candidates (st : Impl) : list RequestId :=
  (filter (λ kv, is_candidate kv.2 = true) (iter (requests_ st))).*1.

Definition urgent (cfg : SchedulerConfig) (now : Nanoseconds) (s : Rs) : bool :=
  match rq_deadline (rs_request s) with
  | Some d => d <=? i64 (now + cfg_deadline_slack_ns cfg)
  | None => false
  end.

Definition deadline_key (s : Rs) : Z := default I64_MAX (rq_deadline (rs_request s)).

Definition fairness_key (ts : TenantService) : double :=
  d_div (ts_normalized_service ts) (if d_ltb d_zero (ts_weight ts) then ts_weight ts else d_one).

(** The comparator [sorter]. *)
Definition sorter (st : Impl) (now : Nanoseconds) (a b : RequestId) : bool :=
  let sa := map_at Rs_default (requests_ st) a in
  let sb := map_at Rs_default (requests_ st) b in
  let ta := map_at TenantService_default (tenants_ st) (rq_tenant_id (rs_request sa)) in
  let tb := map_at TenantService_default (tenants_ st) (rq_tenant_id (rs_request sb)) in
  let ua := urgent (im_cfg st) now sa in
  let ub := urgent (im_cfg st) now sb in
  if negb (Bool.eqb ua ub) then ua
  else if negb (deadline_key sa =? deadline_key sb) then deadline_key sa <? deadline_key sb
  else if negb (rq_priority (rs_request sa) =? rq_priority (rs_request sb))
  then rq_priority (rs_request sb) <? rq_priority (rs_request sa)
  else if negb (to_int (rq_latency_class (rs_request sa))
                =? to_int (rq_latency_class (rs_request sb)))
  then to_int (rq_latency_class (rs_request sb)) <? to_int (rq_latency_class (rs_request sa))
  else if negb (d_eqb (fairness_key ta) (fairness_key tb))
  then d_ltb (fairness_key ta) (fairness_key tb)
  else if negb (rs_aging_cycles sa =? rs_aging_cycles sb)
  then rs_aging_cycles sb <? rs_aging_cycles sa
  else if negb (rs_admit_time sa =? rs_admit_time sb)
  then rs_admit_time sa <? rs_admit_time sb
  else a <? b.

(** [tenants_[...]] in the comparator creates the entries it reads; it runs on
    every candidate as soon as there are two of them. *)
Definition touch_tenants (st : Impl) (cands : list RequestId) : Impl :=
  if (1 <? length cands)%nat then
    foldl (λ st rid,
      upd_tenant st (rq_tenant_id (rs_request (map_at Rs_default (requests_ st) rid))) id)
      st cands
  else st.

(** ** Formation *)

Definition compatible_with_group (cfg : SchedulerConfig) (g : OpenGroup) (ch : PrefillChunk)
    (k : CompatibilityKey) : CompatibilityDecision :=
  let no count code text :=
    mkCompatibilityDecision false [mkCompatibilityReason code text] (og_key g) count in
  if negb (bool_decide (og_key g = k)) then no 1 1 "different CompatibilityKey"
  else if cfg_max_requests_per_group cfg <=? group_size (og_group g) then
    no 0 2 "max requests per group reached"
  else if cfg_max_tokens_per_group cfg <? og_total_tokens g +u ck_token_count ch then
    no 0 3 "max tokens per group exceeded"
  else if cfg_max_compute_per_group cfg <? og_total_compute g +u ck_compute_estimate ch then
    no 0 4 "max compute per group exceeded"
  else if cfg_max_memory_per_group cfg <? Z.max (og_max_mem g) (ck_memory_estimate_bytes ch) then
    no 0 5 "max memory per group exceeded"
  else mkCompatibilityDecision true [mkCompatibilityReason 0 "compatible"] (og_key g) 0.

Definition make_member (rid : RequestId) (s : Rs) (ch : PrefillChunk) (idx : Z)
    : ExecutableMember := {|
  em_request_id := rid; em_attempt_id := rs_attempt s; em_generation := 0;
  em_parent_generation := 0; em_token_start := ck_token_start ch;
  em_token_count := ck_token_count ch;
  em_work_kind := if rs_recovered_work s then WorkKind_worker_recovered else ck_work_kind ch;
  em_memory_estimate_bytes := ck_memory_estimate_bytes ch;
  em_compute_estimate := ck_compute_estimate ch; em_assigned_worker := 0;
  em_member_index := idx |}.

Definition add_tenant_tokens (m : gmap Z Z) (t : TenantId) (n : Z) : gmap Z Z :=
  <[t := map_at 0 m t +u n]> m.

(** Append a chunk to a group it is compatible with. *)
Definition group_add (g : OpenGroup) (rid : RequestId) (s : Rs) (ch : PrefillChunk) : OpenGroup :=
  let m := make_member rid s ch (group_size (og_group g)) in
  {| og_key := og_key g;
     og_group :=
       og_group g <| eg_members ::= λ l, l ++ [m] |>
         <| eg_total_token_count ::= λ n, n +u ck_token_count ch |>
         <| eg_sum_compute_estimate ::= λ n, n +u ck_compute_estimate ch |>
         <| eg_max_memory_estimate_bytes ::= λ n, Z.max n (ck_memory_estimate_bytes ch) |>;
     og_rids := og_rids g ++ [rid];
     og_total_tokens := og_total_tokens g +u ck_token_count ch;
     og_total_compute := og_total_compute g +u ck_compute_estimate ch;
     og_max_mem := Z.max (og_max_mem g) (ck_memory_estimate_bytes ch);
     og_tenant_tokens :=
       add_tenant_tokens (og_tenant_tokens g) (rq_tenant_id (rs_request s)) (ck_token_count ch) |}.

(** Open a group with a chunk as its first member. *)
Definition group_open (k : CompatibilityKey) (gid : GroupId) (rid : RequestId) (s : Rs)
    (ch : PrefillChunk) : OpenGroup := {|
  og_key := k;
  og_group := mkExecutionGroup gid k (cky_backend k) (cky_device k) [make_member rid s ch 0]
                (0 +u ck_token_count ch) (ck_memory_estimate_bytes ch)
                (0 +u ck_compute_estimate ch);
  og_rids := [rid];
  og_total_tokens := 0 +u ck_token_count ch;
  og_total_compute := 0 +u ck_compute_estimate ch;
  og_max_mem := ck_memory_estimate_bytes ch;
  og_tenant_tokens := add_tenant_tokens ∅ (rq_tenant_id (rs_request s)) (ck_token_count ch) |}.

(** The first open group that accepts the chunk; [None] when none does. *)
Fixpoint place (cfg : SchedulerConfig) (open : list OpenGroup) (k : CompatibilityKey)
    (rid : RequestId) (s : Rs) (ch : PrefillChunk) : option (list OpenGroup) :=
  match open with
  | [] => None
  | g :: rest =>
      if cd_compatible (compatible_with_group cfg g ch k) then Some (group_add g rid s ch :: rest)
      else (g ::.) <$> place cfg rest k rid s ch
  end.

Definition form_one (acc : Impl * list OpenGroup) (rid : RequestId) : Impl * list OpenGroup :=
  let '(st, open) := acc in
  let s := map_at Rs_default (requests_ st) rid in
  if negb (is_candidate s) then (st, open)
  else match pending_chunk s with
  | None => (st, open)
  | Some ch =>
      let k := make_compat_key (rs_request s) (im_cfg st) in
      match place (im_cfg st) open k rid s ch with
      | Some open => (put_rs st rid (trace_push s "packed into group (compatible)"), open)
      | None =>
          let '(gid, st) := alloc_group st in
          (st, open ++ [group_open k gid rid s ch])
      end
  end.

Definition form_groups (st : Impl) (cands : list RequestId) : Impl * list OpenGroup :=
  foldl form_one (st, []) cands.

(** ** Reservation and dispatch *)

Definition worker_eligible (backend : string) (w : Ws) : bool :=
  (bool_decide (wd_state (ws_desc w) = WorkerState_ready)
   || bool_decide (wd_state (ws_desc w) = WorkerState_registered))
  && negb (wd_capacity_units (ws_desc w) <=? ws_busy_units w)
  && (bool_decide (backend = kBackendAny) || bool_decide (wd_backend (ws_desc w) = kBackendAny)
      || bool_decide (wd_backend (ws_desc w) = backend)).

Definition choose_worker (st : Impl) (backend : string) : option WorkerId :=
  foldl (λ chosen kv,
    if worker_eligible backend kv.2 then
      match chosen with
      | Some c => if kv.1 <? c then Some kv.1 else Some c
      | None => Some kv.1
      end
    else chosen) None (iter (workers_ st)).

(** [requests_[rid].trace.push_back(line)]; [rid] is a key of the map. *)
Definition trace_request (line : string) (st : Impl) (rid : RequestId) : Impl :=
  st <| requests_ ::= alter (λ s, trace_push s line) rid |>.

(** Reserve member by member; stops at the first refusal.  Returns the
    reservations made and whether all were. *)
Fixpoint reserve_members (st : Impl) (rids : list RequestId)
    : Impl * list (ReservationId * RequestId) * bool :=
  match rids with
  | [] => (st, [], true)
  | rid :: rids =>
      let s := map_at Rs_default (requests_ st) rid in
      let mb := match pending_chunk s with Some ch => ck_memory_estimate_bytes ch | None => 0 end in
      let '(rv, st) := alloc_reservation st in
      match reserve (im_mem st) rv rid mb ReservationKind_reserved with
      | (m, Err _) => (st <| im_mem := m |>, [], false)
      | (m, Ok _) =>
          let st := put_rs (st <| im_mem := m |>) rid
                      (s <| rs_reservation := rv |> <| rs_reserved_bytes := mb |>) in
          let '(st, l, ok) := reserve_members st rids in
          (st, (rv, rid) :: l, ok)
      end
  end.

(** Undo the reservations of a group that could not be completed. *)
Definition rollback (st : Impl) (l : list (ReservationId * RequestId)) : Impl :=
  let st := foldl (λ st x, st <| im_mem ::= λ m, release m x.1 |>) st l in
  foldl (λ st x, st <| requests_ ::=
    alter (λ s, s <| rs_reservation := 0 |> <| rs_reserved_bytes := 0 |>) x.2 |>) st l.

(** Establish generation, authority and in-flight state of one member. *)
Definition commit_member (now : Nanoseconds) (gid : GroupId) (chosen : WorkerId)
    (acc : Impl * list ExecutableMember * gset Z * Z) (x : RequestId * ExecutableMember)
    : Impl * list ExecutableMember * gset Z * Z :=
  let '(st, ms, out, bytes) := acc in
  let '(rid, m) := x in
  let s := map_at Rs_default (requests_ st) rid in
  let '(gen, st) := alloc_generation st in
  let s := s <| rs_current_generation := gen |> <| rs_in_flight := true |>
             <| rs_lifecycle := Lifecycle_dispatched |> <| rs_current_group := gid |>
             <| rs_dispatched_worker := chosen |> <| rs_dispatch_time := now |> in
  let '(st, s) :=
    if rs_first_dispatch_time s =? 0 then
      (upd_stats st (λ x,
         x <| st_queue_latency_total_ns ::= λ n, i64 (n + i64 (now - rs_admit_time s)) |>
           <| st_queue_latency_samples ::= λ n, n +u 1 |>),
       s <| rs_first_dispatch_time := now |>)
    else (st, s) in
  let m := m <| em_generation := gen |> <| em_assigned_worker := chosen |> in
  let st := upd_stats st (λ x, x <| st_scheduled_tokens ::= λ n, n +u em_token_count m |>) in
  (put_rs st rid s, ms ++ [m], out ∪ {[rid]}, bytes +u em_memory_estimate_bytes m).

Definition commit_group (now : Nanoseconds) (chosen : WorkerId) (st : Impl) (g : OpenGroup)
    : Impl * DispatchedGroup :=
  let gid := eg_group_id (og_group g) in
  let '(st, ms, out, bytes) :=
    foldl (commit_member now gid chosen) (st, [], ∅, 0)
      (zip (og_rids g) (eg_members (og_group g))) in
  let grp := og_group g <| eg_members := ms |> in
  let st := st <| workers_ ::= alter (setf ws_busy_units (λ n, n +u 1)) chosen |> in
  let st := st <| groups_ ::= <[gid := mkGs grp chosen out]> |> in
  let st := bump st_groups_formed st in
  let n := u32 (Z.of_nat (length (og_rids g))) in
  let st := upd_stats st (λ x, x <| st_group_size_distribution ::=
                                 λ d, <[n := map_at 0 d n +u 1]> d |>) in
  let rv := match head (og_rids g) with
            | Some rid => rs_reservation (map_at Rs_default (requests_ st) rid)
            | None => 0
            end in
  (st, mkDispatchedGroup gid grp chosen rv bytes).

Definition dispatch_group (now : Nanoseconds) (acc : Impl * DispatchBatch) (g : OpenGroup)
    : Impl * DispatchBatch :=
  let '(st, batch) := acc in
  if bool_decide (length (eg_members (og_group g)) = 0%nat) then (st, batch)
  else match choose_worker st (eg_backend (og_group g)) with
  | None =>
      (foldl (trace_request "deferred: no compatible worker") st (og_rids g),
       batch <| db_notes ::= λ l, l ++ ["no compatible worker available; deferred"] |>)
  | Some chosen =>
      let '(st, l, ok) := reserve_members st (og_rids g) in
      if negb ok then
        (foldl (trace_request "deferred: memory unavailable") (rollback st l) (og_rids g),
         batch <| db_notes ::= λ l, l ++ ["memory reservation failed; group deferred"] |>)
      else
        let '(st, dg) := commit_group now chosen st g in
        (st, batch <| db_groups ::= λ l, l ++ [dg] |>
                   <| db_cycle_scheduled_tokens ::=
                        λ n, n +u eg_total_token_count (og_group g) |>)
  end.

(** ** The cycle *)

Definition age (s : Rs) : Rs :=
  if is_waiting s then s <| rs_aging_cycles ::= λ n, n +u 1 |> else s.

Definition refresh_queue_stats (st : Impl) : Impl :=
  upd_stats st (λ x,
    x <| st_queue_depth := queued_count_locked st |>
      <| st_waiting_tokens := waiting_tokens_locked st |>
      <| st_remaining_prefill_tokens := remaining_tokens_locked st |>).

Definition run_cycle (st : Impl) : Impl * Result DispatchBatch :=
  let '(now, st) := im_now st in
  let st := expire_sweep now st in
  let cands := candidates st in
  let st := touch_tenants st cands in
  let cands := sort_by (sorter st now) cands in
  let '(st, open) := form_groups st cands in
  let '(st, batch) := foldl (dispatch_group now) (st, DispatchBatch_empty) open in
  let st := st <| requests_ ::= fmap age |> in
  (refresh_queue_stats st, Ok batch).

(** ** In-process driver *)

(** A result synthesised for a member that could not be executed. *)
Definition retryable_result (code : ErrorCode) (msg : string) (m : ExecutableMember)
    : MemberResult :=
  MemberResult_default <| mr_outcome := MemberOutcome_retryable_failure |>
    <| mr_request_id := em_request_id m |> <| mr_attempt_id := em_attempt_id m |>
    <| mr_generation := em_generation m |>
    <| mr_failure_code := code |> <| mr_message := msg |>.

Definition stamp (e : Epoch) (w : WorkerId) (boot : WorkerBootId) (mr : MemberResult)
    : MemberResult :=
  mr <| mr_epoch := e |> <| mr_worker := w |> <| mr_boot := boot |>.

(** What one dispatched group reports: the executor's results, or one
    retryable failure per member. *)
Definition group_results (st : Impl) (dg : DispatchedGroup) : list MemberResult :=
  let ex := match workers_ st !! dg_assigned_worker dg with
            | Some ws => ws_local_exec ws | None => None end in
  match ex with
  | None => retryable_result ErrorCode_no_compatible_worker "no in-process executor for worker"
              <$> eg_members (dg_group dg)
  | Some ex =>
      match ex_execute ex (dg_group dg) (InMemoryTokenResolver (im_token_resolver st)) with
      | Err e => retryable_result (ei_code e) (ei_message e) <$> eg_members (dg_group dg)
      | Ok er => er_members er
      end
  end.

Definition drive_group (st : Impl) (dg : DispatchedGroup) : Impl :=
  let boot := match workers_ st !! dg_assigned_worker dg with
              | Some ws => wd_boot_id (ws_desc ws) | None => 0 end in
  foldl (λ st mr, (report_completion st mr).1) st
    (stamp (im_epoch st) (dg_assigned_worker dg) boot <$> group_results st dg).

Fixpoint drive_until_quiescent (max_cycles : nat) (st : Impl) : Impl * Result unit :=
  match max_cycles with
  | O => (st, Ok tt)
  | S n =>
      match run_cycle st with
      | (st, Err e) => (st, Err e)
      | (st, Ok batch) =>
          if bool_decide (length (db_groups batch) = 0%nat) then (st, Ok tt)
          else drive_until_quiescent n (foldl drive_group st (db_groups batch))
      end
  end.
End cycle.
