(* ===== verification/SchedPersist.v ===== *)
(** * Export, import, and the files between them ([scheduler.cpp], [persistence.cpp])

    [export_state] and [import_state] of the scheduler, [FilePersistence], and
    [persist] and [recover] composed from them.  The file system is a
    parameter: what opening, writing and reading a stream did is its answer. *)

From S2P Require Import Prelude Float Types Request Chunking Memory Compat Exec Observability SchedState Bytes Persist.

(** ** Files *)

(** What became of the [std::ofstream]. *)
Inductive WriteOutcome := WriteOpenFailed | WriteFailed | Written.

(** What the [std::ifstream] gave. *)
Inductive ReadOutcome :=
| ReadOpenFailed | ReadNoSize | ReadFailed | ReadBytes (bytes : list Z).

Class FileSystem (store : Type) := {
  fs_write : store → string → list Z → WriteOutcome * store;
  fs_read : store → string → ReadOutcome
}.

(** A file that was written reads back as it was written. *)
Class ReliableFiles (store : Type) `{FileSystem store} : Prop :=
  fs_read_written : ∀ fs path bytes fs',
    fs_write fs path bytes = (Written, fs') → fs_read fs' path = ReadBytes bytes.

(** Files held in memory. *)
#[global] Instance memory_files : FileSystem (gmap string (list Z)) := {
  fs_write fs path bytes := (Written, <[path := bytes]> fs);
  fs_read fs path := match fs !! path with Some b => ReadBytes b | None => ReadOpenFailed end
}.
#[global] Instance memory_files_reliable : ReliableFiles (gmap string (list Z)).
Proof. intros fs path bytes fs' [= <-]. simpl. by rewrite lookup_insert_eq. Qed.

Section files.
Context {store : Type} `{FileSystem store}.

(** [FilePersistence::save]. *)
Definition save (fs : store) (st : PersistedState) (path : string) : Result unit * store :=
  match serialize_state st with
  | Err e => (Err e, fs)
  | Ok bytes =>
      match fs_write fs path bytes with
      | (WriteOpenFailed, fs) => (err ErrorCode_io_failure "cannot open file for write", fs)
      | (WriteFailed, fs) => (err ErrorCode_io_failure "file write failed", fs)
      | (Written, fs) => (Ok tt, fs)
      end
  end.

(** [FilePersistence::load]. *)
Definition load (fs : store) (path : string) : Result PersistedState :=
  match fs_read fs path with
  | ReadOpenFailed => err ErrorCode_io_failure "cannot open file for read"
  | ReadNoSize => err ErrorCode_io_failure "cannot determine file size"
  | ReadFailed => err ErrorCode_io_failure "file read failed"
  | ReadBytes blob => deserialize_state blob
  end.
End files.

Section persist.
Context `{FE : FloatEnv} `{CK : ClockSource} `{HO : HashOrder}.

(** ** Export *)

Definition export_request (kv : RequestId * Rs) : PersistedRequestRecord :=
  let '(rid, s) := kv in
  let r := rs_request s in {|
  pr_request_id := rid;
  pr_attempt_id := rs_attempt s;
  pr_tenant_id := rq_tenant_id r;
  pr_model := rq_model r;
  pr_adapter_id := rq_adapter_id r;
  pr_relation := rq_adapter_relation r;
  pr_prompt_token_count := rq_prompt_token_count r;
  pr_cached_tokens := rp_token_count (rq_reusable_prefix r);
  pr_completed_uncached_tokens := rs_completed_uncached s;
  pr_current_generation := rs_current_generation s;
  pr_parent_generation :=
    match pl_chunks (rs_plan s) with [] => 0 | c :: _ => ck_parent_generation c end;
  pr_next_chunk_token_start :=
    match pending_chunk s with Some c => ck_token_start c | None => remaining_prefill_tokens r end;
  pr_work_kind := rs_last_work_kind s;
  pr_lifecycle := rs_lifecycle s;
  pr_priority := rq_priority r;
  pr_tenant_weight := rq_tenant_weight r;
  pr_normalized_service := rs_normalized_service s;
  pr_last_chunk_token_count := 0;
  pr_completed_token_total := rs_completed_token_total s;
  pr_needs_recovery_full_prefill := rs_in_flight s;
  pr_vocab := rq_vocab r;
  pr_numeric_mode := rq_numeric_mode r;
  pr_latency_class := rq_latency_class r;
  pr_deadline_ns := default 0 (rq_deadline r);
  pr_arrival_ns := rs_admit_time s;
  pr_has_deadline := bool_decide (is_Some (rq_deadline r));
  pr_has_queue_delay := bool_decide (is_Some (rq_max_queue_delay r));
  pr_max_queue_delay_ns := default 0 (rq_max_queue_delay r) |}.

Definition export_worker (kv : WorkerId * Ws) : PersistedWorkerRecord :=
  let '(w, ws) := kv in
  mkPersistedWorkerRecord w (wd_boot_id (ws_desc ws)) (wd_host (ws_desc ws))
    (wd_port (ws_desc ws)) (wd_backend (ws_desc ws)) (wd_state (ws_desc ws))
    (wd_capacity_units (ws_desc ws)).

Definition export_tenant (kv : TenantId * TenantService) : PersistedTenantRecord :=
  let '(t, ts) := kv in
  mkPersistedTenantRecord t (ts_weight ts) (ts_scheduled_tokens ts) (ts_completed_requests ts)
    (ts_wait_total_ns ts) (ts_outstanding ts) (ts_normalized_service ts).

Definition export_state (st : Impl) : PersistedState := {|
  ps_magic := kPersistenceMagic;
  ps_version := kPersistenceVersion;
  ps_epoch := im_epoch st;
  ps_next_generation_value := im_next_generation_value st;
  ps_next_attempt_value := im_next_attempt_value st;
  ps_requests := export_request <$> iter (requests_ st);
  ps_workers := export_worker <$> iter (workers_ st);
  ps_tenants := export_tenant <$> iter (tenants_ st);
  ps_was_clean_shutdown := bool_decide (groups_ st = ∅) |}.

(** ** Import *)

(** The request a record describes: what the record does not hold keeps its
    default. *)
Definition import_prefill_request (rec : PersistedRequestRecord) : PrefillRequest :=
  PrefillRequest_default
    <| rq_request_id := pr_request_id rec |>
    <| rq_tenant_id := pr_tenant_id rec |>
    <| rq_model := pr_model rec |>
    <| rq_adapter_id := pr_adapter_id rec |>
    <| rq_adapter_relation := pr_relation rec |>
    <| rq_prompt_token_count := pr_prompt_token_count rec |>
    <| rq_reusable_prefix := mkReusablePrefixMetadata (pr_cached_tokens rec) "" false |>
    <| rq_vocab := pr_vocab rec |>
    <| rq_numeric_mode := pr_numeric_mode rec |>
    <| rq_latency_class := pr_latency_class rec |>
    <| rq_priority := pr_priority rec |>
    <| rq_tenant_weight := pr_tenant_weight rec |>
    <| rq_arrival_time := pr_arrival_ns rec |>
    <| rq_deadline := if pr_has_deadline rec then Some (pr_deadline_ns rec) else None |>
    <| rq_max_queue_delay :=
         if pr_has_queue_delay rec then Some (pr_max_queue_delay_ns rec) else None |>.

(** The request's state, written over the entry the table had for it. *)
Definition import_rs (cfg : SchedulerConfig) (s : Rs) (rec : PersistedRequestRecord) : Rs :=
  let r := import_prefill_request rec in
  let s := s
    <| rs_request := r |>
    <| rs_attempt := pr_attempt_id rec |>
    <| rs_lifecycle := pr_lifecycle rec |>
    <| rs_plan := plan cfg r (pr_attempt_id rec) 0 |>
    <| rs_completed_token_total := pr_completed_token_total rec |>
    <| rs_current_generation := pr_current_generation rec |>
    <| rs_normalized_service := pr_normalized_service rec |>
    <| rs_admit_time := pr_arrival_ns rec |>
    <| rs_last_work_kind := pr_work_kind rec |>
    <| rs_retries_used := 0 |>
    <| rs_recovered_work := false |>
    <| rs_completed_uncached := 0 |>
    <| rs_trace := ["recovered from persistence"] |> in
  let s :=
    if remaining_prefill_tokens r <=? pr_next_chunk_token_start rec then
      s <| rs_next_chunk_index := u32 (chunk_count s) |>
        <| rs_completed_uncached := remaining_prefill_tokens r |>
    else
      s <| rs_next_chunk_index :=
             index_for_token_start (rs_plan s) (pr_next_chunk_token_start rec) |> in
  if bool_decide (rs_lifecycle s = Lifecycle_dispatched)
     || bool_decide (rs_lifecycle s = Lifecycle_running) then
    trace_push
      (s <| rs_lifecycle := Lifecycle_queued |>
         <| rs_in_flight := false |>
         <| rs_current_generation := 0 |>
         <| rs_recovered_work := true |>)
      "reconciled in-flight-at-death work conservatively (redo chunk)"
  else s.

Definition import_request (st : Impl) (rec : PersistedRequestRecord) : Impl :=
  let rid := pr_request_id rec in
  let s := import_rs (im_cfg st) (map_at Rs_default (requests_ st) rid) rec in
  let r := rs_request s in
  let st := put_rs st rid s in
  upd_tenant st (rq_tenant_id r) (λ ts,
    let ts := if d_leb (ts_weight ts) d_zero then ts <| ts_weight := rq_tenant_weight r |> else ts in
    if is_terminal_lifecycle (rs_lifecycle s) then ts
    else ts <| ts_outstanding ::= λ n, n +u 1 |>
            <| ts_admitted_tokens ::= λ n, n +u remaining_prefill_tokens r |>).

Definition import_worker (st : Impl) (rec : PersistedWorkerRecord) : Impl :=
  st <| workers_ ::= λ m,
    let ws := map_at Ws_default m (pw_worker_id rec) in
    let d := ws_desc ws
      <| wd_worker_id := pw_worker_id rec |>
      <| wd_boot_id := pw_boot_id rec |>
      <| wd_host := pw_host rec |>
      <| wd_port := pw_port rec |>
      <| wd_backend := pw_backend rec |>
      <| wd_state := pw_state rec |>
      <| wd_capacity_units := pw_capacity_units rec |> in
    <[pw_worker_id rec := ws <| ws_desc := d |> <| ws_busy_units := 0 |>
                             <| ws_local_exec := None |>]> m |>.

Definition import_tenant (st : Impl) (rec : PersistedTenantRecord) : Impl :=
  st <| tenants_ ::= <[pt_tenant_id rec :=
    mkTenantService (pt_weight rec) (pt_scheduled_tokens rec) (pt_completed_requests rec)
      (pt_wait_total_ns rec) (pt_outstanding rec) (pt_normalized_service rec) 0]> |>.

Definition import_state (st : Impl) (ps : PersistedState) : Impl * Result unit :=
  let st := st <| im_epoch := ps_epoch ps |> in
  let st := if im_next_generation_value st <? ps_next_generation_value ps
            then st <| im_next_generation_value := ps_next_generation_value ps |> else st in
  let st := if im_next_attempt_value st <? ps_next_attempt_value ps
            then st <| im_next_attempt_value := ps_next_attempt_value ps |> else st in
  let st := st <| requests_ := ∅ |> <| groups_ := ∅ |> <| tenants_ := ∅ |> in
  let st := foldl import_request st (ps_requests ps) in
  let st := foldl import_worker st (ps_workers ps) in
  let st := foldl import_tenant st (ps_tenants ps) in
  let st := upd_stats st (λ x,
              x <| st_remaining_prefill_tokens := remaining_tokens_locked st |>) in
  (log st "recover" 0 0 ("epoch=" +:+ std_to_string (im_epoch st)), Ok tt).

(** ** Persist and recover *)

Definition persist {store} `{FileSystem store} (st : Impl) (fs : store) (path : string)
    : Result unit * store :=
  save fs (export_state st) path.

Definition recover {store} `{FileSystem store} (st : Impl) (fs : store) (path : string)
    : Impl * Result unit :=
  match load fs path with
  | Err e => (st, Err e)
  | Ok ps => import_state st ps
  end.
End persist.
