(* ===== verification/Protocol.v ===== *)
(** * Wire protocol ([protocol.hpp], [protocol.cpp])

    Messages, the codecs of the records they carry and the frame body.  A
    record that the wire carries only in part is read back as its [wire_] image:
    a worker keeps its first device, a group keeps the hash of its key, a member
    result keeps the low octet of its failure code. *)

From S2P Require Import Prelude Float Types Request Compat Bytes Exec Observability SchedState SchedOps.

Definition kFrameMaxBytes : Z := 64 * 1024 * 1024.
Definition kProtocolVersion : Z := 1.

(** ** Message kinds *)

Inductive MsgKind :=
| MsgKind_hello | MsgKind_worker_register | MsgKind_worker_register_ack | MsgKind_submit
| MsgKind_submit_ack | MsgKind_cancel | MsgKind_cancel_ack | MsgKind_query_state
| MsgKind_state | MsgKind_query_explain | MsgKind_explain_resp | MsgKind_query_stats
| MsgKind_stats_resp | MsgKind_dispatch | MsgKind_completion | MsgKind_shutdown
| MsgKind_shutdown_ack | MsgKind_ping | MsgKind_pong | MsgKind_roll_epoch | MsgKind_error | MsgKind_raw (v : Z).

#[global] Instance MsgKind_eq_dec : EqDecision MsgKind.
Proof. solve_decision. Defined.

Definition MsgKind_to_int (k : MsgKind) : Z :=
  match k with
  | MsgKind_hello => 1
  | MsgKind_worker_register => 2
  | MsgKind_worker_register_ack => 3
  | MsgKind_submit => 4
  | MsgKind_submit_ack => 5
  | MsgKind_cancel => 6
  | MsgKind_cancel_ack => 7
  | MsgKind_query_state => 8
  | MsgKind_state => 9
  | MsgKind_query_explain => 10
  | MsgKind_explain_resp => 11
  | MsgKind_query_stats => 12
  | MsgKind_stats_resp => 13
  | MsgKind_dispatch => 14
  | MsgKind_completion => 15
  | MsgKind_shutdown => 16
  | MsgKind_shutdown_ack => 17
  | MsgKind_ping => 18
  | MsgKind_pong => 19
  | MsgKind_roll_epoch => 20
  | MsgKind_error => 21
  | MsgKind_raw v => v
  end.

Definition MsgKind_to_string (k : MsgKind) : string :=
  match k with
  | MsgKind_hello => "hello"
  | MsgKind_worker_register => "worker_register"
  | MsgKind_worker_register_ack => "worker_register_ack"
  | MsgKind_submit => "submit"
  | MsgKind_submit_ack => "submit_ack"
  | MsgKind_cancel => "cancel"
  | MsgKind_cancel_ack => "cancel_ack"
  | MsgKind_query_state => "query_state"
  | MsgKind_state => "state"
  | MsgKind_query_explain => "query_explain"
  | MsgKind_explain_resp => "explain_resp"
  | MsgKind_query_stats => "query_stats"
  | MsgKind_stats_resp => "stats_resp"
  | MsgKind_dispatch => "dispatch"
  | MsgKind_completion => "completion"
  | MsgKind_shutdown => "shutdown"
  | MsgKind_shutdown_ack => "shutdown_ack"
  | MsgKind_ping => "ping"
  | MsgKind_pong => "pong"
  | MsgKind_roll_epoch => "roll_epoch"
  | MsgKind_error => "error"
  | _ => "unknown"
  end.

#[global] Program Instance MsgKind_enum : CEnum MsgKind := {
  enumerators := [MsgKind_hello; MsgKind_worker_register; MsgKind_worker_register_ack; MsgKind_submit;
    MsgKind_submit_ack; MsgKind_cancel; MsgKind_cancel_ack; MsgKind_query_state;
    MsgKind_state; MsgKind_query_explain; MsgKind_explain_resp; MsgKind_query_stats;
    MsgKind_stats_resp; MsgKind_dispatch; MsgKind_completion; MsgKind_shutdown;
    MsgKind_shutdown_ack; MsgKind_ping; MsgKind_pong; MsgKind_roll_epoch; MsgKind_error];
  to_int := MsgKind_to_int;
  raw := MsgKind_raw
}.
Next Obligation. done. Qed.
Next Obligation. apply (bool_decide_unpack _). vm_compute. exact I. Qed.

(** ** Messages *)

Record Message := mkMessage {
  ms_kind : MsgKind;
  ms_worker : WorkerDescriptor;
  ms_epoch : Epoch;
  ms_workers : list WorkerDescriptor;
  ms_request : PrefillRequest;
  ms_tokens : list Z;
  ms_error : ErrorInfo;
  ms_request_id : RequestId;
  ms_attempt_id : AttemptId;
  ms_generation : Generation;
  ms_lifecycle : Lifecycle;
  ms_applied : bool;
  ms_accepted : bool;
  ms_group : ExecutionGroup;
  ms_member_tokens : list Z;
  ms_member_token_offsets : list Z;
  ms_member_results : list MemberResult;
  ms_stats : Stats;
  ms_explain : Explain;
  ms_cancel_result : CancelResult
}.

#[global] Instance eta_Message : Eta Message := λ x,
  mkMessage (ms_kind x) (ms_worker x) (ms_epoch x) (ms_workers x) (ms_request x) (ms_tokens x)
    (ms_error x) (ms_request_id x) (ms_attempt_id x) (ms_generation x) (ms_lifecycle x)
    (ms_applied x) (ms_accepted x) (ms_group x) (ms_member_tokens x)
    (ms_member_token_offsets x) (ms_member_results x) (ms_stats x) (ms_explain x)
    (ms_cancel_result x).
#[global] Instance set_ms_kind : Setter ms_kind := ltac:(mk_setter).
#[global] Instance set_ms_worker : Setter ms_worker := ltac:(mk_setter).
#[global] Instance set_ms_epoch : Setter ms_epoch := ltac:(mk_setter).
#[global] Instance set_ms_workers : Setter ms_workers := ltac:(mk_setter).
#[global] Instance set_ms_request : Setter ms_request := ltac:(mk_setter).
#[global] Instance set_ms_tokens : Setter ms_tokens := ltac:(mk_setter).
#[global] Instance set_ms_error : Setter ms_error := ltac:(mk_setter).
#[global] Instance set_ms_request_id : Setter ms_request_id := ltac:(mk_setter).
#[global] Instance set_ms_attempt_id : Setter ms_attempt_id := ltac:(mk_setter).
#[global] Instance set_ms_generation : Setter ms_generation := ltac:(mk_setter).
#[global] Instance set_ms_lifecycle : Setter ms_lifecycle := ltac:(mk_setter).
#[global] Instance set_ms_applied : Setter ms_applied := ltac:(mk_setter).
#[global] Instance set_ms_accepted : Setter ms_accepted := ltac:(mk_setter).
#[global] Instance set_ms_group : Setter ms_group := ltac:(mk_setter).
#[global] Instance set_ms_member_tokens : Setter ms_member_tokens := ltac:(mk_setter).
#[global] Instance set_ms_member_token_offsets : Setter ms_member_token_offsets := ltac:(mk_setter).
#[global] Instance set_ms_member_results : Setter ms_member_results := ltac:(mk_setter).
#[global] Instance set_ms_stats : Setter ms_stats := ltac:(mk_setter).
#[global] Instance set_ms_explain : Setter ms_explain := ltac:(mk_setter).
#[global] Instance set_ms_cancel_result : Setter ms_cancel_result := ltac:(mk_setter).

(** [Message m;]: the default member initializers. *)
Definition Message_default : Message := {|
  ms_kind := MsgKind_hello; ms_worker := WorkerDescriptor_default; ms_epoch := 0; ms_workers := [];
  ms_request := PrefillRequest_default; ms_tokens := []; ms_error := ErrorInfo_default;
  ms_request_id := 0; ms_attempt_id := 0; ms_generation := 0;
  ms_lifecycle := Lifecycle_submitted; ms_applied := false; ms_accepted := false;
  ms_group := ExecutionGroup_default; ms_member_tokens := []; ms_member_token_offsets := [];
  ms_member_results := []; ms_stats := Stats_default; ms_explain := mkExplain 0 0 "" [];
  ms_cancel_result := mkCancelResult false false ErrorCode_ok "" |}.

(** ** Workers *)

Definition enc_worker (wd : WorkerDescriptor) : list Z :=
  w_strong (wd_worker_id wd) ++
  w_strong (wd_boot_id wd) ++
  w_str (wd_host wd) ++
  w_u32 (wd_port wd) ++
  w_str (wd_backend wd) ++
  w_enum (wd_state wd) ++
  w_u64 (wd_capacity_units wd) ++
  w_strong (match wd_devices wd with [] => 0 | d :: _ => dd_id d end) ++
  w_str (match wd_devices wd with [] => "" | d :: _ => dd_name d end).

(** The device list a received identifier and name stand for. *)
Definition dec_devices (did : DeviceId) (name backend : string) : list DeviceDescriptor :=
  if is_nil did then []
  else [mkDeviceDescriptor did name backend 0 0 "" true].

Definition dec_worker : Reader WorkerDescriptor :=
  worker_id ← r_strong;
  boot_id ← r_strong;
  host ← r_str;
  port ← r_u32;
  backend ← r_str;
  state ← r_enum WorkerState;
  capacity_units ← r_u64;
  did ← r_strong;
  name ← r_str;
  mret (mkWorkerDescriptor worker_id boot_id host port backend (dec_devices did name backend)
          state capacity_units "").

(** ** Requests *)

Definition w_opt_i64 (v : option Z) : list Z :=
  w_bool (bool_decide (is_Some v)) ++ w_i64 (default 0 v).

Definition enc_req (r : PrefillRequest) : list Z :=
  w_strong (rq_request_id r) ++
  w_strong (rq_tenant_id r) ++
  w_str (mk_name (rq_model r)) ++
  w_str (mk_revision (rq_model r)) ++
  w_strong (rq_adapter_id r) ++
  w_enum (rq_adapter_relation r) ++
  w_str (vs_tokenizer (rq_vocab r)) ++
  w_u64 (vs_vocab_size (rq_vocab r)) ++
  w_u64 (rq_prompt_token_count r) ++
  w_u64 (rp_token_count (rq_reusable_prefix r)) ++
  w_bool (rp_validated (rq_reusable_prefix r)) ++
  w_str (rp_fingerprint (rq_reusable_prefix r)) ++
  w_u64 (is_seq_len (rq_input_shape r)) ++
  w_u64 (is_hidden_dim (rq_input_shape r)) ++
  w_u64 (is_num_heads (rq_input_shape r)) ++
  w_u64 (is_head_dim (rq_input_shape r)) ++
  w_enum (rq_input_layout r) ++
  w_enum (rq_numeric_mode r) ++
  w_str (rq_backend r) ++
  w_strong (rq_device r) ++
  w_str (rq_device_match r) ++
  w_enum (rq_latency_class r) ++
  w_opt_i64 (rq_deadline r) ++
  w_u32 (u32 (rq_priority r)) ++
  w_f64 (rq_tenant_weight r) ++
  w_i64 (rq_arrival_time r) ++
  w_opt_i64 (rq_max_queue_delay r) ++
  w_u64 (rq_memory_estimate_bytes r) ++
  w_u64 (rq_compute_estimate r) ++
  w_u32 (u32 (rq_max_retries r)) ++
  w_str (rq_requester r).

(** A flag octet and a value that counts only if the flag is set. *)
Definition flagged (has : bool) (v : Z) : option Z := if has then Some v else None.
Definition r_opt_i64 : Reader (option Z) :=
  has ← r_bool; v ← r_i64; mret (flagged has v).

Definition dec_req : Reader PrefillRequest :=
  request_id ← r_strong;
  tenant_id ← r_strong;
  name ← r_str;
  revision ← r_str;
  adapter_id ← r_strong;
  adapter_relation ← r_enum AdapterRelation;
  tokenizer ← r_str;
  vocab_size ← r_u64;
  prompt_token_count ← r_u64;
  prefix_tokens ← r_u64;
  validated ← r_bool;
  fingerprint ← r_str;
  seq_len ← r_u64;
  hidden_dim ← r_u64;
  num_heads ← r_u64;
  head_dim ← r_u64;
  input_layout ← r_enum InputLayout;
  numeric_mode ← r_enum NumericMode;
  backend ← r_str;
  device ← r_strong;
  device_match ← r_str;
  latency_class ← r_enum LatencyClass;
  deadline ← r_opt_i64;
  priority ← r_int;
  tenant_weight ← r_f64;
  arrival_time ← r_i64;
  max_queue_delay ← r_opt_i64;
  memory_estimate_bytes ← r_u64;
  compute_estimate ← r_u64;
  max_retries ← r_int;
  requester ← r_str;
  mret (mkPrefillRequest request_id tenant_id (mkModelKey name revision) adapter_id
          adapter_relation (mkVocabSpec tokenizer vocab_size) prompt_token_count
          (mkReusablePrefixMetadata prefix_tokens fingerprint validated)
          (mkInputShape seq_len hidden_dim num_heads head_dim) input_layout numeric_mode
          backend device device_match latency_class deadline priority tenant_weight
          arrival_time max_queue_delay memory_estimate_bytes compute_estimate max_retries
          requester).

(** ** Members, results, groups *)

Definition enc_member (m : ExecutableMember) : list Z :=
  w_strong (em_request_id m) ++ w_strong (em_attempt_id m) ++
  w_strong (em_generation m) ++ w_strong (em_parent_generation m) ++
  w_u64 (em_token_start m) ++ w_u64 (em_token_count m) ++ w_enum (em_work_kind m) ++
  w_u64 (em_memory_estimate_bytes m) ++ w_u64 (em_compute_estimate m) ++
  w_strong (em_assigned_worker m) ++ w_u32 (em_member_index m).

Definition dec_member : Reader ExecutableMember :=
  request_id ← r_strong;
  attempt_id ← r_strong;
  generation ← r_strong;
  parent_generation ← r_strong;
  token_start ← r_u64;
  token_count ← r_u64;
  work_kind ← r_enum WorkKind;
  memory_estimate_bytes ← r_u64;
  compute_estimate ← r_u64;
  assigned_worker ← r_strong;
  member_index ← r_u32;
  mret (mkExecutableMember request_id attempt_id generation parent_generation token_start
          token_count work_kind memory_estimate_bytes compute_estimate assigned_worker
          member_index).

(** The failure code goes through [static_cast<std::uint8_t>]. *)
Definition enc_mres (r : MemberResult) : list Z :=
  w_strong (mr_request_id r) ++ w_strong (mr_attempt_id r) ++ w_strong (mr_generation r) ++
  w_enum (mr_outcome r) ++
  w_u64 (mr_tokens_completed r) ++ w_u64 (mr_digest r) ++
  w_u8 (to_int (mr_failure_code r)) ++ w_str (mr_message r) ++
  w_u64 (mr_next_token_start r) ++ w_bool (mr_requires_next_chunk r) ++
  w_strong (mr_epoch r) ++ w_strong (mr_worker r) ++ w_strong (mr_boot r).

Definition dec_mres : Reader MemberResult :=
  request_id ← r_strong;
  attempt_id ← r_strong;
  generation ← r_strong;
  outcome ← r_enum MemberOutcome;
  tokens_completed ← r_u64;
  digest ← r_u64;
  failure_code ← r_enum ErrorCode;
  message ← r_str;
  next_token_start ← r_u64;
  requires_next_chunk ← r_bool;
  epoch ← r_strong;
  worker ← r_strong;
  boot ← r_strong;
  mret (mkMemberResult request_id attempt_id generation outcome tokens_completed digest
          failure_code message next_token_start requires_next_chunk epoch worker boot).

Definition enc_group (g : ExecutionGroup) : list Z :=
  w_strong (eg_group_id g) ++ w_str (eg_backend g) ++ w_strong (eg_device g) ++
  w_u64 (CompatibilityKey_hash (eg_key g)) ++ w_u32 (group_size g) ++
  concat (enc_member <$> eg_members g) ++
  w_u64 (eg_total_token_count g) ++ w_u64 (eg_max_memory_estimate_bytes g) ++
  w_u64 (eg_sum_compute_estimate g).

(** The key a received hash stands for. *)
Definition wire_key (h : Z) : CompatibilityKey :=
  mkCompatibilityKey ModelKey_default "" AdapterRelation_none kBackendAny 0
    InputLayout_seq_major NumericMode_fp32 VocabSpec_default "" (std_to_string h).

Definition dec_group : Reader ExecutionGroup :=
  group_id ← r_strong;
  backend ← r_str;
  device ← r_strong;
  hash ← r_u64;
  n ← r_u32;
  members ← r_times (Z.to_nat n) dec_member;
  total_token_count ← r_u64;
  max_memory_estimate_bytes ← r_u64;
  sum_compute_estimate ← r_u64;
  mret (mkExecutionGroup group_id (wire_key hash) backend device members total_token_count
          max_memory_estimate_bytes sum_compute_estimate).

(** ** Statistics *)

Definition enc_stats (st : Stats) : list Z :=
  w_u64 (st_submitted st) ++
  w_u64 (st_admitted st) ++
  w_u64 (st_rejected st) ++
  w_u64 (st_cancelled st) ++
  w_u64 (st_retried st) ++
  w_u64 (st_completed st) ++
  w_u64 (st_failed_non_retryable st) ++
  w_u64 (st_expired st) ++
  w_u64 (st_deadline_missed st) ++
  w_u64 (st_groups_formed st) ++
  w_u64 (st_scheduled_tokens st) ++
  w_u64 (st_completed_tokens st) ++
  w_u64 (st_chunk_count st) ++
  w_u64 (st_stale_authority_rejected st) ++
  w_u64 (st_duplicate_completion_rejected st) ++
  w_u64 (st_queue_depth st) ++
  w_u64 (st_waiting_tokens st) ++
  w_u64 (st_running_requests st) ++
  w_u64 (st_remaining_prefill_tokens st) ++
  w_i64 (st_queue_latency_total_ns st) ++
  w_i64 (st_execution_latency_total_ns st) ++
  w_u64 (st_queue_latency_samples st) ++
  w_u64 (st_execution_latency_samples st).

(** [if (u64) st.field = u64.value();]: a failed read leaves the default and the
    offset where they are. *)
Definition r_try {A} (d : A) (rd : Reader A) : Reader A := λ bs,
  match rd bs with Ok x => Ok x | Err _ => Ok (d, bs) end.

Definition dec_stats : Reader Stats :=
  submitted ← r_try 0 r_u64;
  admitted ← r_try 0 r_u64;
  rejected ← r_try 0 r_u64;
  cancelled ← r_try 0 r_u64;
  retried ← r_try 0 r_u64;
  completed ← r_try 0 r_u64;
  failed_non_retryable ← r_try 0 r_u64;
  expired ← r_try 0 r_u64;
  deadline_missed ← r_try 0 r_u64;
  groups_formed ← r_try 0 r_u64;
  scheduled_tokens ← r_try 0 r_u64;
  completed_tokens ← r_try 0 r_u64;
  chunk_count ← r_try 0 r_u64;
  stale_authority_rejected ← r_try 0 r_u64;
  duplicate_completion_rejected ← r_try 0 r_u64;
  queue_depth ← r_try 0 r_u64;
  waiting_tokens ← r_try 0 r_u64;
  running_requests ← r_try 0 r_u64;
  remaining_prefill_tokens ← r_try 0 r_u64;
  queue_latency_total_ns ← r_try 0 r_i64;
  execution_latency_total_ns ← r_try 0 r_i64;
  queue_latency_samples ← r_try 0 r_u64;
  execution_latency_samples ← r_try 0 r_u64;
  mret (mkStats submitted admitted rejected cancelled retried completed failed_non_retryable expired
          deadline_missed groups_formed 0 scheduled_tokens completed_tokens chunk_count
          stale_authority_rejected duplicate_completion_rejected 0 queue_depth waiting_tokens
          running_requests remaining_prefill_tokens 0 0 queue_latency_total_ns
          execution_latency_total_ns queue_latency_samples execution_latency_samples ∅ ∅ ∅ ∅).

(** ** Frame bodies *)

Definition w_code (c : ErrorCode) : list Z := w_u32 (u32 (to_int c)).
Definition r_code : Reader ErrorCode := v ← r_int; mret (of_int v).
Definition w_error (e : ErrorInfo) : list Z := w_code (ei_code e) ++ w_str (ei_message e).
Definition r_error : Reader ErrorInfo := c ← r_code; s ← r_str; mret (mkErrorInfo c s).

(** The payload of a message, by kind; [None] for a kind that names none. *)
Definition enc_payload (m : Message) : option (list Z) :=
  match ms_kind m with
  | MsgKind_hello => Some []
  | MsgKind_worker_register => Some (enc_worker (ms_worker m))
  | MsgKind_worker_register_ack => Some (w_strong (ms_epoch m) ++ enc_worker (ms_worker m))
  | MsgKind_submit => Some (enc_req (ms_request m) ++ w_vector w_u32 (ms_tokens m))
  | MsgKind_submit_ack =>
      Some (w_strong (ms_request_id m) ++ w_bool (ms_accepted m) ++ w_error (ms_error m) ++
            w_strong (ms_attempt_id m))
  | MsgKind_cancel => Some (w_strong (ms_request_id m))
  | MsgKind_cancel_ack =>
      Some (w_strong (ms_request_id m) ++ w_bool (ms_applied m) ++
            w_bool (cr_was_terminal (ms_cancel_result m)) ++ w_error (ms_error m))
  | MsgKind_query_state => Some []
  | MsgKind_state => Some (w_strong (ms_epoch m) ++ w_vector enc_worker (ms_workers m))
  | MsgKind_query_explain => Some (w_strong (ms_request_id m))
  | MsgKind_explain_resp =>
      Some (w_strong (ms_request_id m) ++ w_strong (ms_attempt_id m) ++
            w_enum (ms_lifecycle m) ++ w_strong (ms_generation m) ++
            w_vector w_str (xp_trace (ms_explain m)))
  | MsgKind_query_stats => Some []
  | MsgKind_stats_resp => Some (enc_stats (ms_stats m))
  | MsgKind_dispatch =>
      Some (enc_group (ms_group m) ++ w_vector w_u32 (ms_member_tokens m) ++
            w_vector w_u64 (ms_member_token_offsets m) ++ w_strong (ms_epoch m) ++
            w_strong (wd_boot_id (ms_worker m)))
  | MsgKind_completion => Some (w_vector enc_mres (ms_member_results m))
  | MsgKind_shutdown | MsgKind_shutdown_ack | MsgKind_ping | MsgKind_pong
  | MsgKind_roll_epoch => Some []
  | MsgKind_error => Some (w_error (ms_error m))
  | MsgKind_raw _ => None
  end.

Definition encode_body (m : Message) : Result (list Z) :=
  match enc_payload m with
  | Some pl => Ok (w_u8 kProtocolVersion ++ w_enum (ms_kind m) ++ pl)
  | None => err ErrorCode_protocol_violation "unknown message kind"
  end.

Definition violation (m : string) : ErrorInfo := mkErrorInfo ErrorCode_protocol_violation m.

(** The payload reader of a kind, filling the fields of [m]. *)
Definition dec_payload (kind : MsgKind) (m : Message) : Reader Message :=
  match kind with
  | MsgKind_hello => mret m
  | MsgKind_worker_register => w ← dec_worker; mret (m <| ms_worker := w |>)
  | MsgKind_worker_register_ack =>
      e ← r_strong; w ← dec_worker; mret (m <| ms_epoch := e |> <| ms_worker := w |>)
  | MsgKind_submit =>
      q ← dec_req;
      ts ← r_vector (Z.shiftl 1 26) (violation "token count unreasonable") r_u32;
      mret (m <| ms_request := q |> <| ms_tokens := ts |>)
  | MsgKind_submit_ack =>
      id ← r_strong; acc ← r_bool; e ← r_error; at_ ← r_strong;
      mret (m <| ms_request_id := id |> <| ms_accepted := acc |> <| ms_error := e |>
              <| ms_attempt_id := at_ |>)
  | MsgKind_cancel => id ← r_strong; mret (m <| ms_request_id := id |>)
  | MsgKind_cancel_ack =>
      id ← r_strong; a ← r_bool; w ← r_bool; e ← r_error;
      mret (m <| ms_request_id := id |> <| ms_applied := a |>
              <| ms_cancel_result := mkCancelResult false w ErrorCode_ok "" |>
              <| ms_error := e |>)
  | MsgKind_query_state => mret m
  | MsgKind_state =>
      e ← r_strong;
      ws ← r_vector (Z.shiftl 1 20) (violation "worker count unreasonable") dec_worker;
      mret (m <| ms_epoch := e |> <| ms_workers := ws |>)
  | MsgKind_query_explain => id ← r_strong; mret (m <| ms_request_id := id |>)
  | MsgKind_explain_resp =>
      id ← r_strong; at_ ← r_strong; lc ← r_enum Lifecycle; g ← r_strong;
      tr ← r_vector (Z.shiftl 1 22) (violation "trace length unreasonable") r_str;
      mret (m <| ms_request_id := id |> <| ms_attempt_id := at_ |> <| ms_lifecycle := lc |>
              <| ms_generation := g |> <| ms_explain := mkExplain 0 0 "" tr |>)
  | MsgKind_query_stats => mret m
  | MsgKind_stats_resp => s ← dec_stats; mret (m <| ms_stats := s |>)
  | MsgKind_dispatch =>
      g ← dec_group;
      ts ← r_vector (Z.shiftl 1 28) (violation "member_tokens too large") r_u32;
      os ← r_vector (Z.shiftl 1 20) (violation "member offsets too large") r_u64;
      e ← r_strong; b ← r_strong;
      mret (m <| ms_group := g |> <| ms_member_tokens := ts |>
              <| ms_member_token_offsets := os |> <| ms_epoch := e |>
              <| ms_worker := WorkerDescriptor_default <| wd_boot_id := b |> |>)
  | MsgKind_completion =>
      rs ← r_vector (Z.shiftl 1 22) (violation "completion count unreasonable") dec_mres;
      mret (m <| ms_member_results := rs |>)
  | MsgKind_shutdown | MsgKind_shutdown_ack | MsgKind_ping | MsgKind_pong
  | MsgKind_roll_epoch => mret m
  | MsgKind_error => e ← r_error; mret (m <| ms_error := e |>)
  | MsgKind_raw _ =>
      r_fail (mkErrorInfo ErrorCode_malformed_frame "unknown message kind")
  end.

Definition decode_body (version : Z) (kind : MsgKind) (payload : list Z) : Result Message :=
  if negb (version =? kProtocolVersion) then
    err ErrorCode_protocol_violation "unsupported protocol version"
  else match dec_payload kind (Message_default <| ms_kind := kind |>) payload with
       | Ok (m, _) => Ok m
       | Err e => Err e
       end.

Definition valid_frame_length (length : Z) : bool := (2 <=? length) && (length <=? kFrameMaxBytes).

Definition encode_frame (m : Message) : Result (list Z) := encode_body m.

Definition decode_frame (body : list Z) : Result Message :=
  match body with
  | version :: kind_byte :: payload =>
      if (kind_byte <? to_int MsgKind_hello) || (to_int MsgKind_error <? kind_byte) then
        err ErrorCode_malformed_frame "unknown message kind byte"
      else decode_body version (of_int kind_byte) payload
  | _ => err ErrorCode_malformed_frame "frame body too small"
  end.
