(* ===== verification/ProtocolProps.v ===== *)
(** * Properties of the wire protocol

    Every record codec satisfies the contract of [Bytes.codec]; a frame is read
    back as the image of its message, a frame cut short is refused, and what is
    accepted has the version, the kind and the sizes the protocol allows. *)

From S2P Require Import Prelude Float Types Request Compat Bytes Exec Observability SchedState SchedOps Protocol.

(** ** What the wire keeps *)

Definition wire_worker (wd : WorkerDescriptor) : WorkerDescriptor :=
  mkWorkerDescriptor (wd_worker_id wd) (wd_boot_id wd) (wd_host wd) (wd_port wd)
    (wd_backend wd)
    match wd_devices wd with
    | [] => []
    | d :: _ => dec_devices (dd_id d) (dd_name d) (wd_backend wd)
    end (wd_state wd) (wd_capacity_units wd) "".

Definition wire_mres (r : MemberResult) : MemberResult :=
  r <| mr_failure_code := of_int (u8 (to_int (mr_failure_code r))) |>.

Definition wire_group (g : ExecutionGroup) : ExecutionGroup :=
  mkExecutionGroup (eg_group_id g) (wire_key (CompatibilityKey_hash (eg_key g))) (eg_backend g)
    (eg_device g) (eg_members g) (eg_total_token_count g) (eg_max_memory_estimate_bytes g)
    (eg_sum_compute_estimate g).

(** The counters a peer receives; the maps and the memory gauges stay behind. *)
Definition wire_stats (x : Stats) : Stats :=
  mkStats (st_submitted x) (st_admitted x) (st_rejected x) (st_cancelled x) (st_retried x)
    (st_completed x) (st_failed_non_retryable x) (st_expired x) (st_deadline_missed x)
    (st_groups_formed x) 0 (st_scheduled_tokens x) (st_completed_tokens x) (st_chunk_count x)
    (st_stale_authority_rejected x) (st_duplicate_completion_rejected x) 0 (st_queue_depth x)
    (st_waiting_tokens x) (st_running_requests x) (st_remaining_prefill_tokens x) 0 0
    (st_queue_latency_total_ns x) (st_execution_latency_total_ns x)
    (st_queue_latency_samples x) (st_execution_latency_samples x) ∅ ∅ ∅ ∅.

(** The message the peer sees: the fields of the kind, the rest at default. *)
Definition transmitted (m : Message) : Message :=
  let d := Message_default <| ms_kind := ms_kind m |> in
  match ms_kind m with
  | MsgKind_worker_register => d <| ms_worker := wire_worker (ms_worker m) |>
  | MsgKind_worker_register_ack =>
      d <| ms_epoch := ms_epoch m |> <| ms_worker := wire_worker (ms_worker m) |>
  | MsgKind_submit => d <| ms_request := ms_request m |> <| ms_tokens := ms_tokens m |>
  | MsgKind_submit_ack =>
      d <| ms_request_id := ms_request_id m |> <| ms_accepted := ms_accepted m |>
        <| ms_error := ms_error m |> <| ms_attempt_id := ms_attempt_id m |>
  | MsgKind_cancel | MsgKind_query_explain => d <| ms_request_id := ms_request_id m |>
  | MsgKind_cancel_ack =>
      d <| ms_request_id := ms_request_id m |> <| ms_applied := ms_applied m |>
        <| ms_cancel_result :=
             mkCancelResult false (cr_was_terminal (ms_cancel_result m)) ErrorCode_ok "" |>
        <| ms_error := ms_error m |>
  | MsgKind_state =>
      d <| ms_epoch := ms_epoch m |> <| ms_workers := wire_worker <$> ms_workers m |>
  | MsgKind_explain_resp =>
      d <| ms_request_id := ms_request_id m |> <| ms_attempt_id := ms_attempt_id m |>
        <| ms_lifecycle := ms_lifecycle m |> <| ms_generation := ms_generation m |>
        <| ms_explain := mkExplain 0 0 "" (xp_trace (ms_explain m)) |>
  | MsgKind_stats_resp => d <| ms_stats := wire_stats (ms_stats m) |>
  | MsgKind_dispatch =>
      d <| ms_group := wire_group (ms_group m) |> <| ms_member_tokens := ms_member_tokens m |>
        <| ms_member_token_offsets := ms_member_token_offsets m |> <| ms_epoch := ms_epoch m |>
        <| ms_worker := WorkerDescriptor_default <| wd_boot_id := wd_boot_id (ms_worker m) |> |>
  | MsgKind_completion => d <| ms_member_results := wire_mres <$> ms_member_results m |>
  | MsgKind_error => d <| ms_error := ms_error m |>
  | _ => d
  end.

(** ** What arrives unchanged *)

(** At most one device, of which only id and name are given. *)
Definition worker_plain (wd : WorkerDescriptor) : Prop :=
  wd_info wd = "" ∧
  (wd_devices wd = [] ∨
   ∃ d, wd_devices wd = [d] ∧ dd_id d ≠ 0 ∧
     d = mkDeviceDescriptor (dd_id d) (dd_name d) (wd_backend wd) 0 0 "" true).

(** No maps, and the gauges that are not written at zero. *)
Definition stats_plain (x : Stats) : Prop :=
  st_mem_underflow_flag x = 0 ∧ st_queue_delay_exceeded x = 0 ∧ st_reserved_memory_bytes x = 0 ∧
  st_available_memory_bytes x = 0 ∧ st_rejection_by_reason x = ∅ ∧
  st_group_size_distribution x = ∅ ∧ st_per_tenant x = ∅ ∧ st_per_device x = ∅.

(** The parts of a message that a peer gets without change: short failure codes,
    plain workers and plain statistics. *)
Definition lossless (m : Message) : Prop :=
  match ms_kind m with
  | MsgKind_worker_register | MsgKind_worker_register_ack => worker_plain (ms_worker m)
  | MsgKind_state => Forall worker_plain (ms_workers m)
  | MsgKind_stats_resp => stats_plain (ms_stats m)
  | MsgKind_completion => Forall (λ r, enum_byte (mr_failure_code r)) (ms_member_results m)
  | _ => True
  end.

(** The fields of the kind of a message, as the sender has them.  The group of a
    dispatch has the hash of its key in place of the key; of a cancellation
    result, an explanation and the worker of a dispatch there is one field. *)
Definition carried (m : Message) : Message :=
  let d := Message_default <| ms_kind := ms_kind m |> in
  match ms_kind m with
  | MsgKind_worker_register => d <| ms_worker := ms_worker m |>
  | MsgKind_worker_register_ack => d <| ms_epoch := ms_epoch m |> <| ms_worker := ms_worker m |>
  | MsgKind_submit => d <| ms_request := ms_request m |> <| ms_tokens := ms_tokens m |>
  | MsgKind_submit_ack =>
      d <| ms_request_id := ms_request_id m |> <| ms_accepted := ms_accepted m |>
        <| ms_error := ms_error m |> <| ms_attempt_id := ms_attempt_id m |>
  | MsgKind_cancel | MsgKind_query_explain => d <| ms_request_id := ms_request_id m |>
  | MsgKind_cancel_ack =>
      d <| ms_request_id := ms_request_id m |> <| ms_applied := ms_applied m |>
        <| ms_cancel_result :=
             mkCancelResult false (cr_was_terminal (ms_cancel_result m)) ErrorCode_ok "" |>
        <| ms_error := ms_error m |>
  | MsgKind_state => d <| ms_epoch := ms_epoch m |> <| ms_workers := ms_workers m |>
  | MsgKind_explain_resp =>
      d <| ms_request_id := ms_request_id m |> <| ms_attempt_id := ms_attempt_id m |>
        <| ms_lifecycle := ms_lifecycle m |> <| ms_generation := ms_generation m |>
        <| ms_explain := mkExplain 0 0 "" (xp_trace (ms_explain m)) |>
  | MsgKind_stats_resp => d <| ms_stats := ms_stats m |>
  | MsgKind_dispatch =>
      d <| ms_group := wire_group (ms_group m) |> <| ms_member_tokens := ms_member_tokens m |>
        <| ms_member_token_offsets := ms_member_token_offsets m |> <| ms_epoch := ms_epoch m |>
        <| ms_worker := WorkerDescriptor_default <| wd_boot_id := wd_boot_id (ms_worker m) |> |>
  | MsgKind_completion => d <| ms_member_results := ms_member_results m |>
  | MsgKind_error => d <| ms_error := ms_error m |>
  | _ => d
  end.

Lemma wire_worker_plain wd : worker_plain wd → wire_worker wd = wd.
Proof.
  destruct wd as [a b c p e ds st cap x]. unfold worker_plain, wire_worker, dec_devices, is_nil. cbn.
  intros [-> [->|(d & -> & Hd & E)]]; [done|]. rewrite (proj2 (Z.eqb_neq _ _) Hd). by rewrite E at 3.
Qed.

Lemma wire_mres_plain r : enum_byte (mr_failure_code r) → wire_mres r = r.
Proof.
  intros [Hb Hc]. unfold wire_mres. rewrite u8_small, Hc by done. by destruct r.
Qed.

Lemma fmap_fixed {A} (f : A → A) (P : A → Prop) l : (∀ x, P x → f x = x) → Forall P l → f <$> l = l.
Proof. intros Hf Hl. induction Hl as [|x l Hx Hl IH]; [done|]. by rewrite fmap_cons, IH, Hf. Qed.

Lemma lossless_carried m : lossless m → transmitted m = carried m.
Proof.
  unfold lossless, transmitted, carried. cbv zeta. destruct (ms_kind m); try done.
  - by intros ->%wire_worker_plain.
  - by intros ->%wire_worker_plain.
  - by intros ->%(fmap_fixed _ _ _ wire_worker_plain).
  - intros (E1 & E2 & E3 & E4 & E5 & E6 & E7 & E8). f_equal. unfold wire_stats.
    destruct (ms_stats m). cbn in *. by subst.
  - by intros ->%(fmap_fixed _ _ _ wire_mres_plain).
Qed.

(** ** Messages the wire can carry *)

Definition worker_fits (wd : WorkerDescriptor) : Prop :=
  is_u64 (wd_worker_id wd) ∧ is_u64 (wd_boot_id wd) ∧ short_string (wd_host wd) ∧
  is_u32 (wd_port wd) ∧ short_string (wd_backend wd) ∧ enum_byte (wd_state wd) ∧
  is_u64 (wd_capacity_units wd) ∧
  is_u64 (match wd_devices wd with [] => 0 | d :: _ => dd_id d end) ∧
  short_string (match wd_devices wd with [] => "" | d :: _ => dd_name d end).

Definition submission_fits (r : PrefillRequest) : Prop :=
  is_u64 (rq_request_id r) ∧ is_u64 (rq_tenant_id r) ∧
  short_string (mk_name (rq_model r)) ∧ short_string (mk_revision (rq_model r)) ∧
  is_u64 (rq_adapter_id r) ∧ enum_byte (rq_adapter_relation r) ∧
  short_string (vs_tokenizer (rq_vocab r)) ∧ is_u64 (vs_vocab_size (rq_vocab r)) ∧
  is_u64 (rq_prompt_token_count r) ∧ is_u64 (rp_token_count (rq_reusable_prefix r)) ∧
  short_string (rp_fingerprint (rq_reusable_prefix r)) ∧
  is_u64 (is_seq_len (rq_input_shape r)) ∧ is_u64 (is_hidden_dim (rq_input_shape r)) ∧
  is_u64 (is_num_heads (rq_input_shape r)) ∧ is_u64 (is_head_dim (rq_input_shape r)) ∧
  enum_byte (rq_input_layout r) ∧ enum_byte (rq_numeric_mode r) ∧
  short_string (rq_backend r) ∧ is_u64 (rq_device r) ∧ short_string (rq_device_match r) ∧
  enum_byte (rq_latency_class r) ∧ is_i64 (default 0 (rq_deadline r)) ∧
  is_i32 (rq_priority r) ∧ is_u64 (rq_tenant_weight r) ∧ is_i64 (rq_arrival_time r) ∧
  is_i64 (default 0 (rq_max_queue_delay r)) ∧ is_u64 (rq_memory_estimate_bytes r) ∧
  is_u64 (rq_compute_estimate r) ∧ is_i32 (rq_max_retries r) ∧ short_string (rq_requester r).

Definition member_fits (m : ExecutableMember) : Prop :=
  is_u64 (em_request_id m) ∧ is_u64 (em_attempt_id m) ∧ is_u64 (em_generation m) ∧
  is_u64 (em_parent_generation m) ∧ is_u64 (em_token_start m) ∧ is_u64 (em_token_count m) ∧
  enum_byte (em_work_kind m) ∧ is_u64 (em_memory_estimate_bytes m) ∧
  is_u64 (em_compute_estimate m) ∧ is_u64 (em_assigned_worker m) ∧ is_u32 (em_member_index m).

Definition mres_fits (r : MemberResult) : Prop :=
  is_u64 (mr_request_id r) ∧ is_u64 (mr_attempt_id r) ∧ is_u64 (mr_generation r) ∧
  enum_byte (mr_outcome r) ∧ is_u64 (mr_tokens_completed r) ∧ is_u64 (mr_digest r) ∧
  short_string (mr_message r) ∧ is_u64 (mr_next_token_start r) ∧ is_u64 (mr_epoch r) ∧
  is_u64 (mr_worker r) ∧ is_u64 (mr_boot r).

Definition group_fits (g : ExecutionGroup) : Prop :=
  is_u64 (eg_group_id g) ∧ short_string (eg_backend g) ∧ is_u64 (eg_device g) ∧
  (Forall member_fits (eg_members g) ∧ Z.of_nat (length (eg_members g)) < 2 ^ 32) ∧
  is_u64 (eg_total_token_count g) ∧ is_u64 (eg_max_memory_estimate_bytes g) ∧
  is_u64 (eg_sum_compute_estimate g).

Definition stats_fit (x : Stats) : Prop :=
  Forall is_u64 [st_submitted x; st_admitted x; st_rejected x; st_cancelled x; st_retried x;
    st_completed x; st_failed_non_retryable x; st_expired x; st_deadline_missed x;
    st_groups_formed x; st_scheduled_tokens x; st_completed_tokens x; st_chunk_count x;
    st_stale_authority_rejected x; st_duplicate_completion_rejected x; st_queue_depth x;
    st_waiting_tokens x; st_running_requests x; st_remaining_prefill_tokens x;
    st_queue_latency_samples x; st_execution_latency_samples x] ∧
  is_i64 (st_queue_latency_total_ns x) ∧ is_i64 (st_execution_latency_total_ns x).

Definition error_fits (e : ErrorInfo) : Prop :=
  is_i32 (to_int (ei_code e)) ∧ of_int (to_int (ei_code e)) = ei_code e ∧
  short_string (ei_message e).

Definition within {A} (P : A → Prop) (limit : Z) (l : list A) : Prop :=
  Forall P l ∧ Z.of_nat (length l) <= limit.

Definition message_fits (m : Message) : Prop :=
  match ms_kind m with
  | MsgKind_worker_register => worker_fits (ms_worker m)
  | MsgKind_worker_register_ack => is_u64 (ms_epoch m) ∧ worker_fits (ms_worker m)
  | MsgKind_submit => submission_fits (ms_request m) ∧ within is_u32 (2 ^ 26) (ms_tokens m)
  | MsgKind_submit_ack =>
      is_u64 (ms_request_id m) ∧ error_fits (ms_error m) ∧ is_u64 (ms_attempt_id m)
  | MsgKind_cancel | MsgKind_query_explain => is_u64 (ms_request_id m)
  | MsgKind_cancel_ack => is_u64 (ms_request_id m) ∧ error_fits (ms_error m)
  | MsgKind_state => is_u64 (ms_epoch m) ∧ within worker_fits (2 ^ 20) (ms_workers m)
  | MsgKind_explain_resp =>
      is_u64 (ms_request_id m) ∧ is_u64 (ms_attempt_id m) ∧ enum_byte (ms_lifecycle m) ∧
      is_u64 (ms_generation m) ∧ within short_string (2 ^ 22) (xp_trace (ms_explain m))
  | MsgKind_stats_resp => stats_fit (ms_stats m)
  | MsgKind_dispatch =>
      group_fits (ms_group m) ∧ within is_u32 (2 ^ 28) (ms_member_tokens m) ∧
      within is_u64 (2 ^ 20) (ms_member_token_offsets m) ∧ is_u64 (ms_epoch m) ∧
      is_u64 (wd_boot_id (ms_worker m))
  | MsgKind_completion => within mres_fits (2 ^ 22) (ms_member_results m)
  | MsgKind_error => error_fits (ms_error m)
  | MsgKind_raw _ => False
  | _ => True
  end.

#[global] Instance worker_fits_dec wd : Decision (worker_fits wd).
Proof. unfold worker_fits; apply _. Defined.
#[global] Instance submission_fits_dec r : Decision (submission_fits r).
Proof. unfold submission_fits; apply _. Defined.
#[global] Instance member_fits_dec m : Decision (member_fits m).
Proof. unfold member_fits; apply _. Defined.
#[global] Instance mres_fits_dec r : Decision (mres_fits r).
Proof. unfold mres_fits; apply _. Defined.
#[global] Instance group_fits_dec g : Decision (group_fits g).
Proof. unfold group_fits; apply _. Defined.
#[global] Instance stats_fit_dec x : Decision (stats_fit x).
Proof. unfold stats_fit; apply _. Defined.
#[global] Instance error_fits_dec e : Decision (error_fits e).
Proof. unfold error_fits; apply _. Defined.
#[global] Instance within_dec {A} (P : A → Prop) `{∀ a, Decision (P a)} limit l :
  Decision (within P limit l).
Proof. unfold within; apply _. Defined.
#[global] Instance message_fits_dec m : Decision (message_fits m).
Proof. unfold message_fits; destruct (ms_kind m); apply _. Defined.

(** ** The record codecs *)

Lemma codec_wire_worker wd : worker_fits wd → codec dec_worker (enc_worker wd) (wire_worker wd).
Proof.
  destruct wd as [? ? ? ? ? [|d ds] ? ? ?]; record_codec worker_fits dec_worker enc_worker.
Qed.

Lemma codec_opt_i64 v : is_i64 (default 0 v) → codec r_opt_i64 (w_opt_i64 v) v.
Proof.
  intros H. unfold r_opt_i64, w_opt_i64. eapply codec_bind; [apply codec_bool|].
  eapply codec_last; [by apply codec_i64|]. by destruct v.
Qed.
#[local] Hint Resolve codec_opt_i64 : codec.

Lemma codec_submission r : submission_fits r → codec dec_req (enc_req r) r.
Proof.
  destruct r as [??[??]??[??]?[???][????]???????????????].
  record_codec submission_fits dec_req enc_req.
Qed.

Lemma codec_member m : member_fits m → codec dec_member (enc_member m) m.
Proof. destruct m. record_codec member_fits dec_member enc_member. Qed.

Lemma codec_mres r : mres_fits r → codec dec_mres (enc_mres r) (wire_mres r).
Proof.
  destruct r. intros H. unfold mres_fits in H. destruct_and_hyp. unfold dec_mres, enc_mres.
  do 6 (eapply codec_bind; [solve [eauto with codec]|]).
  eapply codec_bind; [apply codec_enum_low|]. codec_fields.
Qed.

Lemma codec_group g : group_fits g → codec dec_group (enc_group g) (wire_group g).
Proof.
  destruct g as [? key ? ? ms ? ? ?]. intros H. unfold group_fits in H. cbn in H.
  destruct_and_hyp. unfold dec_group, enc_group.
  assert (is_u64 (CompatibilityKey_hash key)) by
    (unfold CompatibilityKey_hash; repeat (apply fnv1a64_range || unfold fnv1a64_str); unfold is_u64, fnv_offset_basis; lia).
  do 4 (eapply codec_bind; [solve [eauto with codec]|]).
  eapply codec_bind.
  { apply codec_u32, u32_range. }
  unfold group_size. cbn [eg_members]. rewrite u32_small by (unfold is_u32; lia). rewrite Nat2Z.id.
  eapply codec_bind; [apply codec_times|codec_fields].
  intros x Hx. apply codec_member. rewrite Forall_forall in *. auto.
Qed.

Lemma codec_code c :
  is_i32 (to_int c) → of_int (to_int c) = c → codec r_code (w_code c) c.
Proof. intros Hi Hc. rewrite <- Hc at 2. apply (codec_map r_int of_int). by apply codec_int. Qed.

Lemma codec_error e : error_fits e → codec r_error (w_error e) e.
Proof.
  destruct e. intros (? & ? & ?). unfold r_error, w_error.
  eapply codec_bind; [by apply codec_code|codec_fields].
Qed.

Lemma codec_within {A} (P : A → Prop) limit limit' e (rd : Reader A) w f l :
  limit' = limit → limit < 2 ^ 64 → (∀ x, P x → codec rd (w x) (f x)) → within P limit l →
  codec (r_vector limit' e rd) (w_vector w l) (f <$> l).
Proof.
  intros -> Hlim Hc [Hl Hn]. rewrite Forall_forall in Hl. apply codec_vector_map; [auto|lia].
Qed.

Lemma codec_within_id {A} (P : A → Prop) limit limit' e (rd : Reader A) w l :
  limit' = limit → limit < 2 ^ 64 → (∀ x, P x → codec rd (w x) x) → within P limit l →
  codec (r_vector limit' e rd) (w_vector w l) l.
Proof.
  intros. rewrite <- (list_fmap_id l) at 2. by eapply codec_within.
Qed.

(** *** Statistics: each counter is read or skipped *)

Definition reads {A} (rd : Reader A) (bs : list Z) (a : A) : Prop :=
  ∀ rest, rd (bs ++ rest) = Ok (a, rest).

Lemma reads_bind {A B} (rd : Reader A) (k : A → Reader B) b1 b2 a b :
  reads rd b1 a → reads (k a) b2 b → reads (rd ≫= k) (b1 ++ b2) b.
Proof. intros H1 H2 rest. unfold mbind, reader_bind. by rewrite <- app_assoc, H1, H2. Qed.

Lemma reads_last {A B} (rd : Reader A) (f : A → B) bs a b :
  reads rd bs a → f a = b → reads (x ← rd; mret (f x)) bs b.
Proof. intros H1 <- rest. unfold mbind, reader_bind. by rewrite H1. Qed.

Lemma reads_try {A} (d : A) rd bs a : codec rd bs a → reads (r_try d rd) bs a.
Proof. intros H rest. unfold r_try. by rewrite (codec_reads _ _ _ H). Qed.

Lemma reads_stats x : stats_fit x → reads dec_stats (enc_stats x) (wire_stats x).
Proof.
  intros (Hu & H1 & H2). rewrite !Forall_cons in Hu. destruct_and_hyp.
  unfold dec_stats, enc_stats.
  repeat (eapply reads_bind; [apply reads_try; solve [eauto with codec]|]).
  eapply reads_last; [apply reads_try; solve [eauto with codec]|reflexivity].
Qed.

(** ** Payloads *)

Lemma payload_codec m pl :
  message_fits m → ms_kind m ≠ MsgKind_stats_resp → enc_payload m = Some pl →
  codec (dec_payload (ms_kind m) (Message_default <| ms_kind := ms_kind m |>)) pl (transmitted m).
Proof.
  unfold message_fits, enc_payload, transmitted. intros Hf Hns Hpl. cbv zeta.
  pose proof codec_wire_worker as Cw. pose proof codec_submission as Cs.
  pose proof codec_error as Ce. pose proof codec_group as Cg.
  assert (∀ e l, within is_u32 (2 ^ 26) l → codec (r_vector (Z.shiftl 1 26) e r_u32) (w_vector w_u32 l) l)
    as Ct by (intros; apply (codec_within_id is_u32 (2 ^ 26)); [reflexivity|lia|exact codec_u32|done]).
  assert (∀ e l, within is_u32 (2 ^ 28) l → codec (r_vector (Z.shiftl 1 28) e r_u32) (w_vector w_u32 l) l)
    as Ct' by (intros; apply (codec_within_id is_u32 (2 ^ 28)); [reflexivity|lia|exact codec_u32|done]).
  assert (∀ e l, within is_u64 (2 ^ 20) l → codec (r_vector (Z.shiftl 1 20) e r_u64) (w_vector w_u64 l) l)
    as Co by (intros; apply (codec_within_id is_u64 (2 ^ 20)); [reflexivity|lia|exact codec_u64|done]).
  assert (∀ e l, within short_string (2 ^ 22) l → codec (r_vector (Z.shiftl 1 22) e r_str) (w_vector w_str l) l)
    as Cx by (intros; apply (codec_within_id short_string (2 ^ 22)); [reflexivity|lia|exact codec_str|done]).
  assert (∀ e l, within worker_fits (2 ^ 20) l →
    codec (r_vector (Z.shiftl 1 20) e dec_worker) (w_vector enc_worker l) (wire_worker <$> l))
    as Cws by (intros; apply (codec_within worker_fits (2 ^ 20)); [reflexivity|lia|done|done]).
  assert (∀ e l, within mres_fits (2 ^ 22) l →
    codec (r_vector (Z.shiftl 1 22) e dec_mres) (w_vector enc_mres l) (wire_mres <$> l))
    as Cms by (intros; apply (codec_within mres_fits (2 ^ 22)); [reflexivity|lia|exact codec_mres|done]).
  destruct (ms_kind m) eqn:Hk; try done; apply (inj Some) in Hpl; subst pl;
    destruct_and_hyp; unfold dec_payload; try apply codec_ret; codec_fields.
Qed.

Lemma kind_byte k : k ∈ (enumerators : list MsgKind) →
  is_u8 (to_int k) ∧ of_int (to_int k) = k ∧
  to_int MsgKind_hello <= to_int k <= to_int MsgKind_error.
Proof.
  intros Hk. rewrite (of_to_int k Hk). revert k Hk. apply Forall_forall.
  apply (bool_decide_unpack _). vm_compute. exact I.
Qed.

Lemma message_kind m : message_fits m → ms_kind m ∈ (enumerators : list MsgKind).
Proof.
  unfold message_fits. intros H. destruct (ms_kind m); try done; apply (bool_decide_unpack _); by vm_compute.
Qed.

(** The body of a message: version, kind, payload. *)
Lemma encode_shape m :
  message_fits m →
  ∃ pl, enc_payload m = Some pl ∧
    encode_frame m = Ok (kProtocolVersion :: to_int (ms_kind m) :: pl) ∧
    ∀ p, decode_frame (kProtocolVersion :: to_int (ms_kind m) :: p)
         = match dec_payload (ms_kind m) (Message_default <| ms_kind := ms_kind m |>) p with
           | Ok (m', _) => Ok m' | Err e => Err e end.
Proof.
  intros Hf. destruct (kind_byte _ (message_kind m Hf)) as (Hb & Ho & Hr).
  unfold encode_frame, encode_body. destruct (enc_payload m) as [pl|] eqn:Hp.
  - exists pl. split; [done|]. split.
    + unfold w_enum, w_u8. by rewrite (u8_small (to_int (ms_kind m)) Hb).
    + intros p. unfold decode_frame, decode_body. rewrite !(proj2 (Z.ltb_ge _ _)) by lia.
      rewrite Ho. done.
  - unfold enc_payload, message_fits in *. by destruct (ms_kind m).
Qed.

Lemma frame_roundtrip_body m junk :
  message_fits m →
  ∃ body, encode_frame m = Ok body ∧ decode_frame (body ++ junk) = Ok (transmitted m).
Proof.
  intros Hf.
  destruct (encode_shape m Hf) as (pl & Hp & He & Hd). eexists. split; [exact He|].
  cbn [app]. rewrite Hd. destruct (decide (ms_kind m = MsgKind_stats_resp)) as [Hk|Hk].
  - unfold enc_payload, message_fits, transmitted in *. rewrite Hk in *.
    apply (inj Some) in Hp as <-. unfold dec_payload.
    assert (∀ d, (s ← dec_stats; mret (d <| ms_stats := s |>)) (enc_stats (ms_stats m) ++ junk)
              = Ok (d <| ms_stats := wire_stats (ms_stats m) |>, junk)) as ->; [|done].
    intros d. by eapply (reads_last dec_stats (λ s, d <| ms_stats := s |>)); [apply reads_stats|].
  - by rewrite (codec_reads _ _ _ (payload_codec m pl Hf Hk Hp)).
Qed.


(** A frame body cut short is refused, for every kind but [stats_resp],
    whose reader keeps the counters it can read. *)
Theorem frame_truncated m body p (Hf : message_fits m) (Hk : ms_kind m ≠ MsgKind_stats_resp)
    (He : encode_frame m = Ok body) (Hp : p `prefix_of` body) (Hne : p ≠ body) :
  code_of (decode_frame p)
  = if (length p <? 2)%nat then ErrorCode_malformed_frame else ErrorCode_truncation.
Proof.
  destruct (encode_shape m Hf) as (pl & Hpl & He' & Hd). rewrite He in He'.
  assert (body = kProtocolVersion :: to_int (ms_kind m) :: pl) as -> by congruence.
  destruct p as [|v [|k q]]; [done..|].
  pose proof (prefix_cons_inv_1 _ _ _ _ Hp) as ->. apply prefix_cons_inv_2 in Hp.
  pose proof (prefix_cons_inv_1 _ _ _ _ Hp) as ->. apply prefix_cons_inv_2 in Hp.
  rewrite Hd. rewrite (codec_truncated _ _ _ (payload_codec m pl Hf Hk Hpl) q Hp); [done|].
  by intros ->.
Qed.

(** ** What a peer accepts *)

Lemma yields_wire_worker : yields dec_worker worker_fits.
Proof.
  unfold dec_worker. yields_fields. unfold worker_fits, dec_devices. cbn.
  destruct (is_nil _); cbn; split_and?; done || (unfold is_u64; lia) || idtac.
Qed.

Lemma yields_opt_i64 : yields r_opt_i64 (λ v, is_i64 (default 0 v)).
Proof.
  unfold r_opt_i64. eapply yields_bind; [apply yields_bool|]. intros b _.
  eapply yields_bind; [apply yields_i64|]. intros v Hv. apply yields_ret. by destruct b.
Qed.
#[local] Hint Resolve yields_opt_i64 : yields.

Lemma yields_submission : yields dec_req submission_fits.
Proof. unfold dec_req. yields_fields. unfold submission_fits; split_and?; assumption. Qed.
Lemma yields_member : yields dec_member member_fits.
Proof. unfold dec_member. yields_fields. unfold member_fits; split_and?; assumption. Qed.
Lemma yields_mres : yields dec_mres mres_fits.
Proof. unfold dec_mres. yields_fields. unfold mres_fits; split_and?; assumption. Qed.

Lemma yields_group : yields dec_group group_fits.
Proof.
  unfold dec_group. do 5 (eapply yields_bind; [solve [eauto with yields]|intros ? ?]).
  eapply yields_bind; [apply yields_times, yields_member|]. intros ms [Hms Hlen].
  yields_fields. unfold group_fits, is_u32 in *; split_and?; try assumption. cbn. lia.
Qed.

Lemma yields_code : yields r_code (λ c, is_i32 (to_int c) ∧ of_int (to_int c) = c).
Proof.
  eapply yields_bind; [apply yields_int|]. intros v Hv. apply yields_ret. by rewrite to_of_int.
Qed.
Lemma yields_error : yields r_error error_fits.
Proof.
  eapply yields_bind; [apply yields_code|]. intros c [? ?]. yields_fields. by split_and?.
Qed.

Lemma yields_try {A} (P : A → Prop) d rd : P d → yields rd P → yields (r_try d rd) P.
Proof.
  intros Hd Hrd bs a rest Hbs H. unfold r_try in H. destruct (rd bs) as [[x r]|] eqn:E; [|by injection H as <- <-].
  injection H as <- <-. by apply (Hrd bs).
Qed.

Lemma yields_stats : yields dec_stats stats_fit.
Proof.
  assert (yields (r_try 0 r_u64) is_u64) by (apply yields_try; [unfold is_u64; lia|apply yields_u64]).
  assert (yields (r_try 0 r_i64) is_i64) by (apply yields_try; [unfold is_i64; lia|apply yields_i64]).
  unfold dec_stats. yields_fields. unfold stats_fit. rewrite !Forall_cons. split_and?; try assumption. constructor.
Qed.

Lemma yields_within {A} (P : A → Prop) limit e rd :
  yields rd P → yields (r_vector limit e rd) (within P limit).
Proof. apply yields_vector. Qed.

Lemma yields_message kind :
  yields (dec_payload kind (Message_default <| ms_kind := kind |>))
    (λ m, ms_kind m = kind ∧ message_fits m).
Proof.
  pose proof yields_wire_worker. pose proof yields_submission. pose proof yields_error.
  pose proof yields_group. pose proof yields_stats.
  pose proof (λ l e, yields_within _ l e _ yields_u32).
  pose proof (λ l e, yields_within _ l e _ yields_u64).
  pose proof (λ l e, yields_within _ l e _ yields_str).
  pose proof (λ l e, yields_within _ l e _ yields_wire_worker).
  pose proof (λ l e, yields_within _ l e _ yields_mres).
  destruct kind; unfold dec_payload; [yields_fields; split; [reflexivity|]..|].
  all: try (unfold message_fits; cbn; split_and?; assumption || done).
Qed.

(** C39: what a peer accepts: an accepted frame carries the protocol version, a
    known kind, and fields, strings and counts within the protocol's limits, so
    the message can be sent on; everything else is refused. *)
Theorem decode_valid body m (Ho : Forall is_u8 body) (Hd : decode_frame body = Ok m) :
  message_fits m ∧
  ∃ payload, body = kProtocolVersion :: to_int (ms_kind m) :: payload.
Proof.
  unfold decode_frame in Hd. destruct body as [|v [|k payload]]; [done..|].
  case_if_in Hd; [done|]. unfold decode_body in Hd. case_if_in Hd; [done|].
  destruct (dec_payload _ _ _) as [[m' rest]|] eqn:Ep; [|done]. injection Hd as <-.
  rewrite !Forall_cons in Ho. destruct Ho as (_ & _ & Hpl).
  destruct (yields_message _ _ _ _ Hpl Ep) as [[Hkind Hfits] _].
  split; [done|]. exists payload. rewrite Hkind, to_of_int. congruence.
Qed.

(** The failure code of a member result does not survive: 403 becomes 147. *)
Example failure_code_truncated :
  mr_failure_code (wire_mres (MemberResult_default <| mr_failure_code := ErrorCode_executor_failure |>))
  = ErrorCode_raw 147.
Proof. vm_compute. reflexivity. Qed.
