(* ===== verification/Network.v ===== *)
(** * Sockets and framing ([network.hpp], [network.cpp])

    [send_all] and [recv_exact] loop over system calls that may move fewer
    octets than asked; [send_frame] and [recv_frame] put the length prefix
    around a body.  The system calls are a parameter, one direction of a
    connection; what a stream socket documents about them is [StreamLaws]. *)

From S2P Require Import Prelude Float Types Compat Bytes Exec Observability SchedState SchedOps Protocol ProtocolProps.

(** ** System calls *)

(** [::send]: an error, or the number of octets accepted. *)
Inductive SendOutcome := SendError | Sent (n : Z).
(** [::recv]: an error, or the octets received; none when the peer closed. *)
Inductive RecvOutcome := RecvError | Received (bytes : list Z).

Class Stream (conn : Type) := {
  os_send : conn → list Z → SendOutcome * conn;
  os_recv : conn → Z → RecvOutcome * conn
}.

(** ** The loops *)

Section socket.
Context {conn : Type} `{Stream conn}.

(** [while (off < n) { sent = ::send(data + off, n - off); ... }]; [data] is
    what is left to send.  Every round that goes on has sent at least one
    octet, so the length of the data bounds the rounds. *)
Fixpoint send_loop (fuel : nat) (c : conn) (data : list Z) : Result unit * conn :=
  match data with
  | [] => (Ok tt, c)
  | _ :: _ =>
      match fuel with
      | O => (err ErrorCode_io_failure "out of fuel", c)
      | S fuel =>
          match os_send c data with
          | (SendError, c) => (err ErrorCode_io_failure "socket send failed", c)
          | (Sent sent, c) =>
              if sent =? 0 then (err ErrorCode_io_failure "socket closed during send", c)
              else send_loop fuel c (drop (Z.to_nat sent) data)
          end
      end
  end.

Definition send_all (c : conn) (data : list Z) : Result unit * conn :=
  send_loop (length data) c data.

(** [while (off < n) { r = ::recv(data + off, n - off); ... }]; [got] is what
    was received so far. *)
Fixpoint recv_loop (fuel : nat) (c : conn) (n : Z) (got : list Z) : Result (list Z) * conn :=
  if n <=? Z.of_nat (length got) then (Ok got, c)
  else
    match fuel with
    | O => (err ErrorCode_io_failure "out of fuel", c)
    | S fuel =>
        match os_recv c (n - Z.of_nat (length got)) with
        | (RecvError, c) => (err ErrorCode_io_failure "socket recv failed", c)
        | (Received [], c) => (err ErrorCode_io_failure "peer closed the connection", c)
        | (Received bytes, c) => recv_loop fuel c n (got ++ bytes)
        end
    end.

Definition recv_exact (c : conn) (n : Z) : Result (list Z) * conn :=
  recv_loop (Z.to_nat n) c n [].

(** ** Frames *)

Definition frame_limit : Z := 64 * 1024 * 1024.

(** The four octets of the length prefix, little-endian. *)
Definition frame_header (len : Z) : list Z :=
  [Z.land len 0xff; Z.land (Z.shiftr len 8) 0xff; Z.land (Z.shiftr len 16) 0xff;
   Z.land (Z.shiftr len 24) 0xff].

Definition send_frame (c : conn) (body : list Z) : Result unit * conn :=
  let n := Z.of_nat (length body) in
  if frame_limit <? n then (err ErrorCode_oversized_frame "frame too large", c)
  else
    match send_all c (frame_header (u32 n)) with
    | (Err e, c) => (Err e, c)
    | (Ok _, c) => send_all c body
    end.

Definition recv_frame (c : conn) : Result (list Z) * conn :=
  match recv_exact c 4 with
  | (Err e, c) => (Err e, c)
  | (Ok hdr, c) =>
      let len := le_value hdr in
      if frame_limit <? len then (err ErrorCode_oversized_frame "incoming frame too large", c)
      else if len <? 2 then
        (err ErrorCode_malformed_frame "frame too short (zero or one byte)", c)
      else recv_exact c len
  end.
End socket.

(** ** What a stream socket documents *)

(** [in_transit c]: the octets sent and not yet received, in order. *)
Class StreamLaws (conn : Type) `{Stream conn} := {
  in_transit : conn → list Z;
  os_send_accepts : ∀ c data n c', os_send c data = (Sent n, c') →
    0 <= n <= Z.of_nat (length data) ∧ in_transit c' = in_transit c ++ take (Z.to_nat n) data;
  os_recv_delivers : ∀ c n bytes c', 0 < n → os_recv c n = (Received bytes, c') →
    Z.of_nat (length bytes) <= n ∧ in_transit c = bytes ++ in_transit c' ∧
    (bytes = [] → in_transit c = [])
}.

(** No system call fails while octets are in transit. *)
Definition faultless (conn : Type) `{StreamLaws conn} : Prop :=
  ∀ c n, 0 < n → in_transit c ≠ [] → (os_recv c n).1 ≠ RecvError.

(** A connection that accepts and delivers a few octets per call. *)
Record Pipe := mkPipe { pp_octets : list Z; pp_piece : Z }.
#[global] Instance pipe_stream : Stream Pipe := {
  os_send c data :=
    let n := Z.min (Z.max 1 (pp_piece c)) (Z.of_nat (length data)) in
    (Sent n, mkPipe (pp_octets c ++ take (Z.to_nat n) data) (pp_piece c));
  os_recv c n :=
    let k := Z.to_nat (Z.min (Z.max 1 (pp_piece c)) n) in
    (Received (take k (pp_octets c)), mkPipe (drop k (pp_octets c)) (pp_piece c))
}.
#[global] Program Instance pipe_laws : StreamLaws Pipe := { in_transit := pp_octets }.
Next Obligation. intros c data n c' [= <- <-]. simpl. split; [lia|done]. Qed.
Next Obligation.
  intros c n bytes c' Hn [= <- <-]. simpl. split_and!.
  - rewrite length_take. lia.
  - by rewrite take_drop.
  - intros E. apply (f_equal length) in E. rewrite length_take in E. simpl in E.
    destruct (pp_octets c); [done|]. simpl in E. lia.
Qed.

Section laws.
Context {conn : Type} `{SL : StreamLaws conn}.

Lemma send_loop_sends fuel c data c' :
  send_loop fuel c data = (Ok tt, c') → in_transit c' = in_transit c ++ data.
Proof.
  revert c data. induction fuel as [|fuel IH]; intros c data; destruct data as [|b data];
    cbn [send_loop]; try done.
  1,2: intros [= <-]; by rewrite app_nil_r.
  destruct (os_send c (b :: data)) as [[|n] c1] eqn:E; [done|].
  case_if; [done|]. intros Hs. apply os_send_accepts in E as [Hn Ht].
  rewrite (IH _ _ Hs), Ht, <- app_assoc, take_drop. done.
Qed.

(** Either all octets arrive in order or the connection failed. *)
Lemma recv_loop_receives fuel c n got want rest :
  in_transit c = want ++ rest → Z.of_nat (length got + length want) = n →
  (length want <= fuel)%nat →
  match recv_loop fuel c n got with
  | (Ok bytes, c') => bytes = got ++ want ∧ in_transit c' = rest
  | (Err e, _) => ei_code e = ErrorCode_io_failure ∧ ~ faultless conn
  end.
Proof.
  revert c got want. induction fuel as [|fuel IH]; intros c got want Ht Hn Hf; cbn [recv_loop].
  { assert (want = []) as -> by (destruct want; [done|simpl in Hf; lia]).
    rewrite (proj2 (Z.leb_le _ _)) by (simpl in Hn; lia). by rewrite app_nil_r. }
  case_if.
  { assert (want = []) as -> by (destruct want; [done|simpl in Hn; lia]). by rewrite app_nil_r. }
  assert (want ≠ []) as Hw by (intros ->; simpl in Hn; lia).
  assert (in_transit c ≠ []) as Hne by (rewrite Ht; destruct want; done).
  destruct (os_recv c (n - Z.of_nat (length got))) as [[|bytes] c1] eqn:Er.
  { split; [done|]. intros Hfl. apply (Hfl c (n - Z.of_nat (length got))); [lia|done|].
    by rewrite Er. }
  apply os_recv_delivers in Er as (Hb & Ht' & Hnil); [|lia].
  destruct bytes as [|b bytes]; [by specialize (Hnil eq_refl)|]. remember (b :: bytes) as bs eqn:Ebs.
  assert (length bs <= length want)%nat as Hle by lia.
  assert (bs ++ drop (length bs) want = want) as Hsplit.
  { rewrite Ht in Ht'. rewrite <- (take_drop (length bs) want) at 2. f_equal.
    apply (f_equal (take (length bs))) in Ht'. rewrite take_app_le, take_app_length in Ht' by lia. done. }
  specialize (IH c1 (got ++ bs) (drop (length bs) want)).
  rewrite <- app_assoc, Hsplit in IH. apply IH.
  - apply (app_inv_head bs). rewrite app_assoc, Hsplit, <- Ht. done.
  - rewrite length_app, length_drop. lia.
  - rewrite length_drop. subst bs. simpl. lia.
Qed.

Lemma recv_exact_receives c want rest :
  in_transit c = want ++ rest →
  match recv_exact c (Z.of_nat (length want)) with
  | (Ok bytes, c') => bytes = want ∧ in_transit c' = rest
  | (Err e, _) => ei_code e = ErrorCode_io_failure ∧ ~ faultless conn
  end.
Proof.
  intros Ht. unfold recv_exact. apply (recv_loop_receives _ c _ [] want rest Ht); simpl; lia.
Qed.

(** The loops end within their fuel. *)
Lemma send_loop_fuel fuel c data :
  (length data <= fuel)%nat →
  (send_loop fuel c data).1 ≠ err ErrorCode_io_failure "out of fuel".
Proof using All.
  revert c data. induction fuel as [|fuel IH]; intros c data Hf; destruct data as [|b data];
    cbn [send_loop]; try done.
  { simpl in Hf. lia. }
  destruct (os_send c (b :: data)) as [[|n] c1] eqn:E; [done|]. case_if; [done|].
  apply os_send_accepts in E as [Hn _]. apply IH. rewrite length_drop. simpl in *. lia.
Qed.

Lemma recv_loop_fuel fuel c n got :
  n - Z.of_nat (length got) <= Z.of_nat fuel →
  (recv_loop fuel c n got).1 ≠ err ErrorCode_io_failure "out of fuel".
Proof.
  revert c got. induction fuel as [|fuel IH]; intros c got Hf; cbn [recv_loop]; (case_if; [done|]).
  { lia. }
  destruct (os_recv c _) as [[|[|b bytes]] c1] eqn:Er; [done..|].
  apply IH. rewrite length_app. simpl. lia.
Qed.

(** C20: the transfer loops terminate: whatever the system calls move, [send_all]
    and [recv_exact] end after at most one round per octet, with the octets
    transferred or an error of the connection. *)
Theorem transfer_terminates (c : conn) data n (Hn : 0 <= n) :
  (send_all c data).1 ≠ err ErrorCode_io_failure "out of fuel" ∧
  (recv_exact c n).1 ≠ err ErrorCode_io_failure "out of fuel".
Proof using All.
  split; [by apply send_loop_fuel|]. apply recv_loop_fuel. simpl. lia.
Qed.

Lemma frame_header_bytes n : frame_header n = le_bytes 4 n.
Proof. unfold frame_header. cbn [le_bytes]. by rewrite !Z.shiftr_shiftr. Qed.

Lemma send_frame_sends c body c' :
  send_frame c body = (Ok tt, c') →
  Z.of_nat (length body) <= frame_limit ∧
  in_transit c' = in_transit c ++ le_bytes 4 (Z.of_nat (length body)) ++ body.
Proof.
  unfold send_frame. case_if; [done|]. intros Hs. split; [done|].
  rewrite u32_small in Hs by (unfold is_u32, frame_limit in *; lia).
  destruct (send_all c _) as [[[]|] c1] eqn:E1; [|done].
  apply send_loop_sends in E1. apply send_loop_sends in Hs.
  by rewrite Hs, E1, frame_header_bytes, <- app_assoc.
Qed.

Lemma recv_frame_receives c body rest :
  2 <= Z.of_nat (length body) <= frame_limit →
  in_transit c = le_bytes 4 (Z.of_nat (length body)) ++ body ++ rest →
  match recv_frame c with
  | (Ok bytes, c') => bytes = body ∧ in_transit c' = rest
  | (Err e, _) => ei_code e = ErrorCode_io_failure ∧ ~ faultless conn
  end.
Proof.
  intros Hb Ht. unfold recv_frame.
  pose proof (recv_exact_receives c _ _ Ht) as Hh. rewrite le_bytes_length in Hh.
  change (Z.of_nat 4) with 4 in Hh. destruct (recv_exact c 4) as [[hdr|] c1]; [|done].
  destruct Hh as [-> Ht1]. unfold frame_limit in *.
  rewrite le_value_bytes, Z.mod_small by (simpl; lia). cbv zeta.
  rewrite (proj2 (Z.ltb_ge _ _)), (proj2 (Z.ltb_ge _ _)) by lia.
  by apply recv_exact_receives.
Qed.
End laws.

(** ** Messages over a connection *)

Section messages.
Context {conn : Type} `{Stream conn}.

(** [encode_frame] and [send_frame], as every sender calls them. *)
Definition send_message (c : conn) (m : Message) : Result unit * conn :=
  match encode_frame m with
  | Err e => (Err e, c)
  | Ok body => send_frame c body
  end.

(** [recv_frame] and [decode_frame], as every receiver calls them. *)
Definition recv_message (c : conn) : Result Message * conn :=
  match recv_frame c with
  | (Err e, c) => (Err e, c)
  | (Ok body, c) => (decode_frame body, c)
  end.

Fixpoint send_messages (c : conn) (ms : list Message) : Result unit * conn :=
  match ms with
  | [] => (Ok tt, c)
  | m :: ms =>
      match send_message c m with
      | (Err e, c) => (Err e, c)
      | (Ok _, c) => send_messages c ms
      end
  end.

Fixpoint recv_messages (n : nat) (c : conn) : Result (list Message) * conn :=
  match n with
  | O => (Ok [], c)
  | S n =>
      match recv_message c with
      | (Err e, c) => (Err e, c)
      | (Ok m, c) =>
          match recv_messages n c with
          | (Err e, c) => (Err e, c)
          | (Ok ms, c) => (Ok (m :: ms), c)
          end
      end
  end.
End messages.

Section delivery.
Context {conn : Type} `{SL : StreamLaws conn}.

(** The octets of a message in its frame. *)
Definition frame_of (m : Message) (bs : list Z) : Prop :=
  ∃ body, encode_frame m = Ok body ∧ 2 <= Z.of_nat (length body) <= frame_limit ∧
          bs = le_bytes 4 (Z.of_nat (length body)) ++ body.

Lemma send_messages_sends ms c c' :
  Forall message_fits ms → send_messages c ms = (Ok tt, c') →
  ∃ frames, Forall2 frame_of ms frames ∧ in_transit c' = in_transit c ++ concat frames.
Proof.
  intros Hms. revert c. induction Hms as [|m ms Hm Hms IH]; intros c Hs; cbn [send_messages] in Hs.
  { injection Hs as <-. exists []. split; [constructor|]. simpl. by rewrite app_nil_r. }
  destruct (send_message c m) as [[[]|] c1] eqn:E1; [|done]. unfold send_message in E1.
  destruct (encode_frame m) as [body|] eqn:Eb; [|done]. apply send_frame_sends in E1 as [Hl Ht].
  destruct (IH c1 Hs) as (frames & Hfr & Ht'). eexists (_ :: frames). split.
  - constructor; [|exact Hfr]. exists body. split_and!; [done| |done|done].
    destruct (encode_shape m Hm) as (pl & _ & Eb' & _).
    assert (body = kProtocolVersion :: to_int (ms_kind m) :: pl) as -> by congruence. simpl. lia.
  - rewrite Ht', Ht. cbn [concat]. by rewrite <- !app_assoc.
Qed.

Lemma recv_messages_receives ms frames c rest :
  Forall message_fits ms → Forall2 frame_of ms frames → in_transit c = concat frames ++ rest →
  match recv_messages (length ms) c with
  | (Ok ms', c') => ms' = (transmitted <$> ms) ∧ in_transit c' = rest
  | (Err e, _) => ei_code e = ErrorCode_io_failure ∧ ~ faultless conn
  end.
Proof.
  intros Hms Hfr. revert c. induction Hfr as [|m fr ms frames Hm Hfr IH]; intros c Ht; [done|].
  inversion Hms as [|? ? Hfits Hms']; subst. cbn [length recv_messages]. unfold recv_message.
  destruct Hm as (body & Eb & Hlen & ->). cbn [concat] in Ht. rewrite <- !app_assoc in Ht.
  pose proof (recv_frame_receives c body _ Hlen Ht) as Hr.
  destruct (recv_frame c) as [[bytes|] c1]; [|done]. destruct Hr as [-> Ht1].
  destruct (frame_roundtrip_body m [] Hfits) as (body' & Eb' & Hd). rewrite app_nil_r in Hd.
  assert (body' = body) as -> by congruence. rewrite Hd.
  specialize (IH Hms' c1 Ht1). destruct (recv_messages (length ms) c1) as [[ms'|] c2]; [|done].
  destruct IH as [-> ?]. done.
Qed.

(** One frame over an idle connection is the body of the message sent. *)
Lemma frame_delivered m (c c1 c2 : conn) f :
  message_fits m → in_transit c = [] → send_message c m = (Ok tt, c1) →
  recv_frame c1 = (Ok f, c2) →
  encode_frame m = Ok f ∧ Z.of_nat (length f) <= frame_limit ∧ decode_frame f = Ok (transmitted m).
Proof.
  intros Hm Hidle Hs Hr.
  destruct (send_messages_sends [m] c c1) as (frames & Hfr & Ht); [by repeat constructor| |].
  { cbn [send_messages]. by rewrite Hs. }
  inversion Hfr as [|? fr ? ? (body & Eb & Hlen & ->) Hnil]; subst. inversion Hnil; subst.
  rewrite Hidle in Ht. cbn [concat app] in Ht. rewrite <- app_assoc in Ht.
  pose proof (recv_frame_receives c1 body _ Hlen Ht) as Hrf. rewrite Hr in Hrf.
  destruct Hrf as [-> _]. split; [done|]. split; [lia|].
  destruct (frame_roundtrip_body m [] Hm) as (body' & Eb' & Hd). rewrite app_nil_r in Hd. congruence.
Qed.

(** A body over the frame limit is refused before anything is sent. *)
Lemma oversized_refused m (c : conn) body :
  encode_frame m = Ok body → frame_limit < Z.of_nat (length body) →
  send_message c m = (err ErrorCode_oversized_frame "frame too large", c).
Proof using All.
  intros Eb Hl. unfold send_message, send_frame. rewrite Eb. by rewrite (proj2 (Z.ltb_lt _ _) Hl).
Qed.

(** C19: end-to-end delivery: messages that one side sent over an idle connection
    are what the other side receives, in order and nothing else, however the
    system splits the octets; otherwise the connection failed and the receiver
    sees an I/O error, which cannot happen if no system call fails. *)
Theorem messages_delivered ms (c c1 : conn)
    (Hms : Forall message_fits ms) (Hidle : in_transit c = [])
    (Hs : send_messages c ms = (Ok tt, c1)) :
  match recv_messages (length ms) c1 with
  | (Ok ms', c2) => ms' = (transmitted <$> ms) ∧ in_transit c2 = []
  | (Err e, _) => ei_code e = ErrorCode_io_failure ∧ ~ faultless conn
  end.
Proof.
  destruct (send_messages_sends ms c c1 Hms Hs) as (frames & Hfr & Ht).
  eapply recv_messages_receives; [done..|]. by rewrite Ht, Hidle, app_nil_r.
Qed.
End delivery.
