(* ===== verification/RemoteWorker.v ===== *)
(** * Worker and client processes ([worker.cpp], [client.cpp])

    The worker's token slices, its handling of one frame and its loop; the
    client's request-reply calls over a connection. *)

From S2P Require Import Prelude Float Types Request Compat Bytes Exec Observability SchedState SchedOps Protocol Network.

(** ** Token slices of a dispatch frame *)

Record Slice := mkSlice { sl_base : Z; sl_data : list Z }.

Definition dispatch_resolve (slices : gmap Z Slice) (r : RequestId) (a : AttemptId)
    (g : Generation) (offset count : Z) : Result (list Z) :=
  match slices !! r with
  | None => err ErrorCode_unknown_request "no dispatch slice"
  | Some s =>
      if (offset <? sl_base s)
         || (sl_base s +u Z.of_nat (length (sl_data s)) <? offset +u count) then
        err ErrorCode_out_of_range "dispatch slice range"
      else Ok (drop (Z.to_nat (offset - sl_base s)) (sl_data s))
  end.

Definition DispatchResolver (slices : gmap Z Slice) : TokenResolver :=
  mkTokenResolver (dispatch_resolve slices).

(** [slice.data.assign(tokens + begin, tokens + end)]. *)
Definition token_range (tokens : list Z) (begin_ end_ : Z) : list Z :=
  take (Z.to_nat (end_ - begin_)) (drop (Z.to_nat begin_) tokens).

(** One round of the loop over the members; [i] is the member's position. *)
Definition add_slice (offs tokens : list Z) (slices : gmap Z Slice)
    (im : nat * ExecutableMember) : gmap Z Slice :=
  let '(i, mem) := im in
  match offs !! i, offs !! S i with
  | Some begin_, Some end_ =>
      if Z.of_nat (length tokens) <? end_ then slices
      else <[em_request_id mem := mkSlice (em_token_start mem) (token_range tokens begin_ end_)]>
             slices
  | _, _ => slices
  end.

Definition build_slices (m : Message) : gmap Z Slice :=
  foldl (add_slice (ms_member_token_offsets m) (ms_member_tokens m)) ∅
    (imap pair (eg_members (ms_group m))).

(** ** The worker *)

Record WorkerProc := mkWorkerProc {
  wp_id : WorkerId;
  wp_host : string;
  wp_exec : Executor;
  wp_backend : string;
  wp_boot_id : WorkerBootId
}.

Definition register_message (w : WorkerProc) : Message :=
  Message_default
    <| ms_kind := MsgKind_worker_register |>
    <| ms_worker := WorkerDescriptor_default
         <| wd_worker_id := wp_id w |> <| wd_boot_id := wp_boot_id w |>
         <| wd_host := wp_host w |> <| wd_backend := wp_backend w |>
         <| wd_state := WorkerState_ready |> <| wd_capacity_units := 1 |> |>.

(** [mr.epoch = m.epoch; mr.worker = id_; mr.boot = boot_id_;] *)
Definition worker_stamp (w : WorkerProc) (epoch : Epoch) (mr : MemberResult) : MemberResult :=
  mr <| mr_epoch := epoch |> <| mr_worker := wp_id w |> <| mr_boot := wp_boot_id w |>.

(** The result of a member when the executor failed as a whole. *)
Definition worker_failure (e : ErrorInfo) (mem : ExecutableMember) : MemberResult :=
  MemberResult_default
    <| mr_request_id := em_request_id mem |> <| mr_attempt_id := em_attempt_id mem |>
    <| mr_generation := em_generation mem |>
    <| mr_outcome := MemberOutcome_retryable_failure |>
    <| mr_failure_code := ei_code e |> <| mr_message := ei_message e |>.

Definition worker_dispatch (w : WorkerProc) (m : Message) : Message :=
  let results :=
    match ex_execute (wp_exec w) (ms_group m) (DispatchResolver (build_slices m)) with
    | Ok er => er_members er
    | Err e => worker_failure e <$> eg_members (ms_group m)
    end in
  Message_default <| ms_kind := MsgKind_completion |>
    <| ms_member_results := worker_stamp w (ms_epoch m) <$> results |>.

Definition kind_message (k : MsgKind) : Message := Message_default <| ms_kind := k |>.

(** The loop of [Worker::run]: each round sees the shutdown flag and the result
    of [recv_frame]; the result is what was sent and what [run] returned. *)
Fixpoint worker_loop (w : WorkerProc) (rounds : list (bool * Result (list Z)))
    : list Message * Result unit :=
  match rounds with
  | [] => ([], err ErrorCode_io_failure "coordinator closed connection")
  | (true, _) :: _ => ([], Ok tt)
  | (false, Err _) :: _ => ([], err ErrorCode_io_failure "coordinator closed connection")
  | (false, Ok body) :: rounds =>
      match decode_frame body with
      | Err _ => worker_loop w rounds
      | Ok m =>
          match ms_kind m with
          | MsgKind_dispatch =>
              let '(out, res) := worker_loop w rounds in (worker_dispatch w m :: out, res)
          | MsgKind_shutdown => ([kind_message MsgKind_shutdown_ack], Ok tt)
          | _ => worker_loop w rounds
          end
      end
  end.

(** ** The client *)

Section client.
Context {conn : Type} `{Stream conn}.

(** [Result::err(e)] with an error a peer sent: with the code [ok] it is a
    default value. *)
Definition wire_err {A} (d : A) (e : ErrorInfo) : Result A :=
  if bool_decide (ei_code e = ErrorCode_ok) then Ok d else Err e.

(** [Client::roundtrip] over the request direction [c] and the reply direction
    [d] of the connection; [connected] is [sock_.valid()]. *)
Definition client_roundtrip (connected : bool) (c d : conn) (msg : Message) (expect : MsgKind)
    : Result Message * conn * conn :=
  if negb connected then (err ErrorCode_io_failure "client not connected", c, d)
  else match send_message c msg with
  | (Err e, c) => (Err e, c, d)
  | (Ok _, c) =>
      match recv_message d with
      | (Err e, d) => (Err e, c, d)
      | (Ok dm, d) =>
          if bool_decide (ms_kind dm = MsgKind_error) then (wire_err Message_default (ms_error dm), c, d)
          else if negb (bool_decide (ms_kind dm = expect)) then
            (err ErrorCode_protocol_violation "unexpected reply kind", c, d)
          else (Ok dm, c, d)
      end
  end.

Definition client_submit (connected : bool) (c d : conn) (req : PrefillRequest) (tokens : list Z)
    : Result RequestId * conn * conn :=
  match client_roundtrip connected c d
          (kind_message MsgKind_submit <| ms_request := req |> <| ms_tokens := tokens |>)
          MsgKind_submit_ack with
  | (Err e, c, d) => (Err e, c, d)
  | (Ok r, c, d) =>
      if negb (ms_accepted r) then (wire_err 0 (ms_error r), c, d) else (Ok (ms_request_id r), c, d)
  end.

Definition client_cancel (connected : bool) (c d : conn) (req : RequestId)
    : Result CancelResult * conn * conn :=
  match client_roundtrip connected c d (kind_message MsgKind_cancel <| ms_request_id := req |>)
          MsgKind_cancel_ack with
  | (Err e, c, d) => (Err e, c, d)
  | (Ok r, c, d) => (Ok (ms_cancel_result r), c, d)
  end.

Definition client_query_state (connected : bool) (c d : conn) : Result Message * conn * conn :=
  client_roundtrip connected c d (kind_message MsgKind_query_state) MsgKind_state.

Definition client_query_explain (connected : bool) (c d : conn) (req : RequestId)
    : Result Message * conn * conn :=
  client_roundtrip connected c d (kind_message MsgKind_query_explain <| ms_request_id := req |>)
    MsgKind_explain_resp.

Definition client_query_stats (connected : bool) (c d : conn) : Result Stats * conn * conn :=
  match client_roundtrip connected c d (kind_message MsgKind_query_stats) MsgKind_stats_resp with
  | (Err e, c, d) => (Err e, c, d)
  | (Ok r, c, d) => (Ok (ms_stats r), c, d)
  end.

Definition client_roll_epoch (connected : bool) (c d : conn) : Result Epoch * conn * conn :=
  match client_roundtrip connected c d (kind_message MsgKind_roll_epoch) MsgKind_state with
  | (Err e, c, d) => (Err e, c, d)
  | (Ok r, c, d) => (Ok (ms_epoch r), c, d)
  end.

Definition client_shutdown (connected : bool) (c d : conn) : Result unit * conn * conn :=
  match client_roundtrip connected c d (kind_message MsgKind_shutdown) MsgKind_shutdown_ack with
  | (Err e, c, d) => (Err e, c, d)
  | (Ok _, c, d) => (Ok tt, c, d)
  end.
End client.

(** ** Connecting *)

(** [Socket::connect]: an error, or the two directions of the connection. *)
Class Dialer (conn : Type) := dial : string → Z → Result (conn * conn).

Section connect.
Context {conn : Type} `{Stream conn} `{Dialer conn}.

(** [Client::connect]: the result, and the socket the client then holds. *)
Definition client_connect (host : string) (port : Z) : Result unit * option (conn * conn) :=
  match dial host port with
  | Err e => (Err e, None)
  | Ok (c, d) => let '(r, c) := send_message c (kind_message MsgKind_hello) in (r, Some (c, d))
  end.

(** [Worker::Worker]; [now] is the count of the high-resolution clock. *)
Definition Worker_new (id : WorkerId) (host : string) (ex : Executor) (backend : string) (now : Z)
    : WorkerProc :=
  mkWorkerProc id host ex backend (Z.lxor 0x9E3779B97F4A7C15 (u64 now)).

(** The results of [recv_frame] in the rounds of the loop; [stops] are the
    values of the shutdown flag at its head. *)
Fixpoint recv_rounds (stops : list bool) (d : conn) : list (bool * Result (list Z)) :=
  match stops with
  | [] => []
  | stop :: stops => let '(r, d) := recv_frame d in (stop, r) :: recv_rounds stops d
  end.

(** [Worker::run]: connect, register, read the acknowledgement, then the loop;
    the messages sent after the registration and the result. *)
Definition worker_run (w : WorkerProc) (port : Z) (stops : list bool) : list Message * Result unit :=
  match dial (wp_host w) port with
  | Err e => ([], Err e)
  | Ok (c, d) =>
      match send_message c (register_message w) with
      | (Err e, _) => ([], Err e)
      | (Ok _, _) =>
          match recv_message d with
          | (Err e, _) => ([], Err e)
          | (Ok ack, d) => worker_loop w (recv_rounds stops d)
          end
      end
  end.
End connect.
