(* ===== verification/Sockets.v ===== *)
(** * Socket objects ([network.hpp], [network.cpp])

    [Socket] and [Listener] own a descriptor of the operating system: they
    acquire it, hand it over by move and close it.  The system calls are a
    parameter, a class of state-passing calls; what the code relies on is
    [SocketLaws].  The objects of a process are a table from object to
    descriptor, and a step relation lets them be created, moved, assigned,
    closed and destroyed in any order. *)

From stdpp Require Import functions.
From S2P Require Import Prelude Types.

(** The value of [INVALID_SOCKET] and [INADDR_NONE] on POSIX systems. *)
Definition INVALID_SOCKET : Z := -1.
Definition INADDR_NONE : Z := 0xFFFFFFFF.
Definition INADDR_LOOPBACK : Z := 0x7F000001.

(** [so_open] is the set of descriptors the process has open and
    [so_bad_closes] the number of times it closed a descriptor that was not open;
    the calls return [INVALID_SOCKET] or [false] for a failure.  The result of a
    close is ignored by the code.  Addresses and ports are in host order. *)
Class SocketApi (os : Type) := {
  so_socket : os → Z * os;
  so_close : Z → os → os;
  so_inet_addr : string → Z;
  so_gethostbyname : string → os → option Z * os;
  so_connect : Z → Z → Z → os → bool * os;
  so_setsockopt : Z → os → os;
  so_bind : Z → Z → Z → os → bool * os;
  so_getsockname : Z → os → Z * os;
  so_listen : Z → os → bool * os;
  so_accept : Z → os → Z * os;
  so_open : os → gset Z;
  so_bad_closes : os → nat
}.

(** What is observed of the system. *)
Definition view `{SocketApi os} (o : os) : gset Z * nat := (so_open o, so_bad_closes o).

(** A call that yields a descriptor yields one that is not open, or none. *)
Definition opens `{SocketApi os} (o : os) (r : Z * os) : Prop :=
  if r.1 =? INVALID_SOCKET then view r.2 = view o
  else (r.1 ∉ so_open o) ∧ view r.2 = ({[r.1]} ∪ so_open o, so_bad_closes o).

(** A close of an open descriptor releases it, also when it reports an error (as
    [close(2)] of Linux documents); a close of another one only counts. *)
Class SocketLaws (os : Type) `{SocketApi os} : Prop := {
  socket_opens o : opens o (so_socket o);
  accept_opens fd o : opens o (so_accept fd o);
  close_closes fd o : fd ∈ so_open o →
    view (so_close fd o) = (so_open o ∖ {[fd]}, so_bad_closes o);
  close_bad fd o : fd ∉ so_open o → view (so_close fd o) = (so_open o, S (so_bad_closes o));
  gethostbyname_keeps h o : view (so_gethostbyname h o).2 = view o;
  connect_keeps fd a p o : view (so_connect fd a p o).2 = view o;
  setsockopt_keeps fd o : view (so_setsockopt fd o) = view o;
  bind_keeps fd a p o : view (so_bind fd a p o).2 = view o;
  getsockname_keeps fd o : view (so_getsockname fd o).2 = view o;
  listen_keeps fd o : view (so_listen fd o).2 = view o
}.

Section calls.
Context {os : Type} `{SocketApi os}.

(** ** Acquiring a descriptor *)

(** The address of a host: [inet_addr], then [gethostbyname]. *)
Definition resolve_host (host : string) (o : os) : option Z * os :=
  let addr := so_inet_addr host in
  if addr =? INADDR_NONE then so_gethostbyname host o else (Some addr, o).

Definition Socket_connect (host : string) (port : Z) (o : os) : Result Z * os :=
  let '(s, o) := so_socket o in
  if s =? INVALID_SOCKET then (err ErrorCode_io_failure "socket() failed", o)
  else
    match resolve_host host o with
    | (None, o) => (err ErrorCode_io_failure "bad host", so_close s o)
    | (Some addr, o) =>
        match so_connect s addr port o with
        | (false, o) => (err ErrorCode_io_failure "connect failed", so_close s o)
        | (true, o) => (Ok s, o)
        end
    end.

Record Listener := mkListener { ln_s : Z; ln_port : Z }.
Definition Listener_new (port : Z) : Listener := mkListener INVALID_SOCKET port.

Definition Listener_start (l : Listener) (o : os) : Result unit * Listener * os :=
  let '(s, o) := so_socket o in
  if s =? INVALID_SOCKET then (err ErrorCode_io_failure "socket() failed", l, o)
  else
    let o := so_setsockopt s o in
    match so_bind s INADDR_LOOPBACK (ln_port l) o with
    | (false, o) => (err ErrorCode_io_failure "bind failed", l, so_close s o)
    | (true, o) =>
        let '(port, o) := so_getsockname s o in
        let l := mkListener (ln_s l) port in
        match so_listen s o with
        | (false, o) => (err ErrorCode_io_failure "listen failed", l, so_close s o)
        | (true, o) => (Ok tt, mkListener s port, o)
        end
    end.

Definition Listener_accept (l : Listener) (o : os) : Result Z * os :=
  if ln_s l =? INVALID_SOCKET then (err ErrorCode_io_failure "listener not started", o)
  else
    let '(c, o) := so_accept (ln_s l) o in
    if c =? INVALID_SOCKET then (err ErrorCode_io_failure "accept failed", o) else (Ok c, o).

(** [close] of both classes: the descriptor the object is left with. *)
Definition close_fd (s : Z) (o : os) : Z * os :=
  if s =? INVALID_SOCKET then (s, o) else (INVALID_SOCKET, so_close s o).

(** ** The objects of a process *)

(** Live [Socket] objects with their [s_], and the listener. *)
Record Proc := mkProc { pc_os : os; pc_socks : gmap Z Z; pc_listener : Listener }.

(** [Socket()], and [Socket(s)] for a descriptor a call has returned. *)
Definition sock_new (x s : Z) (p : Proc) : Proc :=
  mkProc (pc_os p) (<[x := s]> (pc_socks p)) (pc_listener p).

(** [Socket(Socket&& o)]. *)
Definition sock_move (x y : Z) (p : Proc) : Proc :=
  match pc_socks p !! y with
  | Some s => mkProc (pc_os p) (<[x := s]> (<[y := INVALID_SOCKET]> (pc_socks p))) (pc_listener p)
  | None => p
  end.

(** [close()] of object [x]. *)
Definition sock_close (x : Z) (p : Proc) : Proc :=
  match pc_socks p !! x with
  | Some s =>
      let '(s, o) := close_fd s (pc_os p) in
      mkProc o (<[x := s]> (pc_socks p)) (pc_listener p)
  | None => p
  end.

(** [x = std::move(y)]. *)
Definition sock_assign (x y : Z) (p : Proc) : Proc :=
  if x =? y then p
  else
    let p := sock_close x p in
    match pc_socks p !! y with
    | Some s => mkProc (pc_os p) (<[y := INVALID_SOCKET]> (<[x := s]> (pc_socks p))) (pc_listener p)
    | None => p
    end.

(** [~Socket()]. *)
Definition sock_destroy (x : Z) (p : Proc) : Proc :=
  let p := sock_close x p in mkProc (pc_os p) (delete x (pc_socks p)) (pc_listener p).

(** [Socket::connect] into object [x]: nothing is created on an error. *)
Definition proc_connect (x : Z) (host : string) (port : Z) (p : Proc) : Proc :=
  match Socket_connect host port (pc_os p) with
  | (Ok s, o) => sock_new x s (mkProc o (pc_socks p) (pc_listener p))
  | (Err _, o) => mkProc o (pc_socks p) (pc_listener p)
  end.

Definition proc_start (p : Proc) : Proc :=
  let '(_, l, o) := Listener_start (pc_listener p) (pc_os p) in mkProc o (pc_socks p) l.

Definition proc_accept (x : Z) (p : Proc) : Proc :=
  match Listener_accept (pc_listener p) (pc_os p) with
  | (Ok s, o) => sock_new x s (mkProc o (pc_socks p) (pc_listener p))
  | (Err _, o) => mkProc o (pc_socks p) (pc_listener p)
  end.

(** [close()] of the listener, also its destructor. *)
Definition proc_unlisten (p : Proc) : Proc :=
  let '(s, o) := close_fd (ln_s (pc_listener p)) (pc_os p) in
  mkProc o (pc_socks p) (mkListener s (ln_port (pc_listener p))).

(** The descriptor a [start] overwrites: a listener that is started again forgets
    the one it holds. *)
Definition overwritten (p : Proc) : gset Z :=
  if ln_s (pc_listener p) =? INVALID_SOCKET then ∅
  else match Listener_start (pc_listener p) (pc_os p) with
       | (Ok _, _, _) => {[ln_s (pc_listener p)]}
       | _ => ∅
       end.

(** Steps, with the descriptors they forget.  New objects are fresh. *)
Inductive pstep : Proc → gset Z → Proc → Prop :=
| pstep_new x p : pc_socks p !! x = None → pstep p ∅ (sock_new x INVALID_SOCKET p)
| pstep_move x y p : pc_socks p !! x = None → pstep p ∅ (sock_move x y p)
| pstep_assign x y p : is_Some (pc_socks p !! x) → is_Some (pc_socks p !! y) →
    pstep p ∅ (sock_assign x y p)
| pstep_close x p : pstep p ∅ (sock_close x p)
| pstep_destroy x p : pstep p ∅ (sock_destroy x p)
| pstep_connect x host port p : pc_socks p !! x = None → pstep p ∅ (proc_connect x host port p)
| pstep_start p : pstep p (overwritten p) (proc_start p)
| pstep_accept x p : pc_socks p !! x = None → pstep p ∅ (proc_accept x p)
| pstep_unlisten p : pstep p ∅ (proc_unlisten p).

(** A run, with all the descriptors forgotten. *)
Inductive pruns (p0 : Proc) : gset Z → Proc → Prop :=
| pruns_refl : pruns p0 ∅ p0
| pruns_step L p L' p' : pruns p0 L p → pstep p L' p' → pruns p0 (L' ∪ L) p'.

Definition Proc_init (o : os) (port : Z) : Proc := mkProc o ∅ (Listener_new port).
End calls.
Arguments Proc os : clear implicits.

(** ** Ownership *)

(** The descriptor of a socket object, or of the listener. *)
Definition slot {os} (p : Proc os) (k : option Z) : Z :=
  match k with
  | Some x => default INVALID_SOCKET (pc_socks p !! x)
  | None => ln_s (pc_listener p)
  end.

(** With [B] open before the objects existed, [op] is [B] and what the objects
    hold, and no descriptor is held twice. *)
Record owned (B op : gset Z) (h : option Z → Z) : Prop := {
  ow_open fd : fd ∈ op ↔ fd ∈ B ∨ ∃ k, h k = fd ∧ fd ≠ INVALID_SOCKET;
  ow_apart k : h k ≠ INVALID_SOCKET → h k ∉ B;
  ow_once k k' : h k = h k' → h k ≠ INVALID_SOCKET → k = k'
}.

Lemma owned_ext B op h h' : (∀ k, h' k = h k) → owned B op h → owned B op h'.
Proof.
  intros E [H1 H2 H3]. split.
  - intros fd. rewrite H1. by setoid_rewrite E.
  - intros k. rewrite E. apply H2.
  - intros k k'. rewrite !E. apply H3.
Qed.

Lemma owned_release B op h k :
  owned B op h → h k ≠ INVALID_SOCKET → owned B (op ∖ {[h k]}) (<[k := INVALID_SOCKET]> h).
Proof.
  intros [H1 H2 H3] Hk. split.
  - intros fd. rewrite elem_of_difference, elem_of_singleton, H1. split.
    + intros [[Hb|(k' & <- & Hne)] Hn]; [by left|right].
      exists k'. rewrite fn_lookup_insert_ne by congruence. done.
    + intros [Hb|(k' & Hk' & Hne)].
      * split; [by left|]. intros ->. by destruct (H2 k Hk).
      * destruct (decide (k = k')) as [<-|Hkk]; [by rewrite fn_lookup_insert in Hk'; subst|].
        rewrite fn_lookup_insert_ne in Hk' by done. split; [right; eauto|].
        intros ->. by apply Hkk, H3.
  - intros k'. destruct (decide (k = k')) as [<-|]; [by rewrite fn_lookup_insert|].
    rewrite fn_lookup_insert_ne by done. apply H2.
  - intros k1 k2.
    destruct (decide (k = k1)) as [<-|], (decide (k = k2)) as [<-|];
      rewrite ?fn_lookup_insert, ?fn_lookup_insert_ne by done; try done; [congruence..|apply H3].
Qed.

Lemma owned_acquire B op h k fd :
  owned B op h → h k = INVALID_SOCKET → fd ≠ INVALID_SOCKET → fd ∉ op →
  owned B ({[fd]} ∪ op) (<[k := fd]> h).
Proof.
  intros [H1 H2 H3] Hk Hi Hfd.
  assert (∀ k', h k' ≠ INVALID_SOCKET → h k' ≠ fd) as Hnew.
  { intros k' Hne E. apply Hfd, H1. right. exists k'. by rewrite <- E. }
  split.
  - intros fd'. rewrite elem_of_union, elem_of_singleton, H1. split.
    + intros [->|[Hb|(k' & <- & Hne)]]; [|by left|].
      * right. exists k. by rewrite fn_lookup_insert.
      * right. exists k'. rewrite fn_lookup_insert_ne by congruence. done.
    + intros [Hb|(k' & Hk' & Hne)]; [by auto|].
      destruct (decide (k = k')) as [<-|Hkk]; [rewrite fn_lookup_insert in Hk'; by left|].
      rewrite fn_lookup_insert_ne in Hk' by done. right. right. eauto.
  - intros k'. destruct (decide (k = k')) as [<-|]; [|rewrite fn_lookup_insert_ne by done; apply H2].
    rewrite fn_lookup_insert. intros _ Hb. apply Hfd, H1. by left.
  - intros k1 k2.
    destruct (decide (k = k1)) as [<-|], (decide (k = k2)) as [<-|];
      rewrite ?fn_lookup_insert, ?fn_lookup_insert_ne by done; try done.
    + intros E Hne. destruct (Hnew k2); congruence.
    + intros E Hne. by destruct (Hnew k1).
    + apply H3.
Qed.

Lemma owned_move B op h k k' :
  owned B op h → h k' = INVALID_SOCKET → k ≠ k' →
  owned B op (<[k' := h k]> (<[k := INVALID_SOCKET]> h)).
Proof.
  intros Ho Hk' Hne. destruct (decide (h k = INVALID_SOCKET)) as [Hk|Hk].
  { eapply owned_ext; [|exact Ho]. intros j.
    destruct (decide (k' = j)) as [<-|]; [rewrite fn_lookup_insert; congruence|].
    rewrite fn_lookup_insert_ne by done.
    destruct (decide (k = j)) as [<-|]; [by rewrite fn_lookup_insert|by rewrite fn_lookup_insert_ne]. }
  assert (h k ∈ op) as Hin by (apply (ow_open _ _ _ Ho); right; by exists k).
  assert (op = {[h k]} ∪ op ∖ {[h k]}) as -> by (apply union_difference_L; set_solver).
  apply owned_acquire; [by apply owned_release|by rewrite fn_lookup_insert_ne|done|set_solver].
Qed.

(** A descriptor that is forgotten counts as open from outside. *)
Lemma owned_forget B op h k :
  owned B op h → h k ≠ INVALID_SOCKET → owned ({[h k]} ∪ B) op (<[k := INVALID_SOCKET]> h).
Proof.
  intros [H1 H2 H3] Hk. split.
  - intros fd. rewrite elem_of_union, elem_of_singleton, H1. split.
    + intros [Hb|(k' & <- & Hne)]; [auto|]. destruct (decide (k = k')) as [<-|Hkk]; [auto|].
      right. exists k'. by rewrite fn_lookup_insert_ne.
    + intros [[->|Hb]|(k' & Hk' & Hne)]; [right; by exists k|auto|].
      destruct (decide (k = k')) as [<-|Hkk]; [by rewrite fn_lookup_insert in Hk'; subst|].
      rewrite fn_lookup_insert_ne in Hk' by done. eauto.
  - intros k'. destruct (decide (k = k')) as [<-|Hkk]; [by rewrite fn_lookup_insert|].
    rewrite fn_lookup_insert_ne by done. intros Hk' [E%elem_of_singleton|Hb]%elem_of_union.
    + by apply Hkk, H3.
    + by apply (H2 k').
  - intros k1 k2.
    destruct (decide (k = k1)) as [<-|], (decide (k = k2)) as [<-|];
      rewrite ?fn_lookup_insert, ?fn_lookup_insert_ne by done; try done; [congruence..|apply H3].
Qed.

(** ** Every step keeps the ownership *)

Section ownership.
Context {os : Type} `{SL : SocketLaws os}.
Implicit Types (p : Proc os) (o : os).

(** The objects of [p] own what is open besides [B], after [n] bad closes. *)
Definition proc_owned (B : gset Z) (n : nat) (p : Proc os) : Prop :=
  owned B (so_open (pc_os p)) (slot p) ∧ so_bad_closes (pc_os p) = n.

Lemma view_open o o' : view o' = view o → so_open o' = so_open o ∧ so_bad_closes o' = so_bad_closes o.
Proof. by intros [= -> ->]. Qed.

Lemma resolve_keeps host o : view (resolve_host host o).2 = view o.
Proof using SL. unfold resolve_host. cbv zeta. case_if; [apply gethostbyname_keeps|done]. Qed.

(** Descriptor [s] is open in addition. *)
Definition gained (o : os) (s : Z) (o' : os) : Prop :=
  s ≠ INVALID_SOCKET ∧ (s ∉ so_open o) ∧ view o' = ({[s]} ∪ so_open o, so_bad_closes o).

(** The descriptor just opened is closed again. *)
Lemma close_gained o s o' : (s ∉ so_open o) → view o' = ({[s]} ∪ so_open o, so_bad_closes o) →
  view (so_close s o') = view o.
Proof using SL.
  intros Hn [= E1 E2]. rewrite close_closes by (rewrite E1; set_solver). rewrite E1, E2.
  unfold view. f_equal. set_solver.
Qed.

(** A call that yields a descriptor leaves exactly that one open in addition;
    a call that fails leaves none. *)
Lemma connect_opens host port o :
  match Socket_connect host port o with
  | (Ok s, o') => gained o s o'
  | (Err _, o') => view o' = view o
  end.
Proof using SL.
  unfold Socket_connect. pose proof (socket_opens o) as Hs.
  destruct (so_socket o) as [s o1] eqn:Es. unfold opens in Hs. cbn [fst snd] in Hs.
  destruct (Z.eqb_spec s INVALID_SOCKET) as [->|Hne]; [done|]. destruct Hs as [Hn Hs].
  pose proof (resolve_keeps host o1) as Hr. destruct (resolve_host host o1) as [[addr|] o2];
    cbn [snd] in Hr; cycle 1.
  { apply close_gained; [done|]. congruence. }
  pose proof (connect_keeps s addr port o2) as Hc.
  destruct (so_connect s addr port o2) as [[] o3]; cbn [snd] in Hc.
  - split; [done|]. split; [done|]. congruence.
  - apply close_gained; [done|]. congruence.
Qed.

Lemma start_opens (l : Listener) o :
  match Listener_start l o with
  | (Ok _, l', o') => gained o (ln_s l') o'
  | (Err _, l', o') => ln_s l' = ln_s l ∧ view o' = view o
  end.
Proof using SL.
  unfold Listener_start. pose proof (socket_opens o) as Hs.
  destruct (so_socket o) as [s o1] eqn:Es. unfold opens in Hs. cbn [fst snd] in Hs.
  destruct (Z.eqb_spec s INVALID_SOCKET) as [->|Hne]; [done|]. destruct Hs as [Hn Hs]. cbv zeta.
  pose proof (setsockopt_keeps s o1) as Ho. set (o2 := so_setsockopt s o1) in *.
  pose proof (bind_keeps s INADDR_LOOPBACK (ln_port l) o2) as Hb.
  destruct (so_bind s INADDR_LOOPBACK (ln_port l) o2) as [[] o3]; cbn [snd] in Hb; cycle 1.
  { split; [done|]. apply close_gained; [done|]. congruence. }
  pose proof (getsockname_keeps s o3) as Hg. destruct (so_getsockname s o3) as [port o4].
  cbn [snd] in Hg. pose proof (listen_keeps s o4) as Hl.
  destruct (so_listen s o4) as [[] o5]; cbn [snd] in Hl.
  - cbn [ln_s]. split; [done|]. split; [done|]. congruence.
  - split; [done|]. apply close_gained; [done|]. congruence.
Qed.

Lemma accept_opened (l : Listener) o :
  match Listener_accept l o with
  | (Ok s, o') => gained o s o'
  | (Err _, o') => view o' = view o
  end.
Proof using SL.
  unfold Listener_accept. case_if; [done|]. pose proof (accept_opens (ln_s l) o) as Ha.
  destruct (so_accept (ln_s l) o) as [s o1]. unfold opens in Ha. cbn [fst snd] in Ha.
  destruct (Z.eqb_spec s INVALID_SOCKET); [done|]. by destruct Ha.
Qed.

(** Objects: what an operation does to the slots. *)
Lemma slot_insert o (socks : gmap Z Z) l x s k :
  slot (mkProc o (<[x := s]> socks) l) k = <[Some x := s]> (slot (mkProc o socks l)) k.
Proof.
  destruct (decide (Some x = k)) as [<-|Hk].
  - rewrite fn_lookup_insert. simpl. by rewrite lookup_insert_eq.
  - rewrite fn_lookup_insert_ne by done. destruct k as [y|]; [|done]. simpl.
    by rewrite lookup_insert_ne by congruence.
Qed.

Lemma sock_new_owned B o socks l x s op :
  owned B op (slot (mkProc o socks l)) → socks !! x = None →
  s ≠ INVALID_SOCKET → s ∉ op → owned B ({[s]} ∪ op) (slot (mkProc o (<[x := s]> socks) l)).
Proof.
  intros Ho Hx Hs Hn. eapply owned_ext; [intros k; apply slot_insert|].
  apply owned_acquire; try done. simpl. by rewrite Hx.
Qed.

(** An object closes the descriptor it holds. *)
Lemma close_held B o h k :
  owned B (so_open o) h → h k ≠ INVALID_SOCKET →
  view (so_close (h k) o) = (so_open o ∖ {[h k]}, so_bad_closes o).
Proof using SL. intros Ho Hk. apply close_closes, (ow_open _ _ _ Ho). right. by exists k. Qed.

Lemma sock_close_owned B n p x : proc_owned B n p → proc_owned B n (sock_close x p).
Proof using SL.
  intros [Ho Hb]. unfold proc_owned, sock_close. destruct (pc_socks p !! x) as [s|] eqn:Hx; [|done].
  assert (slot p (Some x) = s) as E by (simpl; by rewrite Hx). unfold close_fd.
  destruct (Z.eqb_spec s INVALID_SOCKET) as [->|Hs]; cbn [pc_os].
  - split; [|done]. eapply owned_ext; [|exact Ho]. intros k. rewrite slot_insert.
    destruct (decide (Some x = k)) as [<-|]; [|by rewrite fn_lookup_insert_ne].
    by rewrite fn_lookup_insert, E.
  - pose proof (close_held B (pc_os p) (slot p) (Some x) Ho ltac:(by rewrite E)) as Hc.
    rewrite E in Hc. injection Hc as -> ->. split; [|done].
    rewrite <- E. eapply owned_ext; [intros k; apply slot_insert|].
    apply (owned_release _ _ (slot p)); [exact Ho|by rewrite E].
Qed.

Lemma sock_destroy_owned B n p x : proc_owned B n p → proc_owned B n (sock_destroy x p).
Proof using SL.
  intros [Ho Hb]%(sock_close_owned B n p x). unfold proc_owned, sock_destroy. cbn [pc_os].
  split; [|done]. eapply owned_ext; [|exact Ho]. intros [y|]; [|done]. simpl.
  destruct (decide (x = y)) as [<-|]; [|by rewrite lookup_delete_ne].
  rewrite lookup_delete_eq. simpl. unfold sock_close.
  destruct (pc_socks p !! x) as [s|] eqn:Hx; [|by rewrite Hx].
  unfold close_fd. destruct (Z.eqb_spec s INVALID_SOCKET) as [->|];
    cbn [pc_socks]; by rewrite lookup_insert_eq.
Qed.

Lemma sock_close_slot p x y s :
  x ≠ y → pc_socks p !! y = Some s → pc_socks (sock_close x p) !! y = Some s.
Proof.
  intros Hne Hy. unfold sock_close. destruct (pc_socks p !! x); [|done].
  destruct (close_fd _ _). cbn [pc_socks]. by rewrite lookup_insert_ne.
Qed.

Lemma sock_close_closed p x :
  is_Some (pc_socks p !! x) → pc_socks (sock_close x p) !! x = Some INVALID_SOCKET.
Proof.
  intros [s Hx]. unfold sock_close. rewrite Hx. unfold close_fd.
  destruct (Z.eqb_spec s INVALID_SOCKET) as [->|]; cbn [pc_socks]; by rewrite lookup_insert_eq.
Qed.

Lemma sock_handover B o socks l x y s :
  owned B (so_open o) (slot (mkProc o socks l)) → x ≠ y → socks !! y = Some s →
  default INVALID_SOCKET (socks !! x) = INVALID_SOCKET →
  owned B (so_open o) (slot (mkProc o (<[x := s]> (<[y := INVALID_SOCKET]> socks)) l)).
Proof.
  intros Ho Hne Hy Hx. eapply owned_ext; cycle 1.
  { apply (owned_move _ _ _ (Some y) (Some x) Ho); [exact Hx|congruence]. }
  intros k. rewrite slot_insert. simpl. rewrite Hy. simpl.
  destruct (decide (Some x = k)) as [<-|]; [by rewrite !fn_lookup_insert|].
  rewrite !(fn_lookup_insert_ne _ (Some x)) by done. apply slot_insert.
Qed.

(** A call that yields a descriptor, or fails, for a new object. *)
Lemma gained_owned B n o o' socks l x s :
  proc_owned B n (mkProc o socks l) → socks !! x = None → gained o s o' →
  proc_owned B n (sock_new x s (mkProc o' socks l)).
Proof.
  intros [Ho Hb] Hx (Hs & Hn & [= Hop Hbo]). unfold proc_owned, sock_new. cbn [pc_os pc_socks pc_listener].
  rewrite Hop, Hbo. split; [by apply sock_new_owned|done].
Qed.
Lemma kept_owned B n o o' socks l :
  proc_owned B n (mkProc o socks l) → view o' = view o → proc_owned B n (mkProc o' socks l).
Proof. intros [Ho Hb] [= E1 E2]. unfold proc_owned. cbn [pc_os]. by rewrite E1, E2. Qed.

(** Starting the listener, again or for the first time. *)
Lemma start_owned B n p : proc_owned B n p → proc_owned (overwritten p ∪ B) n (proc_start p).
Proof using SL.
  destruct p as [o socks l]. intros [Ho Hb]. unfold overwritten, proc_start.
  cbn [pc_socks pc_os pc_listener] in *.
  pose proof (start_opens l o) as Hc. destruct (Listener_start l o) as [[[u|e] l'] o'].
  2:{ destruct Hc as [E Hv].
      assert (proc_owned B n (mkProc o' socks l')) as Hk.
      { eapply kept_owned; [|exact Hv]. split; [|done]. eapply owned_ext; [|exact Ho].
        intros [y|]; [done|exact E]. }
      case_if; by rewrite union_empty_l_L. }
  destruct Hc as (Hs & Hn & [= Hop Hbo]). unfold proc_owned. cbn [pc_os]. rewrite Hop, Hbo.
  split; [|done].
  assert (owned ((if ln_s l =? INVALID_SOCKET then ∅ else {[ln_s l]}) ∪ B) (so_open o)
    (<[None := INVALID_SOCKET]> (slot (mkProc o socks l)))) as Hf.
  { destruct (Z.eqb_spec (ln_s l) INVALID_SOCKET) as [E|E].
    - rewrite union_empty_l_L. eapply owned_ext; [|exact Ho].
      intros [y|]; [by rewrite fn_lookup_insert_ne|by rewrite fn_lookup_insert].
    - exact (owned_forget B _ _ None Ho E). }
  eapply owned_ext; [|apply (owned_acquire _ _ _ None _ Hf (fn_lookup_insert _ _ _) Hs Hn)].
  intros [y|]; [by rewrite !fn_lookup_insert_ne|by rewrite fn_lookup_insert].
Qed.

Lemma pstep_owned B n p L p' : pstep p L p' → proc_owned B n p → proc_owned (L ∪ B) n p'.
Proof using SL.
  destruct 1 as [x p Hx|x y p Hx|x y p Hx Hy|x p|x p|x host port p Hx|p|x p Hx|p];
    intros Ho; [..|by apply start_owned| |]; rewrite union_empty_l_L;
    destruct p as [o socks l]; cbn [pc_socks pc_os pc_listener] in *.
  - destruct Ho as [Ho Hb]. split; [|done]. eapply owned_ext; [|exact Ho]. intros k. unfold sock_new.
    rewrite slot_insert. destruct (decide (Some x = k)) as [<-|]; [|by rewrite fn_lookup_insert_ne].
    rewrite fn_lookup_insert. simpl. by rewrite Hx.
  - unfold sock_move. cbn. destruct (socks !! y) as [s|] eqn:Hy; [|done]. destruct Ho as [Ho Hb].
    split; [|done]. apply sock_handover; [done|congruence|done|by rewrite Hx].
  - unfold sock_assign. destruct (Z.eqb_spec x y) as [->|Hne]; [done|]. cbv zeta.
    destruct Hy as [s Hy]. rewrite (sock_close_slot _ x y s) by done.
    rewrite insert_insert_ne by done. destruct (sock_close_owned B n _ x Ho) as [Hc Hb].
    pose proof (sock_close_closed (mkProc o socks l) x Hx) as Hi.
    pose proof (sock_close_slot (mkProc o socks l) x y s Hne Hy) as Hy'.
    destruct (sock_close x _) as [o' socks' l']. cbn [pc_socks pc_os pc_listener] in *.
    split; [|done]. apply sock_handover; [done|done|done|by rewrite Hi].
  - by apply sock_close_owned.
  - by apply sock_destroy_owned.
  - unfold proc_connect. cbn. pose proof (connect_opens host port o) as Hc.
    destruct (Socket_connect host port o) as [[s|e] o']; [by eapply gained_owned|by eapply kept_owned].
  - unfold proc_accept. cbn. pose proof (accept_opened l o) as Hc.
    destruct (Listener_accept l o) as [[s|e] o']; [by eapply gained_owned|by eapply kept_owned].
  - destruct Ho as [Ho Hb]. unfold proc_unlisten, proc_owned, close_fd. cbn.
    destruct (Z.eqb_spec (ln_s l) INVALID_SOCKET) as [E|Hne]; cbn.
    + split; [|done]. eapply owned_ext; [|exact Ho]. intros [y|]; done.
    + pose proof (close_held B o _ None Ho Hne) as Hc. injection Hc as E1 E2. cbn in E1, E2.
      rewrite E1, E2. split; [|done]. eapply owned_ext; [|apply (owned_release _ _ _ None Ho Hne)].
      intros [y|]; [by rewrite fn_lookup_insert_ne|by rewrite fn_lookup_insert].
Qed.

Lemma init_owned o port : proc_owned (so_open o) (so_bad_closes o) (Proc_init o port).
Proof.
  assert (∀ k, slot (Proc_init o port) k = INVALID_SOCKET) as E by (intros [x|]; done).
  split; [|done]. split.
  - intros fd. split; [by left|]. intros [?|(k & Hk & Hne)]; [done|]. by rewrite E in Hk; subst.
  - intros k Hk. by rewrite E in Hk.
  - intros k k' _ Hk. by rewrite E in Hk.
Qed.

Lemma pruns_owned o port L p :
  pruns (Proc_init o port) L p → proc_owned (L ∪ so_open o) (so_bad_closes o) p.
Proof using SL.
  induction 1 as [|L p L' p' _ IH Hs]; [rewrite union_empty_l_L; apply init_owned|].
  rewrite <- union_assoc_L. by eapply pstep_owned.
Qed.

(** C36: the socket objects of a process own their descriptors: after any
    sequence of connections, accepts, starts, moves, assignments (also to
    itself), closes and destructions, with any call but [close] failing, no
    descriptor was closed that was not open (none is closed twice); what is open
    is what was open at the start, what the objects hold, each by exactly one,
    and the descriptors [L] of listeners that were started again, which nobody
    closes.  A close is taken to release an open descriptor. *)
Theorem sockets_owned o port L p (Hr : pruns (Proc_init o port) L p) :
  so_bad_closes (pc_os p) = so_bad_closes o ∧
  (∀ fd, fd ∈ so_open (pc_os p) ↔
     fd ∈ so_open o ∨ fd ∈ L ∨ ∃ k, slot p k = fd ∧ fd ≠ INVALID_SOCKET) ∧
  (∀ k, slot p k ≠ INVALID_SOCKET → (slot p k ∉ so_open o) ∧ (slot p k ∉ L)) ∧
  (∀ k k', slot p k = slot p k' → slot p k ≠ INVALID_SOCKET → k = k').
Proof using SL.
  destruct (pruns_owned o port L p Hr) as [[H1 H2 H3] Hb]. split; [done|].
  split; [intros fd; rewrite H1; set_solver|]. split; [|done].
  intros k Hk. specialize (H2 k Hk). set_solver.
Qed.
End ownership.

(** ** A simulated system *)

(** The open descriptors, the number of calls that still succeed and the number
    of bad closes. *)
Record SimOs := mkSimOs { sim_fds : gset Z; sim_budget : nat; sim_bad : nat }.

Definition sim_fresh (o : SimOs) : Z := 1 + foldr Z.max 2 (elements (sim_fds o)).

Lemma sim_fresh_spec o : sim_fresh o ≠ INVALID_SOCKET ∧ sim_fresh o ∉ sim_fds o.
Proof.
  unfold sim_fresh. rewrite <- elem_of_elements. generalize (elements (sim_fds o)) as l.
  assert (∀ l : list Z, 2 <= foldr Z.max 2 l ∧ ∀ x, x ∈ l → x <= foldr Z.max 2 l) as H.
  { induction l as [|y l [IH1 IH2]]; simpl; split; try lia; intros x; [by intros ?%elem_of_nil|].
    intros [->|Hx]%elem_of_cons; [lia|]. specialize (IH2 x Hx). lia. }
  intros l. destruct (H l) as [H1 H2]. split; [unfold INVALID_SOCKET; lia|].
  intros Hx%H2. lia.
Qed.

Definition sim_tick (o : SimOs) : bool * SimOs :=
  match sim_budget o with
  | O => (false, o)
  | S n => (true, mkSimOs (sim_fds o) n (sim_bad o))
  end.

Definition sim_new (o : SimOs) : Z * SimOs :=
  match sim_tick o with
  | (true, o) => (sim_fresh o, mkSimOs ({[sim_fresh o]} ∪ sim_fds o) (sim_budget o) (sim_bad o))
  | (false, o) => (INVALID_SOCKET, o)
  end.

#[global] Instance sim_api : SocketApi SimOs := {
  so_socket := sim_new;
  so_close fd o :=
    if bool_decide (fd ∈ sim_fds o) then mkSimOs (sim_fds o ∖ {[fd]}) (sim_budget o) (sim_bad o)
    else mkSimOs (sim_fds o) (sim_budget o) (S (sim_bad o));
  so_inet_addr h := if bool_decide (h = "127.0.0.1") then INADDR_LOOPBACK else INADDR_NONE;
  so_gethostbyname h o := (if bool_decide (h = "localhost") then Some INADDR_LOOPBACK else None, o);
  so_connect _ _ _ := sim_tick;
  so_setsockopt _ o := o;
  so_bind _ _ _ := sim_tick;
  so_getsockname _ o := (40000, o);
  so_listen _ := sim_tick;
  so_accept _ := sim_new;
  so_open := sim_fds;
  so_bad_closes := sim_bad
}.

Lemma sim_tick_keeps o : view (sim_tick o).2 = view o.
Proof. unfold sim_tick. by destruct (sim_budget o). Qed.

Lemma sim_new_opens o : opens o (sim_new o).
Proof.
  unfold opens, sim_new. pose proof (sim_tick_keeps o) as Hk. destruct (sim_tick o) as [[] o'];
    cbn [fst snd] in *; [|by rewrite Z.eqb_refl].
  destruct (sim_fresh_spec o') as [Hne Hn]. rewrite (proj2 (Z.eqb_neq _ _) Hne).
  injection Hk as E1 E2. unfold view. cbn in *. by rewrite <- E1, <- E2.
Qed.

#[global] Instance sim_laws : SocketLaws SimOs.
Proof.
  split; intros; try apply sim_new_opens; try apply sim_tick_keeps; try done.
  - unfold view. cbn in *. by rewrite bool_decide_true.
  - unfold view. cbn in *. by rewrite bool_decide_false.
Qed.

(** [start] on a listener that already holds a descriptor: the descriptor is
    lost. *)
Example start_twice_leaks :
  let p := proc_start (proc_start (Proc_init (mkSimOs ∅ 100 0) 0)) in
  size (sim_fds (pc_os p)) = 2%nat ∧ sim_fds (pc_os (proc_unlisten p)) ≠ ∅.
Proof. by vm_compute. Qed.
