(* ===== verification/Cli.v ===== *)
(** * Command line ([cli/main.cpp])

    Arguments, the C conversion functions they go through, the requests and
    tokens the [submit] and [benchmark] commands make, and every command as a
    function to its exit code and the lines it prints.  Connecting to the
    coordinator, the file system, the clock of the process and the CUDA factory
    are parameters. *)

From Stdlib Require Import Ascii SpecFloat.
From S2P Require Import Prelude Float Types Request Chunking Memory Compat Bytes Persist Exec Cuda Observability SchedState SchedOps SchedCycle SchedPersist Protocol ProtocolProps Network RemoteWorker Sockets.

(** ** The C library *)

(** Result of [atoi] where the value does not fit an [int]: undefined in C. *)
Class AtoiEnv := {
  atoi_undefined : Z → Z;
  atoi_undefined_range : ∀ v, is_i32 (atoi_undefined v)
}.

(** glibc: [(int)strtol(s, NULL, 10)], which clamps to [long]. *)
#[global] Program Instance glibc_atoi : AtoiEnv | 100 := {
  atoi_undefined v := i32 (Z.max (- 2 ^ 63) (Z.min (2 ^ 63 - 1) v))
}.
Next Obligation. intros. apply i32_range. Qed.

Definition is_space (c : ascii) : bool :=
  let n := N_of_ascii c in ((9 <=? n) && (n <=? 13) || (n =? 32))%N.

Fixpoint skip_space (s : string) : string :=
  match s with
  | String c s' => if is_space c then skip_space s' else s
  | EmptyString => s
  end.

(** The value of the leading decimal digits. *)
Fixpoint digits (acc : Z) (s : string) : Z :=
  match s with
  | String c s =>
      let d := Z.of_N (N_of_ascii c) - 48 in
      if (0 <=? d) && (d <=? 9) then digits (10 * acc + d) s else acc
  | EmptyString => acc
  end.

(** White space, an optional sign, digits: the sign and the magnitude. *)
Definition scan_int (s : string) : bool * Z :=
  match skip_space s with
  | String "-" s => (true, digits 0 s)
  | String "+" s => (false, digits 0 s)
  | s => (false, digits 0 s)
  end.

Definition strtoull (s : string) : Z :=
  let '(neg, v) := scan_int s in
  if U64_MAX <? v then U64_MAX else if neg : bool then u64 (- v) else v.

Definition atoi `{AtoiEnv} (s : string) : Z :=
  let '(neg, v) := scan_int s in
  let v := if neg : bool then - v else v in
  if (- 2 ^ 31 <=? v) && (v <? 2 ^ 31) then v else atoi_undefined v.

(** [printf("%.*f", d, x)]: the exact value rounded to [d] decimals, ties to
    even. *)
Definition round_half_even (n d : Z) : Z :=
  let q := n / d in
  let r := 2 * (n mod d) in
  if r <? d then q else if d <? r then q + 1 else if Z.even q then q else q + 1.

Fixpoint zeros (n : nat) : string :=
  match n with O => "" | S n => "0" +:+ zeros n end.

Definition print_fixed (d : nat) (x : double) : string :=
  let sign (s : bool) := if s then "-" else "" in
  match d_value x with
  | S754_nan => "nan"
  | S754_infinity s => sign s +:+ "inf"
  | f =>
      let '(s, n) :=
        match f with
        | S754_finite s m e =>
            let scale := 10 ^ Z.of_nat d in
            (s, if 0 <=? e then Zpos m * 2 ^ e * scale else round_half_even (Zpos m * scale) (2 ^ (- e)))
        | S754_zero s => (s, 0)
        | _ => (false, 0)
        end in
      let ip := n / 10 ^ Z.of_nat d in
      let fp := std_to_string (n mod 10 ^ Z.of_nat d) in
      sign s +:+ std_to_string ip +:+
        (if bool_decide (d = O) then "" else "." +:+ zeros (d - String.length fp) +:+ fp)
  end.

Example print_fixed_rate : print_fixed 3 0x3FD5555555555555 = "0.333".
Proof. vm_compute. reflexivity. Qed.
Example print_fixed_tie : print_fixed 0 0x4004000000000000 = "2".
Proof. vm_compute. reflexivity. Qed.

(** ** Arguments *)

(** The argument that follows the first occurrence of [name]. *)
Fixpoint arg (args : list string) (name def : string) : string :=
  match args with
  | a :: (v :: _) as rest => if bool_decide (a = name) then v else arg rest name def
  | _ => def
  end.

(** [s] before and after its last colon. *)
Fixpoint split_last_colon (s : string) : option (string * string) :=
  match s with
  | EmptyString => None
  | String c s =>
      match split_last_colon s with
      | Some (h, t) => Some (String c h, t)
      | None => if bool_decide (c = ":"%char) then Some (EmptyString, s) else None
      end
  end.

Definition parse_hostport `{AtoiEnv} (s : string) : string * Z :=
  match split_last_colon s with
  | None => (s, 0)
  | Some (host, rest) => (host, u16 (atoi rest))
  end.

Definition u64_arg (args : list string) (name def : string) : Z := strtoull (arg args name def).

(** [now] is the count of the high-resolution clock. *)
Definition make_request `{AtoiEnv} (args : list string) (now : Z) : PrefillRequest :=
  let prompt := u64_arg args "--prompt" "1024" in
  let cached := u64_arg args "--cached" "0" in
  PrefillRequest_default
    <| rq_request_id := Z.land (u64 now) 0xFFFFFFFFFFFF |>
    <| rq_tenant_id := u64_arg args "--tenant" "1" |>
    <| rq_model := mkModelKey (arg args "--model" "model") (arg args "--revision" "1") |>
    <| rq_prompt_token_count := prompt |>
    <| rq_reusable_prefix := mkReusablePrefixMetadata cached "" (0 <? cached) |>
    <| rq_priority := atoi (arg args "--priority" "0") |>
    <| rq_backend := arg args "--backend" kBackendAny |>
    <| rq_max_retries := atoi (arg args "--max-retries" "2") |>
    <| rq_tenant_weight := d_one |>
    <| rq_compute_estimate := u64 (prompt * 4) |>
    <| rq_memory_estimate_bytes := u64 (prompt * 16) |>
    <| rq_input_shape := mkInputShape prompt 512 8 64 |>.

(** The tokens of [n] positions for a seed: the stream of [SchedOps.gen_tokens]. *)
Definition cli_gen_tokens (n seed : Z) : list Z :=
  gen_tokens (Z.to_nat n) (Z.lxor 0x9E3779B97F4A7C15 seed).

(** ** Commands *)

Inductive Line := Out (s : string) | Diag (s : string).

(** The exit code ([None]: the command does not return) and what was printed. *)
Definition Cmd : Type := option Z * list Line.
Definition fail_with (s : string) : Cmd := (Some 1, [Diag s]).
Definition done_with (ls : list string) : Cmd := (Some 0, Out <$> ls).

Definition nat_text (z : Z) : string := std_to_string z.
Definition field (name : string) (z : Z) : string := name +:+ "=" +:+ nat_text z.
Definition bool_text (b : bool) : string := if b then "1" else "0".

Definition usage : Cmd := (Some 1, Out <$> [
  "Prefill Fabric CLI";
  "  serve    --port N                  run coordinator";
  "  worker   --coord host:port --id N --backend cpu|cuda";
  "  submit   --coord host:port --prompt N --tenant T [--cached C] [--priority P] [--backend B] [--model M] [--max-retries R]";
  "  cancel   --coord host:port --request ID";
  "  status   --coord host:port";
  "  workers  --coord host:port";
  "  stats    --coord host:port";
  "  snapshot --coord host:port";
  "  explain  --coord host:port --request ID";
  "  recover  --file state.pfstate";
  "  benchmark --count N --prompt P [--threads T]" ]).

(** The configuration of [serve] and [recover]. *)
Definition serve_config : SchedulerConfig := SchedulerConfig_default.

Section remote.
Context `{AE : AtoiEnv} {conn : Type} `{ST : Stream conn} `{DL : Dialer conn}.

Definition coord_arg (args : list string) : string * Z :=
  parse_hostport (arg args "--coord" "127.0.0.1:0").

(** [Client c(host, port); c.connect()], and what a command does on failure and
    with a connected client. *)
Definition with_client (args : list string) (bad : ErrorInfo → Cmd) (k : conn → conn → Cmd) : Cmd :=
  let '(host, port) := coord_arg args in
  match client_connect host port with
  | (Ok _, Some (c, d)) => k c d
  | (Ok _, None) => bad (mkErrorInfo ErrorCode_ok "")
  | (Err e, _) => bad e
  end.

Definition cmd_submit (args : list string) (now : Z) : Cmd :=
  with_client args (λ e, fail_with ("connect failed: " +:+ ei_message e)) (λ c d,
    let req := make_request args now in
    match (client_submit true c d req
             (cli_gen_tokens (rq_prompt_token_count req) (rq_request_id req))).1.1 with
    | Err e => fail_with ("submit rejected: " +:+ ei_message e +:+ " (code=" +:+
                            nat_text (to_int (ei_code e)) +:+ ")")
    | Ok id => done_with [field "accepted request" id]
    end).

Definition cmd_cancel (args : list string) : Cmd :=
  with_client args (λ _, (Some 1, [])) (λ c d,
    match (client_cancel true c d (u64_arg args "--request" "0")).1.1 with
    | Err e => fail_with ("cancel failed: " +:+ ei_message e)
    | Ok cr => done_with ["cancel applied=" +:+ bool_text (cr_applied cr) +:+ " terminal=" +:+
                            bool_text (cr_was_terminal cr) +:+ " code=" +:+
                            ErrorCode_to_string (cr_code cr)]
    end).

Definition worker_line (w : WorkerDescriptor) : string :=
  "  worker id=" +:+ nat_text (wd_worker_id w) +:+ " boot=" +:+ nat_text (wd_boot_id w) +:+
  " backend=" +:+ wd_backend w +:+ " state=" +:+ WorkerState_to_string (wd_state w).

Definition stats_lines (s : Stats) : list string := [
  field "submitted" (st_submitted s) +:+ field " admitted" (st_admitted s) +:+
    field " completed" (st_completed s) +:+ field " cancelled" (st_cancelled s) +:+
    field " retried" (st_retried s) +:+ field " failed" (st_failed_non_retryable s) +:+
    field " expired" (st_expired s);
  field "groups" (st_groups_formed s) +:+ field " scheduled_tokens" (st_scheduled_tokens s) +:+
    field " completed_tokens" (st_completed_tokens s);
  field "stale_rejected" (st_stale_authority_rejected s) +:+
    field " duplicate_rejected" (st_duplicate_completion_rejected s) +:+
    field " queue_depth" (st_queue_depth s) +:+ field " waiting_tokens" (st_waiting_tokens s) +:+
    field " running" (st_running_requests s) ].

Definition cmd_state (args : list string) (verb : string) : Cmd :=
  with_client args (λ _, fail_with "connect failed") (λ c d,
    if bool_decide (verb = "stats") then
      match (client_query_stats true c d).1.1 with
      | Err e => fail_with ("stats failed: " +:+ ei_message e)
      | Ok s => done_with (stats_lines s)
      end
    else
      match (client_query_state true c d).1.1 with
      | Err e => fail_with ("state failed: " +:+ ei_message e)
      | Ok m => done_with ((field "epoch" (ms_epoch m) +:+
                              field " workers" (Z.of_nat (length (ms_workers m)))) ::
                           (worker_line <$> ms_workers m))
      end).

Definition cmd_explain (args : list string) : Cmd :=
  with_client args (λ _, (Some 1, [])) (λ c d,
    match (client_query_explain true c d (u64_arg args "--request" "0")).1.1 with
    | Err e => fail_with ("explain failed: " +:+ ei_message e)
    | Ok m => done_with ((field "request" (ms_request_id m) +:+ field " attempt" (ms_attempt_id m) +:+
                            " lifecycle=" +:+ Lifecycle_to_string (ms_lifecycle m)) ::
                         ((λ t, "  - " +:+ t) <$> xp_trace (ms_explain m)))
    end).

Definition cmd_roll (args : list string) : Cmd :=
  with_client args (λ _, fail_with "connect failed") (λ c d,
    match (client_roll_epoch true c d).1.1 with
    | Err e => fail_with ("roll failed: " +:+ ei_message e)
    | Ok e => done_with [field "epoch" e]
    end).

(** [cuda] is what [create_cuda_executor] returns, [now] the count of the
    high-resolution clock. *)
Definition cmd_worker (args : list string) (cuda : option Executor) (now : Z) (stops : list bool) : Cmd :=
  let '(host, port) := coord_arg args in
  let id := u64_arg args "--id" "1" in
  let backend := arg args "--backend" "cpu" in
  let run ex :=
    match (worker_run (Worker_new id host ex backend now) port stops).2 with
    | Err e => fail_with ("worker error: " +:+ ei_message e)
    | Ok _ => done_with []
    end in
  if bool_decide (backend = "cuda") then
    match cuda with
    | Some ex => if ex_available ex then run ex
                 else fail_with "cuda backend unavailable in this build; use cpu"
    | None => fail_with "cuda backend unavailable in this build; use cpu"
    end
  else run CpuExecutor.
End remote.

(** [serve] once the coordinator runs: it prints its port and sleeps for ever. *)
Definition cmd_serve `{AtoiEnv} {os} `{SocketApi os} (args : list string) (o : os) : Cmd * os :=
  let port := u16 (atoi (arg args "--port" "0")) in
  match Listener_start (Listener_new port) o with
  | (Err e, _, o) => (fail_with ("coordinator start failed: " +:+ ei_message e), o)
  | (Ok _, l, o) => ((None, [Out ("PREFILL_FABRIC_PORT " +:+ nat_text (ln_port l))]), o)
  end.

Section local.
Context `{FE : FloatEnv} `{CK : ClockSource} `{HO : HashOrder}.

Definition cmd_recover {store} `{FileSystem store} (args : list string) (fs : store) : Cmd :=
  match recover (Impl_new serve_config) fs (arg args "--file" "") with
  | (_, Err e) => fail_with ("recover failed: " +:+ ei_message e +:+ " (" +:+
                               nat_text (to_int (ei_code e)) +:+ ")")
  | (st, Ok _) => done_with [field "recovered requests" (Z.of_nat (size (requests_ st))) +:+
                               field " epoch" (im_epoch st)]
  end.

Definition benchmark_config : SchedulerConfig :=
  let c := SchedulerConfig_default in
  mkSchedulerConfig 512 (cfg_max_work_per_chunk c)
    (cfg_max_memory_per_chunk c) (cfg_max_prefill_budget_per_cycle c) (cfg_preemption_enabled
    c) (cfg_max_requests_per_group c) (cfg_max_tokens_per_group c) (cfg_max_compute_per_group
    c) (cfg_max_memory_per_group c) (cfg_max_pack_wait_ns c) (cfg_min_preferred_occupancy c)
    (cfg_gather_for_occupancy c) (Z.shiftl 8 30) (cfg_memory_headroom_bytes c)
    (cfg_memory_headroom_fraction c)
    (cfg_enforce_memory_headroom c) (cfg_max_admitted_requests c)
    (cfg_per_tenant_outstanding_limit c) (cfg_per_tenant_admitted_token_limit c)
    (cfg_max_queued_requests c) (cfg_reject_on_memory_pressure c) (cfg_aging_rate c)
    (cfg_service_by_tokens c) (cfg_fairness_quantum c) (cfg_deadline_slack_ns c)
    (cfg_drop_expired c) (cfg_default_max_retries c) (cfg_deterministic_tie_break c)
    (cfg_track_service_accounting c).

(** The request of round [i]. *)
Definition benchmark_request (prompt i : Z) : PrefillRequest :=
  PrefillRequest_default
    <| rq_request_id := u64 (i + 1) |>
    <| rq_tenant_id := 1 + i mod 4 |>
    <| rq_model := mkModelKey "m" "1" |>
    <| rq_prompt_token_count := prompt |>
    <| rq_priority := i mod 8 |>
    <| rq_tenant_weight := d_one |>
    <| rq_compute_estimate := u64 (prompt * 4) |>
    <| rq_memory_estimate_bytes := u64 (prompt * 16) |>
    <| rq_input_shape := mkInputShape prompt 0 0 0 |>.

Definition benchmark_submit (prompt : Z) (st : Impl) (i : Z) : Impl :=
  (submit_with_tokens st (benchmark_request prompt i) (cli_gen_tokens prompt (u64 (i + 1)))).1.

(** Up to [drive_until_quiescent], with the first reading of the clock. *)
Definition benchmark_submitted (count prompt : Z) : Nanoseconds * Impl :=
  let st := attach_executor (Impl_new benchmark_config) (Some CpuExecutor) kBackendCpu in
  let '(t0, st) := im_now st in
  (t0, foldl (benchmark_submit prompt) st (seqZ 0 count)).

Definition kDriveCycles : nat := 4096.

Definition d_1e9 : double := 0x41CDCD6500000000.
Definition d_1em9 : double := 0x3E112E0BE826D695.

Definition benchmark_line (count : Z) (t0 t1 : Nanoseconds) (s : Stats) : string :=
  let secs := d_div (d_bits (d_of_Z (i64 (t1 - t0)))) d_1e9 in
  field "requests" count +:+ field " completed" (st_completed s) +:+
  field " tokens" (st_completed_tokens s) +:+ " elapsed=" +:+ print_fixed 3 secs +:+
  "s rate=" +:+ print_fixed 0 (d_div (d_bits (d_of_Z count))
                                 (if d_ltb d_zero secs then secs else d_1em9)) +:+
  " req/s" +:+ field " groups" (st_groups_formed s).

Definition cmd_benchmark (args : list string) : Cmd :=
  let count := u64_arg args "--count" "1000" in
  let prompt := u64_arg args "--prompt" "1024" in
  let '(t0, st) := benchmark_submitted count prompt in
  match drive_until_quiescent kDriveCycles st with
  | (_, Err e) => fail_with ("drive failed: " +:+ ei_message e)
  | (st, Ok _) =>
      let '(t1, st) := im_now st in
      done_with [benchmark_line count t0 t1 (im_stats st)]
  end.
End local.

(** ** The program *)

Section main.
Context `{FE : FloatEnv} `{CK : ClockSource} `{HO : HashOrder} `{AE : AtoiEnv}.
Context {conn : Type} `{ST : Stream conn} `{DL : Dialer conn}.
Context {os : Type} `{SA : SocketApi os} {store : Type} `{FS : FileSystem store}.

(** What the process finds around it. *)
Record World := mkWorld {
  w_os : os; w_files : store; w_cuda : option Executor; w_now : Z; w_stops : list bool
}.

Definition verb_is (verb : string) (names : list string) : bool := bool_decide (verb ∈ names).

(** [args] are the arguments after the name of the program. *)
Definition main (w : World) (args : list string) : Cmd :=
  match args with
  | [] => usage
  | verb :: _ =>
      if verb_is verb ["serve"] then (cmd_serve args (w_os w)).1
      else if verb_is verb ["worker"] then cmd_worker args (w_cuda w) (w_now w) (w_stops w)
      else if verb_is verb ["submit"] then cmd_submit args (w_now w)
      else if verb_is verb ["cancel"] then cmd_cancel args
      else if verb_is verb ["stats"] then cmd_state args "stats"
      else if verb_is verb ["status"; "workers"; "waiting"; "running"] then cmd_state args verb
      else if verb_is verb ["snapshot"] then cmd_state args "snapshot"
      else if verb_is verb ["roll"] then cmd_roll args
      else if verb_is verb ["explain"; "inspect"] then cmd_explain args
      else if verb_is verb ["recover"] then cmd_recover args (w_files w)
      else if verb_is verb ["benchmark"] then cmd_benchmark args
      else usage
  end.
End main.
