(* ===== verification/SchedFrame.v ===== *)
(** * Effects of the scheduler's helpers

    Each helper that branches is rewritten as an update of the fields it may
    change, so that the other fields of the result compute ([eff]).  The
    one-request operations are then described by the state they leave. *)

From S2P Require Import Prelude Float Types Request Chunking Memory Compat Exec Observability SchedState SchedOps SchedCycle.

(** Worker table after [worker_dec]. *)
Definition dec_busy (w : WorkerId) (m : gmap Z Ws) : gmap Z Ws :=
  match m !! w with
  | Some ws => if 0 <? ws_busy_units ws
               then <[w := ws <| ws_busy_units ::= λ n, n -u 1 |>]> m else m
  | None => m
  end.

(** The worker freed when [rid] leaves group [gid], if it was the last member. *)
Definition freed_worker (m : gmap Z Gs) (gid : GroupId) (rid : RequestId) : option WorkerId :=
  match m !! gid with
  | Some g => if bool_decide (gs_outstanding g ∖ {[rid]} = ∅) then Some (gs_worker g) else None
  | None => None
  end.

Definition erase_member (gid : GroupId) (rid : RequestId) (m : gmap Z Gs) : gmap Z Gs :=
  match m !! gid with
  | Some g =>
      let out := gs_outstanding g ∖ {[rid]} in
      if bool_decide (out = ∅) then delete gid m else <[gid := g <| gs_outstanding := out |>]> m
  | None => m
  end.

Definition dec_busy_opt (w : option WorkerId) (m : gmap Z Ws) : gmap Z Ws :=
  match w with Some w => dec_busy w m | None => m end.

Definition release_opt (rv : ReservationId) (g : MemoryGovernor) : MemoryGovernor :=
  if is_nil rv then g else release g rv.

(** Records are equal when their fields are. *)
Lemma Impl_ext (x y : Impl) :
  im_cfg x = im_cfg y → im_attached_executor x = im_attached_executor y →
  im_token_resolver x = im_token_resolver y → im_mem x = im_mem y → im_events x = im_events y →
  im_stats x = im_stats y → im_epoch x = im_epoch y →
  im_next_generation_value x = im_next_generation_value y →
  im_next_attempt_value x = im_next_attempt_value y →
  im_next_group_value x = im_next_group_value y →
  im_next_reservation_value x = im_next_reservation_value y →
  im_next_boot_value x = im_next_boot_value y → requests_ x = requests_ y →
  groups_ x = groups_ y → workers_ x = workers_ y → tenants_ x = tenants_ y →
  im_clock_reads x = im_clock_reads y → x = y.
Proof. destruct x, y; simpl; intros; subst; reflexivity. Qed.

Lemma Rs_ext (x y : Rs) :
  rs_request x = rs_request y → rs_attempt x = rs_attempt y → rs_lifecycle x = rs_lifecycle y →
  rs_plan x = rs_plan y → rs_next_chunk_index x = rs_next_chunk_index y →
  rs_completed_uncached x = rs_completed_uncached y →
  rs_completed_token_total x = rs_completed_token_total y →
  rs_current_generation x = rs_current_generation y → rs_reservation x = rs_reservation y →
  rs_reserved_bytes x = rs_reserved_bytes y → rs_in_flight x = rs_in_flight y →
  rs_current_group x = rs_current_group y → rs_dispatched_worker x = rs_dispatched_worker y →
  rs_dispatch_time x = rs_dispatch_time y → rs_last_work_kind x = rs_last_work_kind y →
  rs_retries_used x = rs_retries_used y → rs_normalized_service x = rs_normalized_service y →
  rs_aging_cycles x = rs_aging_cycles y → rs_admit_time x = rs_admit_time y →
  rs_first_dispatch_time x = rs_first_dispatch_time y → rs_chunks_done x = rs_chunks_done y →
  rs_cancel_pending x = rs_cancel_pending y → rs_recovered_work x = rs_recovered_work y →
  rs_trace x = rs_trace y → x = y.
Proof. destruct x, y; simpl; intros; subst; reflexivity. Qed.

Ltac rec_eq :=
  lazymatch goal with
  | |- @eq Impl _ _ => apply Impl_ext
  | |- @eq Rs _ _ => apply Rs_ext
  end; rsimp; try done.

Lemma worker_dec_eq st w : worker_dec st w = st <| workers_ ::= dec_busy w |>.
Proof.
  rec_eq; unfold worker_dec, dec_busy; repeat (case_match; simplify_eq; rsimp; try done).
Qed.

Lemma group_erase_member_eq st gid rid :
  group_erase_member st gid rid =
  st <| workers_ ::= dec_busy_opt (freed_worker (groups_ st) gid rid) |>
     <| groups_ ::= erase_member gid rid |>.
Proof.
  unfold group_erase_member.
  rec_eq; unfold freed_worker, erase_member, dec_busy_opt;
    repeat (case_match; simplify_eq; rewrite ?worker_dec_eq; rsimp; try done).
Qed.

Lemma release_reservation_eq st s :
  release_reservation st s =
  (st <| im_mem ::= release_opt (rs_reservation s) |>,
   s <| rs_reservation := 0 |>
     <| rs_reserved_bytes ::= λ b, if is_nil (rs_reservation s) then b else 0 |>).
Proof.
  unfold release_reservation, release_opt, is_nil.
  destruct (Z.eqb_spec (rs_reservation s) 0) as [E|E]; simpl; [|done].
  f_equal; rec_eq.
Qed.

Lemma detach_eq st s :
  detach st s =
  (st <| workers_ ::= dec_busy_opt (if is_nil (rs_current_group s) then None else
            freed_worker (groups_ st) (rs_current_group s) (rq_request_id (rs_request s))) |>
      <| groups_ ::= if is_nil (rs_current_group s) then id else
            erase_member (rs_current_group s) (rq_request_id (rs_request s)) |>,
   s <| rs_current_group := 0 |>).
Proof.
  unfold detach, is_nil. rewrite group_erase_member_eq.
  destruct (Z.eqb_spec (rs_current_group s) 0) as [E|E]; simpl; [|done].
  f_equal; rec_eq.
Qed.

Lemma drop_group_eq st s :
  drop_group st s =
  (st <| workers_ ::= dec_busy_opt (if is_nil (rs_current_group s) then None else
            gs_worker <$> groups_ st !! rs_current_group s) |>
      <| groups_ ::= if is_nil (rs_current_group s) then id else delete (rs_current_group s) |>,
   s <| rs_current_group := 0 |>).
Proof.
  unfold drop_group, is_nil.
  destruct (Z.eqb_spec (rs_current_group s) 0) as [E|E]; simpl; [f_equal; rec_eq|].
  f_equal. destruct (groups_ st !! rs_current_group s) as [g|] eqn:Eg; simpl.
  - by rewrite worker_dec_eq.
  - rec_eq. by rewrite delete_id.
Qed.

Lemma tenants_upd_tenant st t f :
  tenants_ (upd_tenant st t f)
  = <[t := f (map_at TenantService_default (tenants_ st) t)]> (tenants_ st).
Proof. done. Qed.

Lemma requests_put_rs st r s : requests_ (put_rs st r s) = <[r := s]> (requests_ st).
Proof. done. Qed.

(** [eff] computes a field of the result of an operation: a helper that does
    not write the field is skipped, one that does is unfolded.  Each step is a
    rewrite with an equation proved for an arbitrary state. *)
Ltac rw_gen E y := (* [E : ∀ x, ...] at [y] *)
  let E := constr:(E y) in
  let T := type of E in
  let T := eval cbv beta in T in
  let E := constr:(E : T) in
  rw_with E.
Ltac skip_helper p h y :=
  is_const p;
  let E := constr:((λ x, eq_refl) : ∀ x, p (h x) = p x) in
  rw_gen E y.
Ltac eff_step :=
  match goal with
  | |- context [?p ?H] =>
      lazymatch H with
      | log ?y ?a ?b ?c ?d =>
          first [constr_eq p im_events; fail 1 | constr_eq p im_clock_reads; fail 1
                | skip_helper p (λ st, log st a b c d) y]
      | log_at ?y ?t ?a ?b ?c ?d =>
          first [constr_eq p im_events; fail 1 | skip_helper p (λ st, log_at st t a b c d) y]
      | bump ?q ?y =>
          first [constr_eq p im_stats;
                 let E := constr:((λ x, eq_refl)
                          : ∀ x, p (bump q x) = setf q (λ n, n +u 1) (p x)) in
                 rw_gen E y
                | skip_helper p (λ st, bump q st) y]
      | upd_stats ?y ?f =>
          first [constr_eq p im_stats;
                 let E := constr:((λ x, eq_refl) : ∀ x, p (upd_stats x f) = f (p x)) in
                 rw_gen E y
                | skip_helper p (λ st, upd_stats st f) y]
      | upd_tenant ?y ?t ?f =>
          first [constr_eq p tenants_;
                 let E := constr:(tenants_upd_tenant y t f) in
                 rw_with E; cbv beta
                | skip_helper p (λ st, upd_tenant st t f) y]
      | put_rs ?y ?r ?s =>
          first [constr_eq p requests_;
                 let E := constr:(requests_put_rs y r s) in rw_with E
                | skip_helper p (λ st, put_rs st r s) y]
      | trace_push ?y ?l =>
          first [constr_eq p rs_trace; fail 1 | skip_helper p (λ s, trace_push s l) y]
      | setf _ _ _ => rsimp_at p H
      end
  end.
Ltac eff := rewrite ?release_reservation_eq, ?detach_eq, ?drop_group_eq, ?group_erase_member_eq,
    ?worker_dec_eq; cbv beta iota zeta; cbn [fst snd]; repeat eff_step.
