(* ===== verification/SchedInv.v ===== *)
(** * The scheduler invariant

    What holds between the request table and the other components of the
    scheduler between two operations, as one predicate per component and a
    record of them ([sched_inv]); and the lemmas by which an operation that
    rewrites one request preserves each component. *)

From S2P Require Import Prelude Float Types Request Chunking Memory Compat Exec Observability SchedState SchedOps SchedCycle SchedFrame.

(** ** Phases of a request *)

(** Work dispatched and authoritative. *)
Definition running (s : Rs) : Prop :=
  rs_in_flight s = true ∧ rs_lifecycle s = Lifecycle_dispatched.

Definition queued (s : Rs) : Prop := rs_lifecycle s = Lifecycle_queued.

Definition nonterminal (s : Rs) : bool := negb (is_terminal_lifecycle (rs_lifecycle s)).

(** The lifecycles the scheduler assigns. *)
Definition used_lifecycle (l : Lifecycle) : bool :=
  match l with
  | Lifecycle_queued | Lifecycle_dispatched | Lifecycle_completed | Lifecycle_cancelled
  | Lifecycle_expired | Lifecycle_failed_non_retryable => true
  | _ => false
  end.

(** Final without having completed. *)
Definition closed_lifecycle (l : Lifecycle) : bool :=
  match l with
  | Lifecycle_cancelled | Lifecycle_expired | Lifecycle_failed_non_retryable => true
  | _ => false
  end.

#[global] Instance running_dec s : Decision (running s).
Proof. unfold running; apply _. Defined.

(** A request the step relation admits: fields in range of their types, and a
    prompt short enough that 32-bit chunk indices do not wrap. *)
Definition request_fits (r : PrefillRequest) : Prop :=
  request_wf r ∧ rq_prompt_token_count r < 2 ^ 32.

(** A configuration with room for one more prompt above the token limit. *)
Definition config_fits (c : SchedulerConfig) : Prop :=
  config_wf c ∧ cfg_per_tenant_admitted_token_limit c + 2 ^ 32 < 2 ^ 64.

#[global] Instance request_fits_dec r : Decision (request_fits r).
Proof. unfold request_fits; apply _. Defined.
#[global] Instance config_fits_dec r : Decision (config_fits r).
Proof. unfold config_fits; apply _. Defined.

(** ** Where a scheduler comes from

    A scheduler starts empty, or from the snapshot of an earlier one.  A
    recovery keeps the requests but neither the statistics nor the tokens a
    request has completed of its plan, and it forgets the tokens admitted per
    tenant; [og_admitted] and [og_final] are the requests, in all and per final
    state, that the statistics do not know of. *)
Class Origin := {
  og_fresh : bool;
  og_admitted : Z;
  og_final : Lifecycle → Z;
  og_admitted_nonneg : 0 <= og_admitted;
  og_final_nonneg l : 0 <= og_final l
}.

Definition origin_new : Origin :=
  {| og_fresh := true; og_admitted := 0; og_final _ := 0;
     og_admitted_nonneg := Z.le_refl 0; og_final_nonneg _ := Z.le_refl 0 |}.

(** Split on whether the origin is a fresh scheduler. *)
Ltac origin_cases :=
  repeat match goal with H : context [og_fresh] |- _ => revert H end;
  destruct og_fresh; intros.

Section inv.
Context `{FE : FloatEnv} `{CK : ClockSource} `{HO : HashOrder} `{OR : Origin}.

(** ** One request *)

(** [done] tokens of the plan are accounted when its next chunk starts at
    [start]. *)
Definition accounted (done start : Z) : Prop :=
  if og_fresh then done = start else 0 <= done <= start.

Lemma accounted_fresh a b : accounted a b → og_fresh = true → a = b.
Proof. unfold accounted. by origin_cases. Qed.

Lemma accounted_refl a : 0 <= a → accounted a a.
Proof. unfold accounted. origin_cases; lia. Qed.

Lemma accounted_zero a : og_fresh = false → 0 <= a → accounted 0 a.
Proof. unfold accounted. origin_cases; [done|lia]. Qed.

Lemma accounted_range a b : accounted a b → 0 <= b → 0 <= a <= b.
Proof. unfold accounted. origin_cases; lia. Qed.

(** [ng] and [ngrp] are the next generation and group numbers. *)
Record rs_ok (cfg : SchedulerConfig) (ng ngrp : Z) (rid : RequestId) (s : Rs) : Prop := {
  ro_id : rq_request_id (rs_request s) = rid ∧ rid ≠ 0;
  ro_req : request_fits (rs_request s);
  ro_plan : rs_plan s = plan cfg (rs_request s) (rs_attempt s) 0;
  ro_life : used_lifecycle (rs_lifecycle s) = true;
  ro_flight : rs_in_flight s = true →
    (rs_lifecycle s = Lifecycle_dispatched ∨ rs_lifecycle s = Lifecycle_expired) ∧
    rs_current_generation s ≠ 0;
  ro_work : nonterminal s = true → remaining_prefill_tokens (rs_request s) ≠ 0;
  ro_index : 0 <= rs_next_chunk_index s < 2 ^ 32;
  ro_live : queued s ∨ running s → ∃ ch, pending_chunk s = Some ch ∧
              accounted (rs_completed_uncached s) (ck_token_start ch);
  ro_pending : nonterminal s = true → is_Some (pending_chunk s);
  ro_done : og_fresh = true → rs_lifecycle s = Lifecycle_completed →
              rs_completed_uncached s = remaining_prefill_tokens (rs_request s);
  ro_bound : 0 <= rs_completed_uncached s <= remaining_prefill_tokens (rs_request s);
  ro_gen : 0 <= rs_current_generation s < ng;
  ro_group : 0 <= rs_current_group s < ngrp;
  ro_retries : 0 <= rs_retries_used s <= rq_max_retries (rs_request s)
}.

(** The fields the invariant speaks about. *)
Definition core (s : Rs) :=
  (rs_request s, rs_attempt s, rs_lifecycle s, rs_plan s, rs_next_chunk_index s,
   rs_completed_uncached s, rs_current_generation s,
   (rs_reservation s, rs_reserved_bytes s, rs_in_flight s, rs_current_group s,
    rs_dispatched_worker s, rs_retries_used s)).

(** ** Ownership of memory *)

(** The ledger of the governor is the table of reservations held by requests. *)
Definition owns (m : MemoryGovernor) (rs : gmap Z Rs) : Prop :=
  ∀ rv rid b, ledger m !! rv = Some (rid, b) ↔
    rv ≠ 0 ∧ ∃ s, rs !! rid = Some s ∧ rs_reservation s = rv ∧ rs_reserved_bytes s = b.

Definition fresh_above (m : MemoryGovernor) (next : Z) : Prop :=
  0 < next ∧ ∀ rv, is_Some (ledger m !! rv) → rv < next.

Definition mem_ok (m : MemoryGovernor) : Prop := gov_inv m ∧ mg_reserved m <= budget m.

(** ** Groups *)

Definition groups_ok (gs : gmap Z Gs) (rs : gmap Z Rs) (ngrp : Z) : Prop :=
  ∀ gid g, gs !! gid = Some g →
    0 < gid < ngrp ∧ gs_outstanding g ≠ ∅ ∧
    ∀ rid, rid ∈ gs_outstanding g ↔
      ∃ s, rs !! rid = Some s ∧ running s ∧ rs_current_group s = gid.

(** A running request of a live group runs on that group's worker. *)
Definition workers_agree (gs : gmap Z Gs) (rs : gmap Z Rs) : Prop :=
  ∀ rid s g, rs !! rid = Some s → running s → gs !! rs_current_group s = Some g →
    rs_dispatched_worker s = gs_worker g.

(** Distinct requests hold distinct generations. *)
Definition gens_distinct (rs : gmap Z Rs) : Prop :=
  ∀ r1 r2 s1 s2, rs !! r1 = Some s1 → rs !! r2 = Some s2 → rs_current_generation s1 ≠ 0 →
    rs_current_generation s1 = rs_current_generation s2 → r1 = r2.

(** ** Accounting *)

Definition in_tenant (t : TenantId) (s : Rs) : bool :=
  (rq_tenant_id (rs_request s) =? t) && nonterminal s.

Definition live_count (t : TenantId) (rs : gmap Z Rs) : Z :=
  map_sum (λ _ s, if in_tenant t s then 1 else 0) rs.

Definition live_tokens (t : TenantId) (rs : gmap Z Rs) : Z :=
  map_sum (λ _ s, if in_tenant t s then remaining_prefill_tokens (rs_request s) else 0) rs.

Definition tenants_ok (cfg : SchedulerConfig) (ts : gmap Z TenantService) (rs : gmap Z Rs)
    : Prop :=
  ∀ t, let x := map_at TenantService_default ts t in
    ts_outstanding x = live_count t rs ∧
    (if og_fresh then live_tokens t rs else 0) <= ts_admitted_tokens x ∧
    ts_admitted_tokens x <= cfg_per_tenant_admitted_token_limit cfg ∧
    ts_outstanding x <= cfg_per_tenant_outstanding_limit cfg.

Definition life_count (l : Lifecycle) (rs : gmap Z Rs) : Z :=
  map_sum (λ _ s, if bool_decide (rs_lifecycle s = l) then 1 else 0) rs.

(** The statistic that counts a final state. *)
Definition final_counter (l : Lifecycle) : option (Stats → Z) :=
  match l with
  | Lifecycle_completed => Some st_completed
  | Lifecycle_cancelled => Some st_cancelled
  | Lifecycle_failed_non_retryable => Some st_failed_non_retryable
  | Lifecycle_expired => Some st_expired
  | _ => None
  end.

(** The counters are the numbers of requests, in all and in each final state,
    that came after the origin. *)
Definition stats_ok (x : Stats) (rs : gmap Z Rs) : Prop :=
  (0 <= st_admitted x ∧ st_admitted x + og_admitted = Z.of_nat (size rs)) ∧
  ∀ l p, final_counter l = Some p → 0 <= p x ∧ p x + og_final l = life_count l rs.

(** ** The invariant *)

(** [R]: requests that hold a reservation but are not yet dispatched, as
    happens while a cycle reserves memory for a group; none between
    operations. *)
Record sched_inv_at (R : gset Z) (st : Impl) : Prop := {
  si_cfg : config_fits (im_cfg st);
  si_size : Z.of_nat (size (requests_ st)) < 2 ^ 64;
  si_cap : Z.of_nat (size (requests_ st)) <= cfg_max_admitted_requests (im_cfg st);
  si_next : 0 < im_next_generation_value st ∧ 0 < im_next_group_value st;
  si_rs : ∀ rid s, requests_ st !! rid = Some s →
            rs_ok (im_cfg st) (im_next_generation_value st) (im_next_group_value st) rid s;
  si_res : ∀ rid s, requests_ st !! rid = Some s →
             rs_reservation s ≠ 0 ↔ running s ∨ rid ∈ R;
  si_mem : mem_ok (im_mem st);
  si_own : owns (im_mem st) (requests_ st);
  si_fresh : fresh_above (im_mem st) (im_next_reservation_value st);
  si_groups : groups_ok (groups_ st) (requests_ st) (im_next_group_value st);
  si_agree : workers_agree (groups_ st) (requests_ st);
  si_gens : gens_distinct (requests_ st);
  si_tenants : tenants_ok (im_cfg st) (tenants_ st) (requests_ st);
  si_stats : stats_ok (im_stats st) (requests_ st)
}.

Definition sched_inv : Impl → Prop := sched_inv_at ∅.

(** ** Ownership lemmas *)

Lemma owns_put m rs rid s' :
  owns m rs →
  (∀ rv b, ledger m !! rv = Some (rid, b) ↔
           rv ≠ 0 ∧ rs_reservation s' = rv ∧ rs_reserved_bytes s' = b) →
  owns m (<[rid := s']> rs).
Proof.
  intros Ho Hs rv r b. destruct (decide (rid = r)) as [<-|Hne].
  - rewrite Hs, lookup_insert_eq. naive_solver.
  - rewrite (Ho rv r b), lookup_insert_ne by done. done.
Qed.

Lemma owns_keep m rs rid s s' :
  owns m rs → rs !! rid = Some s → rs_reservation s' = rs_reservation s →
  rs_reserved_bytes s' = rs_reserved_bytes s → owns m (<[rid := s']> rs).
Proof.
  intros Ho Hs Hr Hb. apply owns_put; [done|]. intros rv b. rewrite (Ho rv rid b), Hr, Hb.
  naive_solver.
Qed.

Lemma owns_new m rs rid s' :
  owns m rs → rs !! rid = None → rs_reservation s' = 0 → owns m (<[rid := s']> rs).
Proof.
  intros Ho Hs Hr. apply owns_put; [done|]. intros rv b. rewrite (Ho rv rid b), Hr.
  naive_solver.
Qed.

Lemma owns_release m rs rid s s' :
  gov_inv m → owns m rs → rs !! rid = Some s → rs_reservation s' = 0 →
  owns (release_opt (rs_reservation s) m) (<[rid := s']> rs).
Proof.
  intros Hi Ho Hs Hr rv r b. unfold release_opt, is_nil.
  destruct (Z.eqb_spec (rs_reservation s) 0) as [E|E].
  { destruct (decide (rid = r)) as [<-|Hne].
    - rewrite (Ho rv rid b), lookup_insert_eq. naive_solver.
    - by rewrite (Ho rv r b), lookup_insert_ne. }
  destruct (release_ledger m (rs_reservation s) Hi) as [-> _].
  rewrite lookup_delete_Some, (Ho rv r b).
  destruct (decide (rid = r)) as [<-|Hne].
  - rewrite lookup_insert_eq. naive_solver.
  - rewrite lookup_insert_ne by done. split; [naive_solver|].
    intros (Hz & x & Hx & Hxr & Hxb). split; [|naive_solver].
    intros Heq. apply Hne.
    assert (ledger m !! rv = Some (rid, rs_reserved_bytes s)) as H1 by (apply Ho; naive_solver).
    assert (ledger m !! rv = Some (r, b)) as H2 by (apply Ho; naive_solver). congruence.
Qed.

Lemma owns_reserve m m' rs rid s s' rv b :
  owns m rs → rs !! rid = Some s → rs_reservation s = 0 → rv ≠ 0 → ledger m !! rv = None →
  ledger m' = <[rv := (rid, b)]> (ledger m) → rs_reservation s' = rv →
  rs_reserved_bytes s' = b → owns m' (<[rid := s']> rs).
Proof.
  intros Ho Hs Hr Hz Hn Hl Hr' Hb' rv' r b'. rewrite Hl, lookup_insert_Some.
  destruct (decide (rid = r)) as [<-|Hne].
  - rewrite lookup_insert_eq. split; [|naive_solver].
    intros [[<- [= <-]]|[Hne H]]; [naive_solver|]. apply Ho in H. naive_solver.
  - rewrite lookup_insert_ne by done. rewrite (Ho rv' r b'). split; [naive_solver|].
    intros H. right. split; [|done]. intros ->.
    destruct H as (_ & x & Hx & Hxr & Hxb).
    assert (ledger m !! rv' = Some (r, b')) by (apply Ho; naive_solver). congruence.
Qed.

Lemma mem_ok_release rv m : mem_ok m → mem_ok (release_opt rv m).
Proof.
  intros [Hi Hb]. unfold release_opt. case_if; [done|]. split; [by apply gov_inv_release|].
  destruct (release_ledger m rv Hi) as (_ & Hr & _ & Hm & Hh).
  unfold budget in *. rewrite Hr, Hm, Hh. destruct (ledger m !! rv) as [x|] eqn:Ex; [|lia].
  pose proof (gi_sizes _ Hi _ _ Ex). lia.
Qed.

Lemma fresh_release rv m n : mem_ok m → fresh_above m n → fresh_above (release_opt rv m) n.
Proof.
  intros [Hi _] [Hn Hf]. split; [done|]. intros rv'. unfold release_opt. case_if; [apply Hf|].
  destruct (release_ledger m rv Hi) as [-> _]. intros [x [_ Hx]%lookup_delete_Some].
  apply Hf. by exists x.
Qed.

(** ** Group lemmas *)

Lemma lookup_erase_member gid rid gs j g' :
  erase_member gid rid gs !! j = Some g' ↔
  gs !! j = Some g' ∧ j ≠ gid ∨
  j = gid ∧ ∃ g, gs !! gid = Some g ∧ gs_outstanding g ∖ {[rid]} ≠ ∅ ∧
    g' = g <| gs_outstanding := gs_outstanding g ∖ {[rid]} |>.
Proof.
  unfold erase_member. destruct (gs !! gid) as [g|] eqn:E.
  - case_if.
    + rewrite lookup_delete_Some. naive_solver.
    + rewrite lookup_insert_Some. naive_solver.
  - naive_solver.
Qed.

(** Replacing a request that neither enters nor leaves a group. *)
Lemma groups_keep gs rs n rid s' :
  groups_ok gs rs n →
  (running s' ↔ ∃ s, rs !! rid = Some s ∧ running s ∧ rs_current_group s = rs_current_group s') →
  (∀ s, rs !! rid = Some s → running s → running s') →
  groups_ok gs (<[rid := s']> rs) n.
Proof.
  intros Hg Hs Hs' gid g Hgid. destruct (Hg gid g Hgid) as (Hn & Hne & Hout).
  do 2 (split; [done|]). intros r. rewrite Hout. destruct (decide (rid = r)) as [<-|Hr].
  - rewrite lookup_insert_eq. split.
    + intros (s & Hl & Hrun & Hcg). exists s'. split_and!; [done|by eapply Hs'|].
      assert (running s') as (s2 & Hl2 & _ & Heq)%Hs by (by eapply Hs'). congruence.
    + intros (s2 & [= <-] & (s & Hl & Hrun & Hcg)%Hs & Heq). exists s. split_and!; congruence.
  - by rewrite lookup_insert_ne.
Qed.

(** Replacing a request that stops running, and is erased from its group. *)
Lemma groups_leave gs rs n rid s s' :
  groups_ok gs rs n → rs !! rid = Some s → ¬ running s' →
  groups_ok (erase_member (rs_current_group s) rid gs) (<[rid := s']> rs) n.
Proof.
  intros Hg Hs Hs' gid g' [[Hl Hne]|(-> & g & Hl & Hout' & ->)]%lookup_erase_member.
  - destruct (Hg gid g' Hl) as (Hn & He & Hout). do 2 (split; [done|]).
    intros r. rewrite Hout. destruct (decide (rid = r)) as [<-|Hr].
    + rewrite lookup_insert_eq, Hs. naive_solver.
    + by rewrite lookup_insert_ne.
  - destruct (Hg _ g Hl) as (Hn & He & Hout). rsimp. do 2 (split; [done|]).
    intros r. rewrite elem_of_difference, elem_of_singleton, Hout.
    destruct (decide (rid = r)) as [<-|Hr].
    + rewrite lookup_insert_eq. naive_solver.
    + rewrite lookup_insert_ne by done. naive_solver.
Qed.

(** Replacing a request that stops running while its whole group is dropped. *)
Lemma groups_drop gs rs n rid s s' :
  groups_ok gs rs n → rs !! rid = Some s → ¬ running s' →
  groups_ok (delete (rs_current_group s) gs) (<[rid := s']> rs) n.
Proof.
  intros Hg Hs Hs' gid g' [Hne Hl]%lookup_delete_Some.
  destruct (Hg gid g' Hl) as (Hn & He & Hout). do 2 (split; [done|]).
  intros r. rewrite Hout. destruct (decide (rid = r)) as [<-|Hr].
  - rewrite lookup_insert_eq, Hs. naive_solver.
  - by rewrite lookup_insert_ne.
Qed.

(** A request that is not running is in no group. *)
Lemma erase_not_running gs rs n rid s gid :
  groups_ok gs rs n → rs !! rid = Some s → ¬ running s → erase_member gid rid gs = gs.
Proof.
  intros Hg Hs Hr. unfold erase_member. destruct (gs !! gid) as [g|] eqn:E; [|done].
  destruct (Hg gid g E) as (_ & He & Hout).
  assert (rid ∉ gs_outstanding g) as Hnot by (rewrite Hout; naive_solver).
  rewrite difference_disjoint_L by set_solver. rewrite bool_decide_false by done.
  apply insert_id. rewrite E. by destruct g.
Qed.

Lemma agree_put gs gs' rs rid s' :
  workers_agree gs rs →
  (∀ j g', gs' !! j = Some g' → ∃ g, gs !! j = Some g ∧ gs_worker g' = gs_worker g) →
  (running s' → ∃ s, rs !! rid = Some s ∧ running s ∧
     rs_current_group s = rs_current_group s' ∧
     rs_dispatched_worker s = rs_dispatched_worker s') →
  workers_agree gs' (<[rid := s']> rs).
Proof.
  intros Ha Hgs Hs r s g [[<- <-]|[Hne Hl]]%lookup_insert_Some Hrun Hg.
  - destruct (Hs Hrun) as (s & Hl & Hrun' & Hcg & <-).
    destruct (Hgs _ _ Hg) as (g0 & Hg0 & ->). rewrite <- Hcg in Hg0. by eapply Ha.
  - destruct (Hgs _ _ Hg) as (g0 & Hg0 & ->). by eapply Ha.
Qed.

Lemma gens_put rs rid s' :
  gens_distinct rs →
  (rs_current_generation s' ≠ 0 → ∀ r s, rs !! r = Some s → r ≠ rid →
     rs_current_generation s ≠ rs_current_generation s') →
  gens_distinct (<[rid := s']> rs).
Proof.
  intros Hd Hs r1 r2 s1 s2 H1 H2 Hz Heq.
  apply lookup_insert_Some in H1 as [[<- <-]|[Hn1 H1]];
    apply lookup_insert_Some in H2 as [[<- <-]|[Hn2 H2]]; try done.
  - exfalso. eapply (Hs Hz r2); eauto.
  - exfalso. eapply (Hs ltac:(congruence) r1); eauto.
  - by eapply Hd.
Qed.

Lemma gens_keep rs rid s s' :
  gens_distinct rs → rs !! rid = Some s →
  rs_current_generation s' = 0 ∨ rs_current_generation s' = rs_current_generation s →
  gens_distinct (<[rid := s']> rs).
Proof.
  intros Hd Hs Hg. apply gens_put; [done|]. intros Hz r x Hr Hne Heq. apply Hne.
  destruct Hg as [Hg|Hg]; [congruence|]. eapply (Hd r rid x s); congruence.
Qed.

(** ** Accounting lemmas *)

Lemma map_at_insert {A} (d : A) m k v j :
  map_at d (<[k := v]> m) j = if decide (k = j) then v else map_at d m j.
Proof. unfold map_at. rewrite lookup_insert. by destruct (decide (k = j)). Qed.

Lemma map_at_insert_eq {A} (d : A) m k v : map_at d (<[k := v]> m) k = v.
Proof. rewrite map_at_insert. by rewrite decide_True. Qed.

(** A sum over the table after one request was replaced. *)
Lemma sum_put (f : Rs → Z) (rs : gmap Z Rs) rid s' :
  map_sum (λ _, f) (<[rid := s']> rs)
  = map_sum (λ _, f) rs - match rs !! rid with Some s => f s | None => 0 end + f s'.
Proof.
  destruct (rs !! rid) as [s|] eqn:E.
  - by rewrite (map_sum_insert _ _ _ _ s E).
  - rewrite map_sum_insert_new by done. lia.
Qed.

Lemma size_put (rs : gmap Z Rs) rid s s' :
  rs !! rid = Some s → size (<[rid := s']> rs) = size rs.
Proof. intros H. apply map_size_insert_Some. by exists s. Qed.

(** A class of requests that misses one is smaller than the table. *)
Lemma count_lt (P : Rs → bool) (rs : gmap Z Rs) rid s :
  rs !! rid = Some s → P s = false →
  0 <= map_sum (λ _ x, if P x then 1 else 0) rs < Z.of_nat (size rs).
Proof.
  intros Hs HP. split; [apply map_sum_nonneg; intros; case_if; lia|].
  rewrite (map_sum_delete _ _ _ _ Hs), HP.
  pose proof (map_sum_bound (λ _ x, if P x then 1 else 0) (delete rid rs) 1) as Hb.
  assert (size rs = S (size (delete rid rs))) as ->.
  { rewrite <- (insert_delete_id rs rid s Hs) at 1.
    apply map_size_insert_None, lookup_delete_eq. }
  assert (map_sum (λ _ x, if P x then 1 else 0) (delete rid rs)
          <= 1 * Z.of_nat (size (delete rid rs))); [|lia].
  apply Hb. intros; case_if; lia.
Qed.

Lemma count_pos (P : Rs → bool) (rs : gmap Z Rs) rid s :
  rs !! rid = Some s → P s = true →
  1 <= map_sum (λ _ x, if P x then 1 else 0) rs <= Z.of_nat (size rs).
Proof.
  intros Hs HP. split.
  - pose proof (map_sum_ge_one (λ _ x, if P x then 1 else 0) rs rid s) as Hge.
    simpl in Hge. rewrite HP in Hge. apply Hge; [|done]. intros; case_if; lia.
  - etransitivity; [apply (map_sum_bound _ _ 1); intros; case_if; lia|lia].
Qed.

Lemma count_range (P : Rs → bool) (rs : gmap Z Rs) :
  0 <= map_sum (λ _ x, if P x then 1 else 0) rs <= Z.of_nat (size rs).
Proof.
  split; [apply map_sum_nonneg; intros; case_if; lia|].
  etransitivity; [apply (map_sum_bound _ _ 1); intros; case_if; lia|lia].
Qed.

Lemma live_tokens_nonneg t (rs : gmap Z Rs) :
  (∀ r x, rs !! r = Some x → request_fits (rs_request x)) → 0 <= live_tokens t rs.
Proof.
  intros Hok. apply map_sum_nonneg. intros r x Hx. case_if; [|lia].
  apply remaining_le_prompt, (Hok r x Hx).
Qed.

Lemma live_tokens_ge t (rs : gmap Z Rs) rid s :
  (∀ r x, rs !! r = Some x → request_fits (rs_request x)) →
  rs !! rid = Some s → in_tenant t s = true →
  remaining_prefill_tokens (rs_request s) <= live_tokens t rs.
Proof.
  intros Hok Hs Ht. unfold live_tokens.
  pose proof (map_sum_ge_one (λ _ s, if in_tenant t s then
    remaining_prefill_tokens (rs_request s) else 0) rs rid s) as Hge.
  simpl in Hge. rewrite Ht in Hge. apply Hge; [|done].
  intros r x Hx. case_if; [|lia]. apply remaining_le_prompt, (Hok r x Hx).
Qed.

(** The tenant table matters only through the two accounted fields. *)
Lemma tenants_keep cfg ts ts' rs rid s s' :
  tenants_ok cfg ts rs → rs !! rid = Some s → rs_request s' = rs_request s →
  nonterminal s' = nonterminal s →
  (∀ t, ts_outstanding (map_at TenantService_default ts' t)
        = ts_outstanding (map_at TenantService_default ts t) ∧
        ts_admitted_tokens (map_at TenantService_default ts' t)
        = ts_admitted_tokens (map_at TenantService_default ts t)) →
  tenants_ok cfg ts' (<[rid := s']> rs).
Proof.
  intros Hk Hs Hq Hn Ht t. cbv zeta. destruct (Ht t) as [-> ->]. destruct (Hk t) as (H1 & H2 & H3 & H4).
  unfold live_count, live_tokens in *. rewrite !sum_put, Hs.
  unfold in_tenant in *. rewrite Hq, Hn. origin_cases; lia.
Qed.

(** A request that reaches a final state leaves its tenant's count; its tokens
    may be returned ([rem]) or not. *)
Lemma tenants_close cfg ts ts' rs rid s s' :
  config_fits cfg → tenants_ok cfg ts rs → (∀ r x, rs !! r = Some x → request_fits (rs_request x)) →
  Z.of_nat (size rs) < 2 ^ 64 → rs !! rid = Some s → rs_request s' = rs_request s →
  nonterminal s = true → nonterminal s' = false →
  (∀ t, let x := map_at TenantService_default ts t in
        let x' := map_at TenantService_default ts' t in
        if rq_tenant_id (rs_request s) =? t then
          ts_outstanding x' = ts_outstanding (dec_outstanding x) ∧
          (ts_admitted_tokens x' = ts_admitted_tokens x ∨
           ts_admitted_tokens x'
           = ts_admitted_tokens (sub_admitted (remaining_prefill_tokens (rs_request s)) x))
        else ts_outstanding x' = ts_outstanding x ∧
             ts_admitted_tokens x' = ts_admitted_tokens x) →
  tenants_ok cfg ts' (<[rid := s']> rs).
Proof.
  intros Hcfg Hk Hok Hsz Hs Hq Hn Hn' Ht t. specialize (Ht t). cbv zeta in *.
  destruct (Hk t) as (H1 & H2 & H3 & H4).
  pose proof (proj1 (Hok rid s Hs)) as Hwf. apply remaining_le_prompt in Hwf as [Hrem Hu].
  destruct (Z.eqb_spec (rq_tenant_id (rs_request s)) t) as [E|E].
  - assert (in_tenant t s = true) as Hin by (unfold in_tenant; rewrite Hn, E, Z.eqb_refl; done).
    assert (in_tenant t s' = false) as Hin' by (unfold in_tenant; rewrite Hn'; apply andb_false_r).
    pose proof (count_pos (in_tenant t) rs rid s Hs Hin) as Hc.
    pose proof (live_tokens_ge t rs rid s Hok Hs Hin) as Hl.
    destruct Ht as [Ho Ha]. unfold dec_outstanding in Ho. rsimp in *.
    unfold live_count, live_tokens in *. rewrite !sum_put, Hs, Hin, Hin'.
    rewrite Ho. rewrite (proj2 (Z.ltb_lt 0 _)) by lia.
    rewrite u64_small by (unfold is_u64; lia). split; [lia|].
    destruct Ha as [-> | ->]; [origin_cases; lia|]. unfold sub_admitted.
    destruct (Z.leb_spec (remaining_prefill_tokens (rs_request s)) (ts_admitted_tokens
      (map_at TenantService_default ts t))); rsimp; [|origin_cases; lia].
    unfold is_u64 in Hu. destruct Hcfg as (_ & Hlim).
    origin_cases; rewrite u64_small by (unfold is_u64; lia); lia.
  - assert (in_tenant t s = false) as Hin by (unfold in_tenant; by rewrite (proj2 (Z.eqb_neq _ _) E)).
    assert (in_tenant t s' = false) as Hin' by (unfold in_tenant; rewrite Hq; by rewrite (proj2 (Z.eqb_neq _ _) E)).
    destruct Ht as [-> ->]. unfold live_count, live_tokens in *.
    rewrite !sum_put, Hs, Hin, Hin'. origin_cases; lia.
Qed.

Lemma final_terminal l p : final_counter l = Some p → is_terminal_lifecycle l = true.
Proof. by destruct l. Qed.

Lemma life_count_put l (rs : gmap Z Rs) rid s s' :
  rs !! rid = Some s →
  life_count l (<[rid := s']> rs)
  = life_count l rs - (if bool_decide (rs_lifecycle s = l) then 1 else 0)
    + (if bool_decide (rs_lifecycle s' = l) then 1 else 0).
Proof. intros Hs. unfold life_count. by rewrite sum_put, Hs. Qed.

Lemma stats_keep x x' (rs : gmap Z Rs) rid s s' :
  stats_ok x rs → rs !! rid = Some s →
  (nonterminal s' = true ∧ nonterminal s = true ∨ rs_lifecycle s' = rs_lifecycle s) →
  st_admitted x' = st_admitted x → (∀ l p, final_counter l = Some p → p x' = p x) →
  stats_ok x' (<[rid := s']> rs).
Proof.
  intros [Ha Hl] Hs Hn Ha' Hp. split; [by rewrite Ha', (size_put _ _ s)|].
  intros l p Hf. rewrite (Hp l p Hf), (life_count_put l rs rid s s' Hs).
  destruct (Hl l p Hf) as [Hl0 Hl1]. split; [done|].
  pose proof (final_terminal l p Hf) as Ht. unfold nonterminal in Hn.
  destruct Hn as [[H1 H2]|Hn]; [|rewrite Hn; lia].
  rewrite !bool_decide_false by (intros E; rewrite E, Ht in *; done). lia.
Qed.

Lemma stats_close x x' (rs : gmap Z Rs) rid s s' :
  stats_ok x rs → Z.of_nat (size rs) < 2 ^ 64 → rs !! rid = Some s → nonterminal s = true →
  st_admitted x' = st_admitted x →
  (∀ l p, final_counter l = Some p →
     p x' = if bool_decide (rs_lifecycle s' = l) then p x +u 1 else p x) →
  stats_ok x' (<[rid := s']> rs).
Proof.
  intros [Ha Hl] Hsz Hs Hn Ha' Hp. split; [by rewrite Ha', (size_put _ _ s)|].
  intros l p Hf. rewrite (Hp l p Hf), (life_count_put l rs rid s s' Hs).
  destruct (Hl l p Hf) as [Hl0 Hl1]. pose proof (og_final_nonneg l) as Hog.
  assert (bool_decide (rs_lifecycle s = l) = false) as Hne.
  { apply bool_decide_false. intros E. unfold nonterminal in Hn.
    by rewrite E, (final_terminal l p Hf) in Hn. }
  pose proof (count_lt (λ s, bool_decide (rs_lifecycle s = l)) rs rid s Hs Hne) as Hc.
  rewrite Hne. unfold life_count in *. case_if; [|lia].
  rewrite u64_small by (unfold is_u64; lia). lia.
Qed.
End inv.

(** Without a recovery the counters are exact. *)
Lemma stats_new x rs :
  stats_ok (OR := origin_new) x rs →
  st_admitted x = Z.of_nat (size rs) ∧ ∀ l p, final_counter l = Some p → p x = life_count l rs.
Proof.
  intros [[_ Ha] Hf]. cbn [og_admitted og_final origin_new] in *. split; [lia|].
  intros l p Hl. destruct (Hf l p Hl). lia.
Qed.

Arguments si_cfg {FE OR R} st _ : rename.
Arguments si_size {FE OR R} st _ : rename.
Arguments si_cap {FE OR R} st _ : rename.
Arguments si_next {FE OR R} st _ : rename.
Arguments si_rs {FE OR R} st _ : rename.
Arguments si_res {FE OR R} st _ : rename.
Arguments si_mem {FE OR R} st _ : rename.
Arguments si_own {FE OR R} st _ : rename.
Arguments si_fresh {FE OR R} st _ : rename.
Arguments si_groups {FE OR R} st _ : rename.
Arguments si_agree {FE OR R} st _ : rename.
Arguments si_gens {FE OR R} st _ : rename.
Arguments si_tenants {FE OR R} st _ : rename.
Arguments si_stats {FE OR R} st _ : rename.
