(* ===== verification/Submission.v ===== *)
(** * What an accepted submission leaves

    The conditions under which a submission with work left is accepted, and the
    state it leaves: one more queued request, its tokens registered, and the
    accounts of its tenant. *)

From S2P Require Import Prelude Float Types Request Chunking Memory Compat Exec Observability SchedState SchedOps SchedFrame SchedInv.

Section submission.
Context `{FE : FloatEnv} `{CK : ClockSource} `{HO : HashOrder}.

Definition tenant_of (st : Impl) (t : TenantId) : TenantService :=
  map_at TenantService_default (tenants_ st) t.

(** Nothing stands against the submission. *)
Record admissible (st : Impl) (req : PrefillRequest) (toks : list Z) : Prop := {
  ad_valid : ei_code (validate req) = ErrorCode_ok;
  ad_fresh : requests_ st !! rq_request_id req = None;
  ad_tokens : Z.of_nat (length toks) = rq_prompt_token_count req;
  ad_capacity : Z.of_nat (size (requests_ st)) < cfg_max_admitted_requests (im_cfg st);
  ad_tenant : ts_outstanding (tenant_of st (rq_tenant_id req))
              < cfg_per_tenant_outstanding_limit (im_cfg st);
  ad_budget : ts_admitted_tokens (tenant_of st (rq_tenant_id req)) +u remaining_prefill_tokens req
              <= cfg_per_tenant_admitted_token_limit (im_cfg st);
  ad_work : remaining_prefill_tokens req ≠ 0
}.

(** What submission does not touch. *)
Definition machinery (st : Impl) :=
  (im_cfg st, im_epoch st, im_mem st, groups_ st, workers_ st,
   (im_next_generation_value st, im_next_reservation_value st, im_next_group_value st)).

Record admitted (st : Impl) (req : PrefillRequest) (toks : list Z) (st' : Impl) : Prop := {
  am_requests : ∃ a t, requests_ st' = <[rq_request_id req := admit_rs (im_cfg st) req a t]> (requests_ st);
  am_tokens : im_token_resolver st' = <[rq_request_id req := toks]> (im_token_resolver st);
  am_machinery : machinery st' = machinery st;
  am_tenants t : ts_admitted_tokens (tenant_of st' t)
    = if rq_tenant_id req =? t then ts_admitted_tokens (tenant_of st t) +u remaining_prefill_tokens req
      else ts_admitted_tokens (tenant_of st t)
}.

Lemma submit_admits st req toks :
  admissible st req toks →
  (submit_with_tokens st req toks).2 = Ok tt ∧ admitted st req toks (submit_with_tokens st req toks).1.
Proof.
  intros [Hv Hf Ht Hc Ho Hb Hw]. unfold submit_with_tokens. cbv zeta.
  rewrite Hv, bool_decide_true by done. cbn [negb]. rewrite Hf, bool_decide_false by (by intros [? ?]).
  unfold register_request. rewrite (proj2 (Z.eqb_eq _ _) Ht). cbn [negb]. eff.
  rewrite (proj2 (Z.leb_gt _ _)) by (by eff). unfold tenant_of in *.
  rewrite map_at_insert_eq. set (x := if d_eqb _ _ then _ else _).
  set (x0 := map_at TenantService_default (tenants_ st) (rq_tenant_id req)) in *.
  assert (ts_outstanding x = ts_outstanding x0 ∧ ts_admitted_tokens x = ts_admitted_tokens x0)
    as [E1 E2] by (unfold x; case_if; by rsimp).
  clearbody x. rewrite E1, E2, (proj2 (Z.leb_gt _ _)), (proj2 (Z.ltb_ge _ _)) by done.
  unfold alloc_attempt, im_now. cbv beta iota zeta. eff.
  rewrite (proj2 (Z.eqb_neq _ _) Hw). split; [done|]. split.
  - cbn [fst]. eff. eauto.
  - cbn [fst]. by eff.
  - cbn [fst]. unfold machinery. by eff.
  - intros t. cbn [fst]. unfold tenant_of. eff. rewrite map_at_insert. case_decide as E.
    + subst t. rewrite Z.eqb_refl. rsimp. rewrite ?map_at_insert_eq. case_if; by rsimp.
    + rewrite map_at_insert, decide_False by done. by rewrite (proj2 (Z.eqb_neq _ _) E).
Qed.

Lemma admit_rs_fields cfg req a t :
  let s := admit_rs cfg req a t in
  queued s ∧ rs_in_flight s = false ∧ rs_cancel_pending s = false ∧ rs_request s = req ∧
  rs_plan s = plan cfg req a 0.
Proof. unfold queued, admit_rs. cbv zeta. by rsimp. Qed.
End submission.
