(* ===== verification/SchedOpsInv.v ===== *)
(** * Every operation but the cycle preserves the invariant

    Two master lemmas carry the proofs: [inv_quiet] for an operation that
    changes no field the invariant reads, and [inv_leave] for one by which a
    request stops running (completion, retry, loss of a worker, expiry) or is
    closed. *)

From S2P Require Import Prelude Float Types Request Chunking Memory Compat Exec Observability SchedState SchedOps SchedCycle SchedFrame SchedInv.

Section ops_inv.
Context `{FE : FloatEnv} `{CK : ClockSource} `{HO : HashOrder} `{OR : Origin}.

(** ** What an operation leaves unchanged *)

Definition same_counters (st st' : Impl) : Prop :=
  im_cfg st' = im_cfg st ∧ im_next_generation_value st' = im_next_generation_value st ∧
  im_next_group_value st' = im_next_group_value st ∧
  im_next_reservation_value st' = im_next_reservation_value st.

Definition same_finals (x x' : Stats) : Prop :=
  st_admitted x' = st_admitted x ∧ ∀ l p, final_counter l = Some p → p x' = p x.

Definition acct (ts : gmap Z TenantService) (t : TenantId) : Z * Z :=
  (ts_outstanding (map_at TenantService_default ts t),
   ts_admitted_tokens (map_at TenantService_default ts t)).

(** Accounting of a request that stays open. *)
Definition stays (st st' : Impl) : Prop :=
  same_finals (im_stats st) (im_stats st') ∧ ∀ t, acct (tenants_ st') t = acct (tenants_ st) t.

(** Accounting of a request that is closed with final state [l]: the counter
    of [l] goes up by one, the tenant's count down by one. *)
Definition closes (st st' : Impl) (s : Rs) (l : Lifecycle) : Prop :=
  st_admitted (im_stats st') = st_admitted (im_stats st) ∧
  (∀ l' p, final_counter l' = Some p →
     p (im_stats st') = if bool_decide (l = l') then p (im_stats st) +u 1 else p (im_stats st)) ∧
  ∀ t, let x := map_at TenantService_default (tenants_ st) t in
    if rq_tenant_id (rs_request s) =? t then
      (acct (tenants_ st') t).1 = ts_outstanding (dec_outstanding x) ∧
      ((acct (tenants_ st') t).2 = ts_admitted_tokens x ∨
       (acct (tenants_ st') t).2
       = ts_admitted_tokens (sub_admitted (remaining_prefill_tokens (rs_request s)) x))
    else acct (tenants_ st') t = acct (tenants_ st) t.

Lemma core_rs_ok cfg ng ngrp rid s s' :
  rs_ok cfg ng ngrp rid s → core s' = core s → rs_ok cfg ng ngrp rid s'.
Proof.
  unfold core. intros [] Hc. injection Hc as E1 E2 E3 E4 E5 E6 E7 E8 E9 E10 E11 E12 E13.
  split; unfold queued, running, nonterminal, pending_chunk in *; rewrite ?E1, ?E2, ?E3, ?E4, ?E5, ?E6, ?E7,
    ?E8, ?E9, ?E10, ?E11, ?E12, ?E13; done.
Qed.

Lemma rs_ok_mono cfg ng ngrp ng' ngrp' rid s :
  rs_ok cfg ng ngrp rid s → ng <= ng' → ngrp <= ngrp' → rs_ok cfg ng' ngrp' rid s.
Proof. intros [] H1 H2. split; try done; lia. Qed.

Lemma erase_nil gs rs n rid : groups_ok gs rs n → erase_member 0 rid gs = gs.
Proof.
  intros Hg. unfold erase_member. destruct (gs !! 0) as [g|] eqn:E; [|done].
  apply Hg in E as [? _]. lia.
Qed.

Lemma delete_nil gs rs n : groups_ok gs rs n → delete 0 gs = gs.
Proof.
  intros Hg. destruct (gs !! 0) as [g|] eqn:E; [|by apply delete_id].
  apply Hg in E as [? _]. lia.
Qed.

(** ** Master lemmas *)

(** An operation that touches no component the invariant reads. *)
Lemma inv_frame st st' :
  sched_inv st → same_counters st st' → requests_ st' = requests_ st →
  im_mem st' = im_mem st → groups_ st' = groups_ st → stays st st' → sched_inv st'.
Proof.
  intros Hi (Hc & Hg & Hgr & Hrv) Hr Hm Hgs [[Ha Hf] Ht].
  destruct Hi as [? ? ? ? ? ? Hmem ? ? ? ? ? Hten Hsta].
  split; rewrite ?Hc, ?Hg, ?Hgr, ?Hrv, ?Hr, ?Hm, ?Hgs; try done.
  - intros t. specialize (Ht t). unfold acct in Ht. injection Ht as H1 H2. cbv zeta.
    rewrite H1, H2. apply Hten.
  - destruct Hsta as [Ha0 Hf0]. split; [congruence|]. intros l p Hl.
    rewrite (Hf l p Hl). by apply Hf0.
Qed.

Lemma inv_quiet st st' rid s s' :
  sched_inv st → requests_ st !! rid = Some s → core s' = core s →
  same_counters st st' → requests_ st' = <[rid := s']> (requests_ st) →
  im_mem st' = im_mem st → groups_ st' = groups_ st → stays st st' → sched_inv st'.
Proof.
  intros Hi Hs Hcore (Hc & Hg & Hgr & Hrv) Hr Hm Hgs [[Ha Hf] Ht].
  pose proof (core_rs_ok _ _ _ _ _ _ (si_rs _ Hi _ _ Hs) Hcore) as Hok'.
  pose proof Hcore as Hcore'. unfold core in Hcore'.
  injection Hcore' as E1 E2 E3 E4 E5 E6 E7 E8 E9 E10 E11 E12 E13.
  assert (running s' ↔ running s) as Hrun by (unfold running; rewrite E10, E3; done).
  destruct Hi as [? ? ? ? ? ? Hmem ? ? ? ? ? Hten Hsta]. split; rewrite ?Hc, ?Hg, ?Hgr, ?Hrv, ?Hr, ?Hm, ?Hgs; try done.
  - by rewrite (size_put _ _ s).
  - by rewrite (size_put _ _ s).
  - intros r x [[<- <-]|[_ Hx]]%lookup_insert_Some; auto.
  - intros r x [[<- <-]|[_ Hx]]%lookup_insert_Some; [|eauto]. rewrite Hrun, E8. eauto.
  - by apply (owns_keep _ _ _ s).
  - apply groups_keep; [done| |naive_solver]. rewrite Hrun. naive_solver.
  - eapply agree_put; [done|naive_solver|]. intros H%Hrun. naive_solver.
  - eapply gens_keep; eauto.
  - apply (tenants_keep _ (tenants_ st) _ _ _ s); try done.
    + unfold nonterminal. by rewrite E3.
    + intros t. specialize (Ht t). unfold acct in Ht. by injection Ht.
  - apply (stats_keep (im_stats st) _ _ _ s); auto.
Qed.

Lemma inv_leave st st' rid s s' :
  sched_inv st → requests_ st !! rid = Some s → same_counters st st' →
  requests_ st' = <[rid := s']> (requests_ st) →
  rs_ok (im_cfg st) (im_next_generation_value st) (im_next_group_value st) rid s' →
  ¬ running s' → rs_reservation s' = 0 → rs_request s' = rs_request s →
  rs_current_generation s' = 0 ∨ rs_current_generation s' = rs_current_generation s →
  im_mem st' = release_opt (rs_reservation s) (im_mem st) →
  groups_ st' = erase_member (rs_current_group s) rid (groups_ st) ∨
  groups_ st' = delete (rs_current_group s) (groups_ st) →
  nonterminal s = true →
  (if nonterminal s' then stays st st' else closes st st' s (rs_lifecycle s')) →
  sched_inv st'.
Proof.
  intros Hi Hs (Hc & Hg & Hgr & Hrv) Hr Hok Hrun Hres Hq Hgen Hm Hgs Hn Hacct.
  assert (∀ r x, requests_ st !! r = Some x → request_fits (rs_request x)) as Hfits
    by (intros r x Hx; apply (ro_req _ _ _ _ _ (si_rs _ Hi r x Hx))).
  destruct Hi as [? ? ? ? ? ? Hmem ? ? ? ? ? Hten Hsta]. split; rewrite ?Hc, ?Hg, ?Hgr, ?Hrv, ?Hr, ?Hm; try done.
  - by rewrite (size_put _ _ s).
  - by rewrite (size_put _ _ s).
  - intros r x [[<- <-]|[_ Hx]]%lookup_insert_Some; auto.
  - intros r x [[<- <-]|[_ Hx]]%lookup_insert_Some; [|eauto]. rewrite Hres.
    split; [done|intros [?|[]%elem_of_empty]; done].
  - by apply mem_ok_release.
  - apply owns_release; try done. apply Hmem.
  - by apply fresh_release.
  - destruct Hgs as [-> | ->]; [by apply groups_leave|by apply groups_drop].
  - eapply agree_put; [done| |done]. intros j g'. destruct Hgs as [-> | ->].
    + intros [[H _]|(-> & g & H & _ & ->)]%lookup_erase_member; eauto.
    + intros [_ H]%lookup_delete_Some. eauto.
  - eapply gens_keep; eauto.
  - destruct (nonterminal s') eqn:En.
    + destruct Hacct as [_ Ht]. apply (tenants_keep _ (tenants_ st) _ _ _ s); try done; [congruence|].
      intros t. specialize (Ht t). unfold acct in Ht. by injection Ht.
    + destruct Hacct as (_ & _ & Ht). apply (tenants_close _ (tenants_ st) _ _ _ s); try done.
      intros t. specialize (Ht t). cbv zeta in *. unfold acct in Ht. simpl in Ht.
      case_if; [done|]. by injection Ht.
  - destruct (nonterminal s') eqn:En.
    + destruct Hacct as [[Ha Hf] _]. apply (stats_keep (im_stats st) _ _ _ s); auto.
    + destruct Hacct as (Ha & Hf & _). apply (stats_close (im_stats st) _ _ _ s); auto.
Qed.

(** ** Requests that stay well-formed *)

Lemma restart_attempt_eq st s :
  restart_attempt st s =
  (st <| im_next_attempt_value ::= λ n, n +u 1 |>,
   s <| rs_retries_used ::= λ n, i32 (n + 1) |>
     <| rs_attempt := im_next_attempt_value st |>
     <| rs_plan := plan (im_cfg st) (rs_request s) (im_next_attempt_value st) 0 |>
     <| rs_next_chunk_index := 0 |> <| rs_completed_uncached := 0 |>
     <| rs_completed_token_total := 0 |> <| rs_current_generation := 0 |>
     <| rs_lifecycle := Lifecycle_queued |> <| rs_last_work_kind := WorkKind_retried |>
     <| rs_recovered_work := false |>).
Proof. done. Qed.

Lemma request_retries r : request_fits r → is_i32 (rq_max_retries r).
Proof. intros [(_ & _ & _ & _ & _ & _ & H) _]. done. Qed.

(** A request restarted with a new attempt. *)
Lemma restart_ok cfg ng ngrp rid s s' :
  config_fits cfg → rs_ok cfg ng ngrp rid s → nonterminal s = true → 0 < ng → 0 < ngrp →
  rs_retries_used s < rq_max_retries (rs_request s) →
  rs_request s' = rs_request s → rs_plan s' = plan cfg (rs_request s) (rs_attempt s') 0 →
  rs_lifecycle s' = Lifecycle_queued → rs_in_flight s' = false →
  rs_next_chunk_index s' = 0 → rs_completed_uncached s' = 0 → rs_current_generation s' = 0 →
  0 <= rs_current_group s' < ngrp →
  rs_retries_used s' = i32 (rs_retries_used s + 1) → rs_ok cfg ng ngrp rid s'.
Proof.
  intros [Hcfg _] [] Hn Hng Hngrp Hret E1 E2 E3 E4 E5 E6 E7 E8 E9.
  pose proof (request_retries _ ro_req) as Hi32. unfold is_i32 in Hi32.
  pose proof (remaining_le_prompt _ (proj1 ro_req)) as [Hrem _].
  split; unfold queued, running, nonterminal, pending_chunk; rewrite ?E1, ?E2, ?E3, ?E4, ?E5, ?E6, ?E7;
    try done; try lia.
  - intros _. by apply ro_work.
  - intros _. destruct (plan_first cfg (rs_request s) (rs_attempt s') 0) as (ch & Hch & H0);
      [apply ro_req|done|by apply ro_work|]. exists ch. split; [done|]. rewrite H0.
    by apply accounted_refl.
  - intros _. destruct (plan_first cfg (rs_request s) (rs_attempt s') 0) as (ch & Hch & _);
      [apply ro_req|done|by apply ro_work|]. by exists ch.
  - rewrite E9, i32_small by (unfold is_i32; lia). lia.
Qed.

(** The state after the chunk in flight was accounted. *)
Lemma account_progress cfg ng ngrp rid s ch :
  config_fits cfg → rs_ok cfg ng ngrp rid s → pending_chunk s = Some ch →
  accounted (rs_completed_uncached s) (ck_token_start ch) →
  pending_token_count s = ck_token_count ch ∧
  accounted (rs_completed_uncached s +u ck_token_count ch) (ck_token_start ch + ck_token_count ch) ∧
  0 <= ck_token_start ch + ck_token_count ch <= remaining_prefill_tokens (rs_request s) ∧
  (if u32 (rs_next_chunk_index s + 1) <? chunk_count s
   then u32 (rs_next_chunk_index s + 1) = rs_next_chunk_index s + 1 ∧
        ∃ ch', pl_chunks (rs_plan s) !! Z.to_nat (rs_next_chunk_index s + 1) = Some ch' ∧
               ck_token_start ch' = ck_token_start ch + ck_token_count ch
   else ck_token_start ch + ck_token_count ch = remaining_prefill_tokens (rs_request s)).
Proof.
  intros [Hcfg _] Hok Hch Hstart. destruct Hok.
  destruct ro_req as [Hwf Hprompt]. pose proof (remaining_le_prompt _ Hwf) as [Hrem _].
  unfold pending_chunk, chunk_count in *. pose proof Hch as Hch'. rewrite ro_plan in Hch'.
  pose proof (plan_next _ _ _ _ _ _ Hwf Hcfg Hch') as (H0 & H1 & H2 & H3).
  pose proof (plan_length_le cfg (rs_request s) (rs_attempt s) 0 Hwf Hcfg) as Hlen.
  rewrite <- ro_plan in Hlen, H3. pose proof (lookup_lt_Some _ _ _ Hch) as Hlt.
  assert (u32 (rs_next_chunk_index s + 1) = rs_next_chunk_index s + 1) as Hu
    by (apply u32_small; unfold is_u32; lia).
  rewrite Hu. split_and!.
  - unfold pending_token_count, pending_chunk, chunk_count. rewrite Hch. case_if; lia.
  - pose proof (accounted_range _ _ Hstart H0). rewrite u64_small by (unfold is_u64; lia).
    unfold accounted in *. origin_cases; lia.
  - lia.
  - lia.
  - replace (S (Z.to_nat (rs_next_chunk_index s))) with (Z.to_nat (rs_next_chunk_index s + 1))
      in H3 by lia.
    case_if.
    + split; [done|]. destruct (_ !! Z.to_nat (rs_next_chunk_index s + 1)) as [ch'|] eqn:E'; [eauto|].
      apply lookup_ge_None in E'. lia.
    + rewrite (proj2 (lookup_ge_None _ _)) in H3 by lia. done.
Qed.

(** ** Accounting calculus *)

Lemma stays_eq st st' :
  im_stats st' = im_stats st → tenants_ st' = tenants_ st → stays st st'.
Proof. intros H1 H2. split; [split|]; by rewrite ?H1, ?H2. Qed.

Lemma stays_trans st1 st2 st3 : stays st1 st2 → stays st2 st3 → stays st1 st3.
Proof.
  intros [[H1 H2] H3] [[H4 H5] H6]. split; [split|].
  - congruence.
  - intros l p Hl. rewrite (H5 l p Hl). eauto.
  - intros t. by rewrite H6.
Qed.

Lemma stays_stats st f :
  (∀ x, same_finals x (f x)) → stays st (upd_stats st f).
Proof. intros H. split; [apply H|done]. Qed.

Lemma acct_insert ts t v t' :
  acct (<[t := v]> ts) t'
  = if t =? t' then (ts_outstanding v, ts_admitted_tokens v) else acct ts t'.
Proof.
  unfold acct. rewrite map_at_insert. destruct (Z.eqb_spec t t') as [->|Hne].
  - by rewrite decide_True.
  - by rewrite decide_False.
Qed.

Lemma stays_tenant st t f :
  (∀ x, ts_outstanding (f x) = ts_outstanding x ∧ ts_admitted_tokens (f x) = ts_admitted_tokens x) →
  stays st (upd_tenant st t f).
Proof.
  intros H. split; [split; done|]. intros t'. unfold upd_tenant. rsimp. rewrite acct_insert.
  case_if; [|done]. subst. unfold acct. by destruct (H (map_at TenantService_default (tenants_ st) t')) as [-> ->].
Qed.

Lemma closes_stays_r st1 st2 st3 s l : closes st1 st2 s l → stays st2 st3 → closes st1 st3 s l.
Proof.
  intros (H1 & H2 & H3) [[H4 H5] H6]. split_and!.
  - congruence.
  - intros l' p Hl. rewrite (H5 _ p Hl). eauto.
  - intros t. specialize (H3 t). by rewrite H6.
Qed.

Lemma closes_stays_l st1 st2 st3 s l : stays st1 st2 → closes st2 st3 s l → closes st1 st3 s l.
Proof.
  intros [[H4 H5] H6] (H1 & H2 & H3). split_and!.
  - congruence.
  - intros l' p Hl. rewrite (H2 l' p Hl), (H5 l' p Hl). done.
  - intros t. specialize (H3 t). specialize (H6 t). cbv zeta in *. unfold acct in *.
    injection H6 as Ho Ha. case_if; simpl in *; [|congruence].
    unfold dec_outstanding, sub_admitted in *. rsimp in *. rewrite Ho, Ha in H3.
    destruct H3 as [-> H3]. split; [done|].
    destruct H3 as [-> | ->]; [by left|right]. case_if; rsimp; congruence.
Qed.

End ops_inv.

(** Accounting side conditions of an operation whose final state is explicit. *)
Ltac acct_closes :=
  split; [eff; reflexivity|]; split;
  [ intros l' p' Hl'; destruct l'; simplify_eq/=; eff; reflexivity
  | intros t; cbv zeta; eff; rewrite ?acct_insert; case_if; [|reflexivity]; subst; cbn [fst snd];
    unfold close_tenant, sub_admitted, dec_outstanding;
    rewrite ?map_at_insert_eq; rsimp; repeat (case_if; rsimp); auto ].

Ltac acct_stays :=
  split; [split; [eff; reflexivity|intros l' p' Hl'; destruct l'; simplify_eq/=; eff; reflexivity]|];
  intros t; eff; rewrite ?acct_insert; repeat case_if; subst; unfold acct; rsimp; reflexivity.

Ltac counters := unfold same_counters; eff; repeat split; reflexivity.

(** The operation leaves every component the invariant reads as it was. *)
Ltac frame_inv st :=
  apply (inv_frame st); [assumption|counters|eff; reflexivity..|acct_stays].

Section completion_inv.
Context `{FE : FloatEnv} `{CK : ClockSource} `{HO : HashOrder} `{OR : Origin}.

(** ** Completion *)

(** What applying an outcome does besides changing the request itself. *)
Record outcome_effect (st : Impl) (s : Rs) (st' : Impl) (s' : Rs) : Prop := {
  oe_counters : same_counters st st';
  oe_requests : requests_ st' = requests_ st;
  oe_mem : im_mem st' = im_mem st;
  oe_groups : groups_ st' = groups_ st;
  oe_workers : workers_ st' = workers_ st;
  oe_request : rs_request s' = rs_request s;
  oe_reservation : rs_reservation s' = rs_reservation s;
  oe_group : rs_current_group s' = rs_current_group s;
  oe_flight : rs_in_flight s' = rs_in_flight s;
  oe_gen : rs_current_generation s' = 0 ∨ rs_current_generation s' = rs_current_generation s;
  oe_acct : if nonterminal s' then stays st st' else closes st st' s (rs_lifecycle s')
}.

Lemma apply_outcome_effect st s r :
  nonterminal s = true →
  outcome_effect st s (apply_outcome st s r).1 (apply_outcome st s r).2.
Proof.
  intros Hn. unfold apply_outcome.
  destruct (mr_outcome r); repeat case_if; rewrite ?restart_attempt_eq;
    unfold finish; cbv beta iota zeta; cbn [fst snd].
  all: split; [counters|eff; reflexivity..|eff; first [by left|by right]|].
  all: unfold nonterminal in *; eff; rewrite ?Hn; cbn [negb is_terminal_lifecycle].
  all: first [acct_closes|acct_stays].
Qed.

(** A request closed without being completed. *)
Lemma close_ok cfg ng ngrp rid s s' :
  rs_ok cfg ng ngrp rid s →
  closed_lifecycle (rs_lifecycle s') = true →
  (rs_in_flight s' = true → rs_lifecycle s' = Lifecycle_expired ∧ rs_in_flight s = true) →
  rs_request s' = rs_request s → rs_attempt s' = rs_attempt s → rs_plan s' = rs_plan s →
  rs_next_chunk_index s' = rs_next_chunk_index s →
  rs_completed_uncached s' = rs_completed_uncached s →
  rs_current_generation s' = rs_current_generation s →
  0 <= rs_current_group s' < ngrp →
  rs_retries_used s' = rs_retries_used s → rs_ok cfg ng ngrp rid s'.
Proof.
  intros [] Hl Hf E1 E2 E3 E4 E5 E6 E7 E8.
  assert (is_terminal_lifecycle (rs_lifecycle s') = true) as Ht by (by destruct (rs_lifecycle s')).
  split; unfold queued, running, nonterminal, pending_chunk;
    rewrite ?E1, ?E2, ?E3, ?E4, ?E5, ?E6, ?E8, ?Ht; try done.
  - by destruct (rs_lifecycle s').
  - intros H%Hf. destruct H as [-> H]. split; [by right|]. by apply ro_flight.
  - intros [H|[_ H]]; rewrite H in Ht; done.
  - intros _ H. by rewrite H in Hl.
Qed.

(** After accounting, the request is dispatched but no longer in flight. *)
Lemma account_ok cfg ng ngrp rid st s :
  config_fits cfg → rs_ok cfg ng ngrp rid s → running s →
  let s1 := (account_chunk st s).2 in
  rs_ok cfg ng ngrp rid s1 ∧ rs_lifecycle s1 = Lifecycle_dispatched ∧ rs_in_flight s1 = false ∧
  (if u32 (rs_next_chunk_index s1 + 1) <? chunk_count s1
   then ∃ ch, pl_chunks (rs_plan s1) !! Z.to_nat (u32 (rs_next_chunk_index s1 + 1)) = Some ch ∧
              accounted (rs_completed_uncached s1) (ck_token_start ch)
   else accounted (rs_completed_uncached s1) (remaining_prefill_tokens (rs_request s1))).
Proof.
  intros Hcfg Hok Hrun s1. pose proof Hok as [].
  destruct (ro_live ltac:(by right)) as (ch & Hch & Hst).
  pose proof (account_progress _ _ _ _ _ _ Hcfg Hok Hch Hst) as (H1 & H2 & H3 & H4).
  destruct Hrun as [Hf Hl].
  pose proof (accounted_range _ _ H2 ltac:(lia)) as Hrange.
  assert (rs_completed_uncached s1 = rs_completed_uncached s +u ck_token_count ch) as E.
  { unfold s1, account_chunk, im_now. eff. by rewrite H1. }
  unfold s1, account_chunk, im_now, chunk_count in *. revert E. eff. intros E. split_and!; try done.
  - split; unfold queued, running, nonterminal, pending_chunk; eff; rewrite ?E, ?Hl; try done.
    + intros _. apply ro_work. unfold nonterminal. by rewrite Hl.
    + intros [H|[H _]]; done.
    + lia.
  - rewrite E. destruct (_ <? _); [|by rewrite <- H4]. destruct H4 as [Hu (ch' & Hch' & Hs')].
    exists ch'. rewrite Hu, Hs'. done.
Qed.

Lemma apply_outcome_ok cfg ng ngrp rid st s r :
  config_fits cfg → im_cfg st = cfg → rs_ok cfg ng ngrp rid s → 0 < ng → 0 < ngrp →
  rs_lifecycle s = Lifecycle_dispatched → rs_in_flight s = false →
  (if u32 (rs_next_chunk_index s + 1) <? chunk_count s
   then ∃ ch, pl_chunks (rs_plan s) !! Z.to_nat (u32 (rs_next_chunk_index s + 1)) = Some ch ∧
              accounted (rs_completed_uncached s) (ck_token_start ch)
   else accounted (rs_completed_uncached s) (remaining_prefill_tokens (rs_request s))) →
  rs_ok cfg ng ngrp rid (apply_outcome st s r).2.
Proof.
  intros Hcfg Hcst Hok Hng Hngrp Hl Hf Hnext.
  assert (nonterminal s = true) as Hn by (unfold nonterminal; by rewrite Hl).
  assert (0 <= rs_current_group s < ngrp) as Hgrp by apply Hok.
  unfold apply_outcome, finish.
  destruct (mr_outcome r); repeat case_if; rewrite ?restart_attempt_eq; cbv beta iota zeta;
    cbn [fst snd].
  all: try done.
  all: try (eapply close_ok; eff; try done; by rewrite Hf).
  all: try (eapply restart_ok; eff; rewrite ?Hcst; done).
  all: destruct Hok; split; unfold queued, running, nonterminal, pending_chunk; eff;
    rewrite ?Hf; try done; eauto using accounted_fresh.
  all: first [exact (u32_range _) | intros [H|[H _]]; done | destruct Hnext as (ch & Hch & _); by exists ch].
Qed.

Lemma account_chunk_stays st s : stays st (account_chunk st s).1.
Proof. unfold account_chunk, im_now. cbv beta iota zeta; cbn [fst snd]. acct_stays. Qed.

(** The whole authoritative application, on the states it reaches. *)
Lemma apply_completion_inv st s r :
  sched_inv st → requests_ st !! mr_request_id r = Some s → running s →
  sched_inv (apply_completion st s r).1.
Proof.
  intros Hi Hs Hrun. set (rid := mr_request_id r) in *.
  pose proof (si_rs _ Hi _ _ Hs) as Hok. pose proof (proj1 (ro_id _ _ _ _ _ Hok)) as Hid.
  destruct (account_ok _ _ _ _ st s (si_cfg _ Hi) Hok Hrun) as (Hok1 & Hl1 & Hf1 & Hnext).
  unfold apply_completion. destruct (account_chunk st s) as [st1 s1] eqn:Eacc.
  assert (same_counters st st1 ∧ requests_ st1 = requests_ st ∧ im_mem st1 = im_mem st ∧
    groups_ st1 = groups_ st ∧ stays st st1 ∧ rs_request s1 = rs_request s ∧
    rs_reservation s1 = rs_reservation s ∧ rs_current_group s1 = rs_current_group s ∧
    rs_current_generation s1 = rs_current_generation s)
    as ((C1 & C2 & C3 & C4) & R1 & M1 & G1 & T1 & Q1 & V1 & K1 & N1).
  { pose proof (account_chunk_stays st s) as Hst. revert Eacc Hst. unfold account_chunk, im_now.
    intros [= <- <-] Hst. split_and!; try done; counters. }
  simpl in Hnext, Hok1, Hl1, Hf1.
  assert (nonterminal s1 = true) as Hn1 by (unfold nonterminal; by rewrite Hl1).
  assert (nonterminal s = true) as Hn by (unfold nonterminal; by rewrite (proj2 Hrun)).
  pose proof (apply_outcome_ok _ _ _ _ st1 s1 r (si_cfg _ Hi) C1 Hok1
    (proj1 (si_next _ Hi)) (proj2 (si_next _ Hi)) Hl1 Hf1 Hnext) as Hok2.
  pose proof (apply_outcome_effect st1 s1 r Hn1) as Heff.
  destruct (apply_outcome st1 s1 r) as [st2 s2]. simpl in Hok2, Heff.
  destruct Heff as [(D1 & D2 & D3 & D4) R2 M2 G2 W2 Q2 V2 K2 F2 N2 A2].
  assert (rs_current_group s2 = rs_current_group s) as Hcg by congruence.
  assert (rq_request_id (rs_request s2) = rid) as Hid2 by congruence.
  cbv beta iota zeta. rewrite release_reservation_eq, detach_eq. cbv beta iota zeta. cbn [fst snd].
  eapply (inv_leave st _ rid s); [done|done|..].
  - unfold same_counters. eff. split_and!; congruence.
  - eff. by rewrite R2, R1.
  - destruct Hok2. split; unfold queued, running, pending_chunk, nonterminal in *; eff; try done.
    split; [done|]. apply Hi.
  - unfold running. eff. rewrite F2, Hf1. by intros [? _].
  - by eff.
  - eff. congruence.
  - eff. destruct N2 as [->|N2]; [by left|right; congruence].
  - eff. rewrite M2, M1. by rewrite V2, V1.
  - left. eff. rewrite G2, G1, Hcg, Hid2. unfold is_nil.
    destruct (Z.eqb_spec (rs_current_group s) 0) as [Ez|]; [|done].
    rewrite Ez. symmetry. eapply erase_nil, Hi.
  - done.
  - unfold nonterminal in *. eff. destruct (negb (is_terminal_lifecycle (rs_lifecycle s2))).
    + eapply stays_trans; [exact T1|]. eapply stays_trans; [exact A2|]. acct_stays.
    + assert (closes st1 st2 s (rs_lifecycle s2)) as A2'.
      { destruct A2 as (A & B & C). split_and!; [done..|]. by rewrite Q1 in C. }
      eapply closes_stays_l; [exact T1|]. eapply closes_stays_r; [exact A2'|]. acct_stays.
Qed.
End completion_inv.
