(* ===== verification/SchedOpsInv2.v ===== *)
(** * Operations that preserve the invariant, continued

    Reports, cancellation, retry, submission and the worker operations. *)

From S2P Require Import Prelude Float Types Request Chunking Memory Compat Exec Observability SchedState SchedOps SchedCycle SchedFrame SchedInv SchedOpsInv.

Section ops_inv2.
Context `{FE : FloatEnv} `{CK : ClockSource} `{HO : HashOrder} `{OR : Origin}.

Lemma report_completion_inv st r : sched_inv st → sched_inv (report_completion st r).1.
Proof.
  intros Hi. unfold report_completion, reject_with.
  destruct (is_nil (mr_epoch r)); [done|].
  destruct (negb (mr_epoch r =? im_epoch st)); [cbn [fst]; frame_inv st|].
  destruct (requests_ st !! mr_request_id r) as [s|] eqn:Hs; [|done].
  destruct (_ && boot_mismatch st r); [cbn [fst]; frame_inv st|].
  destruct (negb (mr_attempt_id r =? rs_attempt s)); [cbn [fst]; frame_inv st|].
  destruct (negb (mr_generation r =? rs_current_generation s)); [cbn [fst]; frame_inv st|].
  destruct (is_terminal_lifecycle (rs_lifecycle s)) eqn:Et; [cbn [fst]; frame_inv st|].
  destruct (rs_in_flight s) eqn:Ef; cbn [negb]; [|cbn [fst]; frame_inv st].
  destruct (_ && negb (mr_worker r =? rs_dispatched_worker s)); [cbn [fst]; frame_inv st|].
  apply apply_completion_inv; try done. split; [done|].
  destruct (ro_flight _ _ _ _ _ (si_rs _ Hi _ _ Hs) Ef) as [[?|E] _]; [done|].
  by rewrite E in Et.
Qed.

Lemma not_flight_not_running s : rs_in_flight s = false → ¬ running s.
Proof. intros H [H' _]. congruence. Qed.

Lemma not_running_unreserved st rid s :
  sched_inv st → requests_ st !! rid = Some s → ¬ running s → rs_reservation s = 0.
Proof.
  intros Hi Hs Hr. destruct (Z.eq_dec (rs_reservation s) 0) as [|Hne]; [done|].
  apply (si_res _ Hi rid s Hs) in Hne as [?|[]%elem_of_empty]; done.
Qed.

Lemma cancel_inv st rid : sched_inv st → sched_inv (cancel st rid).1.
Proof.
  intros Hi. unfold cancel. destruct (requests_ st !! rid) as [s|] eqn:Hs; [|done].
  destruct (is_terminal_lifecycle (rs_lifecycle s)) eqn:Et; [done|].
  pose proof (si_rs _ Hi _ _ Hs) as Hok. pose proof (proj1 (ro_id _ _ _ _ _ Hok)) as Hid.
  destruct (rs_in_flight s) eqn:Ef.
  { cbv beta iota zeta. cbn [fst].
    eapply (inv_quiet st _ rid s); [done|done| |counters|by eff..|acct_stays].
    unfold core. by eff. }
  pose proof (not_flight_not_running s Ef) as Hnr.
  pose proof (not_running_unreserved st rid s Hi Hs Hnr) as Hres.
  assert (0 <= rs_current_group s < im_next_group_value st) as Hg by apply Hok.
  assert (0 < im_next_group_value st) as Hg' by apply Hi.
  rewrite release_reservation_eq. cbv beta iota zeta. repeat eff_step. unfold is_nil. rewrite Hres.
  destruct (Z.eqb_spec (rs_current_group s) 0) as [Ez|Ez]; cbn [negb]; cbv beta iota zeta;
    rewrite ?group_erase_member_eq.
  all: eapply (inv_leave st _ rid s); [done|done|counters|by eff|..|].
  all: try (by eff); try (by eff; right); try (by eff; rewrite ?Hres).
  all: try (unfold nonterminal; eff; cbn [is_terminal_lifecycle negb]; acct_closes).
  all: try (unfold running; eff; by intros [_ ?]).
  all: try (unfold nonterminal; by rewrite Et).
  all: try (eapply close_ok; [exact Hok|..]; eff; try done; congruence).
  all: left; eff; try done. rewrite Ez. symmetry. eapply erase_nil, Hi.
Qed.

Lemma cancel_generation_inv st rid g : sched_inv st → sched_inv (cancel_generation st rid g).1.
Proof.
  intros Hi. unfold cancel_generation. destruct (requests_ st !! rid) as [s|] eqn:Hs; [|done].
  destruct (is_terminal_lifecycle (rs_lifecycle s)); [done|].
  destruct (_ && _); [|done]. cbv beta iota zeta. cbn [fst].
  eapply (inv_quiet st _ rid s); [done|done| |counters|by eff..|acct_stays].
  unfold core. by eff.
Qed.

Lemma flight_nonterminal_running cfg ng ngrp rid s :
  rs_ok cfg ng ngrp rid s → is_terminal_lifecycle (rs_lifecycle s) = false →
  rs_in_flight s = true → running s.
Proof.
  intros Hok Ht Hf. split; [done|]. destruct (ro_flight _ _ _ _ _ Hok Hf) as [[?|E] _]; [done|].
  by rewrite E in Ht.
Qed.

(** A request taken out of flight, its generation kept: dispatched, unowned. *)
Lemma park_ok cfg ng ngrp rid s s' :
  rs_ok cfg ng ngrp rid s → 0 < ngrp →
  core s' = core (s <| rs_in_flight := false |> <| rs_current_group := 0 |>
                    <| rs_reservation := rs_reservation s' |>
                    <| rs_reserved_bytes := rs_reserved_bytes s' |>) →
  rs_lifecycle s = Lifecycle_dispatched → rs_ok cfg ng ngrp rid s'.
Proof.
  intros Hok Hn Hc Hl. eapply core_rs_ok; [|exact Hc]. destruct Hok.
  split; unfold queued, running, nonterminal, pending_chunk; eff; rewrite ?Hl; try done.
  - intros _. apply ro_work. unfold nonterminal. by rewrite Hl.
  - intros [?|[? _]]; done.
  - intros _. apply ro_pending. unfold nonterminal. by rewrite Hl.
Qed.

Lemma force_retry_inv st rid : sched_inv st → sched_inv (force_retry st rid).1.
Proof.
  intros Hi. unfold force_retry. destruct (requests_ st !! rid) as [s|] eqn:Hs; [|done].
  destruct (is_terminal_lifecycle (rs_lifecycle s)) eqn:Et; [done|].
  pose proof (si_rs _ Hi _ _ Hs) as Hok. pose proof (si_next _ Hi) as [Hng Hngrp].
  assert (0 <= rs_current_group s < im_next_group_value st) as Hg by apply Hok.
  assert (nonterminal s = true) as Hn by (unfold nonterminal; by rewrite Et).
  destruct (rs_in_flight s) eqn:Ef.
  - pose proof (flight_nonterminal_running _ _ _ _ _ Hok Et Ef) as Hrun.
    rewrite release_reservation_eq. cbv beta iota zeta. rewrite drop_group_eq.
    cbv beta iota zeta. repeat eff_step.
    destruct (Z.leb_spec (rq_max_retries (rs_request s)) (rs_retries_used s)) as [Hle|Hlt].
    + cbv beta iota zeta.
      eapply (inv_leave st _ rid s); [done|done|counters|by eff|..|].
      all: try (by eff); try (by eff; right).
      * eapply park_ok; [exact Hok|done| |apply Hrun]. unfold core. by eff.
      * unfold running. eff. by intros [? _].
      * right. eff. unfold is_nil. destruct (Z.eqb_spec (rs_current_group s) 0) as [Ez|]; [|done].
        rewrite Ez. symmetry. eapply delete_nil, Hi.
      * unfold nonterminal. eff. rewrite Et. cbn [negb]. acct_stays.
    + rewrite restart_attempt_eq. cbv beta iota zeta.
      eapply (inv_leave st _ rid s); [done|done|counters|by eff|..|].
      all: try (by eff); try (by eff; left).
      * eapply restart_ok; [apply Hi|exact Hok|..]; eff; done.
      * unfold running. eff. by intros [? _].
      * right. eff. unfold is_nil. destruct (Z.eqb_spec (rs_current_group s) 0) as [Ez|]; [|done].
        rewrite Ez. symmetry. eapply delete_nil, Hi.
      * unfold nonterminal. eff. cbn [negb is_terminal_lifecycle]. acct_stays.
  - pose proof (not_flight_not_running s Ef) as Hnr.
    pose proof (not_running_unreserved st rid s Hi Hs Hnr) as Hres.
    destruct (Z.leb_spec (rq_max_retries (rs_request s)) (rs_retries_used s)) as [Hle|Hlt].
    + cbv beta iota zeta.
      eapply (inv_quiet st _ rid s s); [done|done|done|counters|by eff..|acct_stays].
    + rewrite restart_attempt_eq. cbv beta iota zeta.
      eapply (inv_leave st _ rid s); [done|done|counters|by eff|..|].
      all: try (by eff); try (by eff; left).
      * eapply restart_ok; [apply Hi|exact Hok|..]; eff; done.
      * unfold running. eff. rewrite Ef. by intros [? _].
      * eff. by rewrite Hres.
      * left. eff. symmetry. eapply erase_not_running; [apply Hi|done|done].
      * unfold nonterminal. eff. cbn [negb is_terminal_lifecycle]. acct_stays.
Qed.

(** ** Workers and epochs *)

Lemma register_worker_inv st w : sched_inv st → sched_inv (register_worker st w).1.
Proof.
  intros Hi. unfold register_worker. destruct (is_nil (wd_worker_id w)); [done|].
  destruct (is_nil (wd_boot_id w)); cbn [negb]; cbv beta iota zeta; cbn [fst]; frame_inv st.
Qed.

Lemma unregister_worker_inv st w : sched_inv st → sched_inv (unregister_worker st w).1.
Proof.
  intros Hi. unfold unregister_worker. destruct (workers_ st !! w); [|done].
  cbv beta iota zeta; cbn [fst]. frame_inv st.
Qed.

Lemma roll_epoch_inv st : sched_inv st → sched_inv (roll_epoch st).1.
Proof. intros Hi. unfold roll_epoch. cbv beta iota zeta; cbn [fst]. frame_inv st. Qed.

Lemma attach_executor_inv st ex be : sched_inv st → sched_inv (attach_executor st ex be).
Proof.
  intros Hi. unfold attach_executor. cbv beta iota zeta. eff.
  destruct (workers_ st !! 0); frame_inv st.
Qed.

(** Dropping a group from the table. *)
Lemma delete_group_inv st gid : sched_inv st → sched_inv (st <| groups_ ::= delete gid |>).
Proof.
  intros Hi. destruct Hi. split; eff; try done.
  - intros j g [_ H]%lookup_delete_Some. by apply si_groups.
  - intros r x g Hx Hrun [_ H]%lookup_delete_Some. by eapply si_agree.
Qed.

(** Members are recovered one by one, in a state without their group. *)
Lemma recover_member_inv st rid :
  sched_inv st →
  (∀ s, requests_ st !! rid = Some s → groups_ st !! rs_current_group s = None) →
  sched_inv (recover_member st rid).
Proof.
  intros Hi Hgone. unfold recover_member. destruct (requests_ st !! rid) as [s|] eqn:Hs; [|done].
  specialize (Hgone s eq_refl).
  destruct (rs_in_flight s) eqn:Ef; [|done]. simpl. case_if; [|done].
  pose proof (si_rs _ Hi _ _ Hs) as Hok. pose proof (si_next _ Hi) as [Hng Hngrp].
  assert (running s) as Hrun by done.
  rewrite release_reservation_eq. cbv beta iota zeta.
  eapply (inv_leave st _ rid s); [done|done|counters|by eff|..|].
  all: try (by eff); try (by eff; left).
  - destruct Hok. split; unfold queued, running, nonterminal, pending_chunk; eff; try done.
    + intros _. apply ro_work. unfold nonterminal. by rewrite E.
    + intros _. apply ro_live. by right.
    + intros _. apply ro_pending. unfold nonterminal. by rewrite E.
  - unfold running. eff. by intros [? _].
  - left. eff. unfold erase_member. by rewrite Hgone.
  - unfold nonterminal. by rewrite E.
Qed.

(** [recover_member] neither reads nor writes the group table, and changes no
    request's current group. *)
Lemma recover_member_groups st rid f :
  recover_member (st <| groups_ ::= f |>) rid = recover_member st rid <| groups_ ::= f |>.
Proof.
  unfold recover_member. eff. destruct (requests_ st !! rid) as [s|]; [|done].
  destruct (_ && _); [|done]. rewrite !release_reservation_eq. reflexivity.
Qed.

Lemma recover_members_groups st l f :
  foldl recover_member (st <| groups_ ::= f |>) l
  = foldl recover_member st l <| groups_ ::= f |>.
Proof.
  revert st. induction l as [|rid l IH]; intros st; [done|]. cbn [foldl].
  by rewrite recover_member_groups, IH.
Qed.

Lemma recover_member_frame st rid :
  groups_ (recover_member st rid) = groups_ st ∧
  (∀ r s', requests_ (recover_member st rid) !! r = Some s' →
     ∃ s, requests_ st !! r = Some s ∧ rs_current_group s' = rs_current_group s).
Proof.
  unfold recover_member. destruct (requests_ st !! rid) as [s|] eqn:Hs; [|eauto].
  destruct (_ && _); [|eauto]. rewrite release_reservation_eq. cbv beta iota zeta.
  split; [by eff|]. intros r s'. eff. intros [[<- <-]|[_ H]]%lookup_insert_Some; [|eauto].
  exists s. split; [done|]. by eff.
Qed.

Lemma set_elements_spec X rid : rid ∈ set_elements X ↔ rid ∈ X.
Proof. unfold set_elements. rewrite merge_sort_Permutation. apply elem_of_elements. Qed.

Lemma recover_group_inv w st gid : sched_inv st → sched_inv (recover_group w st gid).
Proof.
  intros Hi. unfold recover_group. destruct (groups_ st !! gid) as [g|] eqn:Hg; [|done].
  destruct (gs_worker g =? w); [|done]. rewrite <- recover_members_groups.
  set (l := set_elements (gs_outstanding g)).
  set (P := λ st', sched_inv st' ∧ groups_ st' !! gid = None ∧
    ∀ rid s, rid ∈ l → requests_ st' !! rid = Some s → rs_current_group s = gid).
  assert (P (foldl recover_member (st <| groups_ ::= delete gid |>) l)) as [? _]; [|done].
  apply foldl_preserve.
  - intros st' rid Hin (Hi' & Hg' & Hl). destruct (recover_member_frame st' rid) as [Eg Er].
    split_and!.
    + apply recover_member_inv; [done|]. intros s Hs. by rewrite (Hl rid s).
    + by rewrite Eg.
    + intros r s' Hr (s & Hs & ->)%Er. eauto.
  - split_and!; [by apply delete_group_inv|eff; apply lookup_delete_eq|].
    intros rid s Hin%set_elements_spec. eff. intros Hs.
    destruct (si_groups _ Hi gid g Hg) as (_ & _ & Hout).
    apply Hout in Hin as (s2 & ? & _ & ?). congruence.
Qed.

Lemma worker_lost_inv st w : sched_inv st → sched_inv (worker_lost st w).1.
Proof.
  intros Hi. unfold worker_lost.
  assert (sched_inv (foldl (recover_group w) st (iter_keys (groups_ st)))) as Hf.
  { apply foldl_preserve; [|done]. intros. by apply recover_group_inv. }
  set (st1 := foldl _ _ _) in *. cbv beta iota zeta; cbn [fst].
  destruct (workers_ st1 !! w); frame_inv st1.
Qed.

(** ** Submission *)

(** Admitting a request: accepted as waiting, or completed when nothing remains. *)
Lemma inv_admit st st' rid s' :
  sched_inv st → requests_ st !! rid = None →
  Z.of_nat (size (requests_ st)) < cfg_max_admitted_requests (im_cfg st) →
  same_counters st st' → requests_ st' = <[rid := s']> (requests_ st) →
  rs_ok (im_cfg st) (im_next_generation_value st) (im_next_group_value st) rid s' →
  ¬ running s' → rs_reservation s' = 0 → rs_current_generation s' = 0 →
  im_mem st' = im_mem st → groups_ st' = groups_ st →
  tenants_ok (im_cfg st) (tenants_ st') (<[rid := s']> (requests_ st)) →
  st_admitted (im_stats st') = st_admitted (im_stats st) +u 1 →
  (∀ l p, final_counter l = Some p →
     p (im_stats st') = if bool_decide (rs_lifecycle s' = l) then p (im_stats st) +u 1
                        else p (im_stats st)) →
  sched_inv st'.
Proof.
  intros Hi Hs Hcap (Hc & Hg & Hgr & Hrv) Hr Hok Hrun Hres Hgen Hm Hgs Ht Ha Hf.
  assert (is_u64 (cfg_max_admitted_requests (im_cfg st))) as Hmax
    by (destruct (si_cfg _ Hi) as [(_ & _ & _ & _ & _ & _ & _ & _ & _ & H & _) _]; done).
  unfold is_u64 in Hmax.
  assert (Z.of_nat (size (<[rid := s']> (requests_ st))) = Z.of_nat (size (requests_ st)) + 1) as Hsz
    by (rewrite map_size_insert_None by done; lia).
  destruct Hi as [? ? ? ? ? ? Hmem ? ? ? ? ? Hten [Hsa Hsf]].
  split; rewrite ?Hc, ?Hg, ?Hgr, ?Hrv, ?Hr, ?Hm, ?Hgs, ?Hsz; try done; try lia.
  - intros r x [[<- <-]|[_ Hx]]%lookup_insert_Some; auto.
  - intros r x [[<- <-]|[_ Hx]]%lookup_insert_Some; [|eauto]. rewrite Hres.
    split; [done|intros [?|[]%elem_of_empty]; done].
  - by apply owns_new.
  - apply groups_keep; [done| |].
    + split; [done|]. intros (s & H & _). congruence.
    + intros s H. congruence.
  - eapply agree_put; [done|eauto|done].
  - apply gens_put; [done|]. intros H. done.
  - split.
    + pose proof og_admitted_nonneg. rewrite Ha, Hsz, u64_small by (unfold is_u64; lia). lia.
    + intros l p Hl. rewrite (Hf l p Hl). destruct (Hsf l p Hl) as [Hl0 Hl1]. unfold life_count in *.
      rewrite sum_put, Hs. pose proof (og_final_nonneg l).
      pose proof (count_range (λ s, bool_decide (rs_lifecycle s = l)) (requests_ st)).
      case_if; [|lia]. rewrite u64_small by (unfold is_u64; lia). lia.
Qed.

(** The tenant table after the request was counted in. *)
Lemma tenants_admit cfg ts ts' rs rid s' rem :
  config_fits cfg → tenants_ok cfg ts rs → rs !! rid = None →
  (∀ r x, rs !! r = Some x → request_fits (rs_request x)) →
  Z.of_nat (size rs) < cfg_max_admitted_requests cfg →
  rem = remaining_prefill_tokens (rs_request s') → request_fits (rs_request s') →
  (nonterminal s' = true ∨ rem = 0) →
  let x := map_at TenantService_default ts (rq_tenant_id (rs_request s')) in
  ts_outstanding x < cfg_per_tenant_outstanding_limit cfg →
  ts_admitted_tokens x +u rem <= cfg_per_tenant_admitted_token_limit cfg →
  (∀ t, acct ts' t = if rq_tenant_id (rs_request s') =? t
     then (if nonterminal s' then ts_outstanding x +u 1 else ts_outstanding x,
           ts_admitted_tokens x +u rem)
     else acct ts t) →
  tenants_ok cfg ts' (<[rid := s']> rs).
Proof.
  intros [Hcfg Hlim] Hk Hn Hall Hsz Hrem Hfit Hopen x Ho Ha Ht t. specialize (Ht t). unfold acct in Ht.
  destruct Hfit as [Hwf Hp]. pose proof (remaining_le_prompt _ Hwf) as [Hle _].
  destruct Hcfg as (_ & _ & _ & _ & _ & _ & _ & _ & _ & Hmax & _). unfold is_u64 in Hmax.
  destruct (Hk t) as (H1 & H2 & H3 & H4). cbv zeta in *.
  pose proof (count_range (in_tenant t) rs) as Hc0.
  pose proof (live_tokens_nonneg t rs Hall) as Hlt. unfold live_count, live_tokens in *. rewrite !sum_put, Hn.
  destruct (Z.eqb_spec (rq_tenant_id (rs_request s')) t) as [Et|Et].
  - subst x. rewrite Et in *. injection Ht as -> ->.
    assert (in_tenant t s' = nonterminal s') as -> by (unfold in_tenant; rewrite Et, Z.eqb_refl; done).
    rewrite (u64_small (_ + rem)) in * by (unfold is_u64; origin_cases; lia).
    destruct (nonterminal s').
    + rewrite u64_small by (unfold is_u64; lia). origin_cases; lia.
    + destruct Hopen as [?|Hz]; [done|]. rewrite Hz in *. origin_cases; lia.
  - assert (in_tenant t s' = false) as -> by (unfold in_tenant; by rewrite (proj2 (Z.eqb_neq _ _) Et)).
    injection Ht as -> ->. origin_cases; lia.
Qed.
End ops_inv2.
