(* ===== verification/SubmitInv.v ===== *)
(** * Submission preserves the invariant *)

From S2P Require Import Prelude Float Types Request Chunking Memory Compat Exec Observability SchedState SchedOps SchedCycle SchedFrame SchedInv SchedOpsInv SchedOpsInv2.

Section submit_inv.
Context `{FE : FloatEnv} `{CK : ClockSource} `{HO : HashOrder} `{OR : Origin}.

Lemma validate_ok_ids r :
  ei_code (validate r) = ErrorCode_ok → rq_request_id r ≠ 0 ∧ 0 <= rq_max_retries r.
Proof.
  unfold validate, is_nil. cbv zeta. repeat (case_if; [done|]). intros _. split; [done|lia].
Qed.

(** A freshly admitted request with work left, or one that was fully cached. *)
Lemma admit_ok cfg ng ngrp req a t s' :
  config_fits cfg → request_fits req → 0 < ng → 0 < ngrp →
  rq_request_id req ≠ 0 → 0 <= rq_max_retries req →
  core s' = core (admit_rs cfg req a t <| rs_lifecycle := rs_lifecycle s' |>) →
  rs_lifecycle s' = (if remaining_prefill_tokens req =? 0 then Lifecycle_completed
                     else Lifecycle_queued) →
  rs_ok cfg ng ngrp (rq_request_id req) s'.
Proof.
  intros [Hcfg _] Hfit Hng Hngrp Hid Hret Hc Hl. eapply core_rs_ok; [|exact Hc].
  pose proof (remaining_le_prompt req (proj1 Hfit)) as [Hrem _].
  rewrite Hl. unfold admit_rs.
  destruct (Z.eqb_spec (remaining_prefill_tokens req) 0) as [Ez|Ez];
    split; unfold queued, running, nonterminal, pending_chunk; rsimp; try done; simpl; try lia.
  - intros [?|[? _]]; done.
  - intros _. destruct (plan_first cfg req a 0 (proj1 Hfit) Hcfg Ez) as (ch & Hch & H0).
    exists ch. split; [done|]. rewrite H0. by apply accounted_refl.
  - intros _. destruct (plan_first cfg req a 0 (proj1 Hfit) Hcfg Ez) as (ch & Hch & _). by exists ch.
Qed.

Lemma submit_with_tokens_inv st req toks :
  sched_inv st → request_fits req → sched_inv (submit_with_tokens st req toks).1.
Proof.
  intros Hi Hfit. unfold submit_with_tokens. cbv zeta.
  case_if; [done|]. case_if; [done|].
  destruct (validate_ok_ids req) as [Hid Hret]; [done|].
  assert (requests_ st !! rq_request_id req = None) as Hnone
    by (apply eq_None_not_Some; done).
  destruct (register_request (im_token_resolver st) req toks) as [tr [u|e]];
    [|cbn [fst]; frame_inv st].
  destruct (Z.leb_spec (cfg_max_admitted_requests (im_cfg (st <| im_token_resolver := tr |>)))
    (Z.of_nat (size (requests_ (st <| im_token_resolver := tr |>))))) as [|Hcap];
    [unfold reject_capacity; cbn [fst]; cbv zeta; frame_inv st|].
  set (st0 := upd_tenant _ _ _). revert Hcap. eff. intros Hcap.
  assert (sched_inv st0) as Hi0.
  { unfold st0. apply (inv_frame st); [done|counters|by eff..|].
    split; [split; eff; done|]. intros t. eff. unfold acct. rewrite map_at_insert.
    case_decide; [|done]. subst. case_if; by rsimp. }
  assert (requests_ st0 = requests_ st ∧ im_cfg st0 = im_cfg st) as [Er Ec]
    by (unfold st0; by eff).
  clearbody st0. rewrite <- Er, <- Ec in *. clear Er Ec Hi st. rename Hi0 into Hi.
  unfold reject_capacity.
  destruct (Z.leb_spec (cfg_per_tenant_outstanding_limit (im_cfg st0))
    (ts_outstanding (map_at TenantService_default (tenants_ st0) (rq_tenant_id req)))) as [|Ho];
    [cbn [fst]; cbv zeta; frame_inv st0|].
  destruct (Z.ltb_spec (cfg_per_tenant_admitted_token_limit (im_cfg st0))
    (ts_admitted_tokens (map_at TenantService_default (tenants_ st0) (rq_tenant_id req))
       +u remaining_prefill_tokens req)) as [|Ha];
    [cbn [fst]; cbv zeta; frame_inv st0|].
  unfold alloc_attempt, im_now. cbv beta iota zeta. eff.
  destruct (Z.eqb_spec (remaining_prefill_tokens req) 0) as [Ez|Ez]; cbn [fst].
  all: pose proof (si_next _ Hi) as [Hng Hngrp].
  all: eapply (inv_admit st0 _ (rq_request_id req)); [done|done|done|counters|by eff|..].
  all: try (by unfold admit_rs; eff).
  all: try (by eapply admit_ok; unfold core; eff; rewrite ?(proj2 (Z.eqb_eq _ _) Ez),
    ?(proj2 (Z.eqb_neq _ _) Ez); try done; apply Hi).
  all: try (unfold running, admit_rs; eff; by intros [? _]).
  all: try (intros l' p' Hl'; unfold admit_rs; destruct l'; simplify_eq/=; by eff).
  all: assert (∀ r x, requests_ st0 !! r = Some x → request_fits (rs_request x)) as Hall
    by (intros r x Hx; apply (si_rs _ Hi r x Hx)).
  all: eapply (tenants_admit _ (tenants_ st0) _ _ _ _ (remaining_prefill_tokens req));
    [apply Hi|apply Hi|done|done|done|unfold admit_rs; by eff..| |
     unfold admit_rs; by eff|unfold admit_rs; by eff|].
  all: try (unfold nonterminal, admit_rs; eff; rewrite ?Ez; auto; fail).
  - intros t. destruct (si_tenants _ Hi (rq_tenant_id req)) as [Hout _]. cbv zeta in Hout.
    pose proof (count_range (in_tenant (rq_tenant_id req)) (requests_ st0)) as Hcr.
    pose proof (proj1 (si_cfg _ Hi)) as (_ & _ & _ & _ & _ & _ & _ & _ & _ & Hmax & _).
    unfold live_count in Hout. unfold is_u64 in Hmax.
    unfold nonterminal, admit_rs. eff. rewrite acct_insert. rewrite !map_at_insert_eq || idtac.
    destruct (Z.eqb_spec (rq_tenant_id req) t) as [<-|]; [|rewrite acct_insert; case_if; done].
    unfold dec_outstanding. rewrite ?map_at_insert_eq. rsimp. cbn [negb is_terminal_lifecycle].
    rewrite (u64_small (ts_outstanding _ + 1)) by (unfold is_u64; lia).
    rewrite (proj2 (Z.ltb_lt 0 _)) by lia.
    rewrite u64_small by (unfold is_u64; lia). f_equal. lia.
  - intros t. unfold nonterminal, admit_rs. eff. rewrite acct_insert. rsimp.
    destruct (Z.eqb_spec (rq_tenant_id req) t) as [<-|]; done.
Qed.
End submit_inv.
