(* ===== verification/CycleInv.v ===== *)
(** * The cycle preserves the invariant

    Expiry closes requests one by one; formation only allocates group numbers
    and extends traces; a dispatched group goes through reservation, and either
    roll-back or commit.  While a group's memory is being reserved, its members
    hold reservations without running: [sched_inv_at R]. *)

From S2P Require Import Prelude Float Types Request Chunking Memory Compat Exec Observability SchedState SchedOps SchedCycle SchedFrame SchedInv SchedOpsInv SchedOpsInv2.

Section cycle_inv.
Context `{FE : FloatEnv} `{CK : ClockSource} `{HO : HashOrder} `{OR : Origin}.

(** ** Expiry *)

Lemma expire_one_inv now st rid : sched_inv st → sched_inv (expire_one now st rid).
Proof.
  intros Hi. unfold expire_one. destruct (requests_ st !! rid) as [s|] eqn:Hs; [|done].
  destruct (is_terminal_lifecycle (rs_lifecycle s)) eqn:Et; [done|].
  destruct (past_deadline now s || queue_delay_exceeded now s); [|done].
  pose proof (si_rs _ Hi _ _ Hs) as Hok. pose proof (proj1 (ro_id _ _ _ _ _ Hok)) as Hid.
  assert (0 <= rs_current_group s < im_next_group_value st) as Hg by apply Hok.
  assert (nonterminal s = true) as Hn by (unfold nonterminal; by rewrite Et).
  cbv zeta. set (st0 := if past_deadline now s then st else bump st_queue_delay_exceeded st).
  assert (same_counters st st0 ∧ requests_ st0 = requests_ st ∧ im_mem st0 = im_mem st ∧
    groups_ st0 = groups_ st ∧ stays st st0 ∧ sched_inv st0)
    as ((C1 & C2 & C3 & C4) & R1 & M1 & G1 & T1 & Hi0).
  { unfold st0. destruct (past_deadline now s).
    - split; [done|]. do 3 (split; [done|]). split; [by apply stays_eq|done].
    - split; [counters|]. do 3 (split; [by eff|]). split; [acct_stays|frame_inv st]. }
  rewrite <- C2, <- C3, <- C1 in Hok. rewrite <- C3 in Hg. rewrite <- R1 in Hs.
  clearbody st0. clear C1 C2 C3 C4 R1 M1 G1 T1 Hi st. rename Hi0 into Hi.
  repeat eff_step. rewrite release_reservation_eq. cbv beta iota zeta.
  destruct (rs_in_flight s) eqn:Ef; rewrite ?group_erase_member_eq.
  all: eapply (inv_leave st0 _ rid s); [done|done|counters|by eff|..].
  all: try (by eff); try (by eff; right).
  all: try (unfold nonterminal; eff; cbn [is_terminal_lifecycle negb]; acct_closes).
  all: try (unfold running; eff; by intros [_ ?]).
  all: try (eapply close_ok; [exact Hok|..]; eff; try done; congruence).
  all: left; eff; rewrite ?Hid; try done.
  symmetry. eapply erase_not_running; [apply Hi|done|by apply not_flight_not_running].
Qed.

Lemma expire_sweep_inv now st : sched_inv st → sched_inv (expire_sweep now st).
Proof.
  intros Hi. apply (foldl_preserve sched_inv); [|done]. intros. by apply expire_one_inv.
Qed.

(** ** Tenant entries created by the comparator *)

Lemma touch_tenants_inv st cands : sched_inv st → sched_inv (touch_tenants st cands).
Proof.
  intros Hi. unfold touch_tenants. destruct (1 <? length cands)%nat; [|done].
  apply (foldl_preserve sched_inv); [|done]. intros st' rid _ Hi'. frame_inv st'.
Qed.

(** ** Reservation *)

(** A waiting request takes a fresh reservation. *)
Lemma reserve_one_inv R st rid s mb m :
  sched_inv_at R st → requests_ st !! rid = Some s → ¬ running s → rid ∉ R →
  is_u64 mb → im_next_reservation_value st + 1 < 2 ^ 64 →
  reserve (im_mem st) (im_next_reservation_value st) rid mb ReservationKind_reserved = (m, Ok tt) →
  sched_inv_at ({[rid]} ∪ R)
    (put_rs (st <| im_next_reservation_value ::= λ n, n +u 1 |> <| im_mem := m |>) rid
       (s <| rs_reservation := im_next_reservation_value st |> <| rs_reserved_bytes := mb |>)).
Proof.
  intros Hi Hs Hrun HR Hmb Hroom Hres. unfold is_u64 in Hmb.
  destruct Hi as [? ? ? ? Hrs Hr [Hgov Hbud] Hown [Hn Hfr] ? ? ? ? ?].
  pose proof (reserve_ledger (im_mem st) (im_next_reservation_value st) rid mb
    ReservationKind_reserved Hgov ltac:(lia)) as Hled.
  pose proof (gov_inv_reserve (im_mem st) (im_next_reservation_value st) rid mb
    ReservationKind_reserved Hgov ltac:(lia)) as Hgov'.
  rewrite Hres in Hled, Hgov'. cbn [fst] in Hgov'.
  destruct Hled as (Hnone & Hfit & Hl & Hr' & Hm & Hh & _).
  assert (rs_reservation s = 0) as Hs0.
  { destruct (Z.eq_dec (rs_reservation s) 0) as [|Hne]; [done|].
    apply (Hr rid s Hs) in Hne as [?|?]; done. }
  split; eff; try done.
  - by rewrite (size_put _ _ s).
  - by rewrite (size_put _ _ s).
  - intros r x [[<- <-]|[_ Hx]]%lookup_insert_Some; [|auto].
    specialize (Hrs _ _ Hs). destruct Hrs. by split.
  - intros r x [[<- <-]|[Hne Hx]]%lookup_insert_Some.
    + eff. split; [|lia]. intros _. right. set_solver.
    + rewrite (Hr r x Hx). set_solver.
  - split; [done|]. unfold budget in *. rewrite Hm, Hh, Hr'. destruct Hfit; lia.
  - eapply owns_reserve; try done; eff; try done. lia.
  - rewrite u64_small by (unfold is_u64; lia). split; [lia|].
    intros rv. rewrite Hl. intros [x [[<- <-]|[_ Hx]]%lookup_insert_Some]; [lia|].
    specialize (Hfr rv ltac:(by exists x)). lia.
  - apply groups_keep; [done| |].
    + unfold running. eff. split; [|naive_solver]. intros H. by exfalso; apply Hrun.
    + intros x Hx Hrx. by simplify_eq.
  - eapply agree_put; [done|eauto|]. unfold running. eff. intros H. by exfalso; apply Hrun.
  - eapply gens_keep; [done|done|]. eff. by right.
  - eapply (tenants_keep _ (tenants_ st) _ _ _ s); try done.
  - eapply (stats_keep (im_stats st) _ _ _ s); eff; auto.
Qed.

(** A refused reservation only uses up its number. *)
Lemma reserve_refused_inv R st rid mb m e :
  sched_inv_at R st → is_u64 mb → im_next_reservation_value st + 1 < 2 ^ 64 →
  reserve (im_mem st) (im_next_reservation_value st) rid mb ReservationKind_reserved = (m, Err e) →
  sched_inv_at R (st <| im_next_reservation_value ::= λ n, n +u 1 |> <| im_mem := m |>).
Proof.
  intros Hi Hmb Hroom Hres. unfold is_u64 in Hmb.
  destruct Hi as [? ? ? ? ? ? [Hgov Hbud] ? [Hn Hfr] ? ? ? ? ?].
  pose proof (reserve_ledger (im_mem st) (im_next_reservation_value st) rid mb
    ReservationKind_reserved Hgov ltac:(lia)) as Hled.
  rewrite Hres in Hled. destruct Hled as [-> _]. split; eff; try done.
  rewrite u64_small by (unfold is_u64; lia). split; [lia|].
  intros rv Hrv. specialize (Hfr rv Hrv). lia.
Qed.

(** A reservation of a request that does not run is undone. *)
Definition unreserve (st : Impl) (x : ReservationId * RequestId) : Impl :=
  st <| im_mem ::= λ m, release m x.1 |>
     <| requests_ ::= alter (λ s, s <| rs_reservation := 0 |> <| rs_reserved_bytes := 0 |>) x.2 |>.

Lemma rollback_eq st l : rollback st l = foldl unreserve st l.
Proof.
  unfold rollback.
  set (rel := λ (st : Impl) (x : ReservationId * RequestId), st <| im_mem ::= λ m, release m x.1 |>).
  assert (∀ st l f, foldl rel (st <| requests_ ::= f |>) l
    = foldl rel st l <| requests_ ::= f |>) as Hcomm.
  { clear st l. intros st l f. revert st. induction l as [|x l IH]; intros st; [done|].
    cbn [foldl]. by rewrite <- IH. }
  revert st. induction l as [|x l IH]; intros st; [done|].
  cbn [foldl]. rewrite <- IH. unfold unreserve. f_equal.
  change (st <| im_mem ::= λ m, release m x.1 |>) with (rel st x). by rewrite Hcomm.
Qed.

Lemma unreserve_inv R st rv rid s :
  sched_inv_at R st → requests_ st !! rid = Some s → ¬ running s → rs_reservation s = rv →
  rv ≠ 0 → sched_inv_at (R ∖ {[rid]}) (unreserve st (rv, rid)).
Proof.
  intros Hi Hs Hrun Hrv Hnz. unfold unreserve. cbn [fst snd].
  destruct Hi as [? ? ? ? Hrs Hr Hmem Hown Hfresh ? ? ? ? ?].
  assert (im_mem (st <| im_mem ::= λ m, release m rv |>) = release_opt (rs_reservation s) (im_mem st))
    as Hrel by (eff; unfold release_opt, is_nil; by rewrite Hrv, (proj2 (Z.eqb_neq rv 0) Hnz)).
  revert Hrel. eff. intros Hrel.
  assert (∀ f, alter f rid (requests_ st) = <[rid := f s]> (requests_ st)) as Halt.
  { intros f. apply map_eq. intros r. rewrite lookup_alter, lookup_insert. case_decide; [|done].
    subst. by rewrite Hs. }
  split; eff; rewrite ?Halt, ?Hrel; try done.
  - by rewrite (size_put _ _ s).
  - by rewrite (size_put _ _ s).
  - intros r x [[<- <-]|[_ Hx]]%lookup_insert_Some; [|auto].
    specialize (Hrs _ _ Hs). destruct Hrs. by split.
  - intros r x [[<- <-]|[Hne Hx]]%lookup_insert_Some.
    + eff. split; [done|]. intros [H|[_ H]%elem_of_difference]; [by exfalso; apply Hrun|].
      by apply not_elem_of_singleton in H.
    + rewrite (Hr r x Hx). set_solver.
  - by apply mem_ok_release.
  - apply owns_release; [apply Hmem|done|done|by eff].
  - by apply fresh_release.
  - apply groups_keep; [done| |].
    + unfold running. eff. split; [|naive_solver]. intros H. by exfalso; apply Hrun.
    + intros x Hx Hrx. by simplify_eq.
  - eapply agree_put; [done|eauto|]. unfold running. eff. intros H. by exfalso; apply Hrun.
  - eapply gens_keep; [done|done|]. eff. by right.
  - eapply (tenants_keep _ (tenants_ st) _ _ _ s); try done.
  - eapply (stats_keep (im_stats st) _ _ _ s); eff; auto.
Qed.
End cycle_inv.
