(* ===== verification/DispatchInv.v ===== *)
(** * Dispatch of one group preserves the invariant

    Reservation of the members in turn, roll-back when one is refused, and the
    commit that makes them run. *)

From S2P Require Import Prelude Float Types Request Chunking Memory Compat Exec Observability SchedState SchedOps SchedCycle SchedFrame SchedInv SchedOpsInv SchedOpsInv2 CycleInv.

(** A request apart from the reservation it holds and its trace. *)
Definition unres (s : Rs) : Rs :=
  s <| rs_reservation := 0 |> <| rs_reserved_bytes := 0 |> <| rs_trace := [] |>.

(** Requests of the two tables agree up to reservations and traces. *)
Definition same_requests (st st' : Impl) : Prop :=
  ∀ rid, unres <$> requests_ st' !! rid = unres <$> requests_ st !! rid.

Section dispatch_inv.
Context `{FE : FloatEnv} `{CK : ClockSource} `{HO : HashOrder} `{OR : Origin}.

Lemma same_requests_refl st : same_requests st st.
Proof. done. Qed.

Lemma same_requests_trans st1 st2 st3 :
  same_requests st1 st2 → same_requests st2 st3 → same_requests st1 st3.
Proof. intros H1 H2 rid. by rewrite H2. Qed.

Lemma same_requests_l st st' rid s :
  same_requests st st' → requests_ st !! rid = Some s →
  ∃ s', requests_ st' !! rid = Some s' ∧ unres s' = unres s.
Proof.
  intros H Hs. specialize (H rid). rewrite Hs in H.
  destruct (requests_ st' !! rid) as [s'|]; [|done]. apply (inj Some) in H. eauto.
Qed.

Lemma same_requests_r st st' rid s' :
  same_requests st st' → requests_ st' !! rid = Some s' →
  ∃ s, requests_ st !! rid = Some s ∧ unres s' = unres s.
Proof.
  intros H Hs. specialize (H rid). rewrite Hs in H.
  destruct (requests_ st !! rid) as [s|]; [|done]. apply (inj Some) in H. eauto.
Qed.

Lemma unres_running s s' : unres s' = unres s → running s' ↔ running s.
Proof.
  intros H. unfold running.
  by rewrite (f_equal rs_in_flight H : rs_in_flight s' = rs_in_flight s),
    (f_equal rs_lifecycle H : rs_lifecycle s' = rs_lifecycle s).
Qed.

Lemma unres_candidate s s' : unres s' = unres s → is_candidate s' = is_candidate s.
Proof.
  intros H. unfold is_candidate, is_waiting, has_pending_chunk, chunk_count.
  by rewrite (f_equal rs_in_flight H : rs_in_flight s' = rs_in_flight s),
    (f_equal rs_lifecycle H : rs_lifecycle s' = rs_lifecycle s),
    (f_equal rs_plan H : rs_plan s' = rs_plan s),
    (f_equal rs_next_chunk_index H : rs_next_chunk_index s' = rs_next_chunk_index s).
Qed.

Lemma unres_put st rid s s' :
  requests_ st !! rid = Some s → unres s' = unres s → same_requests st (put_rs st rid s').
Proof.
  intros Hs H r. eff. rewrite lookup_insert. case_decide; [|done]. subst. rewrite Hs. cbn [fmap option_fmap option_map]. by rewrite H.
Qed.

(** A candidate is queued, does not run and has a chunk to send. *)
Lemma candidate_spec s :
  is_candidate s = true ↔
  rs_lifecycle s = Lifecycle_queued ∧ rs_in_flight s = false ∧
  rs_next_chunk_index s < chunk_count s.
Proof.
  unfold is_candidate, is_waiting, has_pending_chunk.
  rewrite !andb_true_iff, bool_decide_eq_true, negb_true_iff, Z.ltb_lt. tauto.
Qed.

Lemma candidate_not_running s : is_candidate s = true → ¬ running s.
Proof. intros (_ & H & _)%candidate_spec [H' _]. congruence. Qed.

(** Memory asked for a member is a 64-bit number. *)
Lemma member_bytes_range R st rid s :
  sched_inv_at R st → requests_ st !! rid = Some s →
  is_u64 match pending_chunk s with Some ch => ck_memory_estimate_bytes ch | None => 0 end.
Proof.
  intros Hi Hs. destruct (pending_chunk s) as [ch|] eqn:E; [|unfold is_u64; lia].
  pose proof (si_rs _ Hi _ _ Hs) as []. unfold pending_chunk in E. rewrite ro_plan in E.
  destruct (si_cfg _ Hi) as [Hcfg _].
  pose proof (plan_chunk_bounds _ _ _ _ _ _ (proj1 ro_req) Hcfg E) as (_ & Hm & _).
  destruct Hcfg as (_ & _ & Hmax & _). unfold is_u64 in *. lia.
Qed.

(** What the reservation loop does, whether it succeeds or not. *)
Record reserved (R : gset Z) (st : Impl) (rids : list RequestId) (st' : Impl)
    (l : list (ReservationId * RequestId)) (ok : bool) : Prop := {
  rd_inv : sched_inv_at (list_to_set (l.*2) ∪ R) st';
  rd_prefix : ∃ k, l.*2 = take k rids;
  rd_all : ok = true → l.*2 = rids;
  rd_same : same_requests st st';
  rd_other : ∀ rid, rid ∉ rids → requests_ st' !! rid = requests_ st !! rid;
  rd_held : ∀ rv rid, (rv, rid) ∈ l →
    ∃ s, requests_ st' !! rid = Some s ∧ rs_reservation s = rv ∧ rv ≠ 0;
  rd_groups : groups_ st' = groups_ st;
  rd_workers : workers_ st' = workers_ st;
  rd_counters : im_cfg st' = im_cfg st ∧
    im_next_generation_value st' = im_next_generation_value st ∧
    im_next_group_value st' = im_next_group_value st;
  rd_next : im_next_reservation_value st <= im_next_reservation_value st'
            <= im_next_reservation_value st + Z.of_nat (length rids)
}.

Lemma reserve_members_spec R st rids :
  sched_inv_at R st → NoDup rids →
  (∀ rid, rid ∈ rids → (rid ∉ R) ∧ ∃ s, requests_ st !! rid = Some s ∧ ¬ running s) →
  im_next_reservation_value st + Z.of_nat (length rids) < 2 ^ 64 →
  let '(st', l, ok) := reserve_members st rids in reserved R st rids st' l ok.
Proof.
  revert R st. induction rids as [|rid rids IH]; intros R st Hi Hnd Hw Hroom.
  { split; try done.
    - cbn. by rewrite union_empty_l_L.
    - by exists 0%nat.
    - intros rv rid Hin. by apply list_elem_of_nil in Hin || inversion Hin.
    - cbn. lia. }
  cbn [reserve_members]. rewrite NoDup_cons in Hnd. destruct Hnd as [Hnin Hnd].
  destruct (Hw rid ltac:(by left)) as [HnR (s & Hs & Hrun)].
  assert (map_at Rs_default (requests_ st) rid = s) as -> by (unfold map_at; by rewrite Hs).
  pose proof (member_bytes_range R st rid s Hi Hs) as Hmb.
  set (mb := match pending_chunk s with Some _ => _ | None => _ end) in *. cbv zeta.
  unfold alloc_reservation. cbv beta iota. eff.
  assert (0 < im_next_reservation_value st) as Hpos by apply (proj1 (si_fresh _ Hi)).
  cbn [length] in Hroom.
  destruct (reserve (im_mem st) (im_next_reservation_value st) rid mb ReservationKind_reserved)
    as [m [[]|e]] eqn:Eres.
  - pose proof (reserve_one_inv R st rid s mb m Hi Hs Hrun HnR Hmb ltac:(lia) Eres) as Hi1.
    set (st1 := put_rs _ _ _) in *.
    assert (same_requests st st1) as Hsame.
    { unfold st1. intros r. eff. rewrite lookup_insert. case_decide; [|done]. subst. by rewrite Hs. }
    specialize (IH ({[rid]} ∪ R) st1 Hi1 Hnd).
    destruct (reserve_members st1 rids) as [[st2 l] ok]. destruct IH as [Dinv Dpre Dall Dsame Doth Dheld Dgr Dwk Dcnt Dnext].
    + intros r Hr. destruct (Hw r ltac:(by right)) as [HrR (x & Hx & Hxr)].
      split; [set_solver|]. destruct (same_requests_l _ _ _ _ Hsame Hx) as (x' & Hx' & E).
      exists x'. by rewrite (unres_running _ _ E).
    + unfold st1. eff. rewrite u64_small by (unfold is_u64; lia). lia.
    + split.
      * replace (list_to_set (((im_next_reservation_value st, rid) :: l).*2) ∪ R)
          with (list_to_set (l.*2) ∪ ({[rid]} ∪ R)); [done|]. cbn. set_solver.
      * destruct Dpre as [k Hk]. exists (S k). cbn. by rewrite Hk.
      * intros E. cbn. by rewrite (Dall E).
      * by eapply same_requests_trans.
      * intros r Hr. rewrite not_elem_of_cons in Hr. rewrite (Doth r) by apply Hr.
        unfold st1. eff. apply lookup_insert_ne. by destruct Hr as [Hr _].
      * intros rv r [[= -> ->]|Hin]%elem_of_cons; [|by apply Dheld].
        assert (requests_ st1 !! rid = Some (s <| rs_reservation := im_next_reservation_value st |>
          <| rs_reserved_bytes := mb |>)) as Hs1 by (unfold st1; eff; apply lookup_insert_eq).
        rewrite <- (Doth rid Hnin) in Hs1. eexists. split; [exact Hs1|]. eff. split; [done|lia].
      * rewrite Dgr. unfold st1. by eff.
      * rewrite Dwk. unfold st1. by eff.
      * revert Dcnt. unfold st1. by eff.
      * revert Dnext. unfold st1. eff. rewrite u64_small by (unfold is_u64; lia). cbn [length]. lia.
  - pose proof (reserve_refused_inv R st rid mb m e Hi Hmb ltac:(lia) Eres) as Hi1.
    split; eff; try done.
    + cbn. by rewrite union_empty_l_L.
    + by exists 0%nat.
    + intros rv r Hin. inversion Hin.
    + rewrite u64_small by (unfold is_u64; lia). cbn [length]. lia.
Qed.

(** ** Roll-back *)

Lemma unreserve_same st x : same_requests st (unreserve st x).
Proof.
  intros r. unfold unreserve. eff. rewrite lookup_alter. case_decide; [|done].
  subst. by destruct (requests_ st !! x.2).
Qed.

Lemma rollback_same st l : same_requests st (rollback st l).
Proof.
  rewrite rollback_eq. revert st. induction l as [|x l IH]; intros st; [done|].
  cbn [foldl]. eapply same_requests_trans; [apply unreserve_same|apply IH].
Qed.

Lemma rollback_other st l rid :
  rid ∉ l.*2 → requests_ (rollback st l) !! rid = requests_ st !! rid.
Proof.
  rewrite rollback_eq. revert st. induction l as [|x l IH]; intros st Hn; [done|].
  rewrite fmap_cons, not_elem_of_cons in Hn. destruct Hn as [H1 H2].
  cbn [foldl]. rewrite (IH _ H2). unfold unreserve. eff. apply lookup_alter_ne. congruence.
Qed.

Lemma rollback_frame st l :
  groups_ (rollback st l) = groups_ st ∧ workers_ (rollback st l) = workers_ st ∧
  im_cfg (rollback st l) = im_cfg st ∧
  im_next_generation_value (rollback st l) = im_next_generation_value st ∧
  im_next_group_value (rollback st l) = im_next_group_value st ∧
  im_next_reservation_value (rollback st l) = im_next_reservation_value st.
Proof.
  rewrite rollback_eq. revert st. induction l as [|x l IH]; intros st; [done|].
  cbn [foldl]. destruct (IH (unreserve st x)) as (-> & -> & -> & -> & -> & ->). done.
Qed.

Lemma rollback_inv st l :
  sched_inv_at (list_to_set (l.*2)) st → NoDup (l.*2) →
  (∀ rv rid, (rv, rid) ∈ l → ∃ s, requests_ st !! rid = Some s ∧ rs_reservation s = rv ∧
     rv ≠ 0 ∧ ¬ running s) →
  sched_inv (rollback st l).
Proof.
  rewrite rollback_eq. revert st. induction l as [|[rv rid] l IH]; intros st Hi Hnd Hheld; [done|].
  cbn [foldl]. rewrite fmap_cons, NoDup_cons in Hnd. destruct Hnd as [Hnin Hnd].
  destruct (Hheld rv rid ltac:(by left)) as (s & Hs & Hrv & Hnz & Hrun).
  pose proof (unreserve_inv _ st rv rid s Hi Hs Hrun Hrv Hnz) as Hi1.
  apply IH; [|done|].
  - replace (list_to_set (l.*2)) with (list_to_set (((rv, rid) :: l).*2) ∖ {[rid]} : gset Z);
      [done|]. cbn in *. set_solver.
  - intros rv' rid' Hin. destruct (Hheld rv' rid' ltac:(by right)) as (s' & Hs' & Hrest).
    exists s'. split; [|done]. unfold unreserve. eff. cbn [snd]. rewrite lookup_alter_ne; [done|].
    intros <-. apply Hnin. apply list_elem_of_fmap. by exists (rv', rid).
Qed.

(** ** Commit *)

(** A candidate that starts to run with a fresh generation. *)
Lemma start_ok cfg ng ngrp rid s s' :
  rs_ok cfg ng ngrp rid s → rs_lifecycle s = Lifecycle_queued → 0 < ng →
  core s' = core (s <| rs_current_generation := ng |> <| rs_in_flight := true |>
                    <| rs_lifecycle := Lifecycle_dispatched |>
                    <| rs_current_group := rs_current_group s' |>
                    <| rs_dispatched_worker := rs_dispatched_worker s' |>) →
  0 <= rs_current_group s' < ngrp → rs_ok cfg (ng + 1) ngrp rid s'.
Proof.
  intros Hok Hl Hng Hc Hg. eapply core_rs_ok; [|exact Hc]. destruct Hok.
  split; unfold queued, running, nonterminal, pending_chunk in *; eff; try done; try lia.
  - intros _. split; [by left|lia].
  - intros _. apply ro_work. by rewrite Hl.
  - intros _. apply ro_live. by left.
  - intros _. apply ro_pending. by rewrite Hl.
Qed.

(** Entering a group that is not in the table does not affect the others. *)
Lemma groups_start gs rs n rid s s' :
  groups_ok gs rs n → rs !! rid = Some s → ¬ running s → gs !! rs_current_group s' = None →
  groups_ok gs (<[rid := s']> rs) n.
Proof.
  intros Hg Hs Hr Hgone gid g Hgid. destruct (Hg gid g Hgid) as (Hn & Hne & Hout).
  do 2 (split; [done|]). intros r. rewrite Hout. destruct (decide (rid = r)) as [<-|Hr'].
  - rewrite lookup_insert_eq. split.
    + intros (x & Hx & Hxr & _). simplify_eq.
    + intros (x & [= <-] & _ & E). rewrite E in Hgone. congruence.
  - by rewrite lookup_insert_ne.
Qed.

Lemma agree_start gs rs rid s' :
  workers_agree gs rs → gs !! rs_current_group s' = None → workers_agree gs (<[rid := s']> rs).
Proof.
  intros Ha Hgone r s g [[<- <-]|[Hne Hl]]%lookup_insert_Some Hrun Hg; [congruence|].
  by eapply Ha.
Qed.

(** One member starts to run, in a group that is not in the table yet. *)
Lemma commit_member_inv R now gid chosen st ms out bytes rid s m :
  sched_inv_at R st → requests_ st !! rid = Some s → is_candidate s = true → rid ∈ R →
  0 < gid < im_next_group_value st → groups_ st !! gid = None →
  im_next_generation_value st + 1 < 2 ^ 64 →
  sched_inv_at (R ∖ {[rid]}) (commit_member now gid chosen (st, ms, out, bytes) (rid, m)).1.1.1.
Proof.
  intros Hi Hs Hcand HR Hgid Hgone Hroom. unfold commit_member, alloc_generation.
  assert (map_at Rs_default (requests_ st) rid = s) as -> by (unfold map_at; by rewrite Hs).
  pose proof (candidate_not_running s Hcand) as Hrun.
  apply candidate_spec in Hcand as (Hl & Hf & Hidx).
  pose proof (si_next _ Hi) as [Hng Hngrp].
  destruct Hi as [? ? ? ? Hrs Hr Hmem Hown Hfr Hgrp Hagr Hgen Hten Hsta].
  assert (im_next_generation_value st +u 1 = im_next_generation_value st + 1) as Hu
    by (apply u64_small; unfold is_u64; lia).
  cbv beta iota zeta. repeat eff_step.
  destruct (rs_first_dispatch_time s =? 0); cbv beta iota zeta; cbn [fst].
  all: split; eff; rewrite ?Hu; try done; try lia.
  all: try (by rewrite (size_put _ _ s)).
  all: try (eapply owns_keep; [done|done|by eff..]).
  all: try (eapply (tenants_keep _ (tenants_ st) _ _ _ s); try done; unfold nonterminal; eff;
    by rewrite Hl).
  all: try (eapply (stats_keep (im_stats st) _ _ _ s); [done|done| |by eff|
    intros l' p' Hl'; destruct l'; simplify_eq/=; by eff]; left; unfold nonterminal; eff;
    by rewrite Hl).
  all: try (eapply agree_put; [done|eauto|]; eff; intros _; congruence).
  all: try (intros r x [[<- <-]|[Hne Hx]]%lookup_insert_Some;
    [eff; split; [intros _; left; by unfold running; eff|intros _; apply (Hr _ _ Hs); by right]
    |rewrite (Hr r x Hx); set_solver]).
  all: try (intros r x [[<- <-]|[Hne Hx]]%lookup_insert_Some;
    [eapply start_ok; [by apply Hrs|done|lia|unfold core; by eff|eff; lia]
    |eapply rs_ok_mono; [by apply Hrs|lia|lia]]).
  all: try (eapply groups_start; [done|done|done|by eff]).
  all: try (eapply agree_start; [done|by eff]).
  all: apply gens_put; [done|]; eff; intros _ r x Hx _; pose proof (ro_gen _ _ _ _ _ (Hrs r x Hx)); lia.
Qed.

(** The request a commit leaves, and what else the commit touches. *)
Definition started (gid : GroupId) (chosen : WorkerId) (s s' : Rs) : Prop :=
  running s' ∧ rs_current_group s' = gid ∧ rs_dispatched_worker s' = chosen ∧
  rs_reservation s' = rs_reservation s ∧ rs_request s' = rs_request s ∧
  rs_attempt s' = rs_attempt s ∧ rs_plan s' = rs_plan s ∧
  rs_next_chunk_index s' = rs_next_chunk_index s.

Lemma commit_member_frame now gid chosen st ms out bytes rid s m :
  requests_ st !! rid = Some s →
  let '(st', ms', out', bytes') := commit_member now gid chosen (st, ms, out, bytes) (rid, m) in
  (∃ s', requests_ st' = <[rid := s']> (requests_ st) ∧ started gid chosen s s' ∧
         rs_current_generation s' = im_next_generation_value st) ∧
  groups_ st' = groups_ st ∧ workers_ st' = workers_ st ∧ im_cfg st' = im_cfg st ∧
  im_next_group_value st' = im_next_group_value st ∧
  im_next_reservation_value st' = im_next_reservation_value st ∧
  im_next_generation_value st' = im_next_generation_value st +u 1 ∧
  out' = out ∪ {[rid]} ∧
  ms' = ms ++ [m <| em_generation := im_next_generation_value st |>
                 <| em_assigned_worker := chosen |>].
Proof.
  intros Hs. unfold commit_member, alloc_generation.
  assert (map_at Rs_default (requests_ st) rid = s) as -> by (unfold map_at; by rewrite Hs).
  cbv beta iota zeta. repeat eff_step.
  destruct (rs_first_dispatch_time s =? 0); cbv beta iota zeta; cbn [fst].
  all: split; [eexists; split; [by eff|unfold started, running; eff; done]|eff; done].
Qed.

Record committed (gid : GroupId) (chosen : WorkerId) (st : Impl) (rids : list RequestId)
    (st' : Impl) : Prop := {
  cm_inv : sched_inv st';
  cm_in : ∀ i rid, rids !! i = Some rid → ∃ s s', requests_ st !! rid = Some s ∧
            requests_ st' !! rid = Some s' ∧ started gid chosen s s' ∧
            rs_current_generation s' = im_next_generation_value st + Z.of_nat i;
  cm_out : ∀ rid, rid ∉ rids → requests_ st' !! rid = requests_ st !! rid;
  cm_groups : groups_ st' = groups_ st;
  cm_workers : workers_ st' = workers_ st;
  cm_counters : im_cfg st' = im_cfg st ∧ im_next_group_value st' = im_next_group_value st ∧
    im_next_reservation_value st' = im_next_reservation_value st;
  cm_next : im_next_generation_value st' = im_next_generation_value st + Z.of_nat (length rids)
}.

Lemma commit_members_spec now gid chosen l st ms out bytes :
  sched_inv_at (list_to_set (l.*1)) st → NoDup (l.*1) →
  (∀ rid, rid ∈ l.*1 → ∃ s, requests_ st !! rid = Some s ∧ is_candidate s = true) →
  0 < gid < im_next_group_value st → groups_ st !! gid = None →
  im_next_generation_value st + Z.of_nat (length l) < 2 ^ 64 →
  let '(st', ms', out', bytes') := foldl (commit_member now gid chosen) (st, ms, out, bytes) l in
  committed gid chosen st (l.*1) st' ∧ out' = out ∪ list_to_set (l.*1) ∧
  ∃ gens, ms' = ms ++ zip_with (λ (x : RequestId * ExecutableMember) g,
    x.2 <| em_generation := g |> <| em_assigned_worker := chosen |>) l gens ∧
    gens = seqZ (im_next_generation_value st) (Z.of_nat (length l)).
Proof.
  revert st ms out bytes. induction l as [|[rid m] l IH]; intros st ms out bytes Hi Hnd Hc Hgid Hgone Hroom.
  { cbn. split; [|split; [by rewrite union_empty_r_L|exists []; by rewrite app_nil_r]].
    split; try done; cbn; lia. }
  cbn [foldl]. rewrite fmap_cons, NoDup_cons in Hnd. cbn [fst] in Hnd. destruct Hnd as [Hnin Hnd].
  destruct (Hc rid ltac:(by left)) as (s & Hs & Hcand).
  cbn [length] in Hroom.
  pose proof (commit_member_inv _ now gid chosen st ms out bytes rid s m Hi Hs Hcand
    ltac:(cbn; set_solver) Hgid Hgone ltac:(lia)) as Hi1.
  pose proof (commit_member_frame now gid chosen st ms out bytes rid s m Hs) as Hfr.
  destruct (commit_member now gid chosen (st, ms, out, bytes) (rid, m)) as [[[st1 ms1] out1] bytes1].
  cbn [fst] in Hi1.
  destruct Hfr as ((s' & Hr1 & Hst & Hg1) & G1 & W1 & C1 & N1 & V1 & E1 & -> & ->).
  assert (0 < im_next_generation_value st) as Hpos by apply (si_next _ Hi).
  rewrite u64_small in E1 by (unfold is_u64; lia).
  specialize (IH st1 (ms ++ [m <| em_generation := im_next_generation_value st |>
    <| em_assigned_worker := chosen |>]) (out ∪ {[rid]}) bytes1).
  destruct (foldl (commit_member now gid chosen) _ l) as [[[st2 ms2] out2] bytes2].
  destruct IH as (Hcm & Hout & gens & Hms & Hgens); try done.
  - replace (list_to_set (l.*1)) with (list_to_set (((rid, m) :: l).*1) ∖ {[rid]} : gset Z); [done|].
    cbn in *. set_solver.
  - intros r Hr. destruct (Hc r ltac:(by right)) as (x & Hx & Hxc). exists x. split; [|done].
    rewrite Hr1, lookup_insert_ne; [done|]. by intros ->.
  - by rewrite N1.
  - by rewrite G1.
  - rewrite E1. lia.
  - destruct Hcm as [D1 D2 D3 D4 D5 D6 D7]. split; [|split].
    + split.
      * done.
      * intros [|i] r Hr; cbn in Hr.
        -- injection Hr as <-. exists s, s'. split; [done|]. split; [|split; [done|lia]].
           rewrite (D3 rid Hnin), Hr1. apply lookup_insert_eq.
        -- destruct (D2 i r Hr) as (x & x' & Hx & Hx' & Hxs & Hxg). exists x, x'.
           split; [|split; [done|split; [done|lia]]].
           rewrite Hr1, lookup_insert_ne in Hx; [done|]. intros ->. apply Hnin.
           by eapply list_elem_of_lookup_2.
      * intros r Hr. rewrite fmap_cons, not_elem_of_cons in Hr. destruct Hr as [Hr1' Hr2].
        rewrite (D3 r Hr2), Hr1. apply lookup_insert_ne. cbn [fst] in Hr1'. by intros ->.
      * by rewrite D4.
      * by rewrite D5.
      * destruct D6 as (-> & -> & ->). done.
      * rewrite D7, E1. rewrite !length_fmap. cbn [length]. lia.
    + rewrite Hout. cbn. set_solver.
    + exists (im_next_generation_value st :: gens). split.
      * rewrite Hms. cbn. by rewrite <- app_assoc.
      * rewrite Hgens, E1. cbn [length]. rewrite Nat2Z.inj_succ.
        rewrite (seqZ_cons (im_next_generation_value st)) by lia. f_equal. f_equal; lia.
Qed.
End dispatch_inv.
