(* ===== verification/GroupInv.v ===== *)
(** * Group formation and dispatch

    The open groups formed by a cycle, what holds of them against the state
    ([og_ok]), and the invariant across the dispatch of all of them. *)

From S2P Require Import Prelude Float Types Request Chunking Memory Compat Exec Observability SchedState SchedOps SchedCycle SchedFrame SchedInv SchedOpsInv SchedOpsInv2 CycleInv DispatchInv.

Section group_inv.
Context `{FE : FloatEnv} `{CK : ClockSource} `{HO : HashOrder} `{OR : Origin}.

Definition og_gid (g : OpenGroup) : GroupId := eg_group_id (og_group g).

(** The member [m] is the next chunk of a request of the table whose key is [k]. *)
Definition member_of (st : Impl) (k : CompatibilityKey) (m : ExecutableMember) : Prop :=
  ∃ s ch, requests_ st !! em_request_id m = Some s ∧ pending_chunk s = Some ch ∧
    make_compat_key (rs_request s) (im_cfg st) = k ∧ em_attempt_id m = rs_attempt s ∧
    em_token_start m = ck_token_start ch ∧ em_token_count m = ck_token_count ch ∧
    em_memory_estimate_bytes m = ck_memory_estimate_bytes ch ∧
    em_compute_estimate m = ck_compute_estimate ch.

(** The limits leave room for one more chunk: running totals do not wrap. *)
Definition no_wrap (cfg : SchedulerConfig) : Prop :=
  let c := Z.max 1 (cfg_max_tokens_per_chunk cfg) in
  let w := cfg_max_work_per_chunk cfg in
  Z.max (cfg_max_tokens_per_group cfg) c + c < 2 ^ 64 ∧
  Z.max (cfg_max_compute_per_group cfg) w + w < 2 ^ 64.

(** Contents of a group under formation: members of one key, running totals
    (at 64 bits), and the limits as soon as there are two members. *)
Record packed (st : Impl) (g : OpenGroup) : Prop := {
  pk_members : Forall (member_of st (og_key g)) (eg_members (og_group g));
  pk_key : eg_key (og_group g) = og_key g ∧ eg_backend (og_group g) = cky_backend (og_key g);
  pk_tokens : og_total_tokens g = u64 (sumZ em_token_count (eg_members (og_group g))) ∧
              eg_total_token_count (og_group g) = og_total_tokens g;
  pk_compute : og_total_compute g = u64 (sumZ em_compute_estimate (eg_members (og_group g)));
  pk_mem : Forall (λ m, em_memory_estimate_bytes m <= og_max_mem g) (eg_members (og_group g));
  pk_limits : length (eg_members (og_group g)) = 1%nat ∨
    Z.of_nat (length (eg_members (og_group g))) <= cfg_max_requests_per_group (im_cfg st) ∧
    og_total_tokens g <= cfg_max_tokens_per_group (im_cfg st) ∧
    og_total_compute g <= cfg_max_compute_per_group (im_cfg st) ∧
    og_max_mem g <= cfg_max_memory_per_group (im_cfg st);
  pk_first : Forall (λ m, 1 <= em_token_count m <= Z.max 1 (cfg_max_tokens_per_chunk (im_cfg st)) ∧
    0 <= em_compute_estimate m <= cfg_max_work_per_chunk (im_cfg st)) (eg_members (og_group g));
  pk_exact : no_wrap (im_cfg st) →
    og_total_tokens g = sumZ em_token_count (eg_members (og_group g)) ∧
    og_total_compute g = sumZ em_compute_estimate (eg_members (og_group g))
}.

(** A group whose members are waiting and whose number is not in use. *)
Record og_ok (st : Impl) (g : OpenGroup) : Prop := {
  oo_ids : em_request_id <$> eg_members (og_group g) = og_rids g;
  oo_nonempty : og_rids g ≠ [];
  oo_nodup : NoDup (og_rids g);
  oo_cand : ∀ rid, rid ∈ og_rids g →
    ∃ s, requests_ st !! rid = Some s ∧ is_candidate s = true;
  oo_gid : 0 < og_gid g < im_next_group_value st;
  oo_fresh : groups_ st !! og_gid g = None;
  oo_unused : ∀ rid s, requests_ st !! rid = Some s → rs_current_group s ≠ og_gid g;
  oo_packed : packed st g
}.

Lemma member_of_same st st' k m s s' :
  im_cfg st' = im_cfg st → requests_ st !! em_request_id m = Some s →
  requests_ st' !! em_request_id m = Some s' → rs_request s' = rs_request s →
  rs_attempt s' = rs_attempt s → rs_plan s' = rs_plan s →
  rs_next_chunk_index s' = rs_next_chunk_index s → member_of st k m → member_of st' k m.
Proof.
  intros Hc Hs Hs' E1 E2 E3 E4 (x & ch & Hx & Hch & Hk & Hrest). simplify_eq.
  exists s', ch. split; [done|]. split; [unfold pending_chunk in *; by rewrite E3, E4|].
  by rewrite Hc, E1, E2.
Qed.

Lemma packed_same st st' g :
  im_cfg st' = im_cfg st → Forall (member_of st' (og_key g)) (eg_members (og_group g)) →
  packed st g → packed st' g.
Proof. intros Hc Hm []. split; rewrite ?Hc; done. Qed.

(** ** Traces *)

Lemma trace_request_inv line st rid : sched_inv st → sched_inv (trace_request line st rid).
Proof.
  intros Hi. unfold trace_request. destruct (requests_ st !! rid) as [s|] eqn:Hs.
  - eapply (inv_quiet st _ rid s (trace_push s line)); [done|done|done|counters| |by eff..|acct_stays].
    eff. apply map_eq. intros r. rewrite lookup_alter, lookup_insert. case_decide; [|done].
    subst. by rewrite Hs.
  - apply (inv_frame st); [done|counters| |by eff..|acct_stays].
    eff. apply map_eq. intros r. rewrite lookup_alter. case_decide; [|done]. subst. by rewrite Hs.
Qed.

Lemma trace_requests_inv line rids st :
  sched_inv st → sched_inv (foldl (trace_request line) st rids).
Proof.
  intros Hi. apply (foldl_preserve sched_inv); [|done]. intros. by apply trace_request_inv.
Qed.

Lemma trace_requests_frame line rids st :
  let st' := foldl (trace_request line) st rids in
  same_requests st st' ∧ (∀ rid, rid ∉ rids → requests_ st' !! rid = requests_ st !! rid) ∧
  groups_ st' = groups_ st ∧ workers_ st' = workers_ st ∧ im_cfg st' = im_cfg st ∧
  im_next_generation_value st' = im_next_generation_value st ∧
  im_next_group_value st' = im_next_group_value st ∧
  im_next_reservation_value st' = im_next_reservation_value st.
Proof.
  revert st. induction rids as [|rid rids IH]; intros st; [done|]. cbn [foldl].
  destruct (IH (trace_request line st rid)) as (H1 & H2 & -> & -> & -> & -> & -> & ->).
  split; [|split]; try done.
  - eapply same_requests_trans; [|done]. intros r. unfold trace_request. eff.
    rewrite lookup_alter. case_decide; [|done]. subst. by destruct (requests_ st !! r).
  - intros r [Hne Hr]%not_elem_of_cons. rewrite (H2 r Hr). unfold trace_request. eff.
    apply lookup_alter_ne. congruence.
Qed.

(** ** Entering the group table *)

Lemma insert_group_inv st gid grp w out :
  sched_inv st → 0 < gid < im_next_group_value st → out ≠ ∅ →
  (∀ rid, rid ∈ out ↔ ∃ s, requests_ st !! rid = Some s ∧ running s ∧ rs_current_group s = gid) →
  (∀ rid s, rid ∈ out → requests_ st !! rid = Some s → rs_dispatched_worker s = w) →
  sched_inv (st <| groups_ ::= <[gid := mkGs grp w out]> |>).
Proof.
  intros Hi Hgid Hne Hout Hw. destruct Hi as [? ? ? ? Hrs Hr Hmem Hown Hfr Hgrp Hagr Hgen Hten Hsta].
  split; eff; try done.
  - intros j g [[<- <-]|[Hj H]]%lookup_insert_Some; [|by apply Hgrp]. done.
  - intros r s g Hs Hrun [[E <-]|[Hj H]]%lookup_insert_Some; [|by eapply Hagr].
    apply (Hw r s); [|done]. apply Hout. eauto.
Qed.

(** ** Dispatch of one group *)

(** Members with their worker and consecutive generations. *)
Definition numbered (w : WorkerId) (ng : Generation) (ms : list ExecutableMember)
    : list ExecutableMember :=
  zip_with (λ m gen, m <| em_generation := gen |> <| em_assigned_worker := w |>)
    ms (seqZ ng (Z.of_nat (length ms))).

Definition numbered_group (w : WorkerId) (ng : Generation) (g : OpenGroup) : ExecutionGroup :=
  og_group g <| eg_members ::= numbered w ng |>.

(** The group was committed to [w]. *)
Definition committed_to (w : WorkerId) (st : Impl) (g : OpenGroup) (st' : Impl) : Prop :=
  (∀ i rid, og_rids g !! i = Some rid → ∃ s s', requests_ st !! rid = Some s ∧
     requests_ st' !! rid = Some s' ∧ started (og_gid g) w (unres s) (unres s') ∧
     rs_reservation s' ≠ 0 ∧
     rs_current_generation s' = im_next_generation_value st + Z.of_nat i) ∧
  groups_ st' = <[og_gid g := mkGs (numbered_group w (im_next_generation_value st) g) w
                                (list_to_set (og_rids g))]> (groups_ st).

Lemma committed_to_in w st g st' rid :
  committed_to w st g st' → rid ∈ og_rids g →
  ∃ s s', requests_ st !! rid = Some s ∧ requests_ st' !! rid = Some s' ∧
    started (og_gid g) w (unres s) (unres s') ∧
    im_next_generation_value st <= rs_current_generation s'.
Proof.
  intros [H _] [i Hi]%list_elem_of_lookup. destruct (H i rid Hi) as (s & s' & ? & ? & ? & _ & Hg).
  exists s, s'. do 3 (split; [done|]). lia.
Qed.

(** The group was left waiting. *)
Definition deferred (st : Impl) (st' : Impl) : Prop :=
  same_requests st st' ∧ groups_ st' = groups_ st ∧ workers_ st' = workers_ st.

Record dispatch_effect (st : Impl) (g : OpenGroup) (st' : Impl) : Prop := {
  de_inv : sched_inv st';
  de_other : ∀ rid, rid ∉ og_rids g → requests_ st' !! rid = requests_ st !! rid;
  de_cfg : im_cfg st' = im_cfg st;
  de_group : im_next_group_value st' = im_next_group_value st;
  de_gen : im_next_generation_value st <= im_next_generation_value st'
           <= im_next_generation_value st + Z.of_nat (length (og_rids g));
  de_res : im_next_reservation_value st <= im_next_reservation_value st'
           <= im_next_reservation_value st + Z.of_nat (length (og_rids g))
}.

(** Room in the counters for a number of further members. *)
Definition room (st : Impl) (n : nat) : Prop :=
  im_next_generation_value st + Z.of_nat n < 2 ^ 64 ∧
  im_next_reservation_value st + Z.of_nat n < 2 ^ 64.

Lemma og_lengths st g : og_ok st g → length (eg_members (og_group g)) = length (og_rids g).
Proof. intros Ho. rewrite <- (oo_ids _ _ Ho). by rewrite length_fmap. Qed.

Lemma zip_fst {A B} (l : list A) (k : list B) : length k = length l → (zip l k).*1 = l.
Proof. intros H. apply fst_zip. lia. Qed.

Lemma members_numbered w ng (rids : list RequestId) (ms : list ExecutableMember) :
  length ms = length rids →
  zip_with (λ (x : RequestId * ExecutableMember) g,
    x.2 <| em_generation := g |> <| em_assigned_worker := w |>) (zip rids ms)
    (seqZ ng (Z.of_nat (length rids))) = numbered w ng ms.
Proof.
  intros Hl. unfold numbered. rewrite <- Hl.
  generalize (seqZ ng (Z.of_nat (length ms))). revert rids Hl.
  induction ms as [|m ms IH]; intros [|r rids] Hl gens; try done.
  destruct gens as [|g gens]; [done|]. cbn in *. f_equal. apply IH. lia.
Qed.

Lemma numbered_fmap {A} (f : ExecutableMember → A) w ng ms :
  (∀ m gen, f (m <| em_generation := gen |> <| em_assigned_worker := w |>) = f m) →
  f <$> numbered w ng ms = f <$> ms.
Proof.
  intros Hf. unfold numbered.
  assert (length (seqZ ng (Z.of_nat (length ms))) = length ms) as Hl by (rewrite length_seqZ; lia).
  revert Hl. generalize (seqZ ng (Z.of_nat (length ms))).
  induction ms as [|m ms IH]; intros [|g gens] Hl; try done.
  cbn in *. rewrite Hf. f_equal. apply IH. lia.
Qed.

Lemma numbered_ids w ng ms : em_request_id <$> numbered w ng ms = em_request_id <$> ms.
Proof. by apply numbered_fmap. Qed.

Lemma started_unres gid w s s' : started gid w s s' → started gid w (unres s) (unres s').
Proof.
  intros (H1 & H2 & H3 & _ & H5 & H6 & H7 & H8). unfold started, running, unres in *. by rsimp.
Qed.

Lemma commit_group_spec now w st g :
  sched_inv_at (list_to_set (og_rids g)) st → og_ok st g →
  im_next_generation_value st + Z.of_nat (length (og_rids g)) < 2 ^ 64 →
  let '(st', dg) := commit_group now w st g in
  dispatch_effect st g st' ∧ im_next_reservation_value st' = im_next_reservation_value st ∧
  committed_to w st g st' ∧
  workers_ st' = alter (setf ws_busy_units (λ n, n +u 1)) w (workers_ st) ∧
  dg_group_id dg = og_gid g ∧ dg_assigned_worker dg = w ∧
  dg_group dg = numbered_group w (im_next_generation_value st) g.
Proof.
  intros Hi Ho Hgen. unfold commit_group.
  pose proof (og_lengths _ _ Ho) as Hlen.
  set (l := zip (og_rids g) (eg_members (og_group g))).
  assert (l.*1 = og_rids g) as Hl1 by (by apply zip_fst).
  assert (length l = length (og_rids g)) as Hll by (unfold l; rewrite length_zip; lia).
  pose proof (commit_members_spec now (og_gid g) w l st [] ∅ 0) as Hcm.
  rewrite Hl1, Hll in Hcm. fold (og_gid g).
  destruct (foldl (commit_member now (og_gid g) w) (st, [], ∅, 0) l) as [[[st1 ms] out] bytes].
  destruct Hcm as (Hcm & Hout & gens & Hms & Hgens);
    [done|apply Ho|apply Ho|apply Ho|apply Ho|done|].
  rewrite union_empty_l_L in Hout. subst out.
  destruct Hcm as [D1 D2 D3 D4 D5 (D6 & D7 & D8) D9].
  assert (ms = numbered w (im_next_generation_value st) (eg_members (og_group g))) as Hnum
    by (rewrite Hms, Hgens; by apply members_numbered).
  set (grp := og_group g <| eg_members := ms |>).
  assert (grp = numbered_group w (im_next_generation_value st) g) as Hgrp
    by (unfold grp, numbered_group; by rewrite Hnum).
  assert (∀ rid, rid ∈ og_rids g → ∃ s', requests_ st1 !! rid = Some s' ∧ running s' ∧
    rs_current_group s' = og_gid g ∧ rs_dispatched_worker s' = w) as Hin1.
  { intros rid [i Hi']%list_elem_of_lookup.
    destruct (D2 i rid Hi') as (_ & s' & _ & Hs' & (Hrun & Hcg & Hd & _) & _). eauto. }
  assert (∀ rid, rid ∈ (list_to_set (og_rids g) : gset Z) ↔ ∃ s, requests_ st1 !! rid = Some s ∧
    running s ∧ rs_current_group s = og_gid g) as Hout.
  { intros rid. rewrite elem_of_list_to_set. split.
    - intros Hin. destruct (Hin1 rid Hin) as (s' & Hs' & Hrun & Hcg & _). eauto.
    - intros (s & Hs & _ & Hcg). destruct (decide (rid ∈ og_rids g)) as [|Hn]; [done|].
      rewrite (D3 rid Hn) in Hs. by destruct (oo_unused _ _ Ho rid s Hs). }
  assert (sched_inv (st1 <| groups_ ::= <[og_gid g := mkGs grp w (list_to_set (og_rids g))]> |>)) as Hi1.
  { apply insert_group_inv; [done| | |done|].
    - rewrite D7. apply Ho.
    - pose proof (oo_nonempty _ _ Ho). destruct (og_rids g); [done|]. cbn. set_solver.
    - intros rid s Hin%elem_of_list_to_set Hs. destruct (Hin1 rid Hin) as (s' & Hs' & _ & _ & Hd).
      congruence. }
  split; [|split; [by eff|split; [|split; [|split]]]].
  - split.
    + apply (inv_frame _ _ Hi1); [counters|by eff..|acct_stays].
    + intros rid Hn. eff. by apply D3.
    + by eff.
    + by eff.
    + eff. rewrite D9. lia.
    + eff. rewrite D8. lia.
  - split.
    + intros i rid Hin. destruct (D2 i rid Hin) as (s & s' & Hs & Hs' & Hst & Hge). exists s, s'. eff.
      split; [done|]. split; [done|]. split; [by apply started_unres|]. split; [|done].
      apply (si_res _ D1 rid s' Hs'). left. apply Hst.
    + eff. by rewrite D4, Hgrp.
  - eff. by rewrite D5.
  - done.
  - done.
Qed.

Lemma packed_unres st st' g :
  same_requests st st' → im_cfg st' = im_cfg st → packed st g → packed st' g.
Proof.
  intros Hsame Hcfg Hpk. eapply packed_same; [done| |done].
  eapply Forall_impl; [apply Hpk|]. intros m Hm. pose proof Hm as (s & _ & Hs & _).
  destruct (same_requests_l _ _ _ _ Hsame Hs) as (s' & Hs' & E).
  eapply member_of_same; [done|exact Hs|exact Hs'|..|done].
  - exact (f_equal rs_request E).
  - exact (f_equal rs_attempt E).
  - exact (f_equal rs_plan E).
  - exact (f_equal rs_next_chunk_index E).
Qed.

(** Reservations made for the members do not change what holds of the group. *)
Lemma og_ok_same st st' g :
  og_ok st g → same_requests st st' → groups_ st' = groups_ st → im_cfg st' = im_cfg st →
  im_next_group_value st' = im_next_group_value st → og_ok st' g.
Proof.
  intros [? ? ? Hcand ? ? Hunused Hpk] Hsame Hg Hcfg Hn. split; rewrite ?Hg, ?Hn; try done.
  - intros rid Hin. destruct (Hcand rid Hin) as (s & Hs & Hc).
    destruct (same_requests_l _ _ _ _ Hsame Hs) as (s' & Hs' & E). exists s'.
    by rewrite (unres_candidate _ _ E).
  - intros rid s' Hs'. destruct (same_requests_r _ _ _ _ Hsame Hs') as (s & Hs & E).
    rewrite (f_equal rs_current_group E : rs_current_group s' = rs_current_group s).
    by eapply Hunused.
  - by eapply packed_unres.
Qed.

Lemma committed_to_same w st st1 g st' :
  same_requests st st1 → groups_ st1 = groups_ st →
  im_next_generation_value st1 = im_next_generation_value st → committed_to w st1 g st' →
  committed_to w st g st'.
Proof.
  intros Hsame Hg Hn [H1 H2]. split.
  - intros i rid Hin. destruct (H1 i rid Hin) as (s1 & s' & Hs1 & Hs' & Hst & Hr).
    destruct (same_requests_r _ _ _ _ Hsame Hs1) as (s & Hs & E). exists s, s'.
    rewrite E in Hst. rewrite Hn in Hr. done.
  - by rewrite <- Hg, <- Hn.
Qed.

Lemma dispatch_group_spec now st batch g :
  sched_inv st → og_ok st g → room st (length (og_rids g)) →
  let '(st', batch') := dispatch_group now (st, batch) g in
  dispatch_effect st g st' ∧
  (deferred st st' ∧ db_groups batch' = db_groups batch ∨
   ∃ w dg, choose_worker st (eg_backend (og_group g)) = Some w ∧ committed_to w st g st' ∧
     workers_ st' = alter (setf ws_busy_units (λ n, n +u 1)) w (workers_ st) ∧
     db_groups batch' = db_groups batch ++ [dg] ∧ dg_group_id dg = og_gid g ∧
     dg_assigned_worker dg = w ∧
     dg_group dg = numbered_group w (im_next_generation_value st) g).
Proof.
  intros Hi Ho [Hgen Hres]. unfold dispatch_group.
  rewrite bool_decide_false by (rewrite (og_lengths _ _ Ho); intros E%nil_length_inv;
    by apply (oo_nonempty _ _ Ho)).
  destruct (choose_worker st (eg_backend (og_group g))) as [w|].
  2:{ destruct (trace_requests_frame "deferred: no compatible worker" (og_rids g) st)
        as (H1 & H2 & H3 & H4 & H5 & H6 & H7 & H8). cbv zeta in *.
      split; [|left; by split]. split; [by apply trace_requests_inv|done|done|done|lia|lia]. }
  pose proof (reserve_members_spec ∅ st (og_rids g) Hi (oo_nodup _ _ Ho)) as Hrm.
  destruct (reserve_members st (og_rids g)) as [[st1 l] ok].
  destruct Hrm as [Dinv Dpre Dall Dsame Doth Dheld Dgr Dwk (Dc1 & Dc2 & Dc3) Dnext].
  { intros rid Hin. split; [set_solver|]. destruct (oo_cand _ _ Ho rid Hin) as (s & Hs & Hc).
    exists s. split; [done|by apply candidate_not_running]. }
  { done. }
  rewrite union_empty_r_L in Dinv. destruct ok; cbn [negb].
  - rewrite (Dall eq_refl) in Dinv.
    pose proof (og_ok_same st st1 g Ho Dsame Dgr Dc1 Dc3) as Ho1.
    pose proof (commit_group_spec now w st1 g Dinv Ho1) as Hcg.
    destruct (commit_group now w st1 g) as [st2 dg].
    destruct Hcg as (He & Hnr & Hc & Hw & Hd1 & Hd2 & Hd3).
    { by rewrite Dc2. }
    split.
    + destruct He as [E1 E2 E3 E4 E5 E6]. split; [done| |congruence|congruence| |].
      * intros rid Hn. by rewrite (E2 rid Hn), (Doth rid Hn).
      * rewrite <- Dc2. done.
      * rewrite Hnr. done.
    + right. exists w, dg. split; [done|]. split; [by eapply committed_to_same|].
      split; [by rewrite Hw, Dwk|]. rewrite Dc2 in Hd3. eff. done.
  - assert (sched_inv (rollback st1 l)) as Hrb.
    { apply rollback_inv; [done| |].
      - destruct Dpre as [k ->]. eapply sublist_NoDup; [apply Ho|apply sublist_take].
      - intros rv rid Hin. destruct (Dheld rv rid Hin) as (s & Hs & Hrv & Hnz). exists s.
        split_and!; [done..|].
        destruct (same_requests_r _ _ _ _ Dsame Hs) as (s0 & Hs0 & E). rewrite (unres_running _ _ E).
        apply candidate_not_running. destruct (oo_cand _ _ Ho rid) as (s0' & Hs0' & Hc); [|congruence].
        assert (rid ∈ l.*2) as Hin2 by (apply list_elem_of_fmap; by exists (rv, rid)).
        destruct Dpre as [k Hk]. rewrite Hk in Hin2.
        rewrite <- (take_drop k (og_rids g)). apply elem_of_app. by left. }
    destruct (rollback_frame st1 l) as (F1 & F2 & F3 & F4 & F5 & F6).
    pose proof (rollback_same st1 l) as Fsame.
    destruct (trace_requests_frame "deferred: memory unavailable" (og_rids g) (rollback st1 l))
      as (H1 & H2 & H3 & H4 & H5 & H6 & H7 & H8). cbv zeta in *.
    split.
    + split; [by apply trace_requests_inv| |congruence|congruence| |].
      * intros rid Hn. rewrite (H2 rid Hn), rollback_other; [by apply Doth|].
        destruct Dpre as [k ->]. intros Hin. apply Hn.
        rewrite <- (take_drop k (og_rids g)). apply elem_of_app. by left.
      * rewrite H6, F4, Dc2. lia.
      * rewrite H8, F6. done.
    + left. split; [|done]. split; [|split; congruence].
      eapply same_requests_trans; [exact Dsame|]. by eapply same_requests_trans.
Qed.
End group_inv.
