(* ===== verification/FormInv.v ===== *)
(** * Group formation and the whole cycle

    Formation partitions the candidates into open groups with fresh numbers;
    their dispatch one after the other, and the cycle as a whole, preserve the
    invariant. *)

From S2P Require Import Prelude Float Types Request Chunking Memory Compat Exec Observability SchedState SchedOps SchedCycle SchedFrame SchedInv SchedOpsInv SchedOpsInv2 CycleInv DispatchInv GroupInv.

Section form_inv.
Context `{FE : FloatEnv} `{CK : ClockSource} `{HO : HashOrder} `{OR : Origin}.

(** ** Placement *)

(** The chunk goes to the first group that accepts it. *)
Lemma place_some cfg open k rid s ch open' :
  place cfg open k rid s ch = Some open' →
  ∃ l1 g l2, open = l1 ++ g :: l2 ∧ open' = l1 ++ group_add g rid s ch :: l2 ∧
    cd_compatible (compatible_with_group cfg g ch k) = true ∧
    Forall (λ g', cd_compatible (compatible_with_group cfg g' ch k) = false) l1.
Proof.
  revert open'. induction open as [|g open IH]; intros open'; cbn [place]; [done|].
  destruct (cd_compatible (compatible_with_group cfg g ch k)) eqn:E.
  - intros [= <-]. exists [], g, open. done.
  - destruct (place cfg open k rid s ch) as [o|] eqn:Ep; [|done]. intros [= <-].
    destruct (IH o eq_refl) as (l1 & g' & l2 & -> & -> & Hc & Hall).
    exists (g :: l1), g', l2. split_and!; try done. by constructor.
Qed.

Lemma place_none cfg open k rid s ch :
  place cfg open k rid s ch = None →
  Forall (λ g', cd_compatible (compatible_with_group cfg g' ch k) = false) open.
Proof.
  induction open as [|g open IH]; cbn [place]; [done|].
  destruct (cd_compatible (compatible_with_group cfg g ch k)) eqn:E; [done|].
  destruct (place cfg open k rid s ch) eqn:Ep; [done|]. intros _. constructor; auto.
Qed.

(** ** Formation *)

(** The members of an open group are waiting requests, in order, and the group
    is packed within the limits. *)
Definition og_formed (st : Impl) (g : OpenGroup) : Prop :=
  em_request_id <$> eg_members (og_group g) = og_rids g ∧ og_rids g ≠ [] ∧
  (∀ rid, rid ∈ og_rids g → ∃ s, requests_ st !! rid = Some s ∧ is_candidate s = true) ∧
  packed st g.

Lemma compatible_spec cfg g ch k :
  cd_compatible (compatible_with_group cfg g ch k) = true ↔
  og_key g = k ∧ group_size (og_group g) < cfg_max_requests_per_group cfg ∧
  og_total_tokens g +u ck_token_count ch <= cfg_max_tokens_per_group cfg ∧
  og_total_compute g +u ck_compute_estimate ch <= cfg_max_compute_per_group cfg ∧
  Z.max (og_max_mem g) (ck_memory_estimate_bytes ch) <= cfg_max_memory_per_group cfg.
Proof.
  unfold compatible_with_group. cbv zeta. repeat case_if; cbn; bools; split; try done; try lia.
  all: intros (? & ? & ? & ? & ?); done || lia.
Qed.

(** The member made for the next chunk of [s]. *)
Lemma make_member_of st rid s s0 ch idx :
  requests_ st !! rid = Some s0 → unres s = unres s0 → pending_chunk s = Some ch →
  member_of st (make_compat_key (rs_request s) (im_cfg st)) (make_member rid s ch idx).
Proof.
  intros Hs E Hch. exists s0, ch. cbn.
  rewrite (f_equal rs_request E : rs_request s = rs_request s0).
  rewrite (f_equal rs_attempt E : rs_attempt s = rs_attempt s0).
  split; [done|]. split; [|done]. unfold pending_chunk in *.
  by rewrite <- (f_equal rs_plan E : rs_plan s = rs_plan s0),
    <- (f_equal rs_next_chunk_index E : rs_next_chunk_index s = rs_next_chunk_index s0).
Qed.

(** Bounds of a planned chunk. *)
Definition chunk_fits (cfg : SchedulerConfig) (ch : PrefillChunk) : Prop :=
  1 <= ck_token_count ch <= Z.max 1 (cfg_max_tokens_per_chunk cfg) ∧
  0 <= ck_compute_estimate ch <= cfg_max_work_per_chunk cfg.

Lemma pending_chunk_fits R st rid s ch :
  sched_inv_at R st → requests_ st !! rid = Some s → pending_chunk s = Some ch →
  chunk_fits (im_cfg st) ch.
Proof.
  intros Hi Hs E. pose proof (si_rs _ Hi _ _ Hs) as []. unfold pending_chunk in E.
  rewrite ro_plan in E. destruct (si_cfg _ Hi) as [Hcfg _].
  by pose proof (plan_chunk_bounds _ _ _ _ _ _ (proj1 ro_req) Hcfg E) as (? & _ & ?).
Qed.

Lemma group_add_packed st g rid s s0 ch :
  is_u32 (cfg_max_requests_per_group (im_cfg st)) → chunk_fits (im_cfg st) ch →
  packed st g → requests_ st !! rid = Some s0 → unres s = unres s0 → pending_chunk s = Some ch →
  cd_compatible (compatible_with_group (im_cfg st) g ch
    (make_compat_key (rs_request s) (im_cfg st))) = true →
  packed st (group_add g rid s ch).
Proof.
  intros Hcfg [Hf1 Hf2] [P1 [P2 P2'] [P3 P3'] P4 P5 P6 P7 P8] Hs E Hch
    (Hk & Hn & Ht & Hcm & Hmem)%compatible_spec.
  pose proof (make_member_of st rid s s0 ch (group_size (og_group g)) Hs E Hch) as Hm.
  unfold is_u32 in Hcfg. unfold group_size in Hn.
  split; unfold group_add; cbn [og_group og_key og_total_tokens og_total_compute og_max_mem]; rsimp.
  - rewrite Hk. apply Forall_app. split; [by rewrite <- Hk|]. by constructor.
  - done.
  - rewrite P3', P3, sumZ_app. cbn. rewrite Z.add_0_r. by rewrite u64_add_l.
  - rewrite P4, sumZ_app. cbn. rewrite Z.add_0_r. by rewrite u64_add_l.
  - apply Forall_app. split; [|constructor; [cbn; lia|done]].
    eapply Forall_impl; [exact P5|]. cbn. intros. lia.
  - right. rewrite length_app. cbn [length]. split; [|done].
    assert (Z.of_nat (length (eg_members (og_group g))) < 2 ^ 32) as Hlen
      by (destruct P6 as [-> |[? _]]; lia).
    rewrite u32_small in Hn by (unfold is_u32; lia). lia.
  - apply Forall_app. split; [done|]. constructor; [done|constructor].
  - intros Hnw. pose proof Hnw as [W1 W2]. destruct (P8 Hnw) as [X1 X2].
    assert (0 <= og_total_tokens g <= Z.max (cfg_max_tokens_per_group (im_cfg st))
              (Z.max 1 (cfg_max_tokens_per_chunk (im_cfg st))) ∧
            0 <= og_total_compute g <= Z.max (cfg_max_compute_per_group (im_cfg st))
              (cfg_max_work_per_chunk (im_cfg st))) as [B1 B2].
    { split; (split; [rewrite ?X1, ?X2; apply sumZ_nonneg; intros x Hx;
        rewrite Forall_forall in P7; specialize (P7 x Hx); cbn in P7; lia|]).
      all: destruct P6 as [Hl|(_ & L1 & L2 & _)]; [|lia].
      all: destruct (eg_members (og_group g)) as [|x [|y l]]; try done.
      all: apply Forall_cons in P7 as [P7 _]; cbn in P7, X1, X2; lia. }
    rewrite !sumZ_app, <- X1, <- X2. cbn. rewrite !u64_small by (unfold is_u64; lia). lia.
Qed.

Lemma group_open_packed st gid rid s s0 ch :
  is_u64 (cfg_max_tokens_per_chunk (im_cfg st)) → is_u64 (cfg_max_work_per_chunk (im_cfg st)) →
  chunk_fits (im_cfg st) ch →
  requests_ st !! rid = Some s0 → unres s = unres s0 → pending_chunk s = Some ch →
  packed st (group_open (make_compat_key (rs_request s) (im_cfg st)) gid rid s ch).
Proof.
  intros Hu1 Hu2 Hf Hs E Hch. pose proof (make_member_of st rid s s0 ch 0 Hs E Hch) as Hm.
  split; unfold group_open; cbn [og_group og_key og_total_tokens og_total_compute og_max_mem
    eg_members eg_key eg_backend eg_total_token_count]; try done.
  - by constructor.
  - cbn. by rewrite !Z.add_0_r.
  - cbn. by rewrite !Z.add_0_r.
  - constructor; [cbn; lia|done].
  - by left.
  - constructor; [done|constructor].
  - intros _. destruct Hf as [Hf1 Hf2]. unfold is_u64 in *. cbn.
    rewrite !u64_small by (unfold is_u64; lia). lia.
Qed.

Lemma group_add_formed st g rid s s0 ch :
  is_u32 (cfg_max_requests_per_group (im_cfg st)) → chunk_fits (im_cfg st) ch →
  og_formed st g → requests_ st !! rid = Some s0 → is_candidate s0 = true → unres s = unres s0 →
  pending_chunk s = Some ch →
  cd_compatible (compatible_with_group (im_cfg st) g ch
    (make_compat_key (rs_request s) (im_cfg st))) = true →
  og_formed st (group_add g rid s ch).
Proof.
  intros Hcfg Hf (H1 & H2 & H3 & H4) Hs Hc E Hch Hcomp.
  pose proof (group_add_packed st g rid s s0 ch Hcfg Hf H4 Hs E Hch Hcomp) as Hpk.
  unfold og_formed. split; [|split; [|split; [|done]]];
    unfold group_add; cbn [og_group og_rids]; rsimp.
  - rewrite fmap_app, H1. done.
  - intros Hn. by destruct (og_rids g).
  - intros r [Hr| ->%list_elem_of_singleton]%elem_of_app; eauto.
Qed.

(** State of the formation loop after the candidates [done]. *)
Record forming (st0 : Impl) (done : list RequestId) (st : Impl) (open : list OpenGroup) : Prop := {
  fm_inv : sched_inv st;
  fm_same : same_requests st0 st;
  fm_groups : groups_ st = groups_ st0;
  fm_workers : workers_ st = workers_ st0;
  fm_cfg : im_cfg st = im_cfg st0;
  fm_gen : im_next_generation_value st = im_next_generation_value st0;
  fm_res : im_next_reservation_value st = im_next_reservation_value st0;
  fm_gids : og_gid <$> open = seqZ (im_next_group_value st0) (Z.of_nat (length open));
  fm_next : im_next_group_value st = im_next_group_value st0 + Z.of_nat (length open);
  fm_formed : Forall (og_formed st0) open;
  fm_part : mjoin (og_rids <$> open) ≡ₚ done;
  fm_len : (length open <= length done)%nat
}.

Lemma alloc_group_inv st :
  sched_inv st → im_next_group_value st + 1 < 2 ^ 64 → sched_inv (alloc_group st).2.
Proof.
  intros Hi Hroom. unfold alloc_group. cbn [snd].
  destruct Hi as [? ? ? [Hn1 Hn2] Hrs Hr Hmem Hown Hfr Hgrp Hagr Hgen Hten Hsta].
  split; eff; rewrite ?u64_small by (unfold is_u64; lia); try done; try lia.
  - intros rid s Hs. eapply rs_ok_mono; [by apply Hrs|lia|lia].
  - intros gid g Hg. destruct (Hgrp gid g Hg) as (H1 & H2 & H3). split; [lia|done].
Qed.

Lemma form_one_spec st0 done st open rid s0 :
  forming st0 done st open → requests_ st0 !! rid = Some s0 → is_candidate s0 = true →
  im_next_group_value st0 + Z.of_nat (length done) + 1 < 2 ^ 64 →
  let '(st', open') := form_one (st, open) rid in forming st0 (done ++ [rid]) st' open'.
Proof.
  intros Hf Hs0 Hc0 Hroom. pose proof Hf as [F1 F2 F3 F4 F5 F6 F7 F8 F9 F10 F11 F12].
  destruct (same_requests_l _ _ _ _ F2 Hs0) as (s & Hs & E).
  unfold form_one.
  assert (map_at Rs_default (requests_ st) rid = s) as -> by (unfold map_at; by rewrite Hs).
  assert (is_candidate s = true) as Hc by (by rewrite (unres_candidate _ _ E)).
  rewrite Hc. cbn [negb].
  destruct (pending_chunk s) as [ch|] eqn:Ech.
  2:{ exfalso. apply candidate_spec in Hc as (Hl & _ & Hlt).
      destruct (ro_live _ _ _ _ _ (si_rs _ F1 _ _ Hs)) as (ch & Hch & _); [by left|congruence]. }
  pose proof (pending_chunk_fits _ _ _ _ _ F1 Hs Ech) as Hfit. rewrite F5 in Hfit.
  assert (config_wf (im_cfg st0)) as (Hu1 & Hu2 & _ & Hmax & _)
    by (rewrite <- F5; apply (si_cfg _ F1)).
  destruct (place (im_cfg st) open (make_compat_key (rs_request s) (im_cfg st)) rid s ch)
    as [open'|] eqn:Epl.
  - destruct (place_some _ _ _ _ _ _ _ Epl) as (l1 & g & l2 & -> & -> & Hcomp & _).
    split.
    + eapply (inv_quiet st _ rid s); [done|done| |counters|by eff..|acct_stays]. unfold core. by eff.
    + eapply same_requests_trans; [done|]. eapply unres_put; done.
    + by eff.
    + by eff.
    + by eff.
    + by eff.
    + by eff.
    + rewrite fmap_app, fmap_cons in *. rewrite length_app in *. cbn [length] in *. exact F8.
    + eff. rewrite F9, !length_app. cbn [length]. lia.
    + apply Forall_app in F10 as [Ha Hb]. apply Forall_cons in Hb as [Hg Hb].
      apply Forall_app. split; [done|]. constructor; [|done].
      rewrite F5 in Hcomp. by eapply group_add_formed.
    + rewrite fmap_app, fmap_cons, join_app in *. cbn in *. rewrite <- F11.
      rewrite <- !app_assoc. do 2 apply Permutation_app_head. apply Permutation_app_comm.
    + rewrite !length_app in *. cbn [length] in *. lia.
  - unfold alloc_group. cbv beta iota.
    pose proof (alloc_group_inv st F1 ltac:(lia)) as Hi'. unfold alloc_group in Hi'. cbn [snd] in Hi'.
    split.
    + done.
    + intros r. eff. apply F2.
    + by eff.
    + by eff.
    + by eff.
    + by eff.
    + by eff.
    + rewrite fmap_app, length_app, F8. cbn. rewrite Nat2Z.inj_add, seqZ_app by lia.
      f_equal. unfold og_gid. cbn. rewrite F9. done.
    + eff. rewrite u64_small by (destruct (si_next _ F1); unfold is_u64; lia).
      rewrite F9, length_app. cbn. lia.
    + apply Forall_app. split; [done|]. constructor; [|done].
      split; [done|]. split; [done|]. split; [intros r ->%list_elem_of_singleton; eauto|].
      rewrite F5. by eapply group_open_packed.
    + rewrite fmap_app, join_app. cbn. rewrite F11. done.
    + rewrite !length_app. cbn. lia.
Qed.

Lemma form_groups_spec st cands :
  sched_inv st → (∀ rid, rid ∈ cands → ∃ s, requests_ st !! rid = Some s ∧ is_candidate s = true) →
  im_next_group_value st + Z.of_nat (length cands) < 2 ^ 64 →
  let '(st', open) := form_groups st cands in forming st cands st' open.
Proof.
  intros Hi Hc Hroom. unfold form_groups.
  assert (∀ todo dn st1 open, dn ++ todo = cands → forming st dn st1 open →
    let '(st', open') := foldl form_one (st1, open) todo in forming st cands st' open') as Hgen.
  { induction todo as [|rid todo IH]; intros dn st1 open Hsplit Hf.
    - cbn. rewrite app_nil_r in Hsplit. by subst.
    - cbn [foldl]. destruct (Hc rid) as (s0 & Hs0 & Hc0); [subst; apply elem_of_app; right; by left|].
      pose proof (form_one_spec st dn st1 open rid s0 Hf Hs0 Hc0) as Hone.
      destruct (form_one (st1, open) rid) as [st2 open2].
      apply (IH (dn ++ [rid])); [by rewrite <- app_assoc|]. apply Hone.
      subst. rewrite length_app in Hroom. cbn in Hroom. lia. }
  apply (Hgen cands []); [done|]. split; try done; cbn; lia.
Qed.

(** ** Dispatch of all open groups *)

Lemma started_current gid w s s' : started gid w s s' → rs_current_group s' = gid.
Proof. by intros (_ & ? & _). Qed.

(** What holds of the groups still to dispatch is not affected by the dispatch
    of another group with other members and another number. *)
Lemma og_ok_after st g st' g' :
  og_ok st g' → dispatch_effect st g st' →
  (deferred st st' ∨ ∃ w, committed_to w st g st') →
  og_gid g ≠ og_gid g' → (∀ rid, rid ∈ og_rids g → rid ∉ og_rids g') → og_ok st' g'.
Proof.
  intros Ho He Hcase Hgid Hdis. destruct Ho as [O1 O2 O3 O4 O5 O6 O7 O8].
  destruct He as [E1 E2 E3 E4 E5 E6]. split; try done.
  - intros rid Hin. destruct (O4 rid Hin) as (s & Hs & Hc). exists s. split; [|done].
    rewrite E2; [done|]. intros H. by apply (Hdis rid).
  - by rewrite E4.
  - destruct Hcase as [(_ & -> & _)|(w & _ & ->)]; [done|].
    by rewrite lookup_insert_ne.
  - intros rid s' Hs'. destruct (decide (rid ∈ og_rids g)) as [Hin|Hn].
    + destruct Hcase as [(Hsame & _)|(w & Hcm)].
      * destruct (same_requests_r _ _ _ _ Hsame Hs') as (s & Hs & E).
        rewrite (f_equal rs_current_group E : rs_current_group s' = rs_current_group s). eauto.
      * destruct (committed_to_in w st g st' rid Hcm Hin)
          as (s & s1 & _ & Hs1 & Hst & _). simplify_eq.
        apply started_current in Hst. by rewrite <- Hst in Hgid.
    + rewrite E2 in Hs' by done. eauto.
  - eapply packed_same; [done| |done]. apply Forall_forall. intros m Hm.
    pose proof (pk_members _ _ O8) as Hall. rewrite Forall_forall in Hall.
    destruct (Hall m Hm) as (s & ch & Hs & Hrest). exists s, ch. rewrite E3. split; [|done].
    rewrite E2; [done|]. intros Hin. apply (Hdis _ Hin). rewrite <- O1.
    apply list_elem_of_fmap. eauto.
Qed.

(** Total size of the groups, the number of reservations and generations a
    cycle may use. *)
Definition total_members (open : list OpenGroup) : nat := length (mjoin (og_rids <$> open)).

(** Induction over the dispatch loop: a property kept by the dispatch of any of
    the groups, in a state where it may be dispatched, holds at the end. *)
Lemma dispatch_all_ind (P : Impl → DispatchBatch → Prop) now open st batch :
  sched_inv st → Forall (og_ok st) open → NoDup (og_gid <$> open) →
  NoDup (mjoin (og_rids <$> open)) → room st (total_members open) → P st batch →
  (∀ st1 b1 g, g ∈ open → sched_inv st1 → og_ok st1 g → room st1 (length (og_rids g)) → P st1 b1 →
     let '(st2, b2) := dispatch_group now (st1, b1) g in P st2 b2) →
  let '(st', batch') := foldl (dispatch_group now) (st, batch) open in
  sched_inv st' ∧ P st' batch'.
Proof.
  revert st batch. induction open as [|g open IH]; intros st batch Hi Hall Hgids Hnd Hroom HP Hstep; [done|].
  cbn [foldl]. apply Forall_cons in Hall as [Hg Hall].
  rewrite fmap_cons, NoDup_cons in Hgids. destruct Hgids as [Hgn Hgids].
  unfold total_members in *. rewrite fmap_cons in Hnd, Hroom.
  change (mjoin (og_rids g :: (og_rids <$> open)))
    with (og_rids g ++ mjoin (og_rids <$> open)) in Hnd, Hroom.
  apply NoDup_app in Hnd as (Hnd1 & Hdis & Hnd2). rewrite length_app in Hroom.
  destruct Hroom as [Hr1 Hr2].
  assert (room st (length (og_rids g))) as Hrg by (split; lia).
  pose proof (dispatch_group_spec now st batch g Hi Hg Hrg) as Hsp.
  pose proof (Hstep st batch g ltac:(by left) Hi Hg Hrg HP) as HP1.
  destruct (dispatch_group now (st, batch) g) as [st1 batch1]. destruct Hsp as [He Hcase].
  pose proof He as [E1 E2 E3 E4 E5 E6].
  apply IH; [done| |done|done|split; lia|done|].
  - apply Forall_forall. intros g' Hin. eapply og_ok_after; [|done| | |].
    + rewrite Forall_forall in Hall. by apply Hall.
    + destruct Hcase as [[? _]|(w & dg & _ & ? & _)]; [by left|right; eauto].
    + intros E. apply Hgn. apply list_elem_of_fmap. eauto.
    + intros rid Hr Hr'. apply (Hdis rid Hr). apply list_elem_of_join. exists (og_rids g').
      split; [done|]. apply list_elem_of_fmap. eauto.
  - intros st2 b2 g' Hin. apply Hstep. by right.
Qed.

(** ** Aging *)

Lemma core_running s s' : core s' = core s → running s' ↔ running s.
Proof.
  intros H. unfold core in H. injection H as _ _ E3 _ _ _ _ _ _ E10 _ _ _.
  unfold running. by rewrite E3, E10.
Qed.

Lemma inv_map_quiet (f : Rs → Rs) st :
  (∀ s, core (f s) = core s) → sched_inv st → sched_inv (st <| requests_ ::= fmap f |>).
Proof.
  intros Hf Hi. assert (∀ s, running (f s) ↔ running s) as Hrun by (intros; by apply core_running).
  assert (∀ s, rs_request (f s) = rs_request s ∧ rs_lifecycle (f s) = rs_lifecycle s ∧
    rs_current_generation (f s) = rs_current_generation s ∧ rs_reservation (f s) = rs_reservation s ∧
    rs_reserved_bytes (f s) = rs_reserved_bytes s ∧ rs_current_group (f s) = rs_current_group s ∧
    rs_dispatched_worker (f s) = rs_dispatched_worker s) as Hfld.
  { intros s. specialize (Hf s). unfold core in Hf. by injection Hf. }
  destruct Hi as [? ? ? ? Hrs Hr Hmem Hown Hfr Hgrp Hagr Hgen Hten Hsta].
  split; eff; rewrite ?map_size_fmap; try done.
  - intros rid s' (s & <- & Hs)%lookup_fmap_Some. eapply core_rs_ok; [by apply Hrs|apply Hf].
  - intros rid s' (s & <- & Hs)%lookup_fmap_Some. destruct (Hfld s) as (_ & _ & _ & -> & _).
    rewrite Hrun. by apply Hr.
  - intros rv rid b. rewrite (Hown rv rid b). rewrite lookup_fmap.
    destruct (requests_ st !! rid) as [s|]; cbn; [|naive_solver].
    destruct (Hfld s) as (_ & _ & _ & E1 & E2 & _). split; intros (Hz & x & [= <-] & Hx & Hx');
      (split; [done|]); eexists; (split; [reflexivity|]); split; congruence.
  - intros gid g Hg. destruct (Hgrp gid g Hg) as (H1 & H2 & H3). do 2 (split; [done|]).
    intros rid. rewrite H3, lookup_fmap. destruct (requests_ st !! rid) as [s|]; cbn; [|naive_solver].
    destruct (Hfld s) as (_ & _ & _ & _ & _ & E & _).
    split; intros (x & [= <-] & Hx & Hx'); eexists; (split; [reflexivity|]);
      (split; [by apply Hrun|congruence]).
  - intros rid s' g (s & <- & Hs)%lookup_fmap_Some Hx. destruct (Hfld s) as (_ & _ & _ & _ & _ & -> & ->).
    apply Hagr with rid; [done|]. by apply Hrun.
  - intros r1 r2 s1 s2 (x1 & <- & H1)%lookup_fmap_Some (x2 & <- & H2)%lookup_fmap_Some.
    destruct (Hfld x1) as (_ & _ & -> & _), (Hfld x2) as (_ & _ & -> & _). by apply Hgen.
  - intros t. cbv zeta.
    assert (∀ s, in_tenant t (f s) = in_tenant t s) as Hin
      by (intros s; unfold in_tenant, nonterminal; by destruct (Hfld s) as (-> & -> & _)).
    assert (live_count t (f <$> requests_ st) = live_count t (requests_ st)) as ->.
    { unfold live_count. rewrite map_sum_fmap. apply map_sum_ext. intros ? s _. by rewrite Hin. }
    assert (live_tokens t (f <$> requests_ st) = live_tokens t (requests_ st)) as ->.
    { unfold live_tokens. rewrite map_sum_fmap. apply map_sum_ext. intros ? s _.
      rewrite Hin. by destruct (Hfld s) as (-> & _). }
    apply Hten.
  - destruct Hsta as [H1 H2]. split; [by rewrite map_size_fmap|]. intros l p Hl.
    assert (life_count l (f <$> requests_ st) = life_count l (requests_ st)) as ->; [|by apply H2].
    unfold life_count. rewrite map_sum_fmap. apply map_sum_ext. intros ? s _.
    by destruct (Hfld s) as (_ & -> & _).
Qed.

Lemma age_core s : core (age s) = core s.
Proof. unfold age. destruct (is_waiting s); [|done]. unfold core. by rsimp. Qed.
End form_inv.
