(* ===== verification/RunCycle.v ===== *)
(** * The whole cycle

    Frames of the expiry sweep, the candidate list and its sorting, and the
    preservation of the invariant by [run_cycle]. *)

From S2P Require Import Prelude Float Types Request Chunking Memory Compat Exec Observability SchedState SchedOps SchedCycle SchedFrame SchedInv SchedOpsInv SchedOpsInv2 CycleInv DispatchInv GroupInv FormInv.

(** ** Sorting *)

Section sorting.
Context {A : Type} (lt : A → A → bool).

Lemma sort_insert_perm x l : sort_insert lt x l ≡ₚ x :: l.
Proof.
  induction l as [|y l IH]; cbn; [done|]. destruct (lt y x); [|done].
  rewrite IH. apply Permutation_swap.
Qed.

Lemma sort_by_perm l : sort_by lt l ≡ₚ l.
Proof. induction l as [|x l IH]; [done|]. cbn. by rewrite sort_insert_perm, IH. Qed.
End sorting.

Section run_cycle.
Context `{FE : FloatEnv} `{CK : ClockSource} `{HO : HashOrder} `{OR : Origin}.

(** ** The sweep keeps the counters and the set of requests *)

Lemma expire_one_frame now st rid :
  same_counters st (expire_one now st rid) ∧
  size (requests_ (expire_one now st rid)) = size (requests_ st).
Proof.
  unfold expire_one. destruct (requests_ st !! rid) as [s|] eqn:Hs; [|done].
  destruct (is_terminal_lifecycle (rs_lifecycle s)); [done|].
  destruct (_ || _); [|done]. rewrite release_reservation_eq, group_erase_member_eq.
  cbv beta iota zeta. repeat eff_step.
  destruct (past_deadline now s), (rs_in_flight s); (split; [counters|]); eff;
    (eapply size_put; exact Hs).
Qed.

Lemma expire_sweep_frame now st :
  same_counters st (expire_sweep now st) ∧
  size (requests_ (expire_sweep now st)) = size (requests_ st).
Proof.
  unfold expire_sweep.
  apply (foldl_preserve (λ st', same_counters st st' ∧ size (requests_ st') = size (requests_ st)));
    [|done].
  intros st' rid _ [(H1 & H2 & H3 & H4) H5].
  destruct (expire_one_frame now st' rid) as [(E1 & E2 & E3 & E4) E5].
  split; [|congruence]. split_and!; congruence.
Qed.

Lemma touch_tenants_frame st cands :
  let st' := touch_tenants st cands in
  same_counters st st' ∧ requests_ st' = requests_ st ∧ groups_ st' = groups_ st ∧
  workers_ st' = workers_ st.
Proof.
  unfold touch_tenants. destruct (1 <? length cands)%nat; [|done].
  apply (foldl_preserve (λ st', same_counters st st' ∧ requests_ st' = requests_ st ∧
    groups_ st' = groups_ st ∧ workers_ st' = workers_ st)); [|done].
  intros st' rid _ H. exact H.
Qed.

(** ** Candidates *)

Lemma candidates_spec st rid :
  rid ∈ candidates st ↔ ∃ s, requests_ st !! rid = Some s ∧ is_candidate s = true.
Proof.
  unfold candidates. rewrite list_elem_of_fmap. split.
  - intros ([k s] & -> & [Hc Hin%elem_of_iter]%list_elem_of_filter). eauto.
  - intros (s & Hs & Hc). exists (rid, s). split; [done|].
    apply list_elem_of_filter. split; [done|]. by apply elem_of_iter.
Qed.

Lemma candidates_nodup st : NoDup (candidates st).
Proof.
  unfold candidates. eapply sublist_NoDup; [apply (NoDup_iter_keys (requests_ st))|].
  unfold iter_keys. apply fmap_sublist, sublist_filter.
Qed.

Lemma candidates_length st : (length (candidates st) <= size (requests_ st))%nat.
Proof.
  unfold candidates. rewrite length_fmap. etransitivity; [apply length_filter|].
  rewrite iter_perm. by rewrite length_map_to_list.
Qed.

(** ** From formation to dispatch *)

Lemma forming_og_ok st cands st' open :
  sched_inv st → NoDup cands → forming st cands st' open →
  Forall (og_ok st') open ∧ NoDup (og_gid <$> open) ∧ NoDup (mjoin (og_rids <$> open)) ∧
  total_members open = length cands.
Proof.
  intros Hi Hnd [F1 F2 F3 F4 F5 F6 F7 F8 F9 F10 F11 F12].
  assert (NoDup (mjoin (og_rids <$> open))) as Hndj by (by rewrite F11).
  split_and!.
  - apply Forall_forall. intros g Hin.
    assert (og_gid g ∈ og_gid <$> open) as Hg by (apply list_elem_of_fmap; eauto).
    rewrite F8 in Hg. apply elem_of_seqZ in Hg.
    rewrite Forall_forall in F10. destruct (F10 g Hin) as (O1 & O2 & O3 & O4).
    pose proof (si_next _ Hi) as [_ Hpos].
    split; try done.
    + apply list_elem_of_split in Hin as (l1 & l2 & ->). rewrite fmap_app, join_app in Hndj.
      apply NoDup_app in Hndj as (_ & _ & Hndj). rewrite fmap_cons in Hndj. cbn in Hndj.
      by apply NoDup_app in Hndj as [? _].
    + intros rid Hr. destruct (O3 rid Hr) as (s & Hs & Hc).
      destruct (same_requests_l _ _ _ _ F2 Hs) as (s' & Hs' & E). exists s'.
      by rewrite (unres_candidate _ _ E).
    + rewrite F9. lia.
    + rewrite F3. destruct (groups_ st !! og_gid g) as [x|] eqn:Ex; [|done].
      apply (si_groups _ Hi) in Ex as [? _]. lia.
    + intros rid s' Hs'. destruct (same_requests_r _ _ _ _ F2 Hs') as (s & Hs & E).
      rewrite (f_equal rs_current_group E : rs_current_group s' = rs_current_group s).
      pose proof (ro_group _ _ _ _ _ (si_rs _ Hi _ _ Hs)). lia.
    + by eapply packed_unres.
  - rewrite F8. apply NoDup_seqZ.
  - done.
  - unfold total_members. by rewrite F11.
Qed.

(** Room in every counter for one more member per request. *)
Definition cycle_room (st : Impl) : Prop :=
  let n := Z.of_nat (size (requests_ st)) in
  im_next_generation_value st + n < 2 ^ 64 ∧ im_next_reservation_value st + n < 2 ^ 64 ∧
  im_next_group_value st + n < 2 ^ 64.

(** The state in which formation starts, and the ordered candidates. *)
Definition swept (now : Nanoseconds) (st : Impl) : Impl :=
  let st := expire_sweep now st in touch_tenants st (candidates st).

Definition ordered (now : Nanoseconds) (st : Impl) : list RequestId :=
  sort_by (sorter (swept now st) now) (candidates (expire_sweep now st)).

Lemma swept_frame now st :
  same_counters st (swept now st) ∧ size (requests_ (swept now st)) = size (requests_ st) ∧
  requests_ (swept now st) = requests_ (expire_sweep now st).
Proof.
  unfold swept. cbv zeta.
  destruct (touch_tenants_frame (expire_sweep now st) (candidates (expire_sweep now st)))
    as ((T1 & T2 & T3 & T4) & Hr & _).
  destruct (expire_sweep_frame now st) as [(E1 & E2 & E3 & E4) E5].
  split; [split_and!; congruence|]. rewrite Hr. done.
Qed.

Lemma swept_inv now st : sched_inv st → sched_inv (swept now st).
Proof. intros Hi. by apply touch_tenants_inv, expire_sweep_inv. Qed.

Lemma ordered_spec now st rid :
  rid ∈ ordered now st ↔ ∃ s, requests_ (swept now st) !! rid = Some s ∧ is_candidate s = true.
Proof.
  unfold ordered. rewrite sort_by_perm, candidates_spec.
  by destruct (swept_frame now st) as (_ & _ & ->).
Qed.

Lemma ordered_nodup now st : NoDup (ordered now st).
Proof. unfold ordered. rewrite sort_by_perm. apply candidates_nodup. Qed.

Lemma ordered_length now st : (length (ordered now st) <= size (requests_ st))%nat.
Proof.
  unfold ordered. rewrite sort_by_perm. etransitivity; [apply candidates_length|].
  by destruct (expire_sweep_frame now st) as [_ ->].
Qed.

(** The cycle as formation and dispatch of the ordered candidates. *)
Lemma run_cycle_eq st :
  let now := clock_now (im_clock_reads st) in
  let st0 := st <| im_clock_reads ::= S |> in
  let '(st1, open) := form_groups (swept now st0) (ordered now st0) in
  let '(st2, batch) := foldl (dispatch_group now) (st1, DispatchBatch_empty) open in
  run_cycle st = (refresh_queue_stats (st2 <| requests_ ::= fmap age |>), Ok batch).
Proof.
  intros now st0. unfold run_cycle, im_now. cbv beta iota zeta. fold now st0.
  change (touch_tenants (expire_sweep now st0) (candidates (expire_sweep now st0)))
    with (swept now st0).
  change (sort_by (sorter (swept now st0) now) (candidates (expire_sweep now st0)))
    with (ordered now st0).
  destruct (form_groups (swept now st0) (ordered now st0)) as [st1 open].
  by destruct (foldl (dispatch_group now) (st1, DispatchBatch_empty) open) as [st2 batch].
Qed.

(** The states the cycle goes through. *)
Lemma cycle_formed st :
  sched_inv st → cycle_room st →
  let now := clock_now (im_clock_reads st) in
  let st0 := st <| im_clock_reads ::= S |> in
  let '(st1, open) := form_groups (swept now st0) (ordered now st0) in
  forming (swept now st0) (ordered now st0) st1 open ∧
  Forall (og_ok st1) open ∧ NoDup (og_gid <$> open) ∧ NoDup (mjoin (og_rids <$> open)) ∧
  room st1 (total_members open).
Proof.
  intros Hi (R1 & R2 & R3) now st0.
  assert (sched_inv st0) as Hi0 by (unfold st0; frame_inv st).
  pose proof (swept_inv now st0 Hi0) as Hi1.
  destruct (swept_frame now st0) as ((C1 & C2 & C3 & C4) & Hsz & _).
  pose proof (ordered_length now st0) as Hlen.
  assert (im_next_generation_value st0 = im_next_generation_value st ∧
    im_next_group_value st0 = im_next_group_value st ∧
    im_next_reservation_value st0 = im_next_reservation_value st ∧
    requests_ st0 = requests_ st) as (S1 & S2 & S3 & S4) by done.
  rewrite S4 in *.
  pose proof (form_groups_spec (swept now st0) (ordered now st0) Hi1) as Hf.
  destruct (form_groups (swept now st0) (ordered now st0)) as [st1 open].
  assert (forming (swept now st0) (ordered now st0) st1 open) as Hform.
  { apply Hf; [intros rid; apply ordered_spec|]. rewrite C3, S2. lia. }
  destruct (forming_og_ok _ _ _ _ Hi1 (ordered_nodup now st0) Hform) as (H1 & H2 & H3 & H4).
  do 4 (split; [done|]). unfold room. rewrite H4. split.
  - rewrite (fm_gen _ _ _ _ Hform), C2, S1. lia.
  - rewrite (fm_res _ _ _ _ Hform), C4, S3. lia.
Qed.

Lemma refresh_inv st : sched_inv st → sched_inv (refresh_queue_stats st).
Proof. intros Hi. unfold refresh_queue_stats. frame_inv st. Qed.

(** Induction over a cycle, up to the aging of the waiting requests: what holds
    when formation is over and is kept by every dispatch. *)
Lemma run_cycle_ind (P : Impl → DispatchBatch → Prop) st :
  sched_inv st → cycle_room st →
  let now := clock_now (im_clock_reads st) in
  let st0 := st <| im_clock_reads ::= S |> in
  (∀ st1 open, forming (swept now st0) (ordered now st0) st1 open → P st1 DispatchBatch_empty) →
  (∀ st1 b1 g, sched_inv st1 → og_ok st1 g → room st1 (length (og_rids g)) → P st1 b1 →
     let '(st2, b2) := dispatch_group now (st1, b1) g in P st2 b2) →
  ∃ st2 batch, run_cycle st = (refresh_queue_stats (st2 <| requests_ ::= fmap age |>), Ok batch) ∧
    sched_inv st2 ∧ P st2 batch.
Proof.
  intros Hi Hroom now st0 Hinit Hstep. pose proof (run_cycle_eq st) as Heq.
  pose proof (cycle_formed st Hi Hroom) as Hf. cbv zeta in *. fold now st0 in Heq, Hf.
  destruct (form_groups (swept now st0) (ordered now st0)) as [st1 open] eqn:Eform.
  destruct Hf as (Hform & Hok & Hg & Hnd & Hr).
  pose proof (dispatch_all_ind P now open st1 DispatchBatch_empty
    (fm_inv _ _ _ _ Hform) Hok Hg Hnd Hr (Hinit _ _ Hform)) as Hd.
  destruct (foldl (dispatch_group now) (st1, DispatchBatch_empty) open) as [st2 batch].
  exists st2, batch. split; [done|]. apply Hd. intros st3 b3 g _. apply Hstep.
Qed.

Lemma run_cycle_inv st : sched_inv st → cycle_room st → sched_inv (run_cycle st).1.
Proof.
  intros Hi Hroom.
  destruct (run_cycle_ind (λ _ _, True) st Hi Hroom) as (st2 & batch & -> & Hi2 & _).
  - done.
  - intros. by destruct (dispatch_group _ _ _).
  - apply refresh_inv, inv_map_quiet; [apply age_core|done].
Qed.
End run_cycle.
