(* ===== verification/CycleStable.v ===== *)
(** * Predicates that a cycle preserves

    A cycle is a composition of small updates of the state.  A predicate that
    each of them preserves ([cycle_stable]) is preserved by the whole cycle. *)

From S2P Require Import Prelude Float Types Request Chunking Memory Compat Exec Observability SchedState SchedOps SchedCycle SchedFrame SchedInv RunCycle.

Section stable.
Context `{FE : FloatEnv} `{CK : ClockSource} `{HO : HashOrder}.

Record cycle_stable (P : Impl → Prop) : Prop := {
  cs_clock st : P st → P (st <| im_clock_reads ::= S |>);
  cs_expire now st rid : P st → P (expire_one now st rid);
  cs_touch st rid : P st →
    P (upd_tenant st (rq_tenant_id (rs_request (map_at Rs_default (requests_ st) rid))) id);
  cs_packed line st rid : P st →
    P (put_rs st rid (trace_push (map_at Rs_default (requests_ st) rid) line));
  cs_open st : P st → P (alloc_group st).2;
  cs_reserved st m rid b : P st → P (let '(rv, st) := alloc_reservation st in
    put_rs (st <| im_mem := m |>) rid
      (map_at Rs_default (requests_ st) rid <| rs_reservation := rv |> <| rs_reserved_bytes := b |>));
  cs_refused st m : P st → P ((alloc_reservation st).2 <| im_mem := m |>);
  cs_released st rv : P st → P (st <| im_mem ::= λ m, release m rv |>);
  cs_undone st rid : P st →
    P (st <| requests_ ::= alter (λ s, s <| rs_reservation := 0 |> <| rs_reserved_bytes := 0 |>) rid |>);
  cs_traced line st rid : P st → P (trace_request line st rid);
  cs_member now gid w acc x : P acc.1.1.1 → P (commit_member now gid w acc x).1.1.1;
  cs_committed st ws gs f : P st →
    P (upd_stats (bump st_groups_formed (st <| workers_ ::= ws |> <| groups_ ::= gs |>))
         (λ x, x <| st_group_size_distribution ::= f |>));
  cs_aged st : P st → P (refresh_queue_stats (st <| requests_ ::= fmap age |>))
}.

Section cycle.
Variable P : Impl → Prop.
Hypothesis HP : cycle_stable P.

Lemma swept_stable now st : P st → P (swept now st).
Proof using HP.
  intros H. unfold swept, touch_tenants. cbv zeta.
  assert (P (expire_sweep now st)) as H1
    by (apply (foldl_preserve P); [intros; by apply (cs_expire P HP)|done]).
  destruct (1 <? _)%nat; [|done].
  apply (foldl_preserve P); [intros; by apply (cs_touch P HP)|done].
Qed.

Lemma form_stable st l : P st → P (form_groups st l).1.
Proof using HP.
  intros H. unfold form_groups.
  apply (foldl_preserve (λ acc : Impl * list OpenGroup, P acc.1)); [|done].
  intros [st' open] rid _ H'. cbn [fst] in H'. unfold form_one. destruct (negb _); [done|].
  destruct (pending_chunk _); [|done]. destruct (place _ _ _ _ _ _).
  - by apply (cs_packed P HP).
  - by apply (cs_open P HP) in H'.
Qed.

Lemma reserve_stable st rids : P st → P (reserve_members st rids).1.1.
Proof using HP.
  revert st. induction rids as [|rid rids IH]; intros st H; [done|]. cbn [reserve_members].
  pose proof (λ m b, cs_reserved P HP st m rid b H) as H1. pose proof (λ m, cs_refused P HP st m H) as H2.
  unfold alloc_reservation in *. cbv beta iota zeta in *. cbn [snd] in H2.
  destruct (reserve _ _ _ _ _) as [m [[]|e]]; [|apply H2].
  match goal with |- context [reserve_members ?x rids] =>
    specialize (IH x (H1 _ _)); destruct (reserve_members x rids) as [[st' l] ok] end.
  exact IH.
Qed.

Lemma rollback_stable st l : P st → P (rollback st l).
Proof using HP.
  intros H. unfold rollback. apply (foldl_preserve P); [intros; by apply (cs_undone P HP)|].
  apply (foldl_preserve P); [intros; by apply (cs_released P HP)|done].
Qed.

Lemma commit_group_stable now w st g : P st → P (commit_group now w st g).1.
Proof using HP.
  intros H. unfold commit_group.
  pose proof (foldl_preserve (λ acc : Impl * list ExecutableMember * gset Z * Z, P acc.1.1.1)
    (commit_member now (eg_group_id (og_group g)) w) (zip (og_rids g) (eg_members (og_group g)))
    (st, [], ∅, 0) ltac:(intros; by apply (cs_member P HP)) H) as Hf.
  destruct (foldl _ (st, [], ∅, 0) _) as [[[st1 ms] out] bytes]. cbn [fst] in *.
  by apply (cs_committed P HP).
Qed.

Lemma dispatch_group_stable now acc g : P acc.1 → P (dispatch_group now acc g).1.
Proof using HP.
  destruct acc as [st b]. cbn [fst]. intros H. unfold dispatch_group. destruct (bool_decide _); [done|].
  assert (∀ line st l, P st → P (foldl (trace_request line) st l)) as Htr
    by (intros; apply (foldl_preserve P); [intros; by apply (cs_traced P HP)|done]).
  destruct (choose_worker _ _) as [w|]; [|by apply Htr].
  pose proof (reserve_stable st (og_rids g) H) as Hr.
  destruct (reserve_members st (og_rids g)) as [[st1 l] ok]. cbn [fst] in Hr. destruct ok; cbn [negb].
  - pose proof (commit_group_stable now w st1 g Hr) as Hc.
    by destruct (commit_group now w st1 g) as [st2 dg].
  - by apply Htr, rollback_stable.
Qed.

Lemma run_cycle_stable st : P st → P (run_cycle st).1.
Proof using HP.
  intros H. pose proof (run_cycle_eq st) as Heq. cbv zeta in Heq.
  set (now := clock_now (im_clock_reads st)) in *. set (st0 := st <| im_clock_reads ::= S |>) in *.
  pose proof (form_stable (swept now st0) (ordered now st0)
    (swept_stable now st0 (cs_clock P HP st H))) as H2.
  destruct (form_groups (swept now st0) (ordered now st0)) as [st1 open].
  pose proof (foldl_preserve (λ acc : Impl * DispatchBatch, P acc.1) (dispatch_group now) open
    (st1, DispatchBatch_empty) ltac:(intros; by apply dispatch_group_stable) H2) as H3.
  destruct (foldl (dispatch_group now) (st1, DispatchBatch_empty) open) as [st2 batch].
  cbn [fst] in *. rewrite Heq. by apply (cs_aged P HP).
Qed.
End cycle.
End stable.
