(* ===== verification/Tally.v ===== *)
(** * Completed tokens

    As long as no attempt is started over, the counter of completed tokens is
    the sum over the requests of the tokens each has completed. *)

From S2P Require Import Prelude Float Types Request Chunking Memory Compat Exec Observability SchedState SchedOps SchedCycle SchedFrame SchedInv SchedOpsInv CycleInv DispatchInv GroupInv FormInv RunCycle CycleStable.

Section tally.
Context `{FE : FloatEnv} `{CK : ClockSource} `{HO : HashOrder}.

Definition token_total (m : gmap Z Rs) : Z := map_sum (λ _ s, rs_completed_uncached s) m.

Definition tallied (st : Impl) : Prop :=
  st_completed_tokens (im_stats st) = u64 (token_total (requests_ st)).

(** A table in which one request completed [n] more tokens. *)
Lemma total_put (m : gmap Z Rs) rid s n :
  rs_completed_uncached s = rs_completed_uncached (map_at Rs_default m rid) +u n →
  u64 (token_total (<[rid := s]> m)) = token_total m +u n.
Proof.
  unfold token_total, map_at. intros Hs. destruct (m !! rid) as [x|] eqn:E.
  - rewrite (map_sum_insert _ _ _ _ x E), Hs. cbn. unfold u64.
    rewrite Zplus_mod_idemp_r. f_equal. lia.
  - rewrite map_sum_insert_new, Hs by done. cbn. unfold u64. rewrite Zplus_mod_idemp_l. f_equal. lia.
Qed.

Lemma total_keep (m : gmap Z Rs) rid s :
  rs_completed_uncached s = rs_completed_uncached (map_at Rs_default m rid) →
  token_total (<[rid := s]> m) = token_total m.
Proof.
  unfold token_total, map_at. intros Hs. destruct (m !! rid) as [x|] eqn:E.
  - rewrite (map_sum_insert _ _ _ _ x E), Hs. cbn. lia.
  - rewrite map_sum_insert_new, Hs by done. reflexivity.
Qed.

Lemma total_alter (m : gmap Z Rs) rid f :
  (∀ s, rs_completed_uncached (f s) = rs_completed_uncached s) →
  token_total (alter f rid m) = token_total m.
Proof.
  intros Hf. destruct (m !! rid) as [x|] eqn:E.
  - rewrite <- (insert_id _ _ _ E) at 1. rewrite alter_insert_eq. apply total_keep.
    unfold map_at. rewrite E. apply Hf.
  - by rewrite alter_id by (intros y; congruence).
Qed.

Lemma tallied_same st st' :
  tallied st → requests_ st' = requests_ st →
  st_completed_tokens (im_stats st') = st_completed_tokens (im_stats st) → tallied st'.
Proof. unfold tallied. by intros H -> ->. Qed.

(** One request replaced, no token completed. *)
Lemma tallied_put st st' rid s :
  tallied st → requests_ st' = <[rid := s]> (requests_ st) →
  rs_completed_uncached s = rs_completed_uncached (map_at Rs_default (requests_ st) rid) →
  st_completed_tokens (im_stats st') = st_completed_tokens (im_stats st) → tallied st'.
Proof. unfold tallied. intros H -> Hs ->. by rewrite total_keep. Qed.
End tally.

Ltac tally_op st H :=
  eapply (tallied_put st); [exact H|by eff| |by eff; rsimp];
  unfold map_at; repeat match goal with E : requests_ _ !! _ = Some _ |- _ => rewrite E; clear E end;
  cbn [default]; by eff; rsimp.

Section tally_ops.
Context `{FE : FloatEnv} `{CK : ClockSource} `{HO : HashOrder}.

Lemma submit_tallied st req toks :
  requests_ st !! rq_request_id req = None →
  tallied st → tallied (submit_with_tokens st req toks).1.
Proof.
  intros Hnone H. unfold submit_with_tokens.
  destruct (bool_decide (ei_code (validate req) = ErrorCode_ok)); [|done]. cbn [negb].
  destruct (bool_decide _); [done|].
  destruct (register_request _ _ _) as [tr [[]|e]]; [|by apply (tallied_same st)].
  cbv zeta. destruct (_ <=? _); [unfold reject_capacity; by apply (tallied_same st)|].
  destruct (cfg_per_tenant_outstanding_limit _ <=? _); [unfold reject_capacity; by apply (tallied_same st)|].
  destruct (_ <? _); [unfold reject_capacity; by apply (tallied_same st)|].
  unfold alloc_attempt, im_now. cbv beta iota zeta.
  destruct (_ =? 0); (eapply (tallied_put st); [exact H|by eff|unfold map_at; rewrite Hnone; reflexivity|by eff]).
Qed.

Lemma cancel_tallied st rid : tallied st → tallied (cancel st rid).1.
Proof.
  intros H. unfold cancel. destruct (requests_ st !! rid) as [s|] eqn:E; [|done].
  destruct (is_terminal_lifecycle _); [done|]. destruct (rs_in_flight s).
  - cbv zeta. tally_op st H.
  - rewrite release_reservation_eq. cbv beta iota zeta. repeat eff_step.
    destruct (is_nil (rs_current_group s)); cbv beta iota zeta; cbn [negb]; tally_op st H.
Qed.

(** A report that does not start the attempt over. *)
Lemma outcome_tally st s o :
  mr_outcome o ≠ MemberOutcome_retryable_failure →
  requests_ (apply_outcome st s o).1 = requests_ st ∧
  st_completed_tokens (im_stats (apply_outcome st s o).1) = st_completed_tokens (im_stats st) ∧
  rs_completed_uncached (apply_outcome st s o).2 = rs_completed_uncached s.
Proof.
  intros Ho. unfold apply_outcome, finish. destruct (mr_outcome o); repeat case_if;
    cbv beta iota zeta; cbn [fst snd]; try done; split_and!; by eff.
Qed.

Lemma apply_completion_tallied st s o :
  requests_ st !! mr_request_id o = Some s → mr_outcome o ≠ MemberOutcome_retryable_failure →
  tallied st → tallied (apply_completion st s o).1.
Proof.
  intros Hs Ho H. unfold apply_completion. set (n := pending_token_count s).
  assert (requests_ (account_chunk st s).1 = requests_ st ∧
    st_completed_tokens (im_stats (account_chunk st s).1) = st_completed_tokens (im_stats st) +u n ∧
    rs_completed_uncached (account_chunk st s).2 = rs_completed_uncached s +u n) as (A1 & A2 & A3)
    by (unfold account_chunk, im_now; cbv beta iota zeta; cbn [fst snd]; split_and!; by eff).
  destruct (account_chunk st s) as [st1 s1]. cbn [fst snd] in *.
  destruct (outcome_tally st1 s1 o Ho) as (B1 & B2 & B3).
  destruct (apply_outcome st1 s1 o) as [st2 s2]. cbn [fst snd] in *.
  rewrite release_reservation_eq, detach_eq. cbv beta iota zeta. cbn [fst snd].
  unfold tallied in *. eff. rewrite B2, A2, H, B1, A1.
  rewrite (total_put _ _ _ n); [unfold u64; by rewrite Zplus_mod_idemp_l|].
  unfold map_at. rewrite Hs. cbn [default]. eff. by rewrite B3, A3.
Qed.

Lemma report_tallied st o :
  mr_outcome o ≠ MemberOutcome_retryable_failure → tallied st → tallied (report_completion st o).1.
Proof.
  intros Ho H. unfold report_completion. destruct (is_nil (mr_epoch o)); [done|].
  destruct (negb _); [by apply (tallied_same st)|].
  destruct (requests_ st !! mr_request_id o) as [s|] eqn:E; [|done].
  do 6 (case_match; [by apply (tallied_same st)|]). by apply apply_completion_tallied.
Qed.

Lemma expire_one_tallied now st rid : tallied st → tallied (expire_one now st rid).
Proof.
  intros H. unfold expire_one. destruct (requests_ st !! rid) as [s|] eqn:E; [|done].
  destruct (is_terminal_lifecycle _); [done|]. destruct (_ || _); [|done].
  rewrite release_reservation_eq, group_erase_member_eq. cbv beta iota zeta. repeat eff_step.
  destruct (past_deadline now s), (rs_in_flight s); tally_op st H.
Qed.

Lemma tallied_stable : cycle_stable tallied.
Proof.
  split.
  - intros st H. by apply (tallied_same st).
  - intros now st rid. apply expire_one_tallied.
  - intros st rid H. by apply (tallied_same st).
  - intros line st rid H. eapply (tallied_put st); [exact H|by eff|by eff|by eff].
  - intros st H. by apply (tallied_same st).
  - intros st m rid b H. unfold alloc_reservation. cbv beta iota.
    eapply (tallied_put st); [exact H|by eff|by eff|by eff].
  - intros st m H. by apply (tallied_same st).
  - intros st rv H. by apply (tallied_same st).
  - intros st rid H. unfold tallied in *. eff. rewrite total_alter; [done|]. intros s. by rsimp.
  - intros line st rid H. unfold trace_request, tallied in *. eff.
    rewrite total_alter; [done|]. intros s. by eff.
  - intros now gid w [[[st ms] out] bytes] [rid m] H. cbn [fst] in *.
    unfold commit_member, alloc_generation. cbv beta iota zeta.
    destruct (_ =? 0); cbn [fst]; (eapply (tallied_put st); [exact H|by eff|by eff|by eff]).
  - intros st ws gs f H. apply (tallied_same st); [done|by eff..].
  - intros st H. unfold refresh_queue_stats, tallied in *. eff. rewrite H. f_equal.
    unfold token_total. rewrite map_sum_fmap. apply map_sum_ext. intros k s _. unfold age. by case_if.
Qed.

Lemma run_cycle_tallied st : tallied st → tallied (run_cycle st).1.
Proof. apply run_cycle_stable, tallied_stable. Qed.
End tally_ops.
