(* ===== verification/Coordinator.v ===== *)
(** * Coordinator ([coordinator.hpp], [coordinator.cpp])

    One thread per connection, one scheduling thread and shared tables under a
    mutex.  Each section that runs under a lock is one function, and the state
    of a thread is what it does next; the step relation interleaves the threads
    in any order.  A function returns the messages it sends on its connection:
    the code ignores whether sending a reply succeeded.  Building a reply from
    several reads of the scheduler, and a dispatch message from several reads of
    the tables, is one step. *)

From S2P Require Import Prelude Float Types Request Chunking Memory Compat Bytes Exec Observability SchedState SchedOps SchedCycle SchedFrame SchedInv RunCycle Protocol RemoteWorker.

(** ** State *)

(** What the thread of a connection does next. *)
Inductive Thread :=
| T_first
| T_registering (wd : WorkerDescriptor)
| T_acking (wd : WorkerDescriptor)
| T_worker (wd : WorkerDescriptor)
| T_client
| T_submitting (req : PrefillRequest)
| T_reporting (rest : list MemberResult) (back : Thread)
| T_rolled
| T_done.

(** What the scheduling thread does next. *)
Inductive Loop :=
| L_cycle
| L_dispatching (groups : list DispatchedGroup)
| L_losing (w : WorkerId) (groups : list DispatchedGroup).

Record Coordinator := mkCoordinator {
  co_scheduler : Impl;
  worker_socks_ : gmap Z Z;
  co_workers_ : gmap Z WorkerDescriptor;
  tokens_ : gmap Z (list Z);
  co_threads : gmap Z Thread;
  co_loop : Loop
}.

#[global] Instance eta_Coordinator : Eta Coordinator := λ x,
  mkCoordinator (co_scheduler x) (worker_socks_ x) (co_workers_ x) (tokens_ x) (co_threads x)
    (co_loop x).
#[global] Instance set_co_scheduler : Setter co_scheduler := ltac:(mk_setter).
#[global] Instance set_worker_socks_ : Setter worker_socks_ := ltac:(mk_setter).
#[global] Instance set_co_workers_ : Setter co_workers_ := ltac:(mk_setter).
#[global] Instance set_tokens_ : Setter tokens_ := ltac:(mk_setter).
#[global] Instance set_co_threads : Setter co_threads := ltac:(mk_setter).
#[global] Instance set_co_loop : Setter co_loop := ltac:(mk_setter).

Section coordinator.
Context `{FE : FloatEnv} `{CK : ClockSource} `{HO : HashOrder}.

(** [Coordinator::Coordinator] and [Coordinator::start]. *)
Definition Coordinator_start (cfg : SchedulerConfig) : Coordinator :=
  mkCoordinator (unregister_worker (Impl_new cfg) 0).1 ∅ ∅ ∅ ∅ L_cycle.

Definition goto (co : Coordinator) (c : Z) (t : Thread) : Coordinator :=
  co <| co_threads ::= <[c := t]> |>.

Definition error_message (e : ErrorInfo) (r : RequestId) : Message :=
  kind_message MsgKind_error <| ms_error := e |> <| ms_request_id := r |>.

(** ** Connections *)

(** The first frame of a connection. *)
Definition conn_first (co : Coordinator) (c : Z) (frame : Result (list Z))
    : Coordinator * list Message :=
  match result_bind frame decode_frame with
  | Err _ => (goto co c T_done, [])
  | Ok m =>
      match ms_kind m with
      | MsgKind_worker_register =>
          let wd := ms_worker m in
          if is_nil (wd_worker_id wd) then (goto co c T_done, [])
          else
            let co := co <| co_workers_ ::= <[wd_worker_id wd := wd]> |>
                         <| worker_socks_ ::= <[wd_worker_id wd := c]> |> in
            (goto co c (T_registering wd), [])
      | MsgKind_hello => (goto co c T_client, [])
      | _ =>
          (goto co c T_done,
           [error_message (mkErrorInfo ErrorCode_protocol_violation
                             "expected hello or worker_register") 0])
      end
  end.

(** [scheduler_->register_worker(wd)]. *)
Definition conn_register (co : Coordinator) (c : Z) (wd : WorkerDescriptor) : Coordinator :=
  goto (co <| co_scheduler ::= λ st, (register_worker st wd).1 |>) c (T_acking wd).

Definition conn_ack (co : Coordinator) (c : Z) (wd : WorkerDescriptor)
    : Coordinator * list Message :=
  (goto co c (T_worker wd),
   [kind_message MsgKind_worker_register_ack
      <| ms_epoch := im_epoch (co_scheduler co) |> <| ms_worker := wd |>]).

(** The connection of a worker failed. *)
Definition conn_lost (co : Coordinator) (c : Z) (wd : WorkerDescriptor) : Coordinator :=
  let w := wd_worker_id wd in
  let co := if bool_decide (worker_socks_ co !! w = Some c)
            then co <| worker_socks_ ::= delete w |> else co in
  goto (co <| co_scheduler ::= λ st, (worker_lost st w).1 |>) c T_done.

(** One frame of a worker. *)
Definition worker_frame (co : Coordinator) (c : Z) (wd : WorkerDescriptor)
    (frame : Result (list Z)) : Coordinator * list Message :=
  match frame with
  | Err _ => (conn_lost co c wd, [])
  | Ok body =>
      match decode_frame body with
      | Err _ => (co, [])
      | Ok m =>
          match ms_kind m with
          | MsgKind_completion => (goto co c (T_reporting (ms_member_results m) (T_worker wd)), [])
          | MsgKind_ping => (co, [kind_message MsgKind_pong])
          | MsgKind_shutdown => (goto co c T_done, [kind_message MsgKind_shutdown_ack])
          | _ => (co, [])
          end
      end
  end.

(** [scheduler_->report_completion(mr)] for the next result of a frame; the
    first one that is refused ends the frame. *)
Definition report_next (co : Coordinator) (c : Z) (rest : list MemberResult) (back : Thread)
    : Coordinator * list Message :=
  match rest with
  | [] => (goto co c back, [])
  | mr :: rest =>
      let '(st, res) := report_completion (co_scheduler co) mr in
      let co := co <| co_scheduler := st |> in
      match res with
      | Ok _ => (goto co c (T_reporting rest back), [])
      | Err e => (goto co c back, [error_message e (mr_request_id mr)])
      end
  end.

(** The [explain_resp] for a request. *)
Definition explain_reply (st : Impl) (rid : RequestId) : Message :=
  let a := kind_message MsgKind_explain_resp <| ms_request_id := rid |> in
  match explain st rid with
  | Ok ex =>
      a <| ms_explain := ex |> <| ms_attempt_id := xp_attempt_id ex |>
        <| ms_lifecycle := default Lifecycle_submitted (lifecycle st rid) |>
        <| ms_generation := current_generation st rid |>
  | Err e => a <| ms_error := e |>
  end.

(** One frame of a client. *)
Definition client_frame (co : Coordinator) (c : Z) (frame : Result (list Z))
    : Coordinator * list Message :=
  match frame with
  | Err _ => (goto co c T_done, [])
  | Ok body =>
      match decode_frame body with
      | Err _ => (co, [])
      | Ok m =>
          let st := co_scheduler co in
          match ms_kind m with
          | MsgKind_submit =>
              (goto (co <| tokens_ ::= <[rq_request_id (ms_request m) := ms_tokens m]> |>) c
                 (T_submitting (ms_request m)), [])
          | MsgKind_cancel =>
              let '(st, cr) := cancel st (ms_request_id m) in
              (co <| co_scheduler := st |>,
               [kind_message MsgKind_cancel_ack <| ms_request_id := ms_request_id m |>
                  <| ms_applied := cr_applied cr |> <| ms_cancel_result := cr |>
                  <| ms_error := mkErrorInfo (cr_code cr) (cr_message cr) |>])
          | MsgKind_query_state =>
              (co, [kind_message MsgKind_state <| ms_epoch := im_epoch st |>
                      <| ms_workers := filter (λ w, is_nil (wd_worker_id w) = false)
                                         (workers st) |>])
          | MsgKind_query_explain => (co, [explain_reply st (ms_request_id m)])
          | MsgKind_completion => (goto co c (T_reporting (ms_member_results m) T_client), [])
          | MsgKind_roll_epoch =>
              (goto (co <| co_scheduler := (roll_epoch st).1 |>) c T_rolled, [])
          | MsgKind_query_stats =>
              (co, [kind_message MsgKind_stats_resp <| ms_stats := im_stats st |>])
          | MsgKind_shutdown => (goto co c T_done, [kind_message MsgKind_shutdown_ack])
          | _ => (co, [])
          end
      end
  end.

(** [scheduler_->submit(m.request)] and its acknowledgement. *)
Definition conn_submit (co : Coordinator) (c : Z) (req : PrefillRequest)
    : Coordinator * list Message :=
  let '(st, res) := submit (co_scheduler co) req in
  let a := kind_message MsgKind_submit_ack <| ms_request_id := rq_request_id req |> in
  (goto (co <| co_scheduler := st |>) c T_client,
   [match res with
    | Ok _ => a <| ms_accepted := true |>
    | Err e => a <| ms_error := e |>
    end]).

(** The reply to [roll_epoch]. *)
Definition conn_rolled (co : Coordinator) (c : Z) : Coordinator * list Message :=
  (goto co c T_client,
   [kind_message MsgKind_state <| ms_epoch := im_epoch (co_scheduler co) |>]).

(** ** Dispatch *)

Definition worker_for (co : Coordinator) (w : WorkerId) : WorkerDescriptor :=
  default WorkerDescriptor_default (co_workers_ co !! w).

(** The loop over the members: their tokens and running offsets. *)
Fixpoint gather_tokens (tokens : gmap Z (list Z)) (ms : list ExecutableMember) (total : Z)
    : option (list Z * list Z) :=
  match ms with
  | [] => Some ([], [])
  | m :: ms =>
      match tokens !! em_request_id m with
      | None => None
      | Some tvec =>
          let stop := em_token_start m +u em_token_count m in
          if Z.of_nat (length tvec) <? stop then None
          else
            let total := total +u em_token_count m in
            match gather_tokens tokens ms total with
            | None => None
            | Some (ts, os) => Some (token_range tvec (em_token_start m) stop ++ ts, total :: os)
            end
      end
  end.

(** [Coordinator::dispatch_group] up to the call of [send_frame]: the message,
    or [None] where it returns [false]. *)
Definition dispatch_message (co : Coordinator) (dg : DispatchedGroup) : option Message :=
  match worker_socks_ co !! dg_assigned_worker dg with
  | None => None
  | Some _ =>
      match gather_tokens (tokens_ co) (eg_members (dg_group dg)) 0 with
      | None => None
      | Some (ts, os) =>
          Some (kind_message MsgKind_dispatch <| ms_group := dg_group dg |>
                  <| ms_epoch := im_epoch (co_scheduler co) |>
                  <| ms_worker := WorkerDescriptor_default
                       <| wd_boot_id := wd_boot_id (worker_for co (dg_assigned_worker dg)) |> |>
                  <| ms_member_tokens := ts |> <| ms_member_token_offsets := 0 :: os |>)
      end
  end.

(** One group of a batch; [sent] is whether [send_frame] succeeded. *)
Definition loop_dispatch (co : Coordinator) (dg : DispatchedGroup)
    (groups : list DispatchedGroup) (sent : bool) : Coordinator * list (Z * Message) :=
  match dispatch_message co dg, worker_socks_ co !! dg_assigned_worker dg with
  | Some m, Some c =>
      if sent && has_value (encode_frame m)
      then (co <| co_loop := L_dispatching groups |>, [(c, m)])
      else (co <| co_loop := L_losing (dg_assigned_worker dg) groups |>, [])
  | _, _ => (co <| co_loop := L_losing (dg_assigned_worker dg) groups |>, [])
  end.

Definition loop_lost (co : Coordinator) (w : WorkerId) (groups : list DispatchedGroup)
    : Coordinator :=
  co <| co_scheduler ::= λ st, (worker_lost st w).1 |> <| co_loop := L_dispatching groups |>.

Definition loop_cycle (co : Coordinator) : Coordinator :=
  let '(st, batch) := run_cycle (co_scheduler co) in
  let co := co <| co_scheduler := st |> in
  match batch with
  | Ok b => co <| co_loop := L_dispatching (db_groups b) |>
  | Err _ => co
  end.

(** Where [handle_connection] looks at [stop_]. *)
Definition between_frames (t : Thread) : bool :=
  match t with T_worker _ | T_client => true | _ => false end.

(** ** Steps

    A step of one thread, with the frame it receives (a connection and what
    [recv_frame] returned) and the messages it sends, each with its connection. *)
Inductive cstep : Coordinator → list (Z * Result (list Z)) → list (Z * Message) → Coordinator → Prop :=
| cs_accept co c : co_threads co !! c = None → cstep co [] [] (goto co c T_first)
| cs_first co c frame : co_threads co !! c = Some T_first →
    cstep co [(c, frame)] (pair c <$> (conn_first co c frame).2) (conn_first co c frame).1
| cs_register co c wd : co_threads co !! c = Some (T_registering wd) →
    cstep co [] [] (conn_register co c wd)
| cs_ack co c wd : co_threads co !! c = Some (T_acking wd) →
    cstep co [] (pair c <$> (conn_ack co c wd).2) (conn_ack co c wd).1
| cs_worker co c wd frame : co_threads co !! c = Some (T_worker wd) →
    cstep co [(c, frame)] (pair c <$> (worker_frame co c wd frame).2) (worker_frame co c wd frame).1
| cs_report co c rest back : co_threads co !! c = Some (T_reporting rest back) →
    cstep co [] (pair c <$> (report_next co c rest back).2) (report_next co c rest back).1
| cs_client co c frame : co_threads co !! c = Some T_client →
    cstep co [(c, frame)] (pair c <$> (client_frame co c frame).2) (client_frame co c frame).1
| cs_submit co c req : co_threads co !! c = Some (T_submitting req) →
    cstep co [] (pair c <$> (conn_submit co c req).2) (conn_submit co c req).1
| cs_rolled co c : co_threads co !! c = Some T_rolled →
    cstep co [] (pair c <$> (conn_rolled co c).2) (conn_rolled co c).1
| cs_stop co c t : co_threads co !! c = Some t → between_frames t = true →
    cstep co [] [] (goto co c T_done)
| cs_cycle co : co_loop co = L_cycle → cstep co [] [] (loop_cycle co)
| cs_again co : co_loop co = L_dispatching [] → cstep co [] [] (co <| co_loop := L_cycle |>)
| cs_dispatch co dg groups sent : co_loop co = L_dispatching (dg :: groups) →
    cstep co [] (loop_dispatch co dg groups sent).2 (loop_dispatch co dg groups sent).1
| cs_lost co w groups : co_loop co = L_losing w groups → cstep co [] [] (loop_lost co w groups).

(** A run, with all the frames received and all the messages sent, in order. *)
Inductive crun (co0 : Coordinator)
    : list (Z * Result (list Z)) → list (Z * Message) → Coordinator → Prop :=
| crun_refl : crun co0 [] [] co0
| crun_step ins outs co i o co' :
    crun co0 ins outs co → cstep co i o co' → crun co0 (ins ++ i) (outs ++ o) co'.
End coordinator.
