(* ===== verification/CliProps.v ===== *)
(** * Properties of the command line

    Arguments are read back as they are printed, the requests the commands make
    are the ones the scheduler accepts, and a request submitted by the command
    line reaches the coordinator's scheduler with the tokens that its workers
    will be sent. *)

From Stdlib Require Import Ascii.
From S2P Require Import Prelude Float Types Request Chunking Memory Compat Bytes Persist Exec Observability SchedState SchedOps SchedCycle SchedPersist Protocol ProtocolProps Network RemoteWorker Sockets SchedFrame Coordinator Cli Text.

(** ** Numbers *)

Lemma digits_pretty x s : digits 0 (pretty_N_go x s) = digits (Z.of_N x) s.
Proof.
  revert x s. apply pretty_go_ind; [done|]. intros x s Hx IH.
  rewrite pretty_N_go_step by done. rewrite IH. cbn [digits].
  pose proof (N.mod_lt x 10 ltac:(done)) as Hm. pose proof (N.div_mod x 10 ltac:(done)) as Hx10.
  destruct (pretty_char_digit (x mod 10) Hm) as [-> Hd].
  set (r := (x mod 10)%N) in *. set (q := (x / 10)%N) in *.
  rewrite !(proj2 (Z.leb_le _ _)) by lia. simpl. f_equal. lia.
Qed.

Lemma scan_digits s : starts_digit s = true → scan_int s = (false, digits 0 s).
Proof.
  destruct s as [|c s]; [done|]. cbn [starts_digit]. intros Hd.
  assert (is_space c = false ∧ c ≠ "-"%char ∧ c ≠ "+"%char) as (Hs & Hm & Hp).
  { unfold is_digit, is_space in *. cbv zeta in *. split_and!.
    - apply andb_true_iff in Hd as [H1%Z.leb_le H2%Z.leb_le]. apply not_true_iff_false.
      intros [[H3%N.leb_le H4%N.leb_le]%andb_true_iff|H5%N.eqb_eq]%orb_true_iff; lia.
    - intros ->. by vm_compute in Hd.
    - intros ->. by vm_compute in Hd. }
  unfold scan_int. cbn [skip_space]. rewrite Hs.
  destruct c as [[] [] [] [] [] [] [] []]; done.
Qed.

Lemma scan_to_string z : 0 <= z → scan_int (std_to_string z) = (false, z).
Proof.
  intros Hz. destruct (decide (z = 0)) as [->|Hne]; [done|].
  rewrite to_string_pretty by lia. rewrite scan_digits by (apply starts_pretty; right; lia).
  rewrite digits_pretty. simpl. by rewrite Z2N.id.
Qed.

Lemma strtoull_to_string z : is_u64 z → strtoull (std_to_string z) = z.
Proof.
  intros Hz. unfold is_u64 in Hz. unfold strtoull. rewrite scan_to_string by lia.
  unfold U64_MAX. case_if; [lia|done].
Qed.

Lemma atoi_to_string `{AtoiEnv} z : 0 <= z < 2 ^ 31 → atoi (std_to_string z) = z.
Proof.
  intros Hz. unfold atoi. rewrite scan_to_string by lia. cbv zeta.
  rewrite (proj2 (Z.leb_le _ _)), (proj2 (Z.ltb_lt _ _)) by lia. done.
Qed.

(** ** Host and port *)

Lemma split_digits s : all_digits s = true → split_last_colon s = None.
Proof.
  induction s as [|c s IH]; [done|]. cbn [all_digits split_last_colon].
  intros [Hc Hs]%andb_true_iff. rewrite IH by done. case_bool_decide as E; [|done].
  subst c. by vm_compute in Hc.
Qed.

Lemma split_at_colon h t :
  split_last_colon t = None → split_last_colon (h +:+ String ":" t) = Some (h, t).
Proof.
  intros Ht. induction h as [|c h IH].
  - change (split_last_colon (String ":" t) = Some ("", t)). cbn [split_last_colon]. by rewrite Ht.
  - change (String c h +:+ String ":" t) with (String c (h +:+ String ":" t)).
    cbn [split_last_colon]. by rewrite IH.
Qed.

(** The address printed as host, colon and decimal port is read back as the
    same host and port, also for a host that itself contains colons. *)
Theorem hostport_roundtrip `{AtoiEnv} host port (Hp : 0 <= port < 2 ^ 16) :
  parse_hostport (host +:+ ":" +:+ std_to_string port) = (host, port).
Proof.
  unfold parse_hostport.
  change (":" +:+ std_to_string port) with (String ":" (std_to_string port)).
  rewrite split_at_colon by (apply split_digits, all_digits_to_string; lia).
  rewrite atoi_to_string by lia. unfold u16. by rewrite Z.mod_small by lia.
Qed.

(** ** Options *)

Lemma arg_first args pre name v post def :
  args = pre ++ name :: v :: post → name ∉ pre → arg args name def = v.
Proof.
  intros ->. induction pre as [|a pre IH]; intros Hn.
  - cbn [app arg]. by rewrite bool_decide_true.
  - apply not_elem_of_cons in Hn as [Ha Hn]. specialize (IH Hn).
    destruct pre as [|b pre]; cbn [app arg] in *; by rewrite bool_decide_false.
Qed.

Lemma arg_absent args name def : name ∉ args → arg args name def = def.
Proof.
  induction args as [|a args IH]; [done|]. intros [Ha Hn]%not_elem_of_cons. cbn [arg].
  destruct args; [done|]. rewrite bool_decide_false by done. auto.
Qed.

Lemma strtoull_range s : is_u64 (strtoull s).
Proof.
  unfold strtoull. destruct (scan_int s) as [neg v] eqn:E.
  assert (0 <= v) as Hv.
  { assert (∀ t acc, 0 <= acc → 0 <= digits acc t) as Hd.
    { clear. induction t as [|c t IH]; intros acc Ha; [done|]. cbn [digits]. cbv zeta.
      destruct (_ && _) eqn:Eb; [|done]. apply andb_true_iff in Eb as [?%Z.leb_le _]. apply IH. lia. }
    revert E. unfold scan_int. generalize (skip_space s). intros t E.
    destruct t as [|c t]; [by injection E as <- <-|].
    destruct c as [[] [] [] [] [] [] [] []]; injection E as <- <-; solve [done|by apply Hd]. }
  unfold U64_MAX. destruct (Z.ltb_spec (2 ^ 64 - 1) v); [unfold is_u64; lia|].
  destruct neg; [apply u64_range|unfold is_u64; lia].
Qed.

Lemma atoi_range `{AtoiEnv} s : is_i32 (atoi s).
Proof.
  unfold atoi. destruct (scan_int s) as [neg v]. cbv zeta.
  destruct (_ && _) eqn:E; [|apply atoi_undefined_range].
  apply andb_true_iff in E as [?%Z.leb_le ?%Z.ltb_lt]. unfold is_i32. lia.
Qed.

(** ** The request of [submit] *)

Lemma request_id_range now : is_u64 (Z.land (u64 now) 0xFFFFFFFFFFFF).
Proof.
  change 0xFFFFFFFFFFFF with (Z.ones 48). rewrite Z.land_ones by lia.
  pose proof (Z.mod_pos_bound (u64 now) (2 ^ 48)). unfold is_u64. lia.
Qed.

Lemma make_request_wf `{AtoiEnv} args now : request_wf (make_request args now).
Proof.
  unfold request_wf, make_request. rsimp.
  split_and!; try apply strtoull_range; try apply u64_range; try apply atoi_range.
  apply request_id_range.
Qed.

(** The request made from the options is one the scheduler validates exactly
    when the clock has not just wrapped to a multiple of 2^48, tenant and prompt
    are not zero, the cached prefix is within the prompt and the retry budget is
    not negative; options that do not parse are read as 0, so a malformed tenant
    or prompt is refused and never replaced by a default. *)
Theorem make_request_valid `{AtoiEnv} args now :
  ei_code (validate (make_request args now)) = ErrorCode_ok ↔
  (Z.land (u64 now) 0xFFFFFFFFFFFF ≠ 0 ∧
   u64_arg args "--tenant" "1" ≠ 0 ∧ u64_arg args "--prompt" "1024" ≠ 0 ∧
   u64_arg args "--cached" "0" <= u64_arg args "--prompt" "1024" ∧
   0 <= atoi (arg args "--max-retries" "2")).
Proof.
  rewrite validate_ok_iff. unfold make_request. rsimp.
  change (d_leb d_one d_zero) with false.
  pose proof (strtoull_range (arg args "--cached" "0")) as Hc. unfold is_u64, u64_arg in *.
  split; [intros (H1 & H2 & H3 & H4 & _ & _ & H5 & _)|intros (H1 & H2 & H3 & H4 & H5)];
    split_and!; try done.
  cbn [rp_validated rp_token_count]. intros ?%Z.ltb_lt. lia.
Qed.

(** ** The tokens of [submit] *)

Lemma gen_tokens_length n seed : length (gen_tokens n seed) = n.
Proof. revert seed. induction n as [|n IH]; intros seed; [done|]. simpl. by rewrite IH. Qed.

Lemma gen_tokens_u32 n seed : Forall is_u32 (gen_tokens n seed).
Proof.
  revert seed. induction n as [|n IH]; intros seed; [constructor|]. cbn [gen_tokens]. constructor; [|done].
  change 0xFFFFFFFF with (Z.ones 32). rewrite Z.land_ones by lia.
  apply Z.mod_pos_bound. lia.
Qed.

(** ** From the command line to the scheduler of the coordinator *)

Definition submit_message (req : PrefillRequest) (toks : list Z) : Message :=
  kind_message MsgKind_submit <| ms_request := req |> <| ms_tokens := toks |>.

Definition cli_tokens (req : PrefillRequest) : list Z :=
  cli_gen_tokens (rq_prompt_token_count req) (rq_request_id req).

Section submit.
Context `{FE : FloatEnv} `{CK : ClockSource} `{HO : HashOrder} `{AE : AtoiEnv}.
Context {conn : Type} `{SL : StreamLaws conn}.

Lemma accepted_tokens st req toks :
  (submit_with_tokens st req toks).2 = Ok tt →
  im_token_resolver (submit_with_tokens st req toks).1 !! rq_request_id req = Some toks.
Proof.
  unfold submit_with_tokens. cbv zeta. destruct (negb _); [done|]. destruct (bool_decide _); [done|].
  unfold register_request. destruct (negb _); [done|].
  do 3 (destruct (_ : bool); [done|]). unfold alloc_attempt, im_now. cbv beta iota zeta.
  destruct (_ =? 0); intros _; eff; by rewrite lookup_insert_eq.
Qed.

Lemma cli_tokens_length args now :
  Z.of_nat (length (cli_tokens (make_request args now)))
  = rq_prompt_token_count (make_request args now).
Proof.
  pose proof (strtoull_range (arg args "--prompt" "1024")) as Hp. unfold is_u64 in Hp.
  assert (rq_prompt_token_count (make_request args now) = strtoull (arg args "--prompt" "1024")) as Ep
    by (unfold make_request, u64_arg; by rsimp).
  unfold cli_tokens, cli_gen_tokens. rewrite gen_tokens_length. lia.
Qed.

(** The acceptance of a submission arrives as such. *)
Lemma ack_delivered (down down1 down2 : conn) rid m :
  is_u64 rid → in_transit down = [] →
  send_message down (kind_message MsgKind_submit_ack <| ms_request_id := rid |>
                       <| ms_accepted := true |>) = (Ok tt, down1) →
  recv_message down1 = (Ok m, down2) →
  ms_kind m = MsgKind_submit_ack ∧ ms_accepted m = true ∧ ms_request_id m = rid.
Proof.
  intros Hrid Hidle Hs Hr. unfold recv_message in Hr.
  set (a := kind_message MsgKind_submit_ack <| ms_request_id := rid |> <| ms_accepted := true |>) in *.
  assert (message_fits a) as Ha by (unfold message_fits, a, kind_message; rsimp; by split_and!).
  destruct (recv_frame down1) as [[f|e] c] eqn:Ef; [|done]. injection Hr as Hd <-.
  destruct (frame_delivered a down down1 c f Ha Hidle Hs Ef) as (_ & _ & Hd').
  rewrite Hd in Hd'. injection Hd' as ->. unfold transmitted, a, kind_message. by rsimp.
Qed.

(** C14: a submission of the command line reaches the scheduler: when the client
    could send it (a body over 64 MiB is refused by [send_frame]) on an idle
    connection and the coordinator received a frame, the coordinator reads it as
    the request made from the options; when the scheduler accepts it, the
    coordinator holds for the workers exactly the tokens that the scheduler
    registered, one per prompt position, and the reply that reaches the client
    on the other direction is the acceptance of its own request id. *)
Theorem cli_submit_consistent args now co c (up up1 up2 : conn) frame
    (Hfit : submission_fits (make_request args now))
    (Hlen : rq_prompt_token_count (make_request args now) <= 2 ^ 26)
    (Hidle : in_transit up = [])
    (Hsend : send_message up (submit_message (make_request args now)
               (cli_tokens (make_request args now))) = (Ok tt, up1))
    (Hrecv : recv_frame up1 = (Ok frame, up2))
    (Hacc : (submit (co_scheduler co) (make_request args now)).2 = Ok tt) :
  let req := make_request args now in
  let toks := cli_tokens req in
  Z.of_nat (length frame) <= frame_limit ∧
  let co1 := (client_frame co c (Ok frame)).1 in
  co_threads co1 !! c = Some (T_submitting req) ∧
  let co2 := (conn_submit co1 c req).1 in
  tokens_ co2 !! rq_request_id req = Some toks ∧
  im_token_resolver (co_scheduler co2) !! rq_request_id req = Some toks ∧
  Z.of_nat (length toks) = rq_prompt_token_count req ∧
  ∃ ack, (conn_submit co1 c req).2 = [ack] ∧
    ∀ (down down1 down2 : conn) m, in_transit down = [] → send_message down ack = (Ok tt, down1) →
      recv_message down1 = (Ok m, down2) →
      ms_kind m = MsgKind_submit_ack ∧ ms_accepted m = true ∧ ms_request_id m = rq_request_id req.
Proof.
  set (req := make_request args now) in *. cbv zeta.
  assert (Z.of_nat (length (cli_tokens req)) = rq_prompt_token_count req) as Hl
    by apply cli_tokens_length.
  destruct (frame_delivered (submit_message req (cli_tokens req)) up up1 up2 frame) as (_ & Hlim & Hd);
    [|done..|].
  { unfold message_fits, submit_message, kind_message. rsimp. split; [done|].
    split; [apply gen_tokens_u32|lia]. }
  split; [done|]. unfold client_frame. rewrite Hd.
  assert (transmitted (submit_message req (cli_tokens req)) = submit_message req (cli_tokens req)) as ->
    by (unfold transmitted, submit_message, kind_message; by rsimp).
  set (toks := cli_tokens req) in *.
  assert (ms_kind (submit_message req toks) = MsgKind_submit ∧ ms_request (submit_message req toks) = req
          ∧ ms_tokens (submit_message req toks) = toks) as (-> & -> & ->)
    by (unfold submit_message, kind_message; by rsimp).
  pose proof (accepted_tokens (co_scheduler co) req toks) as Ht.
  change (submit_with_tokens (co_scheduler co) req toks) with (submit (co_scheduler co) req) in Ht.
  unfold conn_submit, goto. cbn [fst]. rsimp.
  destruct (submit (co_scheduler co) req) as [st res]. cbn [fst snd] in *. subst res. rsimp.
  split; [by rewrite lookup_insert_eq|]. split; [by rewrite lookup_insert_eq|].
  split; [by apply Ht|]. split; [done|]. eexists. split; [done|].
  intros down down1 down2 m. apply ack_delivered, Hfit.
Qed.
End submit.
