(* ===== verification/ImportInv.v ===== *)
(** * A recovered scheduler satisfies the invariant

    [import_state] on a scheduler that has admitted nothing yet, from the
    snapshot of another one with the same configuration: the loops of the
    import, what they make of one record, and the invariant of the result,
    under the origin that records what the snapshot does not keep. *)

From S2P Require Import Prelude Float Types Request Chunking Memory Compat Exec Observability SchedState SchedOps SchedCycle SchedFrame SchedInv Bytes Persist SchedPersist.

Section import.
Context `{FE : FloatEnv} `{CK : ClockSource} `{HO : HashOrder}.

(** ** The import loops *)

Lemma foldl_frame {A B} (p : Impl → B) (f : Impl → A → Impl) l st :
  (∀ st a, p (f st a) = p st) → p (foldl f st l) = p st.
Proof. intros Hf. revert st. induction l; intros st; simpl; [done|]. by rewrite IHl, Hf. Qed.

Lemma import_requests_frame l st :
  let st' := foldl import_request st l in
  im_cfg st' = im_cfg st ∧ groups_ st' = groups_ st ∧ im_epoch st' = im_epoch st ∧
  im_next_generation_value st' = im_next_generation_value st ∧
  im_next_attempt_value st' = im_next_attempt_value st.
Proof. cbv zeta. split_and!; by apply foldl_frame. Qed.

Lemma import_requests_lookup l st :
  NoDup (pr_request_id <$> l) →
  let st' := foldl import_request st l in
  (∀ rec, rec ∈ l → requests_ st' !! pr_request_id rec
     = Some (import_rs (im_cfg st) (map_at Rs_default (requests_ st) (pr_request_id rec)) rec)) ∧
  (∀ rid, rid ∉ (pr_request_id <$> l) → requests_ st' !! rid = requests_ st !! rid).
Proof.
  revert st. induction l as [|rec l IH]; intros st Hnd; cbv zeta; simpl.
  { split; [by intros ? ?%not_elem_of_nil|done]. }
  rewrite fmap_cons, NoDup_cons in Hnd. destruct Hnd as [Hnin Hnd].
  destruct (IH (import_request st rec) Hnd) as [Hin Hout]. cbv zeta in Hin, Hout.
  assert (requests_ (import_request st rec) = <[pr_request_id rec :=
    import_rs (im_cfg st) (map_at Rs_default (requests_ st) (pr_request_id rec)) rec]> (requests_ st)) as Hr
    by done.
  split.
  - intros x [->|Hx]%elem_of_cons.
    + rewrite Hout by done. rewrite Hr. apply lookup_insert_eq.
    + rewrite Hin by done. change (im_cfg (import_request st rec)) with (im_cfg st).
      unfold map_at. rewrite Hr, lookup_insert_ne; [done|]. intros E. apply Hnin. rewrite E.
      apply list_elem_of_fmap. by exists x.
  - intros rid Hni. rewrite Hout, Hr by set_solver. apply lookup_insert_ne. set_solver.
Qed.

(** The state the loops start from. *)
Definition import_base (st : Impl) (ps : PersistedState) : Impl :=
  let st := st <| im_epoch := ps_epoch ps |> in
  let st := if im_next_generation_value st <? ps_next_generation_value ps
            then st <| im_next_generation_value := ps_next_generation_value ps |> else st in
  let st := if im_next_attempt_value st <? ps_next_attempt_value ps
            then st <| im_next_attempt_value := ps_next_attempt_value ps |> else st in
  st <| requests_ := ∅ |> <| groups_ := ∅ |> <| tenants_ := ∅ |>.

Lemma import_base_fields st ps :
  let st' := import_base st ps in
  requests_ st' = ∅ ∧ groups_ st' = ∅ ∧ im_cfg st' = im_cfg st ∧ im_epoch st' = ps_epoch ps ∧
  ps_next_generation_value ps <= im_next_generation_value st' ∧
  ps_next_attempt_value ps <= im_next_attempt_value st'.
Proof.
  unfold import_base. cbv zeta. do 2 case_if; rsimp in *; split_and!; done || lia.
Qed.

(** The rest of an import leaves the requests, groups and counters alone. *)
Lemma import_state_frame {B} (p : Impl → B) st ps :
  (∀ st rec, p (import_worker st rec) = p st) → (∀ st rec, p (import_tenant st rec) = p st) →
  (∀ st f, p (upd_stats st f) = p st) → (∀ st a b c d, p (log st a b c d) = p st) →
  p (import_state st ps).1 = p (foldl import_request (import_base st ps) (ps_requests ps)).
Proof.
  intros Hw Ht Hs Hl. unfold import_state, import_base. cbv zeta. cbn [fst].
  rewrite Hl, Hs. rewrite (foldl_frame p import_tenant), (foldl_frame p import_worker) by done.
  done.
Qed.

Lemma import_state_tables st0 ps :
  NoDup (pr_request_id <$> ps_requests ps) →
  let st' := (import_state st0 ps).1 in
  groups_ st' = ∅ ∧ im_epoch st' = ps_epoch ps ∧
  ps_next_generation_value ps <= im_next_generation_value st' ∧
  ps_next_attempt_value ps <= im_next_attempt_value st' ∧
  (∀ rec, rec ∈ ps_requests ps →
     requests_ st' !! pr_request_id rec = Some (import_rs (im_cfg st0) Rs_default rec)) ∧
  (∀ rid, rid ∉ (pr_request_id <$> ps_requests ps) → requests_ st' !! rid = None).
Proof.
  intros Hnd. cbv zeta.
  rewrite !(import_state_frame groups_), !(import_state_frame im_epoch),
    !(import_state_frame im_next_generation_value), !(import_state_frame im_next_attempt_value),
    !(import_state_frame requests_) by done.
  destruct (import_base_fields st0 ps) as (Hr & Hg & Hc & He & Hn & Ha).
  destruct (import_requests_frame (ps_requests ps) (import_base st0 ps)) as (_ & -> & -> & -> & ->).
  destruct (import_requests_lookup (ps_requests ps) (import_base st0 ps) Hnd) as [Hin Hout].
  cbv zeta in *. rewrite Hc, Hr in *. split_and!; try done.
Qed.

(** ** One request *)

(** Where a request was, and where the process left it. *)
Definition recovered_lifecycle (l : Lifecycle) : Lifecycle :=
  match l with Lifecycle_dispatched | Lifecycle_running => Lifecycle_queued | l => l end.

(** Looking a start up in a plan finds a chunk with that start, or the first. *)
Lemma index_lookup cfg req attempt seed start :
  request_fits req → config_wf cfg → remaining_prefill_tokens req ≠ 0 →
  let p := plan cfg req attempt seed in
  ∃ ch, pl_chunks p !! Z.to_nat (index_for_token_start p start) = Some ch ∧
    (ck_token_start ch = start ∨
     ck_token_start ch = 0 ∧ ∀ c, c ∈ pl_chunks p → ck_token_start c ≠ start).
Proof.
  intros [Hr Hlim] Hc Hnz p. unfold index_for_token_start.
  destruct (list_find _ _) as [[i ch]|] eqn:E.
  - apply list_find_Some in E as (Hi & Hs & _). exists ch. split; [|by left].
    pose proof (plan_length_le cfg req attempt seed Hr Hc) as Hlen.
    pose proof (remaining_le_prompt req Hr) as [? _]. apply lookup_lt_Some in Hi as Hlt.
    rewrite u32_small, Nat2Z.id; [done|]. unfold is_u32. unfold p in Hlt. lia.
  - destruct (plan_first cfg req attempt seed Hr Hc Hnz) as (ch & Hch & Hs).
    exists ch. split; [exact Hch|]. right. split; [done|]. intros c Hc'.
    apply list_find_None in E. rewrite Forall_forall in E. by apply E.
Qed.

(** The record of a request describes the same request. *)
Lemma import_export_request rid s :
  rq_request_id (rs_request s) = rid →
  let r := rs_request s in let r' := import_prefill_request (export_request (rid, s)) in
  rq_request_id r' = rq_request_id r ∧ rq_tenant_id r' = rq_tenant_id r ∧
  rq_model r' = rq_model r ∧ rq_adapter_id r' = rq_adapter_id r ∧
  rq_adapter_relation r' = rq_adapter_relation r ∧ rq_vocab r' = rq_vocab r ∧
  rq_numeric_mode r' = rq_numeric_mode r ∧ rq_latency_class r' = rq_latency_class r ∧
  rq_priority r' = rq_priority r ∧ rq_deadline r' = rq_deadline r ∧
  rq_max_queue_delay r' = rq_max_queue_delay r ∧
  rq_prompt_token_count r' = rq_prompt_token_count r ∧
  remaining_prefill_tokens r' = remaining_prefill_tokens r.
Proof.
  intros Hid. cbv zeta. unfold import_prefill_request, export_request. rsimp. cbn.
  split_and!; try done.
  - by destruct (rq_deadline (rs_request s)).
  - by destruct (rq_max_queue_delay (rs_request s)).
Qed.

Lemma import_fits rid s :
  request_fits (rs_request s) → rq_request_id (rs_request s) = rid →
  request_fits (import_prefill_request (export_request (rid, s))).
Proof.
  intros [(H1 & H2 & H3 & H4 & H5 & H6 & H7) Hlim] Hid. unfold import_prefill_request, export_request.
  split; rsimp; cbn; [|done]. unfold request_wf. rsimp. cbn. subst rid.
  unfold is_u64, is_i32 in *. split_and!; lia.
Qed.

#[local] Opaque plan index_for_token_start remaining_prefill_tokens.

(** What [import_rs] leaves: the common fields, then the branch taken. *)
Lemma import_rs_fields cfg rec :
  let s' := import_rs cfg Rs_default rec in
  rs_attempt s' = pr_attempt_id rec ∧ rs_request s' = import_prefill_request rec ∧
  rs_plan s' = plan cfg (import_prefill_request rec) (pr_attempt_id rec) 0 ∧
  rs_in_flight s' = false ∧ rs_lifecycle s' = recovered_lifecycle (pr_lifecycle rec) ∧
  (pr_lifecycle rec = Lifecycle_dispatched →
     rs_current_generation s' = 0 ∧ rs_recovered_work s' = true) ∧
  (pr_next_chunk_token_start rec < remaining_prefill_tokens (import_prefill_request rec) →
     rs_next_chunk_index s' = index_for_token_start (rs_plan s') (pr_next_chunk_token_start rec)).
Proof.
  unfold import_rs, trace_push. cbv zeta.
  assert (∀ a b : Z, b < a → (a <=? b) = true → False) as Hlt by (intros a b; rewrite Z.leb_le; lia).
  destruct (_ <=? _) eqn:E.
  all: match goal with |- context [bool_decide (rs_lifecycle ?x = Lifecycle_dispatched)] =>
         change (rs_lifecycle x) with (pr_lifecycle rec) end.
  all: destruct (pr_lifecycle rec) eqn:El; decide_enums; cbn [orb].
  all: do 5 (split; [reflexivity|]).
  all: split; [try discriminate; intros _; split; reflexivity|].
  all: intros Hx; lazymatch type of E with _ = true => destruct (Hlt _ _ Hx E) | _ => rsimp; reflexivity end.
Qed.

Lemma import_rs_life cfg s rec :
  rs_request (import_rs cfg s rec) = import_prefill_request rec ∧
  rs_lifecycle (import_rs cfg s rec) = recovered_lifecycle (pr_lifecycle rec).
Proof.
  unfold import_rs, trace_push. cbv zeta. destruct (_ <=? _).
  all: match goal with |- context [bool_decide (rs_lifecycle ?x = Lifecycle_dispatched)] =>
         change (rs_lifecycle x) with (pr_lifecycle rec) end.
  all: destruct (pr_lifecycle rec); decide_enums; cbn [orb]; split; reflexivity.
Qed.

(** The fields of the bookkeeping that are not in the record, and those the
    import derives. *)
Lemma import_rs_rest cfg rec :
  let s' := import_rs cfg Rs_default rec in
  (rs_current_generation s' = pr_current_generation rec ∨ rs_current_generation s' = 0) ∧
  rs_reservation s' = 0 ∧ rs_current_group s' = 0 ∧ rs_retries_used s' = 0 ∧
  (rs_next_chunk_index s' = u32 (chunk_count s') ∧
   rs_completed_uncached s' = remaining_prefill_tokens (import_prefill_request rec) ∨
   rs_next_chunk_index s' = index_for_token_start (rs_plan s') (pr_next_chunk_token_start rec) ∧
   rs_completed_uncached s' = 0).
Proof.
  unfold import_rs, trace_push, chunk_count. cbv zeta.
  destruct (_ <=? _) eqn:E; destruct (_ || _) eqn:B.
  all: split; [lazymatch type of B with _ = true => right | _ => left end; reflexivity|].
  all: do 3 (split; [reflexivity|]).
  all: lazymatch type of E with _ = true => left | _ => right end; split; rsimp; reflexivity.
Qed.

#[local] Transparent plan index_for_token_start remaining_prefill_tokens.

Lemma index_range p start : 0 <= index_for_token_start p start < 2 ^ 32.
Proof.
  unfold index_for_token_start. destruct (list_find _ _) as [[i ch]|]; [apply u32_range|lia].
Qed.

Lemma export_ids st :
  NoDup (pr_request_id <$> ps_requests (export_state st)) ∧
  ∀ rid, rid ∈ (pr_request_id <$> ps_requests (export_state st)) ↔ is_Some (requests_ st !! rid).
Proof.
  assert (pr_request_id <$> ps_requests (export_state st) = iter_keys (requests_ st)) as ->.
  { unfold export_state, iter_keys. cbn [ps_requests]. rewrite <- list_fmap_compose.
    apply list_fmap_ext. by intros ? [??] _. }
  split; [apply NoDup_iter_keys|apply elem_of_iter_keys].
Qed.


(** ** The invariant *)

(** The origin of a scheduler recovered with the request table [rs]: the
    statistics know none of these requests. *)
Definition origin_recovered (rs : gmap Z Rs) : Origin :=
  {| og_fresh := false; og_admitted := Z.of_nat (size rs); og_final l := life_count l rs;
     og_admitted_nonneg := Nat2Z.is_nonneg (size rs);
     og_final_nonneg l := proj1 (count_range (λ s, bool_decide (rs_lifecycle s = l)) rs) |}.

Lemma export_start rid s ch :
  pending_chunk s = Some ch →
  pr_next_chunk_token_start (export_request (rid, s)) = ck_token_start ch.
Proof. intros H. unfold export_request. cbn [pr_next_chunk_token_start]. by rewrite H. Qed.

Lemma past_end s : is_u32 (chunk_count s) → rs_next_chunk_index s = u32 (chunk_count s) →
  pending_chunk s = None.
Proof.
  intros Hu Ei. unfold pending_chunk. rewrite Ei, u32_small by done. unfold chunk_count.
  rewrite Nat2Z.id. by apply lookup_ge_None.
Qed.

(** The index of the import is that of a chunk of the new plan. *)
Lemma import_index cfg rec start :
  config_wf cfg → request_fits (import_prefill_request rec) →
  pr_next_chunk_token_start rec = start →
  0 <= start < remaining_prefill_tokens (import_prefill_request rec) →
  let s' := import_rs cfg Rs_default rec in
  rs_completed_uncached s' = 0 ∧ ∃ ch, pending_chunk s' = Some ch ∧ 0 <= ck_token_start ch.
Proof.
  intros Hc Hfit Hstart Hlt.
  destruct (import_rs_fields cfg rec) as (_ & _ & E3 & _ & _ & _ & E7).
  destruct (import_rs_rest cfg rec) as (_ & _ & _ & _ & Ei). cbv zeta in *.
  set (s' := import_rs cfg Rs_default rec) in *. clearbody s'.
  set (r := import_prefill_request rec) in *. clearbody r.
  rewrite Hstart in E7. specialize (E7 (proj2 Hlt)).
  destruct (index_lookup cfg r (pr_attempt_id rec) 0
    start Hfit Hc ltac:(lia)) as (ch' & Hch' & Hor). cbv zeta in *.
  pose proof (plan_length_le cfg r (pr_attempt_id rec) 0 (proj1 Hfit) Hc) as Hlen.
  rewrite <- E3 in Hch', Hlen. rewrite <- E7 in Hch'. split.
  - destruct Ei as [[Ei _]|[_ Ei]]; [|done]. exfalso.
    pose proof (remaining_le_prompt _ (proj1 Hfit)) as [Hr _]. pose proof (proj2 Hfit) as Hlim.
    assert (is_u32 (chunk_count s')) as Hu by (unfold is_u32, chunk_count; clear -Hlen Hr Hlim; lia).
    assert (pending_chunk s' = Some ch') as Hy by exact Hch'.
    rewrite (past_end s' Hu Ei) in Hy. discriminate Hy.
  - exists ch'. split; [exact Hch'|]. destruct Hor as [Hor|[Hor _]]; lia.
Qed.

(** A request that is not final comes back with work to do. *)
Lemma import_pending (o : Origin) cfg ng ngrp rid s :
  config_wf cfg → rs_ok (OR := o) cfg ng ngrp rid s → nonterminal s = true →
  let s' := import_rs cfg Rs_default (export_request (rid, s)) in
  rs_completed_uncached s' = 0 ∧ ∃ ch, pending_chunk s' = Some ch ∧ 0 <= ck_token_start ch.
Proof.
  intros Hc Hok Hns. destruct (ro_id _ _ _ _ _ Hok) as [Hid _]. pose proof (ro_req _ _ _ _ _ Hok) as Hfit0.
  pose proof (import_fits rid s Hfit0 Hid) as Hfit.
  destruct (import_export_request rid s Hid) as (_ & _ & _ & _ & _ & _ & _ & _ & _ & _ & _ & _ & Erem).
  destruct (ro_pending _ _ _ _ _ Hok Hns) as [ch Hch].
  pose proof (export_start rid s ch Hch) as Hstart.
  unfold pending_chunk in Hch. rewrite (ro_plan _ _ _ _ _ Hok) in Hch.
  destruct (plan_next cfg (rs_request s) (rs_attempt s) 0 _ ch (proj1 Hfit0) Hc Hch)
    as (Hs0 & Hs1 & Hs2 & _).
  apply (import_index cfg _ (ck_token_start ch)); try done. rewrite Erem. lia.
Qed.

Lemma recovered_nonterminal l :
  is_terminal_lifecycle (recovered_lifecycle l) = is_terminal_lifecycle l ∧
  used_lifecycle (recovered_lifecycle l) = used_lifecycle l ∨ used_lifecycle l = false.
Proof. by destruct l; auto. Qed.

Lemma import_rs_ok (o : Origin) rs cfg ng ngrp ng' ngrp' rid s :
  config_wf cfg → rs_ok (OR := o) cfg ng ngrp rid s → ng <= ng' → 0 < ngrp' →
  rs_ok (OR := origin_recovered rs) cfg ng' ngrp' rid
    (import_rs cfg Rs_default (export_request (rid, s))).
Proof.
  intros Hc Hok Hng Hngrp. pose proof (import_pending o _ _ _ _ _ Hc Hok) as Hpend.
  destruct Hok. destruct ro_id as [Hid Hnz].
  destruct (import_export_request rid s Hid) as (Eid & _ & _ & _ & _ & _ & _ & _ & _ & _ & _ & _ & Erem).
  pose proof (import_fits rid s ro_req Hid) as Hfit.
  destruct (import_rs_fields cfg (export_request (rid, s))) as (E1 & E2 & E3 & E4 & E5 & _ & _).
  destruct (import_rs_rest cfg (export_request (rid, s))) as (Eg & _ & Egr & Ert & Ei).
  assert (pr_lifecycle (export_request (rid, s)) = rs_lifecycle s) as El by done.
  assert (pr_current_generation (export_request (rid, s)) = rs_current_generation s) as Egen by done.
  set (rec := export_request (rid, s)) in *. clearbody rec. cbv zeta in *.
  rewrite El in E5. rewrite Egen in Eg.
  set (s' := import_rs cfg Rs_default rec) in *. clearbody s'.
  pose proof (remaining_le_prompt _ (proj1 ro_req)) as [Hrem _].
  assert (nonterminal s' = nonterminal s ∧ used_lifecycle (rs_lifecycle s') = true) as [En Eu].
  { unfold nonterminal. rewrite E5. destruct (recovered_nonterminal (rs_lifecycle s)) as [[-> ->]|H];
      [done|congruence]. }
  rewrite <- En in *.
  split; rewrite ?E2, ?Eid, ?Erem, ?E1, ?E3, ?E4, ?Egr, ?Ert; try done.
  - destruct Ei as [[-> _]|[-> _]]; [apply u32_range|apply index_range].
  - intros Hlive. destruct Hpend as (H0 & ch & Hch & Hs0).
    { unfold nonterminal. destruct Hlive as [H|[_ H]]; by rewrite H. }
    exists ch. split; [done|]. rewrite H0. by apply accounted_zero.
  - intros Hn. destruct (Hpend Hn) as (_ & ch & Hch & _). by exists ch.
  - destruct Ei as [[_ ->]|[_ ->]]; rewrite ?Erem; lia.
  - destruct Eg as [-> | ->]; lia.
Qed.

(** Sums over two tables that agree entry by entry. *)
Lemma sum_agree (f : Rs → Z) (m m' : gmap Z Rs) :
  (∀ s, 0 <= f s) →
  (∀ k, m !! k = None → m' !! k = None) →
  (∀ k x, m !! k = Some x → ∃ y, m' !! k = Some y ∧ f y = f x) →
  map_sum (λ _, f) m' = map_sum (λ _, f) m.
Proof.
  intros Hpos Hnone Hsome. apply Z.le_antisymm; apply map_sum_le; eauto.
  - intros k y Hy. destruct (m !! k) as [x|] eqn:E; [|apply Hnone in E; congruence].
    exists x. split; [done|]. destruct (Hsome k x E) as (y' & Hy' & He).
    assert (y' = y) as -> by congruence. lia.
  - intros k x Hx. destruct (Hsome k x Hx) as (y & Hy & He). exists y. split; [done|lia].
Qed.

Section recovered.
Context (o0 o : Origin) (st0 st : Impl).
Context (H0 : sched_inv (OR := o0) st0) (Hempty : requests_ st0 = ∅)
        (Hi : sched_inv (OR := o) st) (Hcfg : im_cfg st0 = im_cfg st).

Definition recovered_state : Impl := (import_state st0 (export_state st)).1.

Lemma recovered_lookup rid s :
  requests_ st !! rid = Some s →
  requests_ recovered_state !! rid
  = Some (import_rs (im_cfg st) Rs_default (export_request (rid, s))).
Proof using Hcfg.
  intros Hs. destruct (export_ids st) as [Hnd _].
  destruct (import_state_tables st0 (export_state st) Hnd) as (_ & _ & _ & _ & Hin & _).
  cbv zeta in Hin. rewrite Hcfg in Hin. apply (Hin (export_request (rid, s))).
  unfold export_state. cbn [ps_requests]. apply list_elem_of_fmap. exists (rid, s).
  split; [done|]. by apply elem_of_iter.
Qed.

Lemma recovered_none rid : requests_ st !! rid = None → requests_ recovered_state !! rid = None.
Proof.
  intros Hs. destruct (export_ids st) as [Hnd Hids].
  destruct (import_state_tables st0 (export_state st) Hnd) as (_ & _ & _ & _ & _ & Hout).
  apply Hout. rewrite Hids, Hs. by intros [? ?].
Qed.

Lemma recovered_inv rid s' :
  requests_ recovered_state !! rid = Some s' →
  ∃ s, requests_ st !! rid = Some s ∧
    s' = import_rs (im_cfg st) Rs_default (export_request (rid, s)).
Proof using Hcfg.
  intros Hs'. destruct (requests_ st !! rid) as [s|] eqn:E.
  - exists s. split; [done|]. rewrite (recovered_lookup rid s E) in Hs'. congruence.
  - rewrite (recovered_none rid E) in Hs'. done.
Qed.

Lemma recovered_size : size (requests_ recovered_state) = size (requests_ st).
Proof using Hcfg.
  rewrite <- !size_dom. f_equal. apply set_eq. intros rid. rewrite !elem_of_dom.
  destruct (requests_ st !! rid) as [s|] eqn:E.
  - rewrite (recovered_lookup rid s E). split; by eexists.
  - by rewrite (recovered_none rid E).
Qed.

(** Who is live is not affected. *)
Lemma recovered_live t : live_count t (requests_ recovered_state) = live_count t (requests_ st).
Proof using Hcfg Hi.
  apply (sum_agree (λ s, if in_tenant t s then 1 else 0)).
  - intros s. case_if; lia.
  - apply recovered_none.
  - intros rid s Hs. eexists. split; [by apply recovered_lookup|].
    pose proof (si_rs _ Hi rid s Hs) as Hok. destruct (ro_id _ _ _ _ _ Hok) as [Hid _].
    destruct (import_export_request rid s Hid) as (_ & Et & _).
    destruct (import_rs_fields (im_cfg st) (export_request (rid, s))) as (_ & E2 & _ & _ & E5 & _).
    cbv zeta in *. unfold in_tenant, nonterminal. rewrite E2, Et, E5.
    pose proof (ro_life _ _ _ _ _ Hok) as Hu.
    change (pr_lifecycle (export_request (rid, s))) with (rs_lifecycle s).
    destruct (recovered_nonterminal (rs_lifecycle s)) as [[-> _]|H]; [done|congruence].
Qed.

(** A tenant of the snapshot gets its record, another keeps what the requests
    made of it. *)
Lemma import_tenants_lookup l x t :
  tenants_ (foldl import_tenant x l) !! t = tenants_ x !! t ∧ (∀ rec, rec ∈ l → pt_tenant_id rec ≠ t) ∨
  ∃ rec, rec ∈ l ∧ pt_tenant_id rec = t ∧
    tenants_ (foldl import_tenant x l) !! t
    = Some (mkTenantService (pt_weight rec) (pt_scheduled_tokens rec) (pt_completed_requests rec)
        (pt_wait_total_ns rec) (pt_outstanding rec) (pt_normalized_service rec) 0).
Proof.
  revert x. induction l as [|rec l IH]; intros x; simpl.
  { left. split; [done|]. by intros ? ?%not_elem_of_nil. }
  destruct (IH (import_tenant x rec)) as [[E Hne]|(rec' & Hin & Hid & E)].
  - rewrite E. unfold import_tenant. rsimp. destruct (decide (pt_tenant_id rec = t)) as [<-|Hd].
    + right. exists rec. rewrite lookup_insert_eq. split_and!; [by left|done|done].
    + left. rewrite lookup_insert_ne by done. split; [done|].
      intros r' [->|Hr']%elem_of_cons; [done|by apply Hne].
  - right. exists rec'. split_and!; [by right|done|done].
Qed.

(** A tenant without live requests is idle after the loop over the requests. *)
Lemma import_requests_tenant x t :
  ts_outstanding (map_at TenantService_default (tenants_ x) t) = 0 ∧
  ts_admitted_tokens (map_at TenantService_default (tenants_ x) t) = 0 →
  live_count t (requests_ st) = 0 →
  let ts := map_at TenantService_default
              (tenants_ (foldl import_request x (ps_requests (export_state st)))) t in
  ts_outstanding ts = 0 ∧ ts_admitted_tokens ts = 0.
Proof using Hi.
  intros Hx Hlive. cbv zeta.
  apply (foldl_preserve (λ x, ts_outstanding (map_at TenantService_default (tenants_ x) t) = 0 ∧
    ts_admitted_tokens (map_at TenantService_default (tenants_ x) t) = 0)); [|done].
  clear x Hx. intros x rec Hrec Hx. unfold export_state in Hrec. cbn [ps_requests] in Hrec.
  apply list_elem_of_fmap in Hrec as ([rid s] & -> & Hs%elem_of_iter).
  pose proof (si_rs _ Hi rid s Hs) as Hok. destruct (ro_id _ _ _ _ _ Hok) as [Hid _].
  destruct (import_export_request rid s Hid) as (_ & Et & _).
  pose proof (ro_life _ _ _ _ _ Hok) as Hu.
  destruct (recovered_nonterminal (rs_lifecycle s)) as [[En _]|Hbad]; [|congruence].
  unfold import_request. cbv zeta.
  destruct (import_rs_life (im_cfg x) (map_at Rs_default (requests_ x)
    (pr_request_id (export_request (rid, s)))) (export_request (rid, s))) as [Eq El].
  rewrite Eq, El, Et. change (pr_lifecycle (export_request (rid, s))) with (rs_lifecycle s). rewrite En.
  unfold upd_tenant, put_rs. rsimp. rewrite map_at_insert.
  destruct (decide (rq_tenant_id (rs_request s) = t)) as [Ht|Ht]; [|done].
  destruct (is_terminal_lifecycle (rs_lifecycle s)) eqn:Eterm.
  - rewrite Ht. case_if; rsimp; done.
  - exfalso. assert (in_tenant t s = true) as Hin
      by (unfold in_tenant, nonterminal; by rewrite Ht, Z.eqb_refl, Eterm).
    pose proof (count_pos (in_tenant t) _ rid s Hs Hin). unfold live_count in Hlive. lia.
Qed.

Lemma recovered_tenant t :
  let ts := map_at TenantService_default (tenants_ recovered_state) t in
  ts_outstanding ts = live_count t (requests_ st) ∧ ts_admitted_tokens ts = 0.
Proof using Hi.
  assert (tenants_ recovered_state = tenants_ (foldl import_tenant
    (foldl import_worker (foldl import_request (import_base st0 (export_state st))
       (ps_requests (export_state st))) (ps_workers (export_state st)))
    (ps_tenants (export_state st)))) as -> by reflexivity.
  destruct (si_tenants _ Hi t) as (Hout & _). cbv zeta in *. unfold map_at at 1 2.
  destruct (import_tenants_lookup (ps_tenants (export_state st)) (foldl import_worker
    (foldl import_request (import_base st0 (export_state st)) (ps_requests (export_state st)))
    (ps_workers (export_state st))) t) as [[-> Hne]|(rec & Hin & <- & ->)].
  - rewrite (foldl_frame tenants_ import_worker) by done.
    assert (tenants_ st !! t = None) as Hnone.
    { destruct (tenants_ st !! t) as [ts|] eqn:Et; [|done]. exfalso.
      apply (Hne (export_tenant (t, ts))); [|done]. unfold export_state. cbn [ps_tenants].
      apply list_elem_of_fmap. exists (t, ts). split; [done|]. by apply elem_of_iter. }
    unfold map_at in Hout. rewrite Hnone in Hout. cbn in Hout. rewrite <- Hout.
    apply (import_requests_tenant (import_base st0 (export_state st)) t); [|done].
    unfold import_base, map_at. cbv zeta. by do 2 case_if.
  - unfold export_state in Hin. cbn [ps_tenants] in Hin.
    apply list_elem_of_fmap in Hin as ([t ts] & -> & Hts%elem_of_iter).
    unfold export_tenant, map_at in *. cbn [pt_tenant_id pt_outstanding ts_outstanding
      ts_admitted_tokens default] in *.
    rewrite Hts in Hout. done.
Qed.

Lemma recovered_tenants :
  tenants_ok (OR := origin_recovered (requests_ recovered_state)) (im_cfg st)
    (tenants_ recovered_state) (requests_ recovered_state).
Proof using Hcfg Hi.
  intros t. cbv zeta. rewrite recovered_live. destruct (si_tenants _ Hi t) as (Hout & _ & _ & Hlim).
  destruct (recovered_tenant t) as [-> ->]. cbv zeta in *. cbn [og_fresh origin_recovered].
  pose proof (proj1 (si_cfg _ Hi)) as (_&_&_&_&_&_&_&_&_&_&_&Ht). unfold is_u64 in Ht.
  split_and!; lia.
Qed.

(** What the import takes over from the scheduler it runs on. *)
Lemma recovered_frame :
  im_cfg recovered_state = im_cfg st ∧ im_mem recovered_state = im_mem st0 ∧
  im_next_group_value recovered_state = im_next_group_value st0 ∧
  im_next_reservation_value recovered_state = im_next_reservation_value st0.
Proof using Hcfg.
  unfold recovered_state.
  rewrite (import_state_frame im_cfg), (import_state_frame im_mem),
    (import_state_frame im_next_group_value), (import_state_frame im_next_reservation_value) by done.
  rewrite !(foldl_frame _ import_request) by done. rewrite <- Hcfg.
  unfold import_base. cbv zeta. by do 2 case_if.
Qed.

Lemma recovered_counter {B} (p : Stats → B) :
  (∀ x v, p (x <| st_remaining_prefill_tokens := v |>) = p x) →
  p (im_stats recovered_state) = p (im_stats st0).
Proof.
  intros Hp. unfold recovered_state, import_state. cbv zeta. cbn [fst].
  change (im_stats (log ?x ?a ?b ?c ?d)) with (im_stats x). unfold upd_stats.
  rsimp. rewrite Hp.
  rewrite (foldl_frame im_stats import_tenant), (foldl_frame im_stats import_worker),
    (foldl_frame im_stats import_request) by done.
  f_equal. by do 2 case_if.
Qed.

Lemma recovered_stats :
  stats_ok (OR := origin_recovered (requests_ recovered_state)) (im_stats recovered_state)
    (requests_ recovered_state).
Proof using H0 Hempty.
  destruct (si_stats _ H0) as [Ha Hf]. rewrite Hempty, map_size_empty in Ha.
  pose proof (og_admitted_nonneg (Origin := o0)) as Hpos. split.
  - rewrite (recovered_counter st_admitted) by done. cbn [og_admitted origin_recovered]. lia.
  - intros l p Hl. specialize (Hf l p Hl). rewrite Hempty in Hf. unfold life_count in Hf.
    rewrite map_sum_empty in Hf. pose proof (og_final_nonneg (Origin := o0) l) as Hfp.
    assert (p (im_stats recovered_state) = p (im_stats st0)) as ->.
    { apply recovered_counter. by destruct l; simplify_eq/=. }
    cbn [og_final origin_recovered]. lia.
Qed.

Lemma recovered_gens : gens_distinct (requests_ recovered_state).
Proof using Hcfg Hi.
  intros r1 r2 s1 s2 H1 H2 Hz Heq.
  destruct (recovered_inv r1 s1 H1) as (x1 & Hx1 & ->).
  destruct (recovered_inv r2 s2 H2) as (x2 & Hx2 & ->).
  destruct (import_rs_rest (im_cfg st) (export_request (r1, x1))) as (Eg1 & _).
  destruct (import_rs_rest (im_cfg st) (export_request (r2, x2))) as (Eg2 & _). cbv zeta in *.
  change (pr_current_generation (export_request (r1, x1))) with (rs_current_generation x1) in Eg1.
  change (pr_current_generation (export_request (r2, x2))) with (rs_current_generation x2) in Eg2.
  apply (si_gens _ Hi r1 r2 x1 x2 Hx1 Hx2); destruct Eg1 as [Eg1|Eg1]; destruct Eg2 as [Eg2|Eg2];
    congruence.
Qed.

(** A scheduler that has admitted nothing, recovered from the snapshot of
    another with the same configuration, satisfies the invariant. *)
Lemma import_inv : sched_inv (OR := origin_recovered (requests_ recovered_state)) recovered_state.
Proof using H0 Hempty Hi Hcfg.
  destruct recovered_frame as (Ec & Em & Eg & Ev).
  destruct (export_ids st) as [Hnd _].
  destruct (import_state_tables st0 (export_state st) Hnd) as (Egs & _ & Hgen & _).
  cbv zeta in Egs, Hgen. fold recovered_state in Egs, Hgen. cbn [ps_next_generation_value export_state] in Hgen.
  destruct (si_next _ Hi) as [Hn1 _]. destruct (si_next _ H0) as [_ Hn2].
  assert (∀ rid s', requests_ recovered_state !! rid = Some s' →
    rs_reservation s' = 0 ∧ ¬ running s') as Hidle.
  { intros rid s' Hs'. destruct (recovered_inv rid s' Hs') as (s & Hs & ->).
    destruct (import_rs_rest (im_cfg st) (export_request (rid, s))) as (_ & Er & _).
    destruct (import_rs_fields (im_cfg st) (export_request (rid, s))) as (_ & _ & _ & Ef & _).
    cbv zeta in *. split; [done|]. unfold running. rewrite Ef. by intros [? _]. }
  split; rewrite ?Ec, ?Em, ?Eg, ?Ev, ?Egs, ?recovered_size.
  - apply Hi.
  - apply Hi.
  - apply Hi.
  - split; [lia|done].
  - intros rid s' Hs'. destruct (recovered_inv rid s' Hs') as (s & Hs & ->).
    eapply import_rs_ok; [apply Hi|by apply (si_rs _ Hi)|done|done].
  - intros rid s' Hs'. destruct (Hidle rid s' Hs') as [Hz Hr].
    split; [done|]. intros [?|[]%elem_of_empty]. done.
  - apply H0.
  - intros rv rid b. split.
    + intros (_ & s & Hs & _)%(si_own _ H0). rewrite Hempty in Hs. done.
    + intros (Hz & s' & Hs' & Hrv & _). destruct (Hidle rid s' Hs') as [Hz' _]. congruence.
  - apply H0.
  - intros gid g Hg. done.
  - intros rid s g _ _ Hg. done.
  - apply recovered_gens.
  - apply recovered_tenants.
  - apply recovered_stats.
Qed.
End recovered.
End import.
