(* ===== verification/CycleFrame.v ===== *)
(** * What a cycle leaves alone

    Across every phase of a cycle, whatever state it starts in, the
    configuration, epoch, token buffers, memory limits and the descriptors and
    executors of the workers stay, every request keeps its attempt, plan, next
    chunk and pending cancellation, and the counters grow by at most one per
    member handled. *)

From S2P Require Import Prelude Float Types Request Chunking Memory Compat Exec Observability SchedState SchedOps SchedCycle SchedFrame SchedInv CycleInv DispatchInv GroupInv FormInv RunCycle.

Section frame.
Context `{FE : FloatEnv} `{CK : ClockSource} `{HO : HashOrder} `{OR : Origin}.

(** The progress of a request. *)
Definition prog (s : Rs) :=
  (rs_request s, rs_attempt s, rs_plan s, rs_next_chunk_index s, rs_cancel_pending s).

(** A worker without its load. *)
Definition identity (ws : Ws) := (ws_desc ws, ws_local_exec ws).

Definition surroundings (st : Impl) :=
  (im_cfg st, im_epoch st, im_token_resolver st,
   (mg_max_bytes (im_mem st), mg_headroom (im_mem st)), identity <$> workers_ st).

Definition progress_kept (m m' : gmap Z Rs) : Prop :=
  ∀ rid s, m !! rid = Some s → ∃ s', m' !! rid = Some s' ∧ prog s' = prog s.

Definition grows (n x y : Z) : Prop := 0 <= x → 0 <= y <= x + n.

Record keeps (n : Z) (st st' : Impl) : Prop := {
  kp_around : surroundings st' = surroundings st;
  kp_prog : progress_kept (requests_ st) (requests_ st');
  kp_gen : grows n (im_next_generation_value st) (im_next_generation_value st');
  kp_res : grows n (im_next_reservation_value st) (im_next_reservation_value st');
  kp_grp : grows n (im_next_group_value st) (im_next_group_value st')
}.

Lemma progress_refl m : progress_kept m m.
Proof. intros rid s Hs. eauto. Qed.

Lemma progress_trans m1 m2 m3 : progress_kept m1 m2 → progress_kept m2 m3 → progress_kept m1 m3.
Proof.
  intros H1 H2 rid s Hs. destruct (H1 rid s Hs) as (s' & Hs' & E1).
  destruct (H2 rid s' Hs') as (s'' & Hs'' & E2). exists s''. split; [done|congruence].
Qed.

Lemma progress_put m rid s' :
  prog s' = prog (map_at Rs_default m rid) → progress_kept m (<[rid := s']> m).
Proof.
  intros E r s Hs. rewrite lookup_insert. case_decide as Hr; [|eauto].
  subst r. exists s'. split; [done|]. rewrite E. unfold map_at. by rewrite Hs.
Qed.

Lemma progress_alter (m : gmap Z Rs) f rid : (∀ s, prog (f s) = prog s) → progress_kept m (alter f rid m).
Proof.
  intros Hf r s Hs. rewrite lookup_alter. case_decide; [subst; rewrite Hs; cbn|]; eauto.
Qed.

Lemma grows_same n x : 0 <= n → grows n x x.
Proof. unfold grows. lia. Qed.
Lemma grows_one x : grows 1 x (x +u 1).
Proof.
  unfold grows, u64. intros Hx. split; [apply Z.mod_pos_bound; lia|apply Z.mod_le; lia].
Qed.

Lemma keeps_refl st : keeps 0 st st.
Proof. split; [done|apply progress_refl|apply grows_same; lia..]. Qed.

Lemma keeps_trans n m st1 st2 st3 : keeps n st1 st2 → keeps m st2 st3 → keeps (n + m) st1 st3.
Proof.
  intros [A1 P1 G1 R1 K1] [A2 P2 G2 R2 K2]. unfold grows in *.
  split; [congruence|by eapply progress_trans|unfold grows; lia..].
Qed.

Lemma keeps_mono n m st st' : n <= m → keeps n st st' → keeps m st st'.
Proof. intros Hn [A P G R K]. unfold grows in *. split; [done..|unfold grows; lia|unfold grows; lia|unfold grows; lia]. Qed.

(** A fold of operations that each handle at most [f b] members. *)
Lemma keeps_foldl {A B} (p : A → Impl) (f : A → B → A) (c : B → Z) l a :
  (∀ a b, keeps (c b) (p a) (p (f a b))) → keeps (sumZ c l) (p a) (p (foldl f a l)).
Proof.
  intros Hf. revert a. induction l as [|b l IH]; intros a; cbn [foldl]; [apply keeps_refl|].
  rewrite sumZ_cons. eapply keeps_trans; [apply Hf|apply IH].
Qed.

Lemma keeps_foldl0 {A B} (p : A → Impl) (f : A → B → A) l a :
  (∀ a b, keeps 0 (p a) (p (f a b))) → keeps 0 (p a) (p (foldl f a l)).
Proof.
  intros Hf. eapply keeps_mono; [|by apply (keeps_foldl p f (λ _, 0))]. by rewrite sumZ_const0.
Qed.

(** An update of requests, statistics, events, tenants and groups. *)
Lemma keeps_quiet st st' :
  surroundings st' = surroundings st → progress_kept (requests_ st) (requests_ st') →
  im_next_generation_value st' = im_next_generation_value st →
  im_next_reservation_value st' = im_next_reservation_value st →
  im_next_group_value st' = im_next_group_value st → keeps 0 st st'.
Proof. intros A P G R K. split; [done|done|..]; rewrite ?G, ?R, ?K; apply grows_same; lia. Qed.

Ltac quiet := apply keeps_quiet; unfold surroundings; eff; try done.

(** ** Workers and memory *)

Lemma identity_dec w m : identity <$> dec_busy_opt w m = identity <$> m.
Proof.
  unfold dec_busy_opt, dec_busy. destruct w as [w|]; [|done].
  destruct (m !! w) as [ws|] eqn:Hw; [|done]. case_if; [|done].
  rewrite fmap_insert. apply insert_id. by rewrite lookup_fmap, Hw.
Qed.

Lemma identity_busy f (w : Z) (m : gmap Z Ws) : identity <$> alter (setf ws_busy_units f) w m = identity <$> m.
Proof.
  apply map_eq. intros k. rewrite !lookup_fmap, lookup_alter.
  case_decide; [|done]. subst. by destruct (m !! k).
Qed.

Definition limits (m : MemoryGovernor) : Z * Z := (mg_max_bytes m, mg_headroom m).

Lemma limits_release m rv : limits (release m rv) = limits m.
Proof. unfold release, limits. repeat case_match; by rsimp. Qed.
Lemma limits_release_opt rv m : limits (release_opt rv m) = limits m.
Proof. unfold release_opt. case_if; [done|apply limits_release]. Qed.
Lemma limits_reserve m rv rid b k : limits (reserve m rv rid b k).1 = limits m.
Proof. unfold reserve, limits. repeat case_if; by rsimp. Qed.

(** ** Phases *)

Lemma expire_one_keeps now st rid : keeps 0 st (expire_one now st rid).
Proof.
  unfold expire_one. destruct (requests_ st !! rid) as [s|] eqn:Hs; [|apply keeps_refl].
  destruct (is_terminal_lifecycle _); [apply keeps_refl|]. destruct (_ || _); [|apply keeps_refl].
  rewrite release_reservation_eq, group_erase_member_eq. cbv beta iota zeta. repeat eff_step.
  pose proof (limits_release_opt (rs_reservation s) (im_mem st)) as Hl. unfold limits in Hl.
  destruct (past_deadline now s), (rs_in_flight s); quiet; rewrite ?identity_dec, ?Hl; try done.
  all: apply progress_put; unfold map_at; rewrite Hs; unfold prog; by eff.
Qed.

Lemma touch_tenants_keeps st cands : keeps 0 st (touch_tenants st cands).
Proof.
  unfold touch_tenants. case_if; [|apply keeps_refl].
  apply (keeps_foldl0 id). intros st' rid. quiet. apply progress_refl.
Qed.

Lemma form_one_keeps acc rid : keeps 1 acc.1 (form_one acc rid).1.
Proof.
  destruct acc as [st open]. unfold form_one. cbn [fst].
  destruct (negb _); [apply (keeps_mono 0); [lia|apply keeps_refl]|].
  destruct (pending_chunk _) as [ch|]; [|apply (keeps_mono 0); [lia|apply keeps_refl]].
  destruct (place _ _ _ _ _ _).
  - apply (keeps_mono 0); [lia|]. cbn [fst]. quiet. by apply progress_put.
  - unfold alloc_group. cbv beta iota. cbn [fst].
    split; [done|apply progress_refl|..]; eff; [apply grows_same; lia..|apply grows_one].
Qed.

Lemma form_groups_keeps st cands :
  keeps (Z.of_nat (length cands)) st (form_groups st cands).1.
Proof.
  pose proof (keeps_foldl fst form_one (λ _, 1) cands (st, []) form_one_keeps) as H.
  rewrite sumZ_const in H. eapply keeps_mono; [|exact H]. lia.
Qed.

Lemma reserve_members_keeps st rids :
  keeps (Z.of_nat (length rids)) st (reserve_members st rids).1.1.
Proof.
  revert st. induction rids as [|rid rids IH]; intros st; [apply keeps_refl|].
  cbn [reserve_members]. unfold alloc_reservation. cbv beta iota zeta. eff.
  set (mb := match pending_chunk _ with Some _ => _ | None => _ end).
  pose proof (limits_reserve (im_mem st) (im_next_reservation_value st) rid mb
    ReservationKind_reserved) as Hl. unfold limits in Hl.
  destruct (reserve _ _ _ _ _) as [m [[]|e]]; cbn [fst] in Hl.
  - match goal with |- context [reserve_members ?x rids] => set (st1 := x) end.
    specialize (IH st1). destruct (reserve_members st1 rids) as [[st2 l] ok]. cbn [fst] in *.
    apply (keeps_mono (1 + Z.of_nat (length rids))); [cbn [length]; lia|].
    eapply keeps_trans; [|exact IH]. unfold st1.
    split; unfold surroundings; eff; rewrite ?Hl; [done|by apply progress_put|..];
      first [apply grows_one | apply grows_same; lia].
  - cbn [fst]. apply (keeps_mono 1); [cbn [length]; lia|].
    split; unfold surroundings; eff; rewrite ?Hl; [done|apply progress_refl|..];
      first [apply grows_one | apply grows_same; lia].
Qed.

Lemma rollback_keeps st l : keeps 0 st (rollback st l).
Proof.
  rewrite rollback_eq. apply (keeps_foldl0 id). intros st' [rv rid]. unfold unreserve, id.
  pose proof (limits_release (im_mem st') rv) as Hl. unfold limits in Hl.
  quiet; rewrite ?Hl; [done|]. by apply progress_alter.
Qed.

Lemma trace_requests_keeps line rids st : keeps 0 st (foldl (trace_request line) st rids).
Proof.
  apply (keeps_foldl0 id). intros st' rid. unfold trace_request, id. quiet. by apply progress_alter.
Qed.

Lemma commit_member_keeps now gid w acc x :
  keeps 1 acc.1.1.1 (commit_member now gid w acc x).1.1.1.
Proof.
  destruct acc as [[[st ms] out] bytes], x as [rid m]. unfold commit_member, alloc_generation.
  cbv beta iota zeta. cbn [fst].
  destruct (_ =? 0); cbn [fst]; split; unfold surroundings; eff; try done;
    first [apply grows_one | apply grows_same; lia | by apply progress_put].
Qed.

Lemma commit_group_keeps now w st g :
  keeps (Z.of_nat (length (og_rids g))) st (commit_group now w st g).1.
Proof.
  unfold commit_group.
  pose proof (keeps_foldl (λ acc : Impl * list ExecutableMember * gset Z * Z, acc.1.1.1)
    (commit_member now (eg_group_id (og_group g)) w) (λ _, 1)
    (zip (og_rids g) (eg_members (og_group g))) (st, [], ∅, 0)
    (commit_member_keeps now _ w)) as Hf.
  destruct (foldl _ (st, [], ∅, 0) _) as [[[st1 ms] out] bytes]. cbn [fst] in *.
  rewrite sumZ_const, length_zip_with in Hf.
  apply (keeps_mono (1 * Z.of_nat (length (og_rids g) `min` length (eg_members (og_group g))) + 0));
    [lia|].
  eapply keeps_trans; [exact Hf|]. quiet; [by rewrite identity_busy|apply progress_refl].
Qed.

Lemma dispatch_group_keeps now acc g :
  keeps (2 * Z.of_nat (length (og_rids g))) acc.1 (dispatch_group now acc g).1.
Proof.
  destruct acc as [st b]. unfold dispatch_group. cbn [fst].
  destruct (bool_decide _); [apply (keeps_mono 0); [lia|apply keeps_refl]|].
  destruct (choose_worker _ _) as [w|].
  2:{ apply (keeps_mono 0); [lia|apply trace_requests_keeps]. }
  pose proof (reserve_members_keeps st (og_rids g)) as Hr.
  destruct (reserve_members st (og_rids g)) as [[st1 l] ok]. cbn [fst] in Hr.
  destruct ok; cbn [negb].
  - pose proof (commit_group_keeps now w st1 g) as Hc.
    destruct (commit_group now w st1 g) as [st2 dg]. cbn [fst] in *.
    eapply keeps_mono; [|by eapply keeps_trans]. lia.
  - cbn [fst]. eapply keeps_mono; [|eapply keeps_trans;
      [exact Hr|eapply keeps_trans; [apply rollback_keeps|apply trace_requests_keeps]]]. lia.
Qed.

Lemma swept_keeps now st : keeps 0 st (swept now (st <| im_clock_reads ::= S |>)).
Proof.
  set (st0 := st <| im_clock_reads ::= S |>). unfold swept. cbv zeta.
  apply (keeps_trans 0 0 _ (expire_sweep now st0)); [|apply touch_tenants_keeps].
  apply (keeps_trans 0 0 _ st0); [unfold st0; quiet; apply progress_refl|].
  apply (keeps_foldl0 id). intros. apply expire_one_keeps.
Qed.

(** A whole cycle; the members it handles are the candidates. *)
Lemma run_cycle_keeps st :
  sched_inv st → cycle_room st →
  keeps (3 * Z.of_nat (size (requests_ st))) st (run_cycle st).1.
Proof.
  intros Hi Hroom. pose proof (run_cycle_eq st) as Heq. pose proof (cycle_formed st Hi Hroom) as Hf.
  cbv zeta in *. set (now := clock_now (im_clock_reads st)) in *.
  set (st0 := st <| im_clock_reads ::= S |>) in *.
  pose proof (form_groups_keeps (swept now st0) (ordered now st0)) as Hk.
  destruct (form_groups (swept now st0) (ordered now st0)) as [st1 open].
  destruct Hf as (Hform & _). cbn [fst] in Hk.
  pose proof (keeps_foldl fst (dispatch_group now) (λ g, 2 * Z.of_nat (length (og_rids g))) open
    (st1, DispatchBatch_empty) (dispatch_group_keeps now)) as Hd.
  destruct (foldl (dispatch_group now) (st1, DispatchBatch_empty) open) as [st2 batch].
  rewrite Heq. cbn [fst] in *.
  assert (sumZ (λ g, 2 * Z.of_nat (length (og_rids g))) open
          = 2 * Z.of_nat (length (ordered now st0))) as Hsum.
  { rewrite <- (fm_part _ _ _ _ Hform). clear. induction open as [|g open IH]; [done|].
    rewrite sumZ_cons, IH, fmap_cons.
    change (mjoin (og_rids g :: (og_rids <$> open))) with (og_rids g ++ mjoin (og_rids <$> open)).
    rewrite length_app. lia. }
  assert (length (ordered now st0) <= size (requests_ st))%nat as Hlen
    by apply (ordered_length now st0).
  pose proof (swept_keeps now st : keeps 0 st (swept now st0)) as Hs.
  eapply keeps_mono; [|eapply keeps_trans; [exact Hs|eapply keeps_trans; [exact Hk|
    eapply keeps_trans; [exact Hd|]]]].
  2:{ unfold refresh_queue_stats. quiet. intros rid s Hx. exists (age s).
      rewrite lookup_fmap, Hx. split; [done|]. unfold age. by destruct (is_waiting s). }
  rewrite Hsum. lia.
Qed.

Lemma keeps_budget n st st' : keeps n st st' → budget (im_mem st') = budget (im_mem st).
Proof.
  intros [A _ _ _ _]. unfold surroundings in A. injection A as _ _ _ H1 H2 _. unfold budget.
  by rewrite H1, H2.
Qed.
End frame.
