(* ===== verification/Reach.v ===== *)
(** * Reachable states of the scheduler

    A step is any public operation but [import_state] and [recover], which
    replace the tables of the scheduler.  [reachable cfg st] holds of every
    state a scheduler built with [cfg] can be in, through steps and through
    recoveries from the snapshot of another such scheduler; [pristine cfg st] of
    those reached without a recovery.  The invariant holds there, and gives the
    safety properties of the files that follow. *)

From S2P Require Import Prelude Float Types Request Chunking Memory Compat Exec Observability SchedState SchedOps SchedCycle SchedFrame SchedInv SchedOpsInv SchedOpsInv2 SubmitInv CycleInv DispatchInv GroupInv FormInv RunCycle Bytes Persist SchedPersist ImportInv CycleFrame.

Section reach.
Context `{FE : FloatEnv} `{CK : ClockSource} `{HO : HashOrder}.

(** The public operations of [PrefillScheduler] that change state.  Requests
    are submitted with fields in range and a prompt below 2^32 tokens; a cycle
    runs while the 64-bit counters have room for it. *)
Inductive step : Impl → Impl → Prop :=
| step_submit st req toks : request_fits req → step st (submit_with_tokens st req toks).1
| step_cycle st : cycle_room st → step st (run_cycle st).1
| step_report st r : step st (report_completion st r).1
| step_cancel st rid : step st (cancel st rid).1
| step_cancel_generation st rid g : step st (cancel_generation st rid g).1
| step_retry st rid : step st (force_retry st rid).1
| step_register st w : step st (register_worker st w).1
| step_unregister st w : step st (unregister_worker st w).1
| step_lost st w : step st (worker_lost st w).1
| step_epoch st : step st (roll_epoch st).1
| step_attach st ex be : step st (attach_executor st ex be).

(** Reached from a new scheduler by steps alone. *)
Definition pristine (cfg : SchedulerConfig) (st : Impl) : Prop := rtc step (Impl_new cfg) st.

(** A recovery replaces a scheduler that has admitted nothing yet by the state
    another one exported, at any moment of its life. *)
Inductive reachable (cfg : SchedulerConfig) : Impl → Prop :=
| reach_new : reachable cfg (Impl_new cfg)
| reach_step st st' : reachable cfg st → step st st' → reachable cfg st'
| reach_recover st0 st : reachable cfg st0 → requests_ st0 = ∅ → reachable cfg st →
    reachable cfg (import_state st0 (export_state st)).1.

Lemma step_inv `{OR : Origin} st st' : sched_inv st → step st st' → sched_inv st'.
Proof.
  intros Hi Hst. destruct Hst; auto using submit_with_tokens_inv, run_cycle_inv,
    report_completion_inv, cancel_inv, cancel_generation_inv, force_retry_inv,
    register_worker_inv, unregister_worker_inv, worker_lost_inv, roll_epoch_inv,
    attach_executor_inv.
Qed.

Lemma outcome_cfg st s r : im_cfg (apply_outcome st s r).1 = im_cfg st.
Proof.
  unfold apply_outcome. destruct (mr_outcome r); repeat case_if; rewrite ?restart_attempt_eq;
    unfold finish; cbv beta iota zeta; cbn [fst snd]; by eff.
Qed.

(** The configuration is the one the scheduler was built with. *)
Lemma report_cfg st r : im_cfg (report_completion st r).1 = im_cfg st.
Proof.
  unfold report_completion. destruct (is_nil (mr_epoch r)); [done|]. destruct (negb _); [done|].
  destruct (requests_ st !! mr_request_id r) as [s|]; [|done]. do 6 (case_match; [done|]).
  unfold apply_completion, account_chunk, im_now. cbv beta iota zeta.
  match goal with |- context [apply_outcome ?x ?y r] =>
    pose proof (outcome_cfg x y r) as He; destruct (apply_outcome x y r) as [st2 s2] end.
  rewrite release_reservation_eq, detach_eq. cbv beta iota zeta. cbn [fst snd] in *. by eff.
Qed.

Lemma worker_lost_cfg st w : im_cfg (worker_lost st w).1 = im_cfg st.
Proof.
  unfold worker_lost. cbv zeta.
  assert (im_cfg (foldl (recover_group w) st (iter_keys (groups_ st))) = im_cfg st) as He.
  { apply (foldl_frame im_cfg). intros st1 gid. unfold recover_group.
    destruct (groups_ st1 !! gid) as [g|]; [|done]. destruct (gs_worker g =? w); [|done].
    cbv zeta. transitivity (im_cfg (foldl recover_member st1 (set_elements (gs_outstanding g)))); [done|].
    apply (foldl_frame im_cfg). intros st2 rid. unfold recover_member.
    destruct (requests_ st2 !! rid) as [s|]; [|done]. destruct (_ && _); [|done].
    rewrite release_reservation_eq. cbv beta iota zeta. by eff. }
  destruct (workers_ _ !! w) as [ws|]; eff; done.
Qed.

Lemma step_cfg `{OR : Origin} st st' : sched_inv st → step st st' → im_cfg st' = im_cfg st.
Proof.
  intros Hi Hst. destruct Hst as [st req toks _|st Hroom|st r|st rid|st rid g|st rid|st w|st w|st w|st|st ex be].
  - unfold submit_with_tokens. destruct (negb _); [done|]. destruct (bool_decide _); [done|].
    destruct (register_request _ _ _) as [tr [[]|e]]; [|done]. cbv zeta.
    unfold reject_capacity, alloc_attempt, im_now. cbv beta iota zeta.
    destruct (_ <=? _); [by eff|]. destruct (cfg_per_tenant_outstanding_limit _ <=? _); [by eff|].
    destruct (_ <? _); [by eff|]. destruct (_ =? 0); by eff.
  - pose proof (kp_around _ _ _ (run_cycle_keeps st Hi Hroom)) as E. unfold surroundings in E. congruence.
  - apply report_cfg.
  - unfold cancel. destruct (requests_ st !! rid) as [s|]; [|done].
    destruct (is_terminal_lifecycle _); [done|]. destruct (rs_in_flight s); [done|].
    rewrite release_reservation_eq. cbv beta iota zeta. repeat eff_step.
    destruct (is_nil (rs_current_group s)); cbv beta iota zeta; cbn [negb]; by eff.
  - unfold cancel_generation. destruct (requests_ st !! rid) as [s|]; [|done].
    destruct (is_terminal_lifecycle _); [done|]. by destruct (_ && _).
  - unfold force_retry. destruct (requests_ st !! rid) as [s|]; [|done].
    destruct (is_terminal_lifecycle _); [done|].
    destruct (rs_in_flight s); rewrite ?release_reservation_eq; cbv beta iota zeta;
      rewrite ?drop_group_eq; cbv beta iota zeta; repeat eff_step;
      destruct (_ <=? _); rewrite ?restart_attempt_eq; cbv beta iota zeta; by eff.
  - unfold register_worker. destruct (is_nil (wd_worker_id w)); [done|].
    destruct (is_nil (wd_boot_id w)); by eff.
  - unfold unregister_worker. by destruct (workers_ st !! w).
  - apply worker_lost_cfg.
  - done.
  - unfold attach_executor. cbv zeta. repeat eff_step. destruct (workers_ st !! 0); by eff.
Qed.

Lemma steps_inv `{OR : Origin} st st' : sched_inv st → rtc step st st' → sched_inv st'.
Proof. intros Hi Hst. induction Hst; eauto using step_inv. Qed.

Lemma usable_memory_range c : config_wf c → is_u64 (usable_memory_bytes c).
Proof.
  intros (_ & _ & _ & _ & _ & _ & _ & Hd & Hh & _). unfold usable_memory_bytes.
  unfold is_u64 in *. repeat case_if; try apply u64_range; lia.
Qed.

Lemma new_inv cfg : config_fits cfg → sched_inv (OR := origin_new) (Impl_new cfg).
Proof.
  intros Hc. pose proof Hc as [Hwf Hlim]. pose proof (usable_memory_range cfg Hwf) as Hu.
  assert (is_u64 (cfg_memory_headroom_bytes cfg)) as Hh by (by destruct Hwf as (_&_&_&_&_&_&_&_&?&_)).
  pose proof Hwf as (_&_&_&_&_&_&_&_&_&Hm&Ho&Ht). unfold is_u64 in Hm, Ho, Ht.
  split; cbn; rewrite ?map_size_empty; try done; try lia.
  - split; [by apply gov_inv_new|]. cbn.
    pose proof (budget_range (MemoryGovernor_new (usable_memory_bytes cfg) (cfg_memory_headroom_bytes cfg))) as Hb.
    unfold is_u64 in Hb. lia.
  - intros rv rid b. split; [done|]. intros (_ & s & Hs & _). done.
  - split; [lia|]. intros rv [x Hx]. done.
  - intros t. cbn. unfold live_count, live_tokens. rewrite !map_sum_empty.
    unfold map_at. rewrite lookup_empty. cbn. lia.
  - split; [done|]. intros l p Hl. unfold life_count. rewrite map_sum_empty. by destruct l; simplify_eq/=.
Qed.

Lemma pristine_inv cfg st : config_fits cfg → pristine cfg st → sched_inv (OR := origin_new) st.
Proof. intros Hc Hr. eapply steps_inv; [|done]. by apply new_inv. Qed.

Lemma reachable_steps cfg st st' : reachable cfg st → rtc step st st' → reachable cfg st'.
Proof. intros Hr Hst. induction Hst; eauto using reach_step. Qed.

Lemma pristine_reachable cfg st : pristine cfg st → reachable cfg st.
Proof. intros Hr. eapply reachable_steps; [apply reach_new|done]. Qed.

Lemma reachable_origin cfg st :
  config_fits cfg → reachable cfg st → im_cfg st = cfg ∧ ∃ o, sched_inv (OR := o) st.
Proof.
  intros Hc Hr.
  induction Hr as [|st st' _ [Ec [o Hi]] Hst|st0 st _ [Ec0 [o0 H0]] He _ [Ec [o Hi]]].
  - split; [done|]. exists origin_new. by apply new_inv.
  - split; [|exists o; by eapply step_inv]. by rewrite (step_cfg _ _ Hi Hst).
  - assert (im_cfg st0 = im_cfg st) as E by congruence. split.
    + destruct (recovered_frame st0 st E) as [Ef _]. etransitivity; [exact Ef|done].
    + exists (origin_recovered (requests_ (recovered_state st0 st))). exact (import_inv o0 o st0 st H0 He Hi E).
Qed.

Lemma reachable_inv cfg st : config_fits cfg → reachable cfg st → ∃ o, sched_inv (OR := o) st.
Proof. intros Hc Hr. by apply (reachable_origin cfg st Hc Hr). Qed.
End reach.
