(* ===== verification/Safety.v ===== *)
(** * Safety of the reachable states

    What the invariant says of the components a user observes: memory,
    accounting, progress, authority and groups. *)

From S2P Require Import Prelude Float Types Request Chunking Memory Compat Exec Observability SchedState SchedOps SchedCycle SchedFrame SchedInv SchedOpsInv SchedOpsInv2 SubmitInv CycleInv DispatchInv GroupInv FormInv RunCycle Bytes Persist SchedPersist ImportInv CycleFrame Reach.

Section idle.
Context `{FE : FloatEnv} `{OR : Origin}.

(** Nothing is running. *)
Definition idle (st : Impl) : Prop := ∀ rid s, requests_ st !! rid = Some s → ~ running s.

Lemma idle_ledger st : sched_inv st → idle st → ledger (im_mem st) = ∅.
Proof.
  intros Hi Hq. apply map_eq. intros rv. rewrite lookup_empty.
  destruct (ledger (im_mem st) !! rv) as [[rid b]|] eqn:E; [|done].
  apply (si_own _ Hi) in E as (Hz & s & Hs & <- & _).
  apply (si_res _ Hi rid s Hs) in Hz as [Hr|[]%elem_of_empty]. by destruct (Hq rid s Hs).
Qed.

(** An idle scheduler holds no reservation. *)
Lemma idle_unreserved st : sched_inv st → idle st → active_reservation_count (im_mem st) = 0.
Proof.
  intros Hi Hq. unfold active_reservation_count. rewrite map_sum_zero; [done|].
  intros rv r Hrec. destruct (rr_active r) eqn:Ea; [|done].
  assert (ledger (im_mem st) !! rv = Some (rr_request_id r, rr_bytes r)) as Hl
    by (apply ledger_lookup; eauto). by rewrite (idle_ledger st Hi Hq) in Hl.
Qed.
End idle.

Section safety.
Context `{FE : FloatEnv} `{CK : ClockSource} `{HO : HashOrder}.

(** C3: in every reachable state the governor's active reservations are exactly
    those of the requests that run, each for the bytes the request holds;
    their total never exceeds the budget and no release ever underflowed. *)
Theorem memory_owned_exactly cfg st (Hc : config_fits cfg) (Hr : reachable cfg st) :
  (∀ rv rid b, ledger (im_mem st) !! rv = Some (rid, b) ↔
     ∃ s, requests_ st !! rid = Some s ∧ running s ∧ rs_reservation s = rv ∧
          rs_reserved_bytes s = b) ∧
  reserved_bytes (im_mem st) = ledger_total (ledger (im_mem st)) ∧
  reserved_bytes (im_mem st) <= budget (im_mem st) ∧
  underflow_happened (im_mem st) = false.
Proof.
  destruct (reachable_inv cfg st Hc Hr) as [o Hi]. destruct (si_mem _ Hi) as [Hg Hb].
  split; [|split; [apply Hg|split; [done|]]].
  - intros rv rid b. rewrite (si_own _ Hi rv rid b). split.
    + intros (Hz & s & Hs & Hrv & Hbs). exists s. split_and!; try done.
      all: apply (si_res _ Hi rid s Hs) in Hz || (subst rv; apply (si_res _ Hi rid s Hs) in Hz).
      all: destruct Hz as [[? ?]|[]%elem_of_empty]; done.
    + intros (s & Hs & Hrun & Hrv & Hbs). split; [|eauto]. subst rv.
      apply (si_res _ Hi rid s Hs). by left.
  - unfold underflow_happened. by rewrite (gi_flags _ Hg).
Qed.

(** No leak: when no request is in flight the governor holds nothing. *)
Theorem quiescent_no_leak cfg st (Hc : config_fits cfg) (Hr : reachable cfg st)
    (Hq : ∀ rid s, requests_ st !! rid = Some s → rs_in_flight s = false) :
  reserved_bytes (im_mem st) = 0 ∧ active_reservation_count (im_mem st) = 0 ∧
  available_bytes (im_mem st) = budget (im_mem st).
Proof.
  destruct (reachable_inv cfg st Hc Hr) as [o Hi]. destruct (si_mem _ Hi) as [Hg Hb].
  assert (idle st) as Hidle by (intros rid s Hs [Hf _]; by rewrite (Hq rid s Hs) in Hf).
  assert (mg_reserved (im_mem st) = 0) as Hz by (by rewrite (gi_total _ Hg), (idle_ledger st Hi Hidle)).
  split_and!.
  - done.
  - by apply idle_unreserved.
  - pose proof (budget_range (im_mem st)) as Hbr. unfold is_u64 in Hbr.
    unfold available_bytes. rewrite Hz. case_if; [lia|].
    rewrite u64_small by (unfold is_u64; lia). lia.
Qed.

(** C23: the statistics are exact in a scheduler that was not recovered from a
    snapshot: every admitted request is in the table, the counters of completed, cancelled, failed and expired requests are the
    numbers of requests in those states, and they never exceed the admitted. *)
Theorem statistics_exact cfg st (Hc : config_fits cfg) (Hr : pristine cfg st) :
  let x := im_stats st in
  st_admitted x = Z.of_nat (size (requests_ st)) ∧
  st_completed x = life_count Lifecycle_completed (requests_ st) ∧
  st_cancelled x = life_count Lifecycle_cancelled (requests_ st) ∧
  st_failed_non_retryable x = life_count Lifecycle_failed_non_retryable (requests_ st) ∧
  st_expired x = life_count Lifecycle_expired (requests_ st) ∧
  st_completed x + st_cancelled x + st_failed_non_retryable x + st_expired x
  + map_sum (λ _ s, if nonterminal s then 1 else 0) (requests_ st) = st_admitted x.
Proof.
  pose proof (pristine_inv cfg st Hc Hr) as Hi.
  destruct (stats_new _ _ (si_stats _ Hi)) as [Ha Hf].
  pose proof (Hf Lifecycle_completed _ eq_refl) as H1.
  pose proof (Hf Lifecycle_cancelled _ eq_refl) as H2.
  pose proof (Hf Lifecycle_failed_non_retryable _ eq_refl) as H3.
  pose proof (Hf Lifecycle_expired _ eq_refl) as H4.
  cbv zeta. do 5 (split; [done|]). rewrite Ha, H1, H2, H3, H4.
  pose proof (si_rs _ Hi) as Hrs. unfold life_count.
  revert Hrs. generalize (im_cfg st), (im_next_generation_value st), (im_next_group_value st).
  intros c ng ngrp. clear. generalize (requests_ st). intros m.
  induction m as [|k s m Hk IH] using map_ind; intros Hrs.
  - by rewrite !map_sum_empty, map_size_empty.
  - rewrite !map_sum_insert_new, map_size_insert_None by done.
    assert (∀ r x, m !! r = Some x → rs_ok (OR := origin_new) c ng ngrp r x) as Hm.
    { intros r x Hx. apply Hrs. rewrite lookup_insert_ne; [done|congruence]. }
    specialize (IH Hm). pose proof (ro_life _ _ _ _ _ (Hrs k s (lookup_insert_eq _ _ _))) as Hl.
    unfold nonterminal in *. destruct (rs_lifecycle s); try done; decide_enums; cbn in *; lia.
Qed.

(** C24: admission limits hold in every reachable state: the table never exceeds
    [max_admitted_requests]; a tenant's [outstanding] is the number of its
    requests that are not final and never exceeds the per-tenant limit; and, in
    a scheduler that was not recovered from a snapshot, the remaining tokens of
    those requests stay within the admitted-token limit. *)
Theorem admission_limits_hold cfg st (Hc : config_fits cfg) (Hr : reachable cfg st) :
  Z.of_nat (size (requests_ st)) <= cfg_max_admitted_requests (im_cfg st) ∧
  ∀ t, let x := map_at TenantService_default (tenants_ st) t in
    ts_outstanding x = live_count t (requests_ st) ∧
    live_count t (requests_ st) <= cfg_per_tenant_outstanding_limit (im_cfg st) ∧
    (pristine cfg st →
     live_tokens t (requests_ st) <= cfg_per_tenant_admitted_token_limit (im_cfg st)).
Proof.
  destruct (reachable_inv cfg st Hc Hr) as [o Hi]. split; [apply Hi|].
  intros t. destruct (si_tenants _ Hi t) as (H1 & _ & _ & H4). cbv zeta in *.
  split_and!; [done|lia|]. intros Hp.
  destruct (si_tenants _ (pristine_inv cfg st Hc Hp) t) as (_ & H2 & H3 & _). cbn in H2. lia.
Qed.

(** C25: progress is accounted: a request that waits or runs has a next chunk
    and has completed no token beyond its start, no request has completed more
    than its remaining prefill or used more than its retries; and in a scheduler
    that was not recovered from a snapshot the tokens before the next chunk are
    all completed, and a completed request has completed its remaining prefill. *)
Theorem progress_exact cfg st rid s (Hc : config_fits cfg) (Hr : reachable cfg st)
    (Hs : requests_ st !! rid = Some s) :
  (rs_lifecycle s = Lifecycle_queued ∨ running s →
     ∃ ch, pending_chunk s = Some ch ∧ 0 <= rs_completed_uncached s <= ck_token_start ch ∧
           (pristine cfg st → rs_completed_uncached s = ck_token_start ch)) ∧
  (pristine cfg st → rs_lifecycle s = Lifecycle_completed →
     rs_completed_uncached s = remaining_prefill_tokens (rs_request s)) ∧
  0 <= rs_completed_uncached s <= remaining_prefill_tokens (rs_request s) ∧
  0 <= rs_retries_used s <= rq_max_retries (rs_request s).
Proof.
  destruct (reachable_inv cfg st Hc Hr) as [o Hi]. pose proof (si_rs _ Hi rid s Hs) as Hok.
  split; [|split; [|split; apply Hok]].
  - intros Hlive. destruct (ro_live _ _ _ _ _ Hok Hlive) as (ch & Hch & Hacc). exists ch.
    pose proof Hch as Hch'. unfold pending_chunk in Hch'. rewrite (ro_plan _ _ _ _ _ Hok) in Hch'.
    destruct (plan_next _ _ _ _ _ _ (proj1 (ro_req _ _ _ _ _ Hok)) (proj1 (si_cfg _ Hi)) Hch') as (H0 & _).
    pose proof (accounted_range _ _ Hacc H0). split_and!; [done|lia|lia|]. intros Hp.
    pose proof (si_rs _ (pristine_inv cfg st Hc Hp) rid s Hs) as Hok'.
    destruct (ro_live _ _ _ _ _ Hok' Hlive) as (ch2 & Hch2 & Hacc2).
    assert (ch2 = ch) as -> by congruence. by apply (accounted_fresh _ _ Hacc2).
  - intros Hp. by apply (ro_done _ _ _ _ _ (si_rs _ (pristine_inv cfg st Hc Hp) rid s Hs)).
Qed.

(** C26: the group table and the request table agree: a listed group is not
    empty and its outstanding set is exactly the requests that run in it, on
    the group's worker. *)
Theorem groups_track_running cfg st gid g (Hc : config_fits cfg) (Hr : reachable cfg st)
    (Hg : groups_ st !! gid = Some g) :
  gs_outstanding g ≠ ∅ ∧
  (∀ rid, rid ∈ gs_outstanding g ↔
     ∃ s, requests_ st !! rid = Some s ∧ running s ∧ rs_current_group s = gid) ∧
  (∀ rid s, rid ∈ gs_outstanding g → requests_ st !! rid = Some s →
     rs_dispatched_worker s = gs_worker g).
Proof.
  destruct (reachable_inv cfg st Hc Hr) as [o Hi].
  destruct (si_groups _ Hi gid g Hg) as (_ & H2 & H3). split_and!; try done.
  intros rid s (s' & Hs' & Hrun & Hcg)%H3 Hs. simplify_eq.
  by apply (si_agree _ Hi rid).
Qed.

(** C27: authority is unique: a running request holds a positive generation
    below the next one to be issued, and no two requests hold the same. *)
Theorem authority_unique cfg st r1 r2 s1 s2 (Hc : config_fits cfg) (Hr : reachable cfg st)
    (H1 : requests_ st !! r1 = Some s1) (H2 : requests_ st !! r2 = Some s2)
    (Hrun : running s1) :
  0 < rs_current_generation s1 < im_next_generation_value st ∧
  (rs_current_generation s1 = rs_current_generation s2 → r1 = r2).
Proof.
  destruct (reachable_inv cfg st Hc Hr) as [o Hi]. pose proof (si_rs _ Hi r1 s1 H1) as Hok.
  destruct (ro_flight _ _ _ _ _ Hok (proj1 Hrun)) as [_ Hnz].
  pose proof (ro_gen _ _ _ _ _ Hok). split; [lia|]. by apply (si_gens _ Hi).
Qed.
End safety.
