(* ===== verification/Evolve.v ===== *)
(** * How requests evolve

    A relation between the request table before and after any sequence of
    operations: requests stay in the table, final states are absorbing, and
    work in flight after a step either was in flight with the same generation
    or carries a generation issued since. *)

From S2P Require Import Prelude Float Types Request Chunking Memory Compat Exec Observability SchedState SchedOps SchedCycle SchedFrame SchedInv SchedOpsInv SchedOpsInv2 SubmitInv CycleInv DispatchInv GroupInv FormInv RunCycle Reach.

Section evolve.
Context `{FE : FloatEnv} `{CK : ClockSource} `{HO : HashOrder} `{OR : Origin}.

(** [ng] is the next generation to be issued when the request was [s]. *)
Record evolves (ng : Z) (s s' : Rs) : Prop := {
  ev_request : rs_request s' = rs_request s;
  ev_final : is_terminal_lifecycle (rs_lifecycle s) = true → rs_lifecycle s' = rs_lifecycle s;
  ev_flight : rs_in_flight s' = true →
    rs_in_flight s = true ∧ rs_current_generation s' = rs_current_generation s ∨
    ng <= rs_current_generation s'
}.

Record evolution (st st' : Impl) : Prop := {
  eo_next : im_next_generation_value st <= im_next_generation_value st';
  eo_old : ∀ rid s, requests_ st !! rid = Some s →
    ∃ s', requests_ st' !! rid = Some s' ∧ evolves (im_next_generation_value st) s s';
  eo_new : ∀ rid s', requests_ st !! rid = None → requests_ st' !! rid = Some s' →
    rs_in_flight s' = true → im_next_generation_value st <= rs_current_generation s'
}.

Lemma evolves_refl ng s : evolves ng s s.
Proof. split; auto. Qed.

Lemma evolves_trans ng1 ng2 s1 s2 s3 :
  ng1 <= ng2 → evolves ng1 s1 s2 → evolves ng2 s2 s3 → evolves ng1 s1 s3.
Proof.
  intros Hn [A1 A2 A3] [B1 B2 B3]. split; [congruence| |].
  - intros Ht. rewrite <- (A2 Ht). apply B2. by rewrite (A2 Ht).
  - intros Hf. destruct (B3 Hf) as [[Hf2 Hg]|Hg]; [|right; lia].
    destruct (A3 Hf2) as [[Hf1 Hg1]|Hg1]; [left; split; congruence|right; lia].
Qed.

Lemma evolution_refl st : evolution st st.
Proof.
  split; [lia| |].
  - intros rid s Hs. exists s. split; [done|apply evolves_refl].
  - intros rid s' Hn Hs. congruence.
Qed.

Lemma evolution_trans st1 st2 st3 : evolution st1 st2 → evolution st2 st3 → evolution st1 st3.
Proof.
  intros [A1 A2 A3] [B1 B2 B3]. split; [lia| |].
  - intros rid s Hs. destruct (A2 rid s Hs) as (s2 & Hs2 & E).
    destruct (B2 rid s2 Hs2) as (s3 & Hs3 & E3). exists s3. split; [done|].
    by eapply evolves_trans.
  - intros rid s3 Hn Hs3 Hf. destruct (requests_ st2 !! rid) as [s2|] eqn:Hs2.
    + destruct (B2 rid s2 Hs2) as (s3' & Hs3' & E). simplify_eq.
      destruct (ev_flight _ _ _ E Hf) as [[Hf2 ->]|Hg]; [|lia]. by apply (A3 rid).
    + specialize (B3 rid s3 Hs2 Hs3 Hf). lia.
Qed.

(** One request replaced. *)
Lemma evolution_put st st' rid s s' :
  requests_ st !! rid = Some s → requests_ st' = <[rid := s']> (requests_ st) →
  im_next_generation_value st' = im_next_generation_value st →
  evolves (im_next_generation_value st) s s' → evolution st st'.
Proof.
  intros Hs Hr Hn He. split; [lia| |].
  - intros r x Hx. rewrite Hr. destruct (decide (rid = r)) as [<-|Hne].
    + simplify_eq. exists s'. by rewrite lookup_insert_eq.
    + exists x. rewrite lookup_insert_ne by done. split; [done|apply evolves_refl].
  - intros r x Hn' Hx. rewrite Hr, lookup_insert_ne in Hx; congruence.
Qed.

Lemma evolution_same st st' :
  requests_ st' = requests_ st → im_next_generation_value st' = im_next_generation_value st →
  evolution st st'.
Proof.
  intros Hr Hn. split; [lia| |]; rewrite Hr.
  - intros rid s Hs. exists s. split; [done|apply evolves_refl].
  - intros. congruence.
Qed.

(** A request that stops or stays as it was, not final before. *)
Lemma evolves_stop ng s s' :
  rs_request s' = rs_request s → is_terminal_lifecycle (rs_lifecycle s) = false →
  (rs_in_flight s' = true → rs_in_flight s = true ∧
     rs_current_generation s' = rs_current_generation s) → evolves ng s s'.
Proof. intros Hq Ht Hf. split; [done| |auto]. intros Ht'. congruence. Qed.

(** ** Operations on one request *)

Lemma cancel_evolution st rid : evolution st (cancel st rid).1.
Proof.
  unfold cancel. destruct (requests_ st !! rid) as [s|] eqn:Hs; [|apply evolution_refl].
  destruct (is_terminal_lifecycle (rs_lifecycle s)) eqn:Et; [apply evolution_refl|].
  destruct (rs_in_flight s) eqn:Ef.
  { cbv beta iota zeta. eapply evolution_put; [done|by eff|by eff|]. apply evolves_stop; by eff. }
  rewrite release_reservation_eq. cbv beta iota zeta. repeat eff_step. rewrite group_erase_member_eq.
  destruct (negb (is_nil (rs_current_group s))); cbv beta iota zeta;
    (eapply evolution_put; [done|by eff|by eff|]); apply evolves_stop; by eff; rewrite ?Ef.
Qed.

Lemma cancel_generation_evolution st rid g : evolution st (cancel_generation st rid g).1.
Proof.
  unfold cancel_generation. destruct (requests_ st !! rid) as [s|] eqn:Hs; [|apply evolution_refl].
  destruct (is_terminal_lifecycle (rs_lifecycle s)) eqn:Et; [apply evolution_refl|].
  destruct (_ && _); [|apply evolution_refl]. cbv beta iota zeta.
  eapply evolution_put; [done|by eff|by eff|]. apply evolves_stop; by eff.
Qed.

Lemma force_retry_evolution st rid : evolution st (force_retry st rid).1.
Proof.
  unfold force_retry. destruct (requests_ st !! rid) as [s|] eqn:Hs; [|apply evolution_refl].
  destruct (is_terminal_lifecycle (rs_lifecycle s)) eqn:Et; [apply evolution_refl|].
  rewrite release_reservation_eq. cbv beta iota zeta. rewrite drop_group_eq.
  destruct (rs_in_flight s) eqn:Ef; cbv beta iota zeta; repeat eff_step;
    destruct (rq_max_retries (rs_request s) <=? rs_retries_used s);
    rewrite ?restart_attempt_eq; cbv beta iota zeta;
    (eapply evolution_put; [done|by eff|by eff|]); apply evolves_stop; by eff; rewrite ?Ef.
Qed.

Lemma apply_outcome_flight st s r :
  rs_in_flight s = false → rs_in_flight (apply_outcome st s r).2 = false ∧
  requests_ (apply_outcome st s r).1 = requests_ st ∧
  im_next_generation_value (apply_outcome st s r).1 = im_next_generation_value st ∧
  rs_request (apply_outcome st s r).2 = rs_request s.
Proof.
  intros Hf. unfold apply_outcome. destruct (mr_outcome r); repeat case_if;
    rewrite ?restart_attempt_eq; unfold finish; cbv beta iota zeta; cbn [fst snd]; by eff.
Qed.

Lemma report_completion_evolution st r : evolution st (report_completion st r).1.
Proof.
  unfold report_completion, reject_with.
  destruct (is_nil (mr_epoch r)); [apply evolution_refl|].
  destruct (negb (mr_epoch r =? im_epoch st)); [apply evolution_same; by eff|].
  destruct (requests_ st !! mr_request_id r) as [s|] eqn:Hs; [|apply evolution_refl].
  destruct (_ && boot_mismatch st r); [apply evolution_same; by eff|].
  destruct (negb (mr_attempt_id r =? rs_attempt s)); [apply evolution_same; by eff|].
  destruct (negb (mr_generation r =? rs_current_generation s)); [apply evolution_same; by eff|].
  destruct (is_terminal_lifecycle (rs_lifecycle s)) eqn:Et; [apply evolution_same; by eff|].
  destruct (rs_in_flight s) eqn:Ef; cbn [negb]; [|apply evolution_same; by eff].
  destruct (_ && negb (mr_worker r =? rs_dispatched_worker s)); [apply evolution_same; by eff|].
  unfold apply_completion, account_chunk, im_now. cbv beta iota zeta.
  match goal with |- context [apply_outcome ?a ?b ?c] =>
    pose proof (apply_outcome_flight a b c ltac:(by eff)) as (H1 & H2 & H3 & H4);
    destruct (apply_outcome a b c) as [st2 s2] end.
  revert H1 H2 H3 H4. eff. intros H1 H2 H3 H4.
  rewrite ?release_reservation_eq. cbv beta iota zeta. rewrite ?detach_eq. cbv beta iota zeta.
  eapply evolution_put; [done| | |].
  - eff. by rewrite H2.
  - eff. done.
  - apply evolves_stop; eff; [done|done|]. by rewrite H1.
Qed.

Lemma submit_evolution st req toks : evolution st (submit_with_tokens st req toks).1.
Proof.
  unfold submit_with_tokens, reject_capacity. cbv zeta.
  case_if; [apply evolution_refl|]. case_if; [apply evolution_refl|].
  assert (requests_ st !! rq_request_id req = None) as Hnone by (apply eq_None_not_Some; done).
  destruct (register_request (im_token_resolver st) req toks) as [tr [u|e]];
    [|apply evolution_same; by eff].
  unfold alloc_attempt, im_now. cbv beta iota zeta.
  do 3 (match goal with |- evolution _ (if ?b then _ else _).1 => destruct b end;
    [apply evolution_same; by eff|]).
  assert (∀ st' s', requests_ st' = <[rq_request_id req := s']> (requests_ st) →
    im_next_generation_value st' = im_next_generation_value st → rs_in_flight s' = false →
    evolution st st') as Hnew.
  { intros st' s' Hr Hn Hf. split; [lia| |]; rewrite Hr.
    - intros rid s Hs. exists s. rewrite lookup_insert_ne by congruence.
      split; [done|apply evolves_refl].
    - intros rid x Hn' [[<- <-]|[_ Hx]]%lookup_insert_Some Hfx; congruence. }
  destruct (remaining_prefill_tokens req =? 0);
    (eapply Hnew; [by eff|by eff|unfold admit_rs; by eff]).
Qed.

(** ** Workers *)

Lemma recover_member_evolution st rid : evolution st (recover_member st rid).
Proof.
  unfold recover_member. destruct (requests_ st !! rid) as [s|] eqn:Hs; [|apply evolution_refl].
  destruct (rs_in_flight s) eqn:Ef; [|apply evolution_refl]. simpl. case_if; [|apply evolution_refl].
  rewrite release_reservation_eq. cbv beta iota zeta.
  eapply evolution_put; [done|by eff|by eff|]. apply evolves_stop; eff; try done.
  by rewrite E.
Qed.

Lemma foldl_evolution {B} (f : Impl → B → Impl) l st :
  (∀ st b, evolution st (f st b)) → evolution st (foldl f st l).
Proof.
  intros Hf. apply (foldl_preserve (evolution st)); [|apply evolution_refl].
  intros st' b _ H. by eapply evolution_trans.
Qed.

Lemma worker_lost_evolution st w : evolution st (worker_lost st w).1.
Proof.
  unfold worker_lost. cbv beta iota zeta. cbn [fst].
  eapply evolution_trans; [apply (foldl_evolution (recover_group w))|].
  - intros st' gid. unfold recover_group. destruct (groups_ st' !! gid) as [g|]; [|apply evolution_refl].
    destruct (gs_worker g =? w); [|apply evolution_refl].
    eapply evolution_trans; [apply (foldl_evolution recover_member), recover_member_evolution|].
    apply evolution_same; by eff.
  - destruct (workers_ _ !! w); apply evolution_same; by eff.
Qed.

(** ** The cycle *)

Lemma expire_one_evolution now st rid : evolution st (expire_one now st rid).
Proof.
  unfold expire_one. destruct (requests_ st !! rid) as [s|] eqn:Hs; [|apply evolution_refl].
  destruct (is_terminal_lifecycle (rs_lifecycle s)) eqn:Et; [apply evolution_refl|].
  destruct (_ || _); [|apply evolution_refl].
  rewrite release_reservation_eq, group_erase_member_eq. cbv beta iota zeta. repeat eff_step.
  destruct (past_deadline now s), (rs_in_flight s) eqn:Ef;
    (eapply evolution_put; [done|by eff|by eff|]); apply evolves_stop; by eff; rewrite ?Ef.
Qed.

Lemma evolves_unres ng s s' : unres s' = unres s → evolves ng s s'.
Proof.
  intros E. split.
  - exact (f_equal rs_request E).
  - intros _. exact (f_equal rs_lifecycle E).
  - rewrite (f_equal rs_in_flight E : rs_in_flight s' = rs_in_flight s).
    rewrite (f_equal rs_current_generation E : rs_current_generation s' = rs_current_generation s).
    auto.
Qed.

Lemma evolution_same_requests st st' :
  same_requests st st' → im_next_generation_value st <= im_next_generation_value st' → evolution st st'.
Proof.
  intros Hs Hn. split; [done| |].
  - intros rid s Hl. destruct (same_requests_l _ _ _ _ Hs Hl) as (s' & Hs' & E).
    exists s'. split; [done|by apply evolves_unres].
  - intros rid s' Hl Hs'. destruct (same_requests_r _ _ _ _ Hs Hs') as (s & H & _). congruence.
Qed.

Lemma dispatch_group_evolution now st batch g :
  sched_inv st → og_ok st g → room st (length (og_rids g)) →
  evolution st (dispatch_group now (st, batch) g).1.
Proof.
  intros Hi Ho Hr. pose proof (dispatch_group_spec now st batch g Hi Ho Hr) as Hsp.
  destruct (dispatch_group now (st, batch) g) as [st' batch']. cbn [fst].
  destruct Hsp as [[E1 E2 E3 E4 E5 E6] Hcase].
  destruct Hcase as [[(Hsame & _) _]|(w & dg & _ & Hcm & _)].
  { apply evolution_same_requests; [done|lia]. }
  split; [lia| |].
  - intros rid s Hs. destruct (decide (rid ∈ og_rids g)) as [Hin|Hn].
    + destruct (committed_to_in _ _ _ _ _ Hcm Hin) as (s0 & s' & Hs0 & Hs' & Hst & Hge). simplify_eq.
      exists s'. split; [done|]. destruct (oo_cand _ _ Ho rid Hin) as (s0 & Hs0 & Hc). simplify_eq.
      apply candidate_spec in Hc as (Hl & _). destruct Hst as (_ & _ & _ & _ & Hq & _).
      split; [done| |auto]. by rewrite Hl.
    + exists s. rewrite (E2 rid Hn). split; [done|apply evolves_refl].
  - intros rid s' Hn Hs'. destruct (decide (rid ∈ og_rids g)) as [Hin|Hnin].
    + destruct (committed_to_in _ _ _ _ _ Hcm Hin) as (s0 & ? & Hs0 & _). congruence.
    + rewrite (E2 rid Hnin) in Hs'. congruence.
Qed.

Lemma age_evolves ng s : evolves ng s (age s).
Proof. unfold age. destruct (is_waiting s); [|apply evolves_refl]. split; rsimp; auto. Qed.

Lemma run_cycle_evolution st : sched_inv st → cycle_room st → evolution st (run_cycle st).1.
Proof.
  intros Hi Hroom.
  destruct (run_cycle_ind (λ st' _, evolution st st') st Hi Hroom) as (st2 & batch & -> & _ & He).
  - intros st1 open Hf. destruct Hf as [F1 F2 F3 F4 F5 F6 F7 F8 F9 F10 F11 F12].
    set (st0 := st <| im_clock_reads ::= S |>) in *.
    set (now := clock_now (im_clock_reads st)) in *.
    destruct (swept_frame now st0) as (_ & _ & Hr).
    eapply (evolution_trans _ st0); [by apply evolution_same|].
    eapply (evolution_trans _ (expire_sweep now st0)).
    { apply (foldl_evolution (expire_one now)). apply expire_one_evolution. }
    eapply (evolution_trans _ (swept now st0)).
    { apply evolution_same; [done|]. unfold swept.
      by destruct (touch_tenants_frame (expire_sweep now st0) (candidates (expire_sweep now st0)))
        as ((_ & -> & _) & _). }
    apply evolution_same_requests; [done|lia].
  - intros st1 b1 g Hi1 Ho Hr He.
    pose proof (dispatch_group_evolution (clock_now (im_clock_reads st)) st1 b1 g Hi1 Ho Hr).
    destruct (dispatch_group _ _ _) as [st3 b3]. by eapply evolution_trans.
  - cbn [fst]. eapply evolution_trans; [exact He|]. split.
    + unfold refresh_queue_stats. eff. lia.
    + intros rid s Hs. exists (age s). unfold refresh_queue_stats. eff.
      rewrite lookup_fmap, Hs. split; [done|apply age_evolves].
    + intros rid s' Hn. unfold refresh_queue_stats. eff. by rewrite lookup_fmap, Hn.
Qed.

(** ** All operations *)

Lemma step_evolution st st' : sched_inv st → step st st' → evolution st st'.
Proof.
  intros Hi Hst. destruct Hst.
  - apply submit_evolution.
  - by apply run_cycle_evolution.
  - apply report_completion_evolution.
  - apply cancel_evolution.
  - apply cancel_generation_evolution.
  - apply force_retry_evolution.
  - unfold register_worker. destruct (is_nil (wd_worker_id w)); [apply evolution_refl|].
    destruct (is_nil (wd_boot_id w)); apply evolution_same; by eff.
  - unfold unregister_worker. destruct (workers_ st !! w); [|apply evolution_refl].
    apply evolution_same; by eff.
  - apply worker_lost_evolution.
  - apply evolution_same; by eff.
  - unfold attach_executor. cbv zeta. eff. destruct (workers_ st !! 0); apply evolution_same; by eff.
Qed.

Lemma steps_evolution st st' : sched_inv st → rtc step st st' → evolution st st'.
Proof.
  intros Hi Hst. induction Hst as [st|st1 st2 st3 H1 H2 IH]; [apply evolution_refl|].
  eapply evolution_trans; [by apply step_evolution|]. apply IH. by eapply step_inv.
Qed.
End evolve.
