(* ===== verification/Trace.v ===== *)
(** * Explanations only grow

    The trace that [explain] returns for a request is an append-only log: no
    operation removes or changes a line of it. *)

From S2P Require Import Prelude Float Types Request Chunking Memory Compat Exec Observability SchedState SchedOps SchedCycle SchedFrame SchedInv SchedOpsInv CycleInv DispatchInv GroupInv FormInv RunCycle CycleStable Reach.

(** The trace of a request of the table, empty if there is none. *)
Definition trace_of (m : gmap Z Rs) (rid : RequestId) : list string :=
  rs_trace (map_at Rs_default m rid).

Section trace.
Context `{FE : FloatEnv} `{CK : ClockSource} `{HO : HashOrder}.
Variables (r : RequestId) (p : list string).

(** The lines [p] start the trace of the request [r]. *)
Definition traced (st : Impl) : Prop := p `prefix_of` trace_of (requests_ st) r.

Lemma traced_same st st' : traced st → requests_ st' = requests_ st → traced st'.
Proof. unfold traced. by intros H ->. Qed.

(** One request replaced by one whose trace has grown. *)
Lemma traced_put st st' rid s l :
  traced st → requests_ st' = <[rid := s]> (requests_ st) →
  rs_trace s = trace_of (requests_ st) rid ++ l → traced st'.
Proof.
  unfold traced, trace_of. intros H -> Hs. rewrite map_at_insert. case_decide as E; [|done]. subst rid.
  rewrite Hs. by apply prefix_app_r.
Qed.

Lemma traced_alter st st' rid f :
  traced st → requests_ st' = alter f rid (requests_ st) →
  (∀ s, ∃ l, rs_trace (f s) = rs_trace s ++ l) → traced st'.
Proof.
  unfold traced, trace_of. intros H -> Hf. unfold map_at in *. rewrite lookup_alter.
  case_decide as E; [|done]. subst rid. destruct (requests_ st !! r) as [s|]; [|done]. cbn in *.
  destruct (Hf s) as [l ->]. by apply prefix_app_r.
Qed.

Lemma trace_of_lookup (m : gmap Z Rs) rid s : m !! rid = Some s → trace_of m rid = rs_trace s.
Proof. unfold trace_of, map_at. by intros ->. Qed.
End trace.

(** The lines appended to the trace of a request. *)
Ltac trace_lines :=
  unfold trace_push; rsimp; rewrite <- ?app_assoc;
  first [reflexivity | symmetry; apply app_nil_r].

(** An operation that replaces the request [rid], found in the table or not. *)
Ltac traced_op H :=
  eapply traced_put; [exact H|by eff|];
  first [erewrite trace_of_lookup by eassumption|unfold trace_of]; trace_lines.

Section trace_ops.
Context `{FE : FloatEnv} `{CK : ClockSource} `{HO : HashOrder}.
Variables (r : RequestId) (p : list string).
Abbreviation traced := (traced r p).

Lemma cancel_traced st rid : traced st → traced (cancel st rid).1.
Proof.
  intros H. unfold cancel. destruct (requests_ st !! rid) as [s|] eqn:E; [|done].
  destruct (is_terminal_lifecycle _); [done|]. destruct (rs_in_flight s).
  - cbv zeta. traced_op H.
  - rewrite release_reservation_eq. cbv beta iota zeta. repeat eff_step.
    destruct (is_nil (rs_current_group s)); cbv beta iota zeta; cbn [negb]; traced_op H.
Qed.

Lemma cancel_generation_traced st rid g : traced st → traced (cancel_generation st rid g).1.
Proof.
  intros H. unfold cancel_generation. destruct (requests_ st !! rid) as [s|] eqn:E; [|done].
  destruct (is_terminal_lifecycle _); [done|]. destruct (_ && _); [|done]. cbv zeta. traced_op H.
Qed.

Lemma force_retry_traced st rid : traced st → traced (force_retry st rid).1.
Proof.
  intros H. unfold force_retry. destruct (requests_ st !! rid) as [s|] eqn:E; [|done].
  destruct (is_terminal_lifecycle _); [done|].
  destruct (rs_in_flight s); rewrite ?release_reservation_eq; cbv beta iota zeta;
    rewrite ?drop_group_eq; cbv beta iota zeta; repeat eff_step;
    destruct (_ <=? _); rewrite ?restart_attempt_eq; cbv beta iota zeta; traced_op H.
Qed.

Lemma outcome_trace st s o :
  requests_ (apply_outcome st s o).1 = requests_ st ∧
  ∃ l, rs_trace (apply_outcome st s o).2 = rs_trace s ++ l.
Proof.
  unfold apply_outcome. destruct (mr_outcome o); repeat case_if; rewrite ?restart_attempt_eq;
    unfold finish; cbv beta iota zeta; cbn [fst snd]; split; try (by eff); eexists; trace_lines.
Qed.

Lemma report_traced st o : traced st → traced (report_completion st o).1.
Proof.
  intros H. unfold report_completion. destruct (is_nil (mr_epoch o)); [done|].
  destruct (negb _); [by apply (traced_same _ _ st)|].
  destruct (requests_ st !! mr_request_id o) as [s|] eqn:E; [|done].
  do 6 (case_match; [by apply (traced_same _ _ st)|]). unfold apply_completion.
  assert (requests_ (account_chunk st s).1 = requests_ st ∧
    rs_trace (account_chunk st s).2 = rs_trace s) as [E1 E2] by (split; [by eff|reflexivity]).
  destruct (account_chunk st s) as [st1 s1]. cbn [fst snd] in *.
  destruct (outcome_trace st1 s1 o) as [E3 [l El]]. destruct (apply_outcome st1 s1 o) as [st2 s2].
  cbn [fst snd] in *. rewrite release_reservation_eq, detach_eq. cbv beta iota zeta. cbn [fst snd].
  eapply (traced_put _ _ st _ _ _ l H).
  - eff. rewrite E3, E1. reflexivity.
  - rewrite (trace_of_lookup _ _ _ E), <- E2, <- El. by rsimp.
Qed.

Lemma submit_traced st req toks : traced st → traced (submit_with_tokens st req toks).1.
Proof.
  intros H. unfold submit_with_tokens.
  destruct (bool_decide (ei_code (validate req) = ErrorCode_ok)); [|done]. cbn [negb].
  destruct (bool_decide _) eqn:Ed; [done|]. apply bool_decide_eq_false in Ed.
  assert (trace_of (requests_ st) (rq_request_id req) = []) as Hnil.
  { unfold trace_of, map_at. apply eq_None_not_Some in Ed. by rewrite Ed. }
  destruct (register_request _ _ _) as [tr [[]|e]]; [|by apply (traced_same _ _ st)].
  cbv zeta. destruct (_ <=? _); [unfold reject_capacity; by apply (traced_same _ _ st)|].
  destruct (cfg_per_tenant_outstanding_limit _ <=? _); [unfold reject_capacity; by apply (traced_same _ _ st)|].
  destruct (_ <? _); [unfold reject_capacity; by apply (traced_same _ _ st)|].
  unfold alloc_attempt, im_now. cbv beta iota zeta.
  destruct (_ =? 0); (eapply traced_put; [exact H|by eff|rewrite Hnil; reflexivity]).
Qed.

(** ** Workers, epochs, executors *)

Lemma worker_lost_traced st w : traced st → traced (worker_lost st w).1.
Proof.
  intros H. unfold worker_lost. cbv zeta.
  assert (traced (foldl (recover_group w) st (iter_keys (groups_ st)))) as H1.
  { apply (foldl_preserve traced); [|done]. intros st1 gid _ H1. unfold recover_group.
    destruct (groups_ st1 !! gid) as [g|]; [|done]. destruct (gs_worker g =? w); [|done].
    apply (traced_same _ _ (foldl recover_member st1 (set_elements (gs_outstanding g)))); [|done].
    apply (foldl_preserve traced); [|done]. intros st2 rid _ H2. unfold recover_member.
    destruct (requests_ st2 !! rid) as [s|] eqn:E; [|done]. destruct (_ && _); [|done].
    rewrite release_reservation_eq. cbv beta iota zeta. traced_op H2. }
  destruct (workers_ _ !! w) as [ws|]; apply (traced_same _ _ _ _ H1); by eff.
Qed.

Lemma register_traced st w : traced st → traced (register_worker st w).1.
Proof.
  intros H. unfold register_worker. destruct (is_nil (wd_worker_id w)); [done|].
  destruct (is_nil (wd_boot_id w)); cbv beta iota zeta; cbn [negb]; apply (traced_same _ _ st); try done; by eff.
Qed.

Lemma unregister_traced st w : traced st → traced (unregister_worker st w).1.
Proof.
  intros H. unfold unregister_worker. destruct (workers_ st !! w); [|done].
  apply (traced_same _ _ st); try done; by eff.
Qed.

Lemma attach_traced st ex be : traced st → traced (attach_executor st ex be).
Proof.
  intros H. unfold attach_executor. cbv zeta. repeat eff_step.
  destruct (workers_ st !! 0); apply (traced_same _ _ st); try done; by eff.
Qed.

(** ** The cycle *)

Lemma expire_one_traced now st rid : traced st → traced (expire_one now st rid).
Proof.
  intros H. unfold expire_one. destruct (requests_ st !! rid) as [s|] eqn:E; [|done].
  destruct (is_terminal_lifecycle _); [done|]. destruct (_ || _); [|done].
  rewrite release_reservation_eq, group_erase_member_eq. cbv beta iota zeta. repeat eff_step.
  destruct (past_deadline now s), (rs_in_flight s); traced_op H.
Qed.

Lemma traced_stable : cycle_stable traced.
Proof.
  split.
  - intros st H. by apply (traced_same _ _ st).
  - intros now st rid. apply expire_one_traced.
  - intros st rid H. by apply (traced_same _ _ st).
  - intros line st rid H. traced_op H.
  - intros st H. by apply (traced_same _ _ st).
  - intros st m rid b H. unfold alloc_reservation. cbv beta iota. traced_op H.
  - intros st m H. by apply (traced_same _ _ st).
  - intros st rv H. by apply (traced_same _ _ st).
  - intros st rid H. eapply traced_alter; [exact H|by eff|]. intros s. exists []. trace_lines.
  - intros line st rid H. unfold trace_request.
    eapply traced_alter; [exact H|by eff|]. intros s. exists [line]. trace_lines.
  - intros now gid w [[[st ms] out] bytes] [rid m] H. cbn [fst] in *.
    unfold commit_member, alloc_generation. cbv beta iota zeta. destruct (_ =? 0); cbn [fst]; traced_op H.
  - intros st ws gs f H. apply (traced_same _ _ st); [done|by eff].
  - intros st H. unfold refresh_queue_stats, Trace.traced, trace_of, map_at in *. eff.
    rewrite lookup_fmap. destruct (requests_ st !! r) as [s|]; [|done]. cbn in *.
    replace (rs_trace (age s)) with (rs_trace s); [done|]. unfold age. by case_if.
Qed.

Lemma run_cycle_traced st : traced st → traced (run_cycle st).1.
Proof. apply run_cycle_stable, traced_stable. Qed.

Lemma step_traced st st' : traced st → step st st' → traced st'.
Proof.
  intros H Hst. destruct Hst; auto using submit_traced, run_cycle_traced, report_traced,
    cancel_traced, cancel_generation_traced, force_retry_traced, register_traced,
    unregister_traced, worker_lost_traced, attach_traced.
Qed.
End trace_ops.

Section trace_theorem.
Context `{FE : FloatEnv} `{CK : ClockSource} `{HO : HashOrder}.

(** No line of a trace is lost or changed. *)
Lemma steps_trace st st' rid :
  rtc step st st' → trace_of (requests_ st) rid `prefix_of` trace_of (requests_ st') rid.
Proof.
  intros Hst. change (traced rid (trace_of (requests_ st) rid) st').
  assert (traced rid (trace_of (requests_ st) rid) st) as H by (unfold traced; reflexivity). revert H.
  generalize (trace_of (requests_ st) rid). intros p H.
  induction Hst as [|st st1 st' Hs _ IH]; [done|]. apply IH. by eapply step_traced.
Qed.
End trace_theorem.
