(* ===== verification/Authority.v ===== *)
(** * Authority of completions

    When a report is accepted, what a rejected one leaves untouched, and the
    temporal properties of authority: final states are absorbing, a completion
    is applied at most once, and work recovered from a lost worker is fenced. *)

From S2P Require Import Prelude Float Types Request Chunking Memory Compat Exec Observability SchedState SchedOps SchedCycle SchedFrame SchedInv SchedOpsInv SchedOpsInv2 SubmitInv CycleInv DispatchInv GroupInv FormInv RunCycle Bytes Persist SchedPersist ImportInv CycleFrame Reach Evolve.

Section authority.
Context `{FE : FloatEnv} `{CK : ClockSource} `{HO : HashOrder} `{OR : Origin}.

(** The report [r] carries the authority for the work of request [s].  A report
    that names a worker must name its registered boot and the worker the work
    was sent to; one that names neither worker nor boot skips both checks. *)
Definition authoritative (st : Impl) (r : MemberResult) (s : Rs) : Prop :=
  mr_epoch r ≠ 0 ∧ mr_epoch r = im_epoch st ∧ requests_ st !! mr_request_id r = Some s ∧
  (mr_worker r = 0 ∧ mr_boot r = 0 ∨
   ∃ ws, workers_ st !! mr_worker r = Some ws ∧ wd_boot_id (ws_desc ws) = mr_boot r) ∧
  mr_attempt_id r = rs_attempt s ∧ mr_generation r = rs_current_generation s ∧ running s ∧
  (mr_worker r = 0 ∨ mr_worker r = rs_dispatched_worker s).

(** The same requests, groups, workers, tenants, memory and counters: at most
    statistics, events and the clock differ. *)
Definition same_work (st st' : Impl) : Prop :=
  ∃ x e n, st' = st <| im_stats := x |> <| im_events := e |> <| im_clock_reads := n |>.

Lemma same_work_refl st : same_work st st.
Proof. exists (im_stats st), (im_events st), (im_clock_reads st). rec_eq. Qed.

Lemma reject_same_work p `{Setter Stats Z p} st r d c m :
  same_work st (reject_with p st r d c m).1.
Proof. eexists _, _, _. unfold reject_with, log, im_now, bump. cbn [fst]. rec_eq. Qed.

Lemma boot_check st r :
  (negb (is_nil (mr_worker r)) || negb (is_nil (mr_boot r))) && boot_mismatch st r = false ↔
  (mr_worker r = 0 ∧ mr_boot r = 0 ∨
   ∃ ws, workers_ st !! mr_worker r = Some ws ∧ wd_boot_id (ws_desc ws) = mr_boot r).
Proof.
  unfold is_nil, boot_mismatch.
  destruct (Z.eqb_spec (mr_worker r) 0) as [E1|E1], (Z.eqb_spec (mr_boot r) 0) as [E2|E2];
    cbn [negb orb andb]; destruct (workers_ st !! mr_worker r) as [ws|] eqn:Ew.
  all: try rewrite negb_false_iff, Z.eqb_eq.
  all: split; intros H; try done; try (left; done); try (right; eauto; done).
  all: destruct H as [[? ?]|(ws' & ? & ?)]; congruence.
Qed.

(** Either the report is authoritative, and it is applied, or it is not, and
    nothing but statistics, events and the clock changes. *)
Lemma report_cases st r :
  sched_inv st →
  (∃ s, authoritative st r s ∧ report_completion st r = apply_completion st s r) ∨
  ((∀ s, ~ authoritative st r s) ∧ has_value (report_completion st r).2 = false ∧
   same_work st (report_completion st r).1).
Proof.
  intros Hi. unfold report_completion, authoritative.
  change (is_nil (mr_epoch r)) with (mr_epoch r =? 0). destruct (Z.eqb_spec (mr_epoch r) 0) as [E0|E0].
  { right. split; [naive_solver|]. split; [done|apply same_work_refl]. }
  destruct (Z.eqb_spec (mr_epoch r) (im_epoch st)) as [E1|E1]; cbn [negb].
  2:{ right. split; [naive_solver|]. split; [done|apply reject_same_work]. }
  destruct (requests_ st !! mr_request_id r) as [s|] eqn:Hs.
  2:{ right. split; [naive_solver|]. split; [done|apply same_work_refl]. }
  destruct ((negb (is_nil (mr_worker r)) || negb (is_nil (mr_boot r))) && boot_mismatch st r) eqn:Eb.
  { right. split; [|split; [done|apply reject_same_work]].
    intros s' (_ & _ & _ & Hb & _). apply boot_check in Hb. congruence. }
  apply boot_check in Eb.
  destruct (Z.eqb_spec (mr_attempt_id r) (rs_attempt s)) as [Ea|Ea]; cbn [negb].
  2:{ right. split; [|split; [done|apply reject_same_work]]. intros s' (_ & _ & [= <-] & _ & H & _). done. }
  destruct (Z.eqb_spec (mr_generation r) (rs_current_generation s)) as [Eg|Eg]; cbn [negb].
  2:{ right. split; [|split; [done|apply reject_same_work]]. intros s' (_ & _ & [= <-] & _ & _ & H & _). done. }
  destruct (is_terminal_lifecycle (rs_lifecycle s)) eqn:Et.
  { right. split; [|split; [done|apply reject_same_work]].
    intros s' (_ & _ & [= <-] & _ & _ & _ & [_ H] & _). by rewrite H in Et. }
  destruct (rs_in_flight s) eqn:Ef; cbn [negb].
  2:{ right. split; [|split; [done|apply reject_same_work]].
      intros s' (_ & _ & [= <-] & _ & _ & _ & [H _] & _). congruence. }
  pose proof (flight_nonterminal_running _ _ _ _ _ (si_rs _ Hi _ _ Hs) Et Ef) as Hrun.
  unfold is_nil. destruct (Z.eqb_spec (mr_worker r) 0) as [Ew|Ew]; cbn [negb andb].
  { left. exists s. split; [|done]. split_and!; try done; [apply Hrun..|by left]. }
  destruct (Z.eqb_spec (mr_worker r) (rs_dispatched_worker s)) as [Ed|Ed]; cbn [negb].
  - left. exists s. split; [|done]. split_and!; try done; [apply Hrun..|by right].
  - right. split; [|split; [done|]].
    + intros s' (_ & _ & [= <-] & _ & _ & _ & _ & [H|H]); done.
    + eexists _, (im_events st), (im_clock_reads st). unfold bump. cbn [fst]. rec_eq.
Qed.

(** ** The effect of an accepted report *)

(** Where an outcome leaves a request, from whether its last chunk ran, whether
    a cancellation is pending and whether a retry is left. *)
Definition settle (o : MemberOutcome) (last cancel retry : bool) : Lifecycle :=
  match o with
  | MemberOutcome_stale_rejected => Lifecycle_dispatched
  | MemberOutcome_retryable_failure =>
      if retry then Lifecycle_queued else Lifecycle_failed_non_retryable
  | MemberOutcome_non_retryable_failure => Lifecycle_failed_non_retryable
  | MemberOutcome_cancelled => Lifecycle_cancelled
  | MemberOutcome_expired => Lifecycle_expired
  | _ => if cancel then Lifecycle_cancelled
         else if last then Lifecycle_completed else Lifecycle_queued
  end.

Definition last_chunk (s : Rs) : bool := chunk_count s <=? rs_next_chunk_index s + 1.
Definition retry_left (s : Rs) : bool := rs_retries_used s <? rq_max_retries (rs_request s).

(** The request as an accepted report leaves it. *)
Definition settled (st : Impl) (o : MemberOutcome) (s s' : Rs) : Prop :=
  rs_request s' = rs_request s ∧
  rs_in_flight s' = false ∧ rs_reservation s' = 0 ∧ rs_current_group s' = 0 ∧
  rs_lifecycle s' = settle o (last_chunk s) (rs_cancel_pending s) (retry_left s) ∧
  (if bool_decide (o = MemberOutcome_retryable_failure) && retry_left s
   then rs_attempt s' = im_next_attempt_value st ∧ rs_next_chunk_index s' = 0 ∧
        rs_current_generation s' = 0 ∧ rs_completed_uncached s' = 0 ∧
        rs_retries_used s' = rs_retries_used s + 1
   else rs_attempt s' = rs_attempt s ∧ rs_current_generation s' = rs_current_generation s ∧
        rs_retries_used s' = rs_retries_used s ∧
        rs_next_chunk_index s' = rs_next_chunk_index s
          + (if bool_decide (rs_lifecycle s' = Lifecycle_queued) then 1 else 0)).

Lemma index_no_wrap st rid s :
  sched_inv st → requests_ st !! rid = Some s → running s →
  u32 (rs_next_chunk_index s + 1) = rs_next_chunk_index s + 1.
Proof.
  intros Hi Hs Hrun. pose proof (si_rs _ Hi rid s Hs) as Hok. pose proof Hok as [].
  destruct (ro_live ltac:(by right)) as (ch & Hch & _).
  destruct (si_cfg _ Hi) as [Hcfg _]. destruct ro_req as [Hwf Hp].
  pose proof (plan_length_le (im_cfg st) (rs_request s) (rs_attempt s) 0 Hwf Hcfg) as Hlen.
  pose proof (remaining_le_prompt _ Hwf) as [Hrem _].
  unfold pending_chunk in Hch. apply lookup_lt_Some in Hch. rewrite ro_plan in Hch.
  apply u32_small. unfold is_u32. lia.
Qed.

Lemma apply_completion_settles st s r :
  sched_inv st → requests_ st !! mr_request_id r = Some s → running s →
  has_value (apply_completion st s r).2 = true ∧
  ∃ s', requests_ (apply_completion st s r).1 = <[mr_request_id r := s']> (requests_ st) ∧
    im_next_generation_value (apply_completion st s r).1 = im_next_generation_value st ∧
    settled st (mr_outcome r) s s'.
Proof.
  intros Hi Hs Hrun. pose proof (index_no_wrap st _ s Hi Hs Hrun) as Hu.
  pose proof (si_rs _ Hi _ s Hs) as Hok. pose proof (ro_retries _ _ _ _ _ Hok) as Hret.
  pose proof (request_retries _ (ro_req _ _ _ _ _ Hok)) as Hi32. unfold is_i32 in Hi32.
  unfold apply_completion, account_chunk, im_now, apply_outcome, settled, settle, last_chunk, retry_left.
  cbv beta iota zeta. repeat eff_step.
  change (chunk_count (s <| rs_in_flight := false |> <| rs_chunks_done ::= λ k, k +u 1 |>
    <| rs_completed_uncached ::= λ k, k +u pending_token_count s |>
    <| rs_completed_token_total ::= λ k, k +u pending_token_count s |>
    <| rs_normalized_service ::= λ d, d_add d (d_bits (d_of_Z (pending_token_count s))) |>))
    with (chunk_count s).
  rewrite Hu.
  destruct (mr_outcome r).
  all: decide_enums; cbn [andb].
  all: lazymatch goal with
    | |- context [rs_retries_used ?x <? rq_max_retries (rs_request ?x)] =>
        destruct (rs_retries_used x <? rq_max_retries (rs_request x)) eqn:Er; bools
    | _ => idtac
    end.
  all: lazymatch goal with
    | |- context [if rs_cancel_pending ?x then _ else _] =>
        destruct (rs_cancel_pending x);
        [|destruct (Z.leb_spec (chunk_count x) (rs_next_chunk_index x + 1)) as [Hlast|Hlast];
          [rewrite (proj2 (Z.ltb_ge _ _) Hlast)|rewrite (proj2 (Z.ltb_lt _ _) Hlast)]]
    | _ => idtac
    end.
  all: rewrite ?restart_attempt_eq; unfold finish; cbv beta iota zeta;
    rewrite ?release_reservation_eq; cbv beta iota zeta; rewrite ?detach_eq; cbv beta iota zeta.
  all: split; [done|]; eexists; split; [eff; reflexivity|]; split; [by eff|].
  all: decide_enums; cbn [andb]; eff; rewrite ?(proj2 Hrun); decide_enums.
  all: rewrite ?Hu, ?i32_small by (unfold is_i32; lia).
  all: repeat (split; [first [reflexivity | lia]|]); first [reflexivity | lia].
Qed.

(** Once a generation of a request is no longer in flight, no later report of
    that generation is accepted. *)
Lemma generation_spent st st2 rid s g r :
  sched_inv st → requests_ st !! rid = Some s → rs_in_flight s = false →
  g < im_next_generation_value st → rtc step st st2 →
  mr_request_id r = rid → mr_generation r = g → has_value (report_completion st2 r).2 = false.
Proof.
  intros Hi Hs Hf Hg Hst Hrid Hgen. pose proof (steps_inv st st2 Hi Hst) as Hi2.
  destruct (steps_evolution st st2 Hi Hst) as [_ Hold _].
  destruct (Hold rid s Hs) as (s2 & Hs2 & He).
  destruct (report_cases st2 r Hi2) as [(s0 & Ha & _)|(_ & Hv & _)]; [|done]. exfalso.
  destruct Ha as (_ & _ & Hl & _ & _ & Eg & [Hf2 _] & _). rewrite Hrid in Hl. simplify_eq.
  destruct (ev_flight _ _ _ He Hf2) as [[? _]|?]; [congruence|lia].
Qed.

End authority.

(** ** Theorems *)

Section authority_theorems.
Context `{FE : FloatEnv} `{CK : ClockSource} `{HO : HashOrder}.


(** C7: an authoritative report settles its request as the outcome says (next
    chunk, completion, retry with a new attempt, failure, cancellation or
    expiry), always takes it out of flight and frees its reservation, and
    touches no other request. *)
Theorem report_settles cfg st r s (Hc : config_fits cfg) (Hr : reachable cfg st)
    (Ha : authoritative st r s) :
  ∃ s', requests_ (report_completion st r).1 = <[mr_request_id r := s']> (requests_ st) ∧
    settled st (mr_outcome r) s s'.
Proof.
  destruct (reachable_inv cfg st Hc Hr) as [o Hi].
  destruct (report_cases st r Hi) as [(s0 & Ha0 & ->)|(Hna & _)]; [|by destruct (Hna s)].
  assert (s0 = s) as -> by (destruct Ha as (_ & _ & H1 & _), Ha0 as (_ & _ & H2 & _); congruence).
  pose proof Ha as (_ & _ & Hs & _ & _ & _ & Hrun & _).
  destruct (apply_completion_settles st s r Hi Hs Hrun) as (_ & s' & H1 & _ & H2). eauto.
Qed.

(** C8: final states are absorbing: once a request is completed, cancelled,
    expired or failed, no sequence of operations changes its lifecycle. *)
Theorem final_states_absorbing cfg st st' rid (Hc : config_fits cfg) (Hr : reachable cfg st)
    (Hst : rtc step st st') (Ht : is_terminal st rid = true) :
  lifecycle st' rid = lifecycle st rid ∧ is_terminal st' rid = true.
Proof.
  destruct (reachable_inv cfg st Hc Hr) as [o Hi].
  pose proof (steps_evolution st st' Hi Hst) as [_ Hold _].
  unfold is_terminal, lifecycle in *. destruct (requests_ st !! rid) as [s|] eqn:Hs; [|done].
  destruct (Hold rid s Hs) as (s' & -> & He). cbn. rewrite (ev_final _ _ _ He Ht). done.
Qed.

(** C4: a completion is applied at most once: after a report was accepted, every
    later report of the same request and generation is rejected, whatever
    happens in between. *)
Theorem completion_applied_once cfg st st1 st2 r r' (Hc : config_fits cfg) (Hr : reachable cfg st)
    (Hacc : report_completion st r = (st1, Ok tt)) (Hst : rtc step st1 st2)
    (Hrid : mr_request_id r' = mr_request_id r) (Hgen : mr_generation r' = mr_generation r) :
  has_value (report_completion st2 r').2 = false.
Proof.
  destruct (reachable_inv cfg st Hc Hr) as [o Hi].
  destruct (report_cases st r Hi) as [(s & Ha & E)|(_ & Hv & _)]; [|by rewrite Hacc in Hv].
  pose proof Ha as (_ & _ & Hs & _ & _ & Eg & Hrun & _).
  destruct (apply_completion_settles st s r Hi Hs Hrun) as (_ & s' & Hreq & Hng & (_ & Hf & _)).
  pose proof (report_completion_inv st r Hi) as Hi1. rewrite E in Hacc. rewrite E in Hi1.
  rewrite Hacc in *. cbn [fst] in *.
  apply (generation_spent st1 st2 (mr_request_id r) s' (mr_generation r)); try done.
  - rewrite Hreq. apply lookup_insert_eq.
  - rewrite Eg, Hng. pose proof (ro_gen _ _ _ _ _ (si_rs _ Hi _ _ Hs)). lia.
Qed.

(** An epoch roll fences every report of the former epoch: until the epoch
    counter comes back to it, such a report fails with [stale_epoch] and has no
    effect. *)
Theorem epoch_roll_fences st r
    (He : mr_epoch r = im_epoch st) (Hn : mr_epoch r ≠ 0) (Hu : is_u64 (im_epoch st)) :
  let st' := (roll_epoch st).1 in
  code_of (report_completion st' r).2 = ErrorCode_stale_epoch ∧
  same_work st' (report_completion st' r).1.
Proof.
  intros st'. unfold report_completion.
  change (is_nil (mr_epoch r)) with (mr_epoch r =? 0).
  rewrite (proj2 (Z.eqb_neq _ _) Hn).
  assert (im_epoch st' ≠ im_epoch st) as Hne.
  { unfold st', roll_epoch. cbv beta iota zeta. cbn [fst]. eff. unfold is_u64 in Hu.
    destruct (Z.eq_dec (im_epoch st) (2 ^ 64 - 1)) as [->|]; [by vm_compute|].
    rewrite u64_small by (unfold is_u64; lia). lia. }
  rewrite (proj2 (Z.eqb_neq (mr_epoch r) (im_epoch st'))) by congruence.
  split; [done|apply reject_same_work].
Qed.
End authority_theorems.
