(* ===== verification/Recovery.v ===== *)
(** * Loss of a worker

    [worker_lost] takes exactly the groups of the lost worker out of the table
    and sends their outstanding members back to the queue, with the progress
    they had made; nothing else changes. *)

From S2P Require Import Prelude Float Types Request Chunking Memory Compat Exec Observability SchedState SchedOps SchedCycle SchedFrame SchedInv SchedOpsInv SchedOpsInv2 SubmitInv CycleInv DispatchInv GroupInv FormInv RunCycle Bytes Persist SchedPersist ImportInv CycleFrame Reach Evolve Authority.

Section recovery.
Context `{FE : FloatEnv} `{CK : ClockSource} `{HO : HashOrder} `{OR : Origin}.

(** A request sent back to the queue: authority and memory are gone, attempt,
    chunk and completed tokens are kept. *)
Definition requeued (s s' : Rs) : Prop :=
  rs_lifecycle s' = Lifecycle_queued ∧ rs_in_flight s' = false ∧ rs_reservation s' = 0 ∧
  rs_current_generation s' = 0 ∧ rs_recovered_work s' = true ∧
  rs_request s' = rs_request s ∧ rs_attempt s' = rs_attempt s ∧ rs_plan s' = rs_plan s ∧
  rs_next_chunk_index s' = rs_next_chunk_index s ∧
  rs_completed_uncached s' = rs_completed_uncached s ∧ rs_retries_used s' = rs_retries_used s.

Lemma recover_member_running st rid s :
  requests_ st !! rid = Some s → running s →
  ∃ s', requests_ (recover_member st rid) = <[rid := s']> (requests_ st) ∧ requeued s s'.
Proof.
  intros Hs [Hf Hl]. unfold recover_member. rewrite Hs, Hf, bool_decide_true by done. cbn [andb].
  rewrite release_reservation_eq. cbv beta iota zeta. eexists. split; [by eff|].
  unfold requeued. by eff.
Qed.

Lemma recover_members_spec l st :
  NoDup l → (∀ rid, rid ∈ l → ∃ s, requests_ st !! rid = Some s ∧ running s) →
  let st' := foldl recover_member st l in
  (∀ rid s, rid ∈ l → requests_ st !! rid = Some s →
     ∃ s', requests_ st' !! rid = Some s' ∧ requeued s s') ∧
  (∀ rid, rid ∉ l → requests_ st' !! rid = requests_ st !! rid) ∧
  groups_ st' = groups_ st ∧ workers_ st' = workers_ st.
Proof.
  revert st. induction l as [|r l IH]; intros st Hnd Hl.
  { cbn. split; [intros ? ? H; inversion H|done]. }
  cbn [foldl]. rewrite NoDup_cons in Hnd. destruct Hnd as [Hnin Hnd].
  destruct (Hl r ltac:(by left)) as (s & Hs & Hrun).
  destruct (recover_member_running st r s Hs Hrun) as (s' & Hr & Hq).
  assert (groups_ (recover_member st r) = groups_ st ∧ workers_ (recover_member st r) = workers_ st)
    as [G1 W1].
  { unfold recover_member. destruct (requests_ st !! r); [|done]. destruct (_ && _); [|done].
    rewrite release_reservation_eq. cbv beta iota zeta. by eff. }
  destruct (IH (recover_member st r) Hnd) as (H1 & H2 & H3 & H4).
  { intros rid Hin. rewrite Hr, lookup_insert_ne by (intros ->; done). apply Hl. by right. }
  cbv zeta in *. split_and!; [| |congruence|congruence].
  - intros rid x [->|Hin]%elem_of_cons Hx.
    + simplify_eq. exists s'. split; [|done]. rewrite (H2 r Hnin), Hr. apply lookup_insert_eq.
    + apply H1; [done|]. rewrite Hr, lookup_insert_ne; [done|]. by intros ->.
  - intros rid [Hne Hin]%not_elem_of_cons. rewrite (H2 rid Hin), Hr. by apply lookup_insert_ne.
Qed.

Lemma set_elements_nodup X : NoDup (set_elements X).
Proof. unfold set_elements. rewrite merge_sort_Permutation. apply NoDup_elements. Qed.

(** Work of the groups [keys] that were assigned to [w]. *)
Definition lost_work (st : Impl) (w : WorkerId) (keys : list GroupId) (s : Rs) : Prop :=
  running s ∧ rs_current_group s ∈ keys ∧
  ∃ g, groups_ st !! rs_current_group s = Some g ∧ gs_worker g = w.

Record recovering (st : Impl) (w : WorkerId) (keys : list GroupId) (st' : Impl) : Prop := {
  rc_lost : ∀ rid s, requests_ st !! rid = Some s → lost_work st w keys s →
    ∃ s', requests_ st' !! rid = Some s' ∧ requeued s s';
  rc_kept : ∀ rid s, requests_ st !! rid = Some s → ~ lost_work st w keys s →
    requests_ st' !! rid = Some s;
  rc_none : ∀ rid, requests_ st !! rid = None → requests_ st' !! rid = None;
  rc_groups : ∀ gid g, groups_ st' !! gid = Some g ↔
    groups_ st !! gid = Some g ∧ (gid ∈ keys → gs_worker g ≠ w);
  rc_workers : workers_ st' = workers_ st
}.

Lemma recover_group_step st w keys gid st' :
  sched_inv st → gid ∉ keys → recovering st w keys st' →
  recovering st w (keys ++ [gid]) (recover_group w st' gid).
Proof.
  intros Hi Hnin [A1 A2 A3 A4 A5].
  assert (∀ s, lost_work st w (keys ++ [gid]) s ↔ lost_work st w keys s ∨
    (running s ∧ rs_current_group s = gid ∧ ∃ g, groups_ st !! gid = Some g ∧ gs_worker g = w)) as Hlw.
  { intros s. unfold lost_work. rewrite elem_of_app, list_elem_of_singleton. split.
    - intros (H1 & [H2|H2] & H3); [by left|right]. rewrite H2 in H3. done.
    - intros [(H1 & H2 & H3)|(H1 & H2 & H3)]; [by auto|]. rewrite H2. auto. }
  unfold recover_group. destruct (groups_ st' !! gid) as [g|] eqn:Eg.
  2:{ (* nothing left under this key *)
    assert (∀ g, groups_ st !! gid = Some g → False) as Hno.
    { intros g Hg. assert (groups_ st' !! gid = Some g) as H by (apply A4; split; [done|]; by intros ?).
      congruence. }
    split; [| |done| |done].
    - intros rid s Hs [?|(_ & _ & g & Hg & _)]%Hlw; [by apply A1|by destruct (Hno g)].
    - intros rid s Hs Hn. apply A2; [done|]. intros H. apply Hn, Hlw. by left.
    - intros j x. rewrite A4, elem_of_app, list_elem_of_singleton. split; [|naive_solver].
      intros [H1 H2]. split; [done|]. intros [?| ->]; [auto|by destruct (Hno x)]. }
  assert (groups_ st !! gid = Some g) as Hg by (by apply A4 in Eg as [? _]).
  destruct (si_groups _ Hi gid g Hg) as (_ & _ & Hout).
  destruct (Z.eqb_spec (gs_worker g) w) as [Ew|Ew].
  - (* the members run in this group and have not been touched yet *)
    assert (∀ rid, rid ∈ set_elements (gs_outstanding g) →
      ∃ s, requests_ st !! rid = Some s ∧ running s ∧ rs_current_group s = gid ∧
           requests_ st' !! rid = Some s) as Hmem.
    { intros rid (s & Hs & Hrun & Hcg)%set_elements_spec%Hout. exists s. split_and!; try apply Hrun; try done.
      apply A2; [done|]. intros (_ & Hk & _). by rewrite Hcg in Hk. }
    destruct (recover_members_spec (set_elements (gs_outstanding g)) st' (set_elements_nodup _))
      as (R1 & R2 & R3 & R4).
    { intros rid Hin. destruct (Hmem rid Hin) as (s & _ & Hrun & _ & Hs). eauto. }
    split; eff.
    + intros rid s Hs [Hl|(Hrun & Hcg & _)]%Hlw.
      * destruct (A1 rid s Hs Hl) as (s' & Hs' & Hq). exists s'. split; [|done].
        rewrite R2; [done|]. intros Hin. destruct (Hmem rid Hin) as (x & Hx & _ & Hcg & _). simplify_eq.
        destruct Hl as (_ & Hk & _). done.
      * apply R1; [|destruct (Hmem rid) as (x & Hx & _ & _ & Hx')]; try (apply set_elements_spec, Hout; eauto).
        congruence.
    + intros rid s Hs Hn. rewrite R2.
      * apply A2; [done|]. intros H. apply Hn, Hlw. by left.
      * intros Hin. destruct (Hmem rid Hin) as (x & Hx & Hrun & Hcg & _). simplify_eq.
        apply Hn, Hlw. right. eauto.
    + intros rid Hs. rewrite R2; [by apply A3|]. intros Hin.
      destruct (Hmem rid Hin) as (x & Hx & _). congruence.
    + intros j x. rewrite lookup_delete_Some, R3, A4, elem_of_app, list_elem_of_singleton.
      split; [naive_solver|]. intros [H1 H2]. split; [|naive_solver]. intros <-. simplify_eq.
      apply H2; auto.
    + by rewrite R4.
  - split; [| |done| |done].
    + intros rid s Hs [?|(_ & _ & x & Hx & Hxw)]%Hlw; [by apply A1|congruence].
    + intros rid s Hs Hn. apply A2; [done|]. intros H. apply Hn, Hlw. by left.
    + intros j x. rewrite A4, elem_of_app, list_elem_of_singleton. split; [|naive_solver].
      intros [H1 H2]. split; [done|]. intros [?| ->]; [auto|congruence].
Qed.

Lemma recovering_nil st w : recovering st w [] st.
Proof.
  split; try done.
  - intros rid s _ (_ & []%elem_of_nil & _).
  - intros gid g. split; [|tauto]. intros H. split; [done|]. by intros ?%elem_of_nil.
Qed.

Lemma recover_groups_spec st w keys :
  sched_inv st → NoDup keys → recovering st w keys (foldl (recover_group w) st keys).
Proof.
  intros Hi. induction keys as [|gid keys IH] using rev_ind; intros Hnd; [apply recovering_nil|].
  apply NoDup_app in Hnd as (Hnd & Hdis & _). rewrite foldl_app. cbn [foldl].
  apply recover_group_step; [done| |by apply IH]. intros Hin. by apply (Hdis gid Hin); left.
Qed.

(** The running request [s] belongs to a group that is assigned to [w]. *)
Definition assigned_to (st : Impl) (w : WorkerId) (s : Rs) : Prop :=
  running s ∧ ∃ g, groups_ st !! rs_current_group s = Some g ∧ gs_worker g = w.

End recovery.

Section recovery_theorems.
Context `{FE : FloatEnv} `{CK : ClockSource} `{HO : HashOrder}.

(** C5: losing a worker removes exactly its groups, sends exactly the running
    requests of those groups back to the queue with attempt, chunk and
    completed tokens kept, leaves every other request as it is, and marks the
    worker lost with no busy unit. *)
Theorem worker_lost_recovers cfg st w (Hc : config_fits cfg) (Hr : reachable cfg st) :
  let st' := (worker_lost st w).1 in
  (∀ rid s, requests_ st !! rid = Some s →
     (assigned_to st w s → ∃ s', requests_ st' !! rid = Some s' ∧ requeued s s') ∧
     (~ assigned_to st w s → requests_ st' !! rid = Some s)) ∧
  dom (requests_ st') = dom (requests_ st) ∧
  (∀ gid g, groups_ st' !! gid = Some g ↔ groups_ st !! gid = Some g ∧ gs_worker g ≠ w) ∧
  (∀ ws, workers_ st !! w = Some ws → ∃ ws', workers_ st' !! w = Some ws' ∧
     ws_busy_units ws' = 0 ∧ wd_state (ws_desc ws') = WorkerState_lost).
Proof.
  destruct (reachable_inv cfg st Hc Hr) as [o Hi]. cbv zeta.
  destruct (recover_groups_spec st w _ Hi (NoDup_iter_keys (groups_ st))) as [R1 R2 R3 R4 R5].
  assert (∀ s, lost_work st w (iter_keys (groups_ st)) s ↔ assigned_to st w s) as Hlw.
  { intros s. unfold lost_work, assigned_to. rewrite elem_of_iter_keys. naive_solver. }
  unfold worker_lost. cbv zeta. rewrite R5.
  remember (foldl (recover_group w) st (iter_keys (groups_ st))) as st1 eqn:E1.
  assert (∀ m, requests_ (log (match workers_ st !! w with
      | Some ws => st1 <| workers_ ::= <[w := ws <| ws_busy_units := 0 |>
          <| ws_desc ::= setf wd_state (λ _, WorkerState_lost) |>]> |>
      | None => st1 end) "worker-lost" 0 0 m) = requests_ st1 ∧
    groups_ (log (match workers_ st !! w with
      | Some ws => st1 <| workers_ ::= <[w := ws <| ws_busy_units := 0 |>
          <| ws_desc ::= setf wd_state (λ _, WorkerState_lost) |>]> |>
      | None => st1 end) "worker-lost" 0 0 m) = groups_ st1) as Hsame.
  { intros m. destruct (workers_ st !! w); by eff. }
  cbn [fst]. destruct (Hsame ("id=" +:+ std_to_string w)) as [-> ->].
  split; [|split; [|split]].
  - intros rid s Hs. rewrite <- Hlw. split; [by apply R1|by apply R2].
  - apply set_eq. intros rid. rewrite !elem_of_dom. split.
    + intros [x Hx]. destruct (requests_ st !! rid) eqn:E; [eauto|]. rewrite (R3 rid E) in Hx. done.
    + intros [x Hx]. destruct (requests_ st1 !! rid) eqn:E; [eauto|]. exfalso.
      destruct (decide (running x)) as [Hrun|Hn].
      2:{ rewrite (R2 rid x Hx) in E; [done|]. intros (? & _). done. }
      destruct (groups_ st !! rs_current_group x) as [g|] eqn:Eg.
      2:{ rewrite (R2 rid x Hx) in E; [done|]. intros (_ & _ & g & ? & _). congruence. }
      destruct (decide (gs_worker g = w)).
      * destruct (R1 rid x Hx) as (? & ? & _); [|congruence]. apply Hlw. split; eauto.
      * rewrite (R2 rid x Hx) in E; [done|]. intros (_ & _ & g' & ? & ?). congruence.
  - intros gid g. rewrite R4, elem_of_iter_keys. split; [|tauto].
    intros [H1 H2]. split; [done|]. apply H2. eauto.
  - intros ws Hws. rewrite Hws. eexists. split; [eff; apply lookup_insert_eq|]. done.
Qed.

(** C6: work recovered from a lost worker is fenced: a report of the lost
    dispatch is rejected however the execution continues. *)
Theorem lost_work_fenced cfg st st2 w rid s r (Hc : config_fits cfg) (Hr : reachable cfg st)
    (Hs : requests_ st !! rid = Some s) (Ha : assigned_to st w s)
    (Hst : rtc step (worker_lost st w).1 st2)
    (Hrid : mr_request_id r = rid) (Hgen : mr_generation r = rs_current_generation s) :
  has_value (report_completion st2 r).2 = false.
Proof.
  destruct (reachable_inv cfg st Hc Hr) as [o Hi].
  destruct (recover_groups_spec st w _ Hi (NoDup_iter_keys (groups_ st))) as [R1 _ _ _ R5].
  destruct (R1 rid s Hs) as (s' & Hs' & Hq).
  { destruct Ha as (Hrun & g & Hg & Hw). split; [done|]. split; [|eauto]. apply elem_of_iter_keys. eauto. }
  apply (generation_spent (worker_lost st w).1 st2 rid s' (mr_generation r)); try done.
  - by apply worker_lost_inv.
  - unfold worker_lost. cbv zeta. cbn [fst].
    destruct (workers_ _ !! w); eff; done.
  - apply Hq.
  - rewrite Hgen. destruct (worker_lost_evolution st w) as [Hng _ _].
    pose proof (ro_gen _ _ _ _ _ (si_rs _ Hi _ _ Hs)). lia.
Qed.
End recovery_theorems.
