(* ===== verification/CycleProps.v ===== *)
(** * What a cycle does

    Expiry is complete and exact, only candidates are started, and the batch
    the cycle returns is exactly the work that was started, with the authority
    the scheduler will check reports against. *)

From S2P Require Import Prelude Float Types Request Chunking Memory Compat Exec Observability SchedState SchedOps SchedCycle SchedFrame SchedInv SchedOpsInv SchedOpsInv2 SubmitInv CycleInv DispatchInv GroupInv FormInv RunCycle Bytes Persist SchedPersist ImportInv CycleFrame Reach Evolve.

Section cycle_props.
Context `{FE : FloatEnv} `{CK : ClockSource} `{HO : HashOrder} `{OR : Origin}.

(** ** Expiry *)

(** The request must be expired by a cycle at time [now]. *)
Definition overdue (now : Nanoseconds) (s : Rs) : bool :=
  nonterminal s && (past_deadline now s || queue_delay_exceeded now s).

Definition expired_or_same (now : Nanoseconds) (s s' : Rs) : Prop :=
  if overdue now s then rs_lifecycle s' = Lifecycle_expired ∧ rs_request s' = rs_request s
  else s' = s.

Lemma expire_one_spec now st rid s :
  requests_ st !! rid = Some s →
  ∃ s', requests_ (expire_one now st rid) = <[rid := s']> (requests_ st) ∧ expired_or_same now s s'.
Proof.
  intros Hs. unfold expire_one, expired_or_same, overdue, nonterminal. rewrite Hs.
  destruct (is_terminal_lifecycle (rs_lifecycle s)); cbn [negb andb].
  { exists s. by rewrite insert_id. }
  destruct (past_deadline now s || queue_delay_exceeded now s).
  2:{ exists s. by rewrite insert_id. }
  rewrite release_reservation_eq. cbv beta iota zeta.
  destruct (past_deadline now s), (rs_in_flight s) eqn:Ef; repeat eff_step; rewrite ?Ef;
    rewrite ?group_erase_member_eq; eexists; (split; [by eff|]); by eff.
Qed.

Lemma expire_one_other now st rid r :
  r ≠ rid → requests_ (expire_one now st rid) !! r = requests_ st !! r.
Proof.
  intros Hne. destruct (requests_ st !! rid) as [s|] eqn:Hs.
  - destruct (expire_one_spec now st rid s Hs) as (s' & -> & _). by apply lookup_insert_ne.
  - unfold expire_one. by rewrite Hs.
Qed.

Lemma expire_fold_spec now keys st rid s :
  NoDup keys → requests_ st !! rid = Some s →
  ∃ s', requests_ (foldl (expire_one now) st keys) !! rid = Some s' ∧
    (rid ∈ keys → expired_or_same now s s') ∧ (rid ∉ keys → s' = s).
Proof.
  revert st s. induction keys as [|k keys IH]; intros st s Hnd Hs; cbn [foldl].
  { exists s. split; [done|]. split; [by intros ?%elem_of_nil|done]. }
  apply NoDup_cons in Hnd as [Hk Hnd]. destruct (decide (rid = k)) as [->|Hne].
  - destruct (expire_one_spec now st k s Hs) as (s1 & Hs1 & He).
    destruct (IH (expire_one now st k) s1 Hnd) as (s2 & Hs2 & _ & H2).
    { rewrite Hs1. apply lookup_insert_eq. }
    rewrite (H2 Hk) in Hs2. exists s1. split; [done|]. split; [done|].
    intros Hn. destruct Hn. by left.
  - destruct (IH (expire_one now st k) s Hnd) as (s2 & Hs2 & H1 & H2).
    { by rewrite expire_one_other. }
    exists s2. split; [done|]. rewrite elem_of_cons. split; [|tauto].
    intros [?|?]; [done|auto].
Qed.

Lemma swept_spec now st rid s :
  requests_ st !! rid = Some s →
  ∃ s', requests_ (swept now st) !! rid = Some s' ∧ expired_or_same now s s'.
Proof.
  intros Hs. destruct (swept_frame now st) as (_ & _ & ->).
  destruct (expire_fold_spec now (iter_keys (requests_ st)) st rid s (NoDup_iter_keys _) Hs)
    as (s' & Hs' & H1 & _). exists s'. split; [done|]. apply H1, elem_of_iter_keys. eauto.
Qed.

Lemma swept_origin now st rid s' :
  requests_ (swept now st) !! rid = Some s' →
  ∃ s, requests_ st !! rid = Some s ∧ expired_or_same now s s'.
Proof.
  intros Hs'. destruct (requests_ st !! rid) as [s|] eqn:Hs.
  { destruct (swept_spec now st rid s Hs) as (x & Hx & He). exists s. split; [done|]. congruence. }
  exfalso. destruct (swept_frame now st) as (_ & _ & Hfr). rewrite Hfr in Hs'.
  assert (∀ keys st', rid ∉ keys →
    requests_ (foldl (expire_one now) st' keys) !! rid = requests_ st' !! rid) as Hk.
  { clear. induction keys as [|k keys IH]; intros st' Hn; [done|].
    apply not_elem_of_cons in Hn as [? ?]. cbn. rewrite IH by done. by apply expire_one_other. }
  unfold expire_sweep in Hs'. rewrite Hk in Hs'; [congruence|].
  rewrite elem_of_iter_keys, Hs. by intros [? ?].
Qed.

(** ** Only candidates are started *)

(** [s'] is [s] up to reservation, trace and aging, or [s] was a candidate and runs. *)
Definition kept_or_started (s s' : Rs) : Prop :=
  rs_request s' = rs_request s ∧
  (rs_lifecycle s' = rs_lifecycle s ∧ rs_in_flight s' = rs_in_flight s ∧
     rs_current_generation s' = rs_current_generation s ∨
   is_candidate s = true ∧ running s').

Lemma kept_unres s s' : unres s' = unres s → kept_or_started s s'.
Proof.
  intros E. split; [exact (f_equal rs_request E)|]. left.
  split; [exact (f_equal rs_lifecycle E)|].
  split; [exact (f_equal rs_in_flight E)|exact (f_equal rs_current_generation E)].
Qed.

(** Effect of dispatching one group on the requests. *)
Lemma dispatch_group_requests now st batch g rid s :
  sched_inv st → og_ok st g → room st (length (og_rids g)) → requests_ st !! rid = Some s →
  ∃ s', requests_ (dispatch_group now (st, batch) g).1 !! rid = Some s' ∧
    rs_request s' = rs_request s ∧
    (unres s' = unres s ∨ is_candidate s = true ∧ running s').
Proof.
  intros Hi Ho Hroom Hs. pose proof (dispatch_group_spec now st batch g Hi Ho Hroom) as Hsp.
  destruct (dispatch_group now (st, batch) g) as [st' batch']. cbn [fst].
  destruct Hsp as [[E1 E2 E3 E4 E5 E6] Hcase].
  destruct (decide (rid ∈ og_rids g)) as [Hin|Hn].
  2:{ exists s. rewrite (E2 rid Hn). auto. }
  destruct Hcase as [[(Hsame & _) _]|(w & dg & _ & Hcm & _)].
  - destruct (same_requests_l _ _ _ _ Hsame Hs) as (s' & Hs' & E). exists s'.
    split; [done|]. split; [exact (f_equal rs_request E)|by left].
  - destruct (committed_to_in _ _ _ _ _ Hcm Hin) as (s0 & s' & Hs0 & Hs' & Hst & _). simplify_eq.
    destruct (oo_cand _ _ Ho rid Hin) as (s0 & Hs0 & Hc). simplify_eq.
    destruct Hst as (Hrun & _ & _ & _ & Hq & _). exists s'. auto.
Qed.

(** The requests after a cycle, from those the sweep left. *)
Lemma cycle_requests st rid s :
  sched_inv st → cycle_room st →
  requests_ (swept (clock_now (im_clock_reads st)) (st <| im_clock_reads ::= S |>)) !! rid = Some s →
  ∃ s', requests_ (run_cycle st).1 !! rid = Some s' ∧ kept_or_started s s'.
Proof.
  intros Hi Hroom Hs.
  destruct (run_cycle_ind (λ st' _, ∃ s', requests_ st' !! rid = Some s' ∧ rs_request s' = rs_request s ∧
      (unres s' = unres s ∨ is_candidate s = true ∧ running s')) st Hi Hroom)
    as (st2 & batch & -> & _ & (s' & Hs' & Hq & Hcase)).
  - intros st1 open Hf. destruct (same_requests_l _ _ _ _ (fm_same _ _ _ _ Hf) Hs) as (s' & Hs' & E).
    exists s'. split; [done|]. split; [exact (f_equal rs_request E)|by left].
  - intros st1 b1 g Hi1 Ho Hr1 (s1 & Hs1 & Hq1 & Hcase).
    destruct (dispatch_group_requests (clock_now (im_clock_reads st)) st1 b1 g rid s1 Hi1 Ho Hr1 Hs1) as (s2 & Hs2 & Hq2 & Hcase2).
    destruct (dispatch_group (clock_now (im_clock_reads st)) (st1, b1) g) as [st2 b2]. exists s2. split; [done|].
    split; [congruence|]. destruct Hcase as [E|[Hc Hrun]].
    + destruct Hcase2 as [E2|[Hc2 Hrun2]]; [left; congruence|right].
      by rewrite <- (unres_candidate _ _ E).
    + right. split; [done|]. destruct Hcase2 as [E2|[_ ?]]; [|done]. by apply (unres_running _ _ E2).
  - exists (age s'). split.
    + unfold refresh_queue_stats. eff. rewrite lookup_fmap, Hs'. done.
    + assert (kept_or_started s s') as Hk.
      { destruct Hcase as [E|?]; [by apply kept_unres|]. split; [done|by right]. }
      destruct Hk as [Hk1 Hk2]. split; [unfold age; by destruct (is_waiting s')|].
      unfold age. destruct (is_waiting s'); [|done]. unfold running in *. by rsimp.
Qed.

End cycle_props.

Section expiry.
Context `{FE : FloatEnv} `{CK : ClockSource} `{HO : HashOrder}.

(** C21: a cycle expires exactly the overdue requests: those not yet final whose
    deadline has passed, or that wait longer than their queue delay.  Every
    other request keeps its lifecycle, or was waiting and now runs. *)
Theorem cycle_expires_overdue cfg st rid s (Hc : config_fits cfg) (Hr : reachable cfg st)
    (Hroom : cycle_room st) (Hs : requests_ st !! rid = Some s) :
  let now := clock_now (im_clock_reads st) in
  ∃ s', requests_ (run_cycle st).1 !! rid = Some s' ∧
    (overdue now s = true → rs_lifecycle s' = Lifecycle_expired) ∧
    (overdue now s = false → rs_lifecycle s' = rs_lifecycle s ∨
       rs_lifecycle s = Lifecycle_queued ∧ rs_lifecycle s' = Lifecycle_dispatched).
Proof.
  intros now. destruct (reachable_inv cfg st Hc Hr) as [o Hi].
  pose (st0 := st <| im_clock_reads ::= S |>).
  destruct (swept_spec now st0 rid s Hs) as (s1 & Hs1 & He).
  destruct (cycle_requests st rid s1 Hi Hroom Hs1) as (s' & Hs' & _ & Hk).
  exists s'. split; [done|]. unfold expired_or_same in He. split; intros Ho; rewrite Ho in He.
  - destruct He as [He _]. destruct Hk as [(-> & _)|[Hcand _]]; [done|].
    apply candidate_spec in Hcand as [? _]. congruence.
  - subst s1. destruct Hk as [(-> & _)|[Hcand [_ Hl]]]; [by left|right].
    by apply candidate_spec in Hcand as [? _].
Qed.
End expiry.

Section batch.
Context `{FE : FloatEnv} `{CK : ClockSource} `{HO : HashOrder} `{OR : Origin}.

(** ** Memory of a group *)

(** What the reservation loop asks for a request. *)
Definition member_bytes (st : Impl) (rid : RequestId) : Z :=
  match pending_chunk (map_at Rs_default (requests_ st) rid) with
  | Some ch => ck_memory_estimate_bytes ch
  | None => 0
  end.

Lemma member_bytes_nonneg R st rids :
  sched_inv_at R st → (∀ rid, rid ∈ rids → is_Some (requests_ st !! rid)) →
  0 <= sumZ (member_bytes st) rids.
Proof.
  intros Hi Hw. apply sumZ_nonneg. intros r Hr. destruct (Hw r Hr) as [x Hx].
  pose proof (member_bytes_range R st r x Hi Hx) as Hb. unfold member_bytes, map_at.
  rewrite Hx. unfold is_u64 in Hb. cbn in *. lia.
Qed.

(** The loop succeeds exactly when the sum of what it asks for is free. *)
Lemma reserve_members_iff R st rids :
  sched_inv_at R st → NoDup rids →
  (∀ rid, rid ∈ rids → (rid ∉ R) ∧ ∃ s, requests_ st !! rid = Some s ∧ ~ running s) →
  im_next_reservation_value st + Z.of_nat (length rids) < 2 ^ 64 →
  (reserve_members st rids).2 = true ↔
  mg_reserved (im_mem st) + sumZ (member_bytes st) rids <= budget (im_mem st).
Proof.
  revert R st. induction rids as [|rid rids IH]; intros R st Hi Hnd Hw Hroom.
  { cbn. split; [intros _|done]. rewrite Z.add_0_r. apply (si_mem _ Hi). }
  cbn [reserve_members]. apply NoDup_cons in Hnd as [Hnin Hnd].
  destruct (Hw rid ltac:(by left)) as [HnR (s & Hs & Hrun)].
  assert (map_at Rs_default (requests_ st) rid = s) as Hmap by (unfold map_at; by rewrite Hs).
  pose proof (member_bytes_range R st rid s Hi Hs) as Hmb.
  rewrite sumZ_cons. unfold member_bytes at 1. rewrite Hmap in *.
  set (mb := match pending_chunk s with Some _ => _ | None => _ end) in *. cbv zeta.
  unfold alloc_reservation. cbv beta iota. eff. cbn [length] in Hroom.
  assert (0 <= sumZ (member_bytes st) rids) as Hsum.
  { apply (member_bytes_nonneg R); [done|]. intros r Hr.
    destruct (Hw r ltac:(by right)) as [_ (x & Hx & _)]. eauto. }
  assert (0 < im_next_reservation_value st) as Hpos' by apply (proj1 (si_fresh _ Hi)).
  pose proof (reserve_ledger (im_mem st) (im_next_reservation_value st) rid mb
    ReservationKind_reserved (proj1 (si_mem _ Hi)) ltac:(unfold is_u64 in Hmb; lia)) as Hled.
  destruct (reserve (im_mem st) (im_next_reservation_value st) rid mb ReservationKind_reserved)
    as [m [[]|e]] eqn:Eres.
  2:{ cbn [snd]. destruct Hled as [_ [[Hsome _]|(_ & _ & Hover & _)]].
      - apply (si_fresh _ Hi) in Hsome. lia.
      - split; [discriminate|lia]. }
  destruct Hled as (_ & _ & _ & Hres & Hmax & Hhead & _).
  pose proof (reserve_one_inv R st rid s mb m Hi Hs Hrun HnR Hmb ltac:(lia) Eres) as Hi1.
  match goal with |- context [reserve_members ?x rids] => set (st1 := x) in * end.
  assert (∀ r, r ≠ rid → requests_ st1 !! r = requests_ st !! r) as Hoth
    by (intros r Hr; unfold st1; eff; by apply lookup_insert_ne).
  specialize (IH ({[rid]} ∪ R) st1 Hi1 Hnd).
  destruct (reserve_members st1 rids) as [[st2 l] ok]. cbn [snd] in *. rewrite IH.
  - rewrite (sumZ_ext _ (member_bytes st)).
    + unfold st1, budget. eff. rewrite Hres, Hmax, Hhead. lia.
    + intros r Hr. unfold member_bytes, map_at. rewrite Hoth by congruence. done.
  - intros r Hr. assert (r ≠ rid) by congruence. destruct (Hw r ltac:(by right)) as [HrR Hx].
    split; [set_solver|]. by rewrite Hoth.
  - unfold st1. eff. rewrite u64_small by (unfold is_u64; lia). lia.
Qed.

(** The bytes asked for a group are the estimates of its members. *)
Lemma group_bytes st g :
  og_ok st g →
  sumZ (member_bytes st) (og_rids g) = sumZ em_memory_estimate_bytes (eg_members (og_group g)).
Proof.
  intros Ho. rewrite <- (oo_ids _ _ Ho), sumZ_fmap. apply sumZ_ext. intros m Hm.
  pose proof (pk_members _ _ (oo_packed _ _ Ho)) as Hall. rewrite Forall_forall in Hall.
  destruct (Hall m Hm) as (s & ch & Hs & Hch & _ & _ & _ & _ & -> & _).
  unfold member_bytes, map_at. rewrite Hs. cbn. by rewrite Hch.
Qed.

(** A group that is dispatched found memory for all its members together. *)
Lemma dispatch_group_memory now st b g :
  sched_inv st → og_ok st g → room st (length (og_rids g)) →
  db_groups (dispatch_group now (st, b) g).2 ≠ db_groups b →
  sumZ em_memory_estimate_bytes (eg_members (og_group g)) <= budget (im_mem st).
Proof.
  intros Hi Ho [_ Hres]. unfold dispatch_group. rewrite <- (group_bytes st g Ho).
  destruct (bool_decide _); [done|]. destruct (choose_worker _ _) as [w|]; [|by eff].
  pose proof (reserve_members_iff ∅ st (og_rids g) Hi (oo_nodup _ _ Ho)) as Hok.
  destruct (reserve_members st (og_rids g)) as [[st1 l] ok]. cbn [snd] in Hok.
  destruct ok; cbn [negb]; [|by eff]. intros _.
  assert (0 <= mg_reserved (im_mem st)) as Hn.
  { destruct (si_mem _ Hi) as [Hg _]. apply (gi_range _ Hg). }
  enough (mg_reserved (im_mem st) + sumZ (member_bytes st) (og_rids g) <= budget (im_mem st)) by lia.
  apply Hok; [intros rid Hin|exact Hres|done].
  split; [set_solver|]. destruct (oo_cand _ _ Ho rid Hin) as (s & Hs & Hc).
  exists s. split; [done|by apply candidate_not_running].
Qed.

(** ** The batch *)

Definition batch_rids (b : DispatchBatch) : list RequestId :=
  mjoin ((λ dg, em_request_id <$> eg_members (dg_group dg)) <$> db_groups b).

(** The request of member [m] runs in group [dg], on its worker, and the member
    names its attempt, generation, key and next chunk. *)
Definition dispatched_as (st : Impl) (dg : DispatchedGroup) (m : ExecutableMember) : Prop :=
  ∃ s ch, requests_ st !! em_request_id m = Some s ∧ running s ∧
    rs_current_group s = dg_group_id dg ∧ rs_dispatched_worker s = dg_assigned_worker dg ∧
    rs_attempt s = em_attempt_id m ∧ rs_current_generation s = em_generation m ∧
    rs_reservation s ≠ 0 ∧ pending_chunk s = Some ch ∧
    em_token_start m = ck_token_start ch ∧ em_token_count m = ck_token_count ch ∧
    make_compat_key (rs_request s) (im_cfg st) = eg_key (dg_group dg).

(** A dispatched group is one chunk, or several within the limits. *)
Definition within_limits (cfg : SchedulerConfig) (g : ExecutionGroup) : Prop :=
  length (eg_members g) = 1%nat ∨
  Z.of_nat (length (eg_members g)) <= cfg_max_requests_per_group cfg ∧
  sumZ em_token_count (eg_members g) <= cfg_max_tokens_per_group cfg ∧
  sumZ em_compute_estimate (eg_members g) <= cfg_max_compute_per_group cfg ∧
  Forall (λ m, em_memory_estimate_bytes m <= cfg_max_memory_per_group cfg) (eg_members g).

(** Before the cycle the request of [m] waited, and its generation was not given out. *)
Definition fresh_member (st0 : Impl) (m : ExecutableMember) : Prop :=
  (∃ s, requests_ st0 !! em_request_id m = Some s ∧ is_candidate s = true) ∧
  im_next_generation_value st0 <= em_generation m.

Record batch_inv (st0 st : Impl) (b : DispatchBatch) : Prop := {
  bi_cfg : im_cfg st = im_cfg st0;
  bi_work : ∀ dg m, dg ∈ db_groups b → m ∈ eg_members (dg_group dg) → dispatched_as st dg m;
  bi_nodup : NoDup (batch_rids b);
  bi_new : ∀ rid s', requests_ st !! rid = Some s' → running s' →
    rid ∈ batch_rids b ∨
    ∃ s, requests_ st0 !! rid = Some s ∧ running s ∧
      rs_current_generation s' = rs_current_generation s;
  bi_gen : im_next_generation_value st0 <= im_next_generation_value st;
  bi_waiting : ∀ rid s', requests_ st !! rid = Some s' → ~ running s' →
    ∃ s, requests_ st0 !! rid = Some s ∧ unres s' = unres s;
  bi_fresh : ∀ dg m, dg ∈ db_groups b → m ∈ eg_members (dg_group dg) → fresh_member st0 m;
  bi_memory : ∀ dg, dg ∈ db_groups b →
    sumZ em_memory_estimate_bytes (eg_members (dg_group dg)) <= budget (im_mem st);
  bi_limits : no_wrap (im_cfg st0) → ∀ dg, dg ∈ db_groups b →
    within_limits (im_cfg st0) (dg_group dg)
}.

Lemma numbered_lookup w ng ms i m :
  numbered w ng ms !! i = Some m →
  ∃ m0, ms !! i = Some m0 ∧
    m = m0 <| em_generation := ng + Z.of_nat i |> <| em_assigned_worker := w |>.
Proof.
  unfold numbered. intros H. apply lookup_zip_with_Some in H as (m0 & gen & -> & Hm0 & Hg).
  apply lookup_seqZ in Hg as [-> _]. eauto.
Qed.

Lemma numbered_sum f w ng ms :
  (∀ m gen, f (m <| em_generation := gen |> <| em_assigned_worker := w |>) = f m) →
  sumZ f (numbered w ng ms) = sumZ f ms.
Proof.
  intros Hf. pose proof (f_equal (sumZ (λ x, x)) (numbered_fmap f w ng ms Hf)) as E.
  by rewrite !sumZ_fmap in E.
Qed.

Lemma numbered_within w ng st g :
  no_wrap (im_cfg st) → packed st g → within_limits (im_cfg st) (numbered_group w ng g).
Proof.
  intros Hnw [P1 P2 P3 P4 P5 P6 P7 P8]. destruct (P8 Hnw) as [X1 X2].
  unfold within_limits, numbered_group. rsimp.
  rewrite !numbered_sum by done. rewrite <- X1, <- X2.
  assert (length (numbered w ng (eg_members (og_group g))) = length (eg_members (og_group g))) as ->.
  { rewrite <- (length_fmap em_request_id (numbered _ _ _)), numbered_ids. apply length_fmap. }
  destruct P6 as [?|(L1 & L2 & L3 & L4)]; [by left|right]. do 3 (split; [done|]).
  apply Forall_forall. intros m [i Hi]%list_elem_of_lookup.
  apply numbered_lookup in Hi as (m0 & Hm0 & ->). rsimp.
  rewrite Forall_forall in P5. pose proof (P5 m0 (list_elem_of_lookup_2 _ _ _ Hm0)). cbn in *. lia.
Qed.

(** Requests that run are not touched by the dispatch of a group. *)
Lemma dispatch_keeps_running st g st' rid s :
  og_ok st g → dispatch_effect st g st' → requests_ st !! rid = Some s → running s →
  (rid ∉ og_rids g) ∧ requests_ st' !! rid = Some s.
Proof.
  intros Ho He Hs Hrun. assert (rid ∉ og_rids g) as Hn.
  { intros Hin. destruct (oo_cand _ _ Ho rid Hin) as (s0 & Hs0 & Hc). simplify_eq.
    by apply (candidate_not_running s). }
  split; [done|]. by rewrite (de_other _ _ _ He rid Hn).
Qed.

Lemma dispatched_kept st g st' dg m :
  og_ok st g → dispatch_effect st g st' → dispatched_as st dg m → dispatched_as st' dg m.
Proof.
  intros Ho He (s & ch & Hs & Hrun & Hrest). exists s, ch.
  destruct (dispatch_keeps_running st g st' _ s Ho He Hs Hrun) as [_ Hs'].
  split; [done|]. split; [done|]. by rewrite (de_cfg _ _ _ He).
Qed.

(** The members of a committed group carry the authority of their requests. *)
Lemma committed_dispatched w st g st' dg m :
  og_ok st g → dispatch_effect st g st' → committed_to w st g st' → dg_group_id dg = og_gid g →
  dg_assigned_worker dg = w → dg_group dg = numbered_group w (im_next_generation_value st) g →
  m ∈ eg_members (dg_group dg) → dispatched_as st' dg m.
Proof.
  intros Ho He [Hcm _] Hd1 Hd2 Hd3 Hm. rewrite Hd3 in Hm.
  change (eg_members (numbered_group w (im_next_generation_value st) g))
    with (numbered w (im_next_generation_value st) (eg_members (og_group g))) in Hm.
  apply list_elem_of_lookup in Hm as [i Hi]. apply numbered_lookup in Hi as (m0 & Hm0 & ->).
  assert (og_rids g !! i = Some (em_request_id m0)) as Hr
    by (rewrite <- (oo_ids _ _ Ho); by rewrite list_lookup_fmap, Hm0).
  destruct (Hcm i _ Hr) as (s & s' & Hs & Hs' & Hst & Hres & Hgen).
  destruct Hst as (S1 & S2 & S3 & _ & S5 & S6 & S7 & S8).
  pose proof (pk_members _ _ (oo_packed _ _ Ho)) as Hall. rewrite Forall_forall in Hall.
  destruct (Hall m0 (list_elem_of_lookup_2 _ _ _ Hm0)) as (s0 & ch & Hs0 & Hch & Hk & M1 & M2 & M3 & _).
  simplify_eq. exists s', ch. rsimp.
  change (rs_current_group s' = og_gid g) in S2.
  change (rs_request s' = rs_request s) in S5. change (rs_attempt s' = rs_attempt s) in S6.
  change (rs_plan s' = rs_plan s) in S7.
  change (rs_next_chunk_index s' = rs_next_chunk_index s) in S8.
  do 2 (split; [done|]). split; [congruence|]. split; [done|]. split; [congruence|].
  do 2 (split; [done|]).
  split; [unfold pending_chunk in *; by rewrite S7, S8|]. split; [done|]. split; [done|].
  rewrite (de_cfg _ _ _ He), S5, Hd3. unfold numbered_group. rsimp.
  by rewrite (proj1 (pk_key _ _ (oo_packed _ _ Ho))).
Qed.

Lemma batch_rids_app b b' dg :
  db_groups b' = db_groups b ++ [dg] →
  batch_rids b' = batch_rids b ++ (em_request_id <$> eg_members (dg_group dg)).
Proof. intros E. unfold batch_rids. rewrite E, fmap_app, join_app. cbn. by rewrite app_nil_r. Qed.

Lemma batch_rids_running st b rid :
  (∀ dg m, dg ∈ db_groups b → m ∈ eg_members (dg_group dg) → dispatched_as st dg m) →
  rid ∈ batch_rids b → ∃ s, requests_ st !! rid = Some s ∧ running s.
Proof.
  intros Hw (l & Hin & (dg & -> & Hdg)%list_elem_of_fmap)%list_elem_of_join.
  apply list_elem_of_fmap in Hin as (m & -> & Hm).
  destruct (Hw dg m Hdg Hm) as (s & _ & Hs & Hrun & _). eauto.
Qed.

(** The members of a group whose requests wait since [st0]. *)
Lemma numbered_fresh w st0 st b g m :
  og_ok st g → batch_inv st0 st b →
  m ∈ numbered w (im_next_generation_value st) (eg_members (og_group g)) → fresh_member st0 m.
Proof.
  intros Ho Hb [i Hi]%list_elem_of_lookup. apply numbered_lookup in Hi as (m0 & Hm0 & ->).
  unfold fresh_member. rsimp. split; [|pose proof (bi_gen _ _ _ Hb); lia].
  destruct (oo_cand _ _ Ho (em_request_id m0)) as (s & Hs & Hc).
  { rewrite <- (oo_ids _ _ Ho). apply list_elem_of_fmap_2. by eapply list_elem_of_lookup_2. }
  destruct (bi_waiting _ _ _ Hb _ s Hs (candidate_not_running s Hc)) as (s1 & Hs1 & E).
  exists s1. split; [done|]. by rewrite <- (unres_candidate _ _ E).
Qed.

Lemma dispatch_group_batch now st0 st b g :
  sched_inv st → og_ok st g → room st (length (og_rids g)) → batch_inv st0 st b →
  let '(st', b') := dispatch_group now (st, b) g in batch_inv st0 st' b'.
Proof.
  intros Hi Ho Hroom Hb. pose proof Hb as [B0 B1 B2 B3 B5 B6 B7 B8 B4].
  pose proof (dispatch_group_spec now st b g Hi Ho Hroom) as Hsp.
  pose proof (dispatch_group_memory now st b g Hi Ho Hroom) as Hmem.
  pose proof (keeps_budget _ _ _ (dispatch_group_keeps now (st, b) g)) as Hbud.
  destruct (dispatch_group now (st, b) g) as [st' b']. destruct Hsp as [He Hcase].
  cbn [fst snd] in *. pose proof (de_gen _ _ _ He) as Hgen.
  destruct Hcase as [[(Hsame & _) Hdb]|(w & dg & _ & Hcm & _ & Hdb & Hd1 & Hd2 & Hd3)].
  - assert (batch_rids b' = batch_rids b) as Hbr by (unfold batch_rids; by rewrite Hdb).
    split; rewrite ?Hdb, ?Hbr; try done.
    + by rewrite (de_cfg _ _ _ He).
    + intros dg m Hdg Hm. eapply dispatched_kept; eauto.
    + intros rid s' Hs' Hrun. destruct (same_requests_r _ _ _ _ Hsame Hs') as (s & Hs & E).
      rewrite (f_equal rs_current_generation E : rs_current_generation s' = rs_current_generation s).
      apply B3; [done|]. by apply (unres_running _ _ E).
    + lia.
    + intros rid s' Hs' Hrun. destruct (same_requests_r _ _ _ _ Hsame Hs') as (s & Hs & E).
      destruct (B6 rid s Hs) as (s1 & Hs1 & E1); [contradict Hrun; by apply (unres_running _ _ E)|].
      exists s1. split; [done|congruence].
    + by rewrite Hbud.
  - assert (em_request_id <$> eg_members (dg_group dg) = og_rids g) as Hids.
    { rewrite Hd3. unfold numbered_group. rsimp. rewrite numbered_ids. apply Ho. }
    pose proof (batch_rids_app b b' dg Hdb) as Hbr. rewrite Hids in Hbr.
    split; rewrite ?Hbr.
    + by rewrite (de_cfg _ _ _ He).
    + intros dg' m. rewrite Hdb, elem_of_app, list_elem_of_singleton. intros [Hdg| ->] Hm.
      * eapply dispatched_kept; eauto.
      * by eapply committed_dispatched.
    + apply NoDup_app. split; [done|]. split; [|apply Ho]. intros rid Hin Hr.
      destruct (batch_rids_running st b rid B1 Hin) as (s & Hs & Hrun).
      by destruct (dispatch_keeps_running st g st' rid s Ho He Hs Hrun).
    + intros rid s' Hs' Hrun. rewrite elem_of_app. destruct (decide (rid ∈ og_rids g)) as [?|Hn]; [auto|].
      rewrite (de_other _ _ _ He rid Hn) in Hs'. destruct (B3 rid s' Hs' Hrun) as [?|?]; auto.
    + lia.
    + intros rid s' Hs' Hrun. destruct (decide (rid ∈ og_rids g)) as [Hin|Hn].
      * destruct (committed_to_in _ _ _ _ _ Hcm Hin) as (s0 & s1 & _ & Hs1 & Hst & _). simplify_eq.
        destruct Hrun. exact (proj1 Hst).
      * rewrite (de_other _ _ _ He rid Hn) in Hs'. eauto.
    + intros dg' m. rewrite Hdb, elem_of_app, list_elem_of_singleton. intros [Hdg| ->] Hm; [eauto|].
      rewrite Hd3 in Hm. exact (numbered_fresh w st0 st b g m Ho Hb Hm).
    + intros dg'. rewrite Hdb, elem_of_app, list_elem_of_singleton, Hbud. intros [Hdg| ->]; [auto|].
      rewrite Hd3. unfold numbered_group. rsimp. rewrite numbered_sum by done. apply Hmem.
      rewrite Hdb. intros E. apply (f_equal length) in E. rewrite length_app in E. cbn in E. lia.
    + intros Hnw dg'. rewrite Hdb, elem_of_app, list_elem_of_singleton. intros [Hdg| ->]; [auto|].
      rewrite Hd3, <- B0. apply numbered_within; [by rewrite B0|apply Ho].
Qed.

Lemma dispatched_age st dg m :
  dispatched_as st dg m → dispatched_as (refresh_queue_stats (st <| requests_ ::= fmap age |>)) dg m.
Proof.
  intros (s & ch & Hs & Hrun & Hrest). exists s, ch. unfold refresh_queue_stats. eff.
  rewrite lookup_fmap, Hs. cbn. split; [|done].
  unfold age, is_waiting. by rewrite (proj1 Hrun), andb_false_r.
Qed.

Lemma forming_batch st0 cands st1 open :
  forming st0 cands st1 open → batch_inv st0 st1 DispatchBatch_empty.
Proof.
  intros Hf. split; try done.
  - apply Hf.
  - intros dg m Hin. inversion Hin.
  - constructor.
  - intros rid s' Hs' Hrun. right.
    destruct (same_requests_r _ _ _ _ (fm_same _ _ _ _ Hf) Hs') as (s & Hs & E).
    exists s. split; [done|]. split; [by apply (unres_running _ _ E)|].
    exact (f_equal rs_current_generation E).
  - by rewrite (fm_gen _ _ _ _ Hf).
  - intros rid s' Hs' _. apply (same_requests_r _ _ _ _ (fm_same _ _ _ _ Hf) Hs').
  - intros dg m Hin. inversion Hin.
  - intros dg Hin. inversion Hin.
  - intros _ dg Hin. inversion Hin.
Qed.

(** Everything a cycle promises of its batch. *)
Lemma run_cycle_batch st :
  sched_inv st → cycle_room st →
  let st0 := swept (clock_now (im_clock_reads st)) (st <| im_clock_reads ::= S |>) in
  ∃ st2 batch, run_cycle st = (refresh_queue_stats (st2 <| requests_ ::= fmap age |>), Ok batch) ∧
    batch_inv st0 st2 batch.
Proof.
  intros Hi Hroom st0.
  destruct (run_cycle_ind (λ st' b, batch_inv st0 st' b) st Hi Hroom)
    as (st2 & batch & E & _ & HP); [| |eauto].
  - intros st1 open. apply forming_batch.
  - intros st1 b1 g Hi1 Ho Hr1 HP. by apply dispatch_group_batch.
Qed.

(** A candidate of the sweep waited before it. *)
Lemma fresh_before_sweep now st m :
  fresh_member (swept now (st <| im_clock_reads ::= S |>)) m → fresh_member st m.
Proof.
  intros [(s1 & Hs1 & Hc) Hg].
  destruct (swept_frame now (st <| im_clock_reads ::= S |>)) as ((_ & Hgen & _) & _).
  split; [|by rewrite Hgen in Hg].
  destruct (swept_origin now _ _ s1 Hs1) as (s & Hs & He). exists s. split; [done|].
  unfold expired_or_same in He. destruct (overdue now s); [|congruence].
  apply candidate_spec in Hc as [Hl _]. destruct He as [He _]. congruence.
Qed.

End batch.

Section batch_theorems.
Context `{FE : FloatEnv} `{CK : ClockSource} `{HO : HashOrder}.

(** C2: a cycle never fails, and its batch is exactly the work it started:
    every member's request runs in that group on that worker under the
    member's attempt and generation, holds a reservation, and the member's
    token range is its next chunk; before the cycle that request waited and the
    generation had not been given out; no request appears twice; and every
    request that runs after the cycle is in the batch or ran before it with the
    same generation. *)
Theorem cycle_batch_exact cfg st (Hc : config_fits cfg) (Hr : reachable cfg st)
    (Hroom : cycle_room st) :
  ∃ st' batch, run_cycle st = (st', Ok batch) ∧
    (∀ dg m, dg ∈ db_groups batch → m ∈ eg_members (dg_group dg) →
       dispatched_as st' dg m ∧ fresh_member st m) ∧
    NoDup (batch_rids batch) ∧
    (∀ rid s', requests_ st' !! rid = Some s' → running s' →
       rid ∈ batch_rids batch ∨
       ∃ s, requests_ st !! rid = Some s ∧ running s ∧
         rs_current_generation s' = rs_current_generation s).
Proof.
  destruct (reachable_inv cfg st Hc Hr) as [o Hi].
  destruct (run_cycle_batch st Hi Hroom) as (st2 & batch & E & [B0 B1 B2 B3 B5 B6 B7 B8 B4]).
  eexists _, batch. split; [exact E|]. split; [|split; [done|]].
  - intros dg m Hdg Hm. split; [by apply dispatched_age, B1|].
    by apply (fresh_before_sweep (clock_now (im_clock_reads st))), (B7 dg).
  - intros rid s' Hs' Hrun. unfold refresh_queue_stats in Hs'. revert Hs'. eff.
    rewrite lookup_fmap. intros (s2 & Hs2 & ->)%fmap_Some.
    assert (running s2 ∧ rs_current_generation (age s2) = rs_current_generation s2) as [Hrun2 Hg].
    { split; [by apply (core_running _ _ (age_core s2))|]. unfold age. by destruct (is_waiting s2). }
    destruct (B3 rid s2 Hs2 Hrun2) as [?|(s1 & Hs1 & Hrun1 & Hg1)]; [by left|right].
    pose (stc := st <| im_clock_reads ::= S |>). set (now := clock_now (im_clock_reads st)) in *.
    destruct (swept_origin now stc rid s1 Hs1) as (s & Hs & He). exists s. split; [done|].
    unfold expired_or_same in He. destruct (overdue now s).
    + destruct Hrun1 as [_ Hl]. destruct He as [He _]. congruence.
    + subst s1. split; [done|]. congruence.
Qed.

(** C22: under a configuration whose limits leave room for one more chunk below
    2^64 ([no_wrap]), every dispatched group is one chunk or respects the limits
    on requests, tokens and compute as sums over its members, and the memory
    limit of a group for each member (the code compares the largest member, not
    the sum); the members' memory estimates add up to at most the memory budget
    of the device, and all members have one compatibility key. *)
Theorem cycle_groups_within_limits cfg st dg (Hc : config_fits cfg) (Hr : reachable cfg st)
    (Hroom : cycle_room st) (Hnw : no_wrap (im_cfg st))
    (Hdg : ∃ batch, (run_cycle st).2 = Ok batch ∧ dg ∈ db_groups batch) :
  within_limits (im_cfg st) (dg_group dg) ∧
  sumZ em_memory_estimate_bytes (eg_members (dg_group dg)) <= budget (im_mem st) ∧
  ∀ m, m ∈ eg_members (dg_group dg) → ∃ s, requests_ (run_cycle st).1 !! em_request_id m = Some s ∧
    make_compat_key (rs_request s) (im_cfg st) = eg_key (dg_group dg).
Proof.
  destruct (reachable_inv cfg st Hc Hr) as [o Hi].
  rewrite <- (keeps_budget _ _ _ (run_cycle_keeps st Hi Hroom)).
  destruct (run_cycle_batch st Hi Hroom) as (st2 & batch & E & [B0 B1 B2 B3 B5 B6 B7 B8 B4]).
  destruct Hdg as (b & Eb & Hin). rewrite E in *. cbn [snd fst] in *. injection Eb as <-.
  destruct (swept_frame (clock_now (im_clock_reads st)) (st <| im_clock_reads ::= S |>)) as ((Hcf & _) & _).
  change (im_cfg (st <| im_clock_reads ::= S |>)) with (im_cfg st) in Hcf.
  split; [rewrite <- Hcf; apply B4; [by rewrite Hcf|done]|]. split; [exact (B8 dg Hin)|].
  intros m Hm. destruct (dispatched_age _ _ _ (B1 dg m Hin Hm)) as (s & ch & Hs & Hrest).
  exists s. split; [done|]. rewrite <- Hcf, <- B0. apply Hrest.
Qed.
End batch_theorems.
