(* ===== verification/CoordProps.v ===== *)
(** * Properties of the distributed system

    Every step of the coordinator is one of the scheduler's; a group it dispatches reaches the worker with
    exactly the tokens of its members; and what the worker reports is what a
    local execution would have reported, under the authority of the dispatch. *)

From S2P Require Import Prelude Float Types Request Chunking Memory Compat Bytes Exec Observability SchedState SchedOps SchedCycle SchedFrame SchedInv SchedOpsInv SchedOpsInv2 SubmitInv CycleInv DispatchInv GroupInv FormInv RunCycle Bytes Persist SchedPersist ImportInv CycleFrame Reach Evolve Authority CycleProps Protocol ProtocolProps Network RemoteWorker Coordinator.

Section project.
Context `{FE : FloatEnv} `{CK : ClockSource} `{HO : HashOrder}.

Lemma goto_scheduler co c t : co_scheduler (goto co c t) = co_scheduler co.
Proof. done. Qed.

Lemma conn_first_scheduler co c f : co_scheduler (conn_first co c f).1 = co_scheduler co.
Proof.
  unfold conn_first. destruct (result_bind f decode_frame) as [m|]; [|done].
  destruct (ms_kind m); try done. destruct (is_nil _); done.
Qed.

(** The submissions under way and the next cycle are within what the scheduler's
    step relation covers. *)
Definition covered (co : Coordinator) : Prop :=
  map_Forall (λ _ t, match t with T_submitting req => request_fits req | _ => True end)
    (co_threads co) ∧
  (co_loop co = L_cycle → cycle_room (co_scheduler co)).

(** A step of the coordinator is a sequence of scheduler operations (at most
    one). *)
Lemma cstep_project co ins out co' :
  covered co → cstep co ins out co' → rtc step (co_scheduler co) (co_scheduler co').
Proof.
  intros [Hq Hroom] Hst. destruct Hst as [co c Hc|co c f Hc|co c wd Hc|co c wd Hc|co c wd f Hc|co c rest back Hc
    |co c f Hc|co c req Hc|co c Hc|co c t Hc Hb|co Hl|co Hl|co dg gs sent Hl|co w gs Hl].
  - done.
  - by rewrite conn_first_scheduler.
  - apply rtc_once, step_register.
  - done.
  - unfold worker_frame. destruct f as [body|]; cbn [fst].
    + destruct (decode_frame body) as [m|]; [|done]. by destruct (ms_kind m).
    + apply rtc_once. unfold conn_lost. cbv zeta. case_if; apply step_lost.
  - unfold report_next. destruct rest as [|mr rest]; [done|].
    pose proof (step_report (co_scheduler co) mr) as Hs.
    destruct (report_completion _ mr) as [st [|e]]; apply rtc_once; exact Hs.
  - unfold client_frame. destruct f as [body|]; [|done].
    destruct (decode_frame body) as [m|]; [|done]. cbv zeta.
    destruct (ms_kind m); try done.
    + pose proof (step_cancel (co_scheduler co) (ms_request_id m)) as Hs.
      destruct (cancel _ _) as [st cr]. by apply rtc_once.
    + apply rtc_once. apply step_epoch.
  - unfold conn_submit. pose proof (step_submit (co_scheduler co) req) as Hs.
    unfold submit.
    match goal with |- context [submit_with_tokens ?a ?b ?t] => specialize (Hs t (Hq c _ Hc)); destruct (submit_with_tokens a b t) as [st res] end.
    by apply rtc_once.
  - done.
  - done.
  - unfold loop_cycle. pose proof (step_cycle (co_scheduler co) (Hroom Hl)) as Hs.
    destruct (run_cycle _) as [st [b|e]]; by apply rtc_once.
  - done.
  - unfold loop_dispatch. destruct (dispatch_message co dg) as [m|]; [|done].
    destruct (worker_socks_ co !! _); [|done]. by destruct (_ && _).
  - apply rtc_once, step_lost.
Qed.

Lemma cstep_pristine cfg co ins out co' :
  pristine cfg (co_scheduler co) → covered co → cstep co ins out co' → pristine cfg (co_scheduler co').
Proof. intros Hp Hcv Hs. unfold pristine. etransitivity; [exact Hp|]. by eapply cstep_project. Qed.

Lemma coordinator_start_pristine cfg : pristine cfg (co_scheduler (Coordinator_start cfg)).
Proof. apply rtc_once, step_unregister. Qed.
End project.

(** ** Tokens of a dispatched group *)

(** Token ranges of the members stay within 64 bits, each request once. *)
Definition members_fit (ms : list ExecutableMember) : Prop :=
  Forall (λ m, 0 <= em_token_start m ∧ 0 <= em_token_count m ∧
               em_token_start m + em_token_count m < 2 ^ 64) ms ∧
  sumZ em_token_count ms < 2 ^ 64 ∧ NoDup (em_request_id <$> ms).

Lemma token_range_length tvec a b :
  0 <= a <= b → b <= Z.of_nat (length tvec) → Z.of_nat (length (token_range tvec a b)) = b - a.
Proof. intros ? ?. unfold token_range. rewrite length_take, length_drop. lia. Qed.

Lemma token_range_app pre l post :
  token_range (pre ++ l ++ post) (Z.of_nat (length pre)) (Z.of_nat (length pre) + Z.of_nat (length l)) = l.
Proof.
  unfold token_range.
  rewrite Nat2Z.id, drop_app_length.
  replace (Z.to_nat (Z.of_nat (length pre) + Z.of_nat (length l) - Z.of_nat (length pre)))
    with (length l) by lia.
  apply take_app_length.
Qed.

(** The slice of member [i] in the concatenation, by the running offsets. *)
Lemma gather_slices tokens ms total ts os pre :
  gather_tokens tokens ms total = Some (ts, os) → total = Z.of_nat (length pre) →
  Forall (λ m, 0 <= em_token_start m ∧ 0 <= em_token_count m ∧
               em_token_start m + em_token_count m < 2 ^ 64) ms →
  total + sumZ em_token_count ms < 2 ^ 64 →
  ∀ i m, ms !! i = Some m → ∃ b tvec,
    (total :: os) !! i = Some b ∧ os !! i = Some (b + em_token_count m) ∧
    b + em_token_count m <= Z.of_nat (length (pre ++ ts)) ∧
    tokens !! em_request_id m = Some tvec ∧
    em_token_start m + em_token_count m <= Z.of_nat (length tvec) ∧
    token_range (pre ++ ts) b (b + em_token_count m)
    = token_range tvec (em_token_start m) (em_token_start m + em_token_count m).
Proof.
  revert total ts os pre. induction ms as [|m0 ms IH]; intros total ts os pre Hg Htot Hms Hsum i m Hi; [done|].
  cbn [gather_tokens] in Hg. apply Forall_cons in Hms as [(Hs0 & Hc0 & Hlim) Hms].
  rewrite sumZ_cons in Hsum.
  assert (0 <= sumZ em_token_count ms) as Hpos.
  { apply sumZ_nonneg. intros x Hx. rewrite Forall_forall in Hms. by destruct (Hms x Hx) as (_ & ? & _). }
  destruct (tokens !! em_request_id m0) as [tvec|] eqn:Et; [|done].
  rewrite u64_small in Hg by (unfold is_u64; lia). case_if_in Hg; [done|].
  rewrite u64_small in Hg by (unfold is_u64; lia).
  destruct (gather_tokens tokens ms _) as [[ts' os']|] eqn:Eg; [|done]. injection Hg as <- <-.
  set (l := token_range tvec (em_token_start m0) (em_token_start m0 + em_token_count m0)) in *.
  assert (Z.of_nat (length l) = em_token_count m0) as Hl by (unfold l; rewrite token_range_length; lia).
  destruct i as [|i].
  - injection Hi as <-. exists total, tvec. split_and!; try done.
    + rewrite !length_app. lia.
    + change (token_range (pre ++ l ++ ts') total (total + em_token_count m0) = l).
      rewrite Htot, <- Hl. apply token_range_app.
  - destruct (IH _ ts' os' (pre ++ l) Eg) with (i := i) (m := m) as (b & tv & H1 & H2 & H3 & H4 & H5 & H6);
      [rewrite length_app; lia|done|lia|done|].
    exists b, tv. rewrite <- app_assoc in H3, H6. done.
Qed.

Lemma add_slices_other offs toks l slices rid :
  rid ∉ ((λ im, em_request_id im.2) <$> l) →
  foldl (add_slice offs toks) slices l !! rid = slices !! rid.
Proof.
  revert slices. induction l as [|[j mem] l IH]; intros slices Hn; [done|]. cbn [foldl].
  rewrite fmap_cons, not_elem_of_cons in Hn. destruct Hn as [Hne Hn]. rewrite IH by done.
  unfold add_slice. repeat case_match; try done. apply lookup_insert_ne. cbn in Hne. congruence.
Qed.

Lemma add_slices_lookup offs toks l slices i mem b e :
  NoDup ((λ im, em_request_id im.2) <$> l) → (i, mem) ∈ l →
  offs !! i = Some b → offs !! S i = Some e → e <= Z.of_nat (length toks) →
  foldl (add_slice offs toks) slices l !! em_request_id mem
  = Some (mkSlice (em_token_start mem) (token_range toks b e)).
Proof.
  revert slices. induction l as [|im l IH]; intros slices Hnd Hin Hb He Hle; [by apply elem_of_nil in Hin|].
  rewrite fmap_cons, NoDup_cons in Hnd. destruct Hnd as [Hni Hnd]. cbn [foldl].
  apply elem_of_cons in Hin as [<-|Hin]; [|by apply IH].
  rewrite add_slices_other by done. unfold add_slice. rewrite Hb, He.
  rewrite (proj2 (Z.ltb_ge _ _)) by lia. apply lookup_insert_eq.
Qed.

(** Two resolvers that agree on the tokens a member reads give the same result. *)
Lemma cpu_member_agree R1 R2 mem t1 t2 :
  resolve_tokens R1 (em_request_id mem) (em_attempt_id mem) (em_generation mem)
    (em_token_start mem) (em_token_count mem) = Ok t1 →
  resolve_tokens R2 (em_request_id mem) (em_attempt_id mem) (em_generation mem)
    (em_token_start mem) (em_token_count mem) = Ok t2 →
  take (Z.to_nat (em_token_count mem)) t1 = take (Z.to_nat (em_token_count mem)) t2 →
  cpu_execute_member R1 mem = cpu_execute_member R2 mem.
Proof.
  intros H1 H2 Ht. unfold cpu_execute_member. rewrite H1, H2. case_if; [done|].
  unfold ff_member_digest. rewrite <- (ff_acc_take t1), Ht, ff_acc_take. done.
Qed.

Lemma imap_pair_ids (ms : list ExecutableMember) :
  (λ im, em_request_id im.2) <$> imap pair ms = em_request_id <$> ms.
Proof.
  rewrite fmap_imap. apply list_eq. intros i. rewrite list_lookup_imap, list_lookup_fmap.
  by destruct (ms !! i).
Qed.

(** A member of a dispatched group, resolved by the worker and locally. *)
Lemma dispatch_resolves co dg m mem :
  dispatch_message co dg = Some m → members_fit (eg_members (dg_group dg)) →
  mem ∈ eg_members (dg_group dg) →
  cpu_execute_member (DispatchResolver (build_slices (transmitted m))) mem
  = cpu_execute_member (InMemoryTokenResolver (tokens_ co)) mem.
Proof.
  intros Hd (Hms & Hsum & Hnd) Hin. unfold dispatch_message in Hd.
  destruct (worker_socks_ co !! _); [|done].
  destruct (gather_tokens _ _ 0) as [[ts os]|] eqn:Eg; [|done].
  apply (inj Some) in Hd. subst m.
  apply list_elem_of_lookup in Hin as [i Hi].
  destruct (gather_slices _ _ 0 ts os [] Eg eq_refl Hms ltac:(lia) i mem Hi)
    as (b & tvec & H1 & H2 & H3 & H4 & H5 & H6). cbn [app] in *.
  rewrite Forall_forall in Hms. destruct (Hms mem (list_elem_of_lookup_2 _ _ _ Hi)) as (Hs & Hc & Hlim).
  set (n := em_token_count mem) in *. set (a := em_token_start mem) in *.
  assert (build_slices (transmitted (kind_message MsgKind_dispatch <| ms_group := dg_group dg |>
       <| ms_epoch := im_epoch (co_scheduler co) |>
       <| ms_worker := WorkerDescriptor_default
            <| wd_boot_id := wd_boot_id (worker_for co (dg_assigned_worker dg)) |> |>
       <| ms_member_tokens := ts |> <| ms_member_token_offsets := 0 :: os |>)) !! em_request_id mem
     = Some (mkSlice a (token_range tvec a (a + n)))) as Hsl.
  { rewrite <- H6. unfold build_slices.
    change (foldl (add_slice (0 :: os) ts) ∅ (imap pair (eg_members (dg_group dg))) !! em_request_id mem
            = Some (mkSlice a (token_range ts b (b + n)))).
    apply (add_slices_lookup _ _ _ _ i); [by rewrite imap_pair_ids| |done|done|lia].
    apply list_elem_of_lookup. exists i. rewrite list_lookup_imap, Hi. done. }
  assert (Z.of_nat (length (token_range tvec a (a + n))) = n) as Hlen
    by (rewrite token_range_length; lia).
  eapply cpu_member_agree.
  - cbn. unfold dispatch_resolve. rewrite Hsl. cbn [sl_base sl_data]. fold a n. rewrite Hlen.
    rewrite Z.ltb_irrefl, Z.ltb_irrefl. cbn [orb]. rewrite Z.sub_diag. done.
  - cbn. unfold in_memory_resolve. rewrite H4. fold a n. rewrite u64_small by (unfold is_u64; lia).
    rewrite (proj2 (Z.ltb_ge _ _)) by lia. done.
  - change (Z.to_nat 0) with 0%nat. rewrite drop_0. unfold token_range.
    replace (a + n - a) with n by lia. rewrite take_take, Nat.min_id. done.
Qed.

Lemma cpu_execute_results group tokens :
  ∃ out, cpu_execute group tokens = Ok out ∧
    er_members out = cpu_execute_member tokens <$> eg_members group.
Proof.
  unfold cpu_execute. eexists; split; [done|]. set (f := λ out m, _).
  assert (∀ ms out, er_members (foldl f out ms)
            = er_members out ++ (cpu_execute_member tokens <$> ms)) as ->; [|done].
  induction ms as [|m ms IH]; intros out; simpl; [by rewrite app_nil_r|].
  rewrite IH. simpl. by rewrite <- app_assoc.
Qed.

(** The completion a CPU worker sends for a dispatch frame. *)
Lemma worker_dispatch_results w m :
  wp_exec w = CpuExecutor →
  ms_member_results (worker_dispatch w m)
  = worker_stamp w (ms_epoch m) ∘ cpu_execute_member (DispatchResolver (build_slices m))
    <$> eg_members (ms_group m).
Proof.
  intros Hex. unfold worker_dispatch. rewrite Hex. cbv zeta. rsimp.
  destruct (cpu_execute_results (ms_group m) (DispatchResolver (build_slices m))) as (out & E & Hm).
  change (ex_execute CpuExecutor) with cpu_execute. rewrite E, Hm. by rewrite list_fmap_compose.
Qed.

(** What a worker reads of the dispatch message of a group. *)
Lemma dispatch_received co dg m :
  dispatch_message co dg = Some m →
  eg_members (ms_group (transmitted m)) = eg_members (dg_group dg) ∧
  ms_epoch (transmitted m) = im_epoch (co_scheduler co).
Proof.
  intros Hd. unfold dispatch_message in Hd. destruct (worker_socks_ co !! _); [|done].
  destruct (gather_tokens _ _ 0) as [[ts os]|]; [|done]. apply (inj Some) in Hd. by subst m.
Qed.

(** C13: remote execution is local execution: the completion a CPU worker sends
    for a dispatched group holds, member by member, the result the CPU executor
    computes on the coordinator's own token buffers, stamped with the epoch of
    the dispatch and the worker's identity. *)
Theorem remote_execution_exact co dg m w
    (Hd : dispatch_message co dg = Some m) (Hfit : members_fit (eg_members (dg_group dg)))
    (Hex : wp_exec w = CpuExecutor) :
  ms_member_results (worker_dispatch w (transmitted m))
  = (λ mem, worker_stamp w (im_epoch (co_scheduler co))
       (cpu_execute_member (InMemoryTokenResolver (tokens_ co)) mem))
    <$> eg_members (dg_group dg).
Proof.
  rewrite (worker_dispatch_results w (transmitted m) Hex).
  destruct (dispatch_received co dg m Hd) as [-> ->].
  apply list_fmap_ext. intros i mem Hi. cbn. f_equal.
  eapply dispatch_resolves; [done..|]. by eapply list_elem_of_lookup_2.
Qed.

(** ** Authority of remote completions *)

Section authority.
Context `{FE : FloatEnv} `{CK : ClockSource} `{HO : HashOrder}.

Lemma cpu_member_identity R mem :
  let mr := cpu_execute_member R mem in
  mr_request_id mr = em_request_id mem ∧ mr_attempt_id mr = em_attempt_id mem ∧
  mr_generation mr = em_generation mem.
Proof. cbv zeta. unfold cpu_execute_member, member_failure. repeat case_match; done. Qed.

(** C12: the loop closes: when a cycle started a group, its coordinator sent it,
    and the worker that was registered with this boot executed it, then every
    result the coordinator receives back is authoritative for the request it
    names, until something else happens to that request. *)
Theorem remote_completion_authoritative cfg st co batch dg m w r
    (Hc : config_fits cfg) (Hr : reachable cfg st) (Hroom : cycle_room st)
    (Hcyc : run_cycle st = (co_scheduler co, Ok batch)) (Hdg : dg ∈ db_groups batch)
    (Hd : dispatch_message co dg = Some m)
    (Hex : wp_exec w = CpuExecutor) (Hid : wp_id w = dg_assigned_worker dg)
    (Hboot : wd_boot_id <$> worker (co_scheduler co) (wp_id w) = Some (wp_boot_id w))
    (Hep : im_epoch (co_scheduler co) ≠ 0)
    (Hres : r ∈ ms_member_results (transmitted (worker_dispatch w (transmitted m)))) :
  ∃ s, authoritative (co_scheduler co) r s.
Proof.
  change (transmitted (worker_dispatch w (transmitted m))) with
    (Message_default <| ms_kind := MsgKind_completion |>
       <| ms_member_results := wire_mres <$> ms_member_results (worker_dispatch w (transmitted m)) |>) in Hres.
  rsimp in *. rewrite (worker_dispatch_results w (transmitted m) Hex) in Hres.
  destruct (dispatch_received co dg m Hd) as [Hmem Hep'].
  rewrite Hmem, Hep' in Hres.
  apply list_elem_of_fmap in Hres as (r0 & -> & (mem & -> & Hin)%list_elem_of_fmap).
  destruct (reachable_inv cfg st Hc Hr) as [o Hi].
  destruct (run_cycle_batch st Hi Hroom) as (st2 & b & E & Hbi). pose proof (bi_work _ _ _ Hbi) as B1.
  rewrite Hcyc in E. injection E as Est ->.
  destruct (dispatched_age _ _ _ (B1 dg mem Hdg Hin)) as (s & ch & Hs & Hrun & _ & Hw & Ha & Hgen & _).
  rewrite <- Est in Hs.
  destruct (cpu_member_identity (DispatchResolver (build_slices (transmitted m))) mem) as (I1 & I2 & I3).
  exists s. unfold authoritative, wire_mres, worker_stamp, compose. rsimp. rewrite I1, I2, I3.
  unfold worker in Hboot. rewrite <- option_fmap_compose in Hboot.
  apply fmap_Some in Hboot as (ws & Hws & Hb).
  split; [done|]. split; [done|]. split; [done|]. split; [right; exists ws; done|].
  split; [done|]. split; [done|]. split; [done|]. right. congruence.
Qed.
End authority.

(** ** Two consequences of what the wire and the handlers leave out *)

Lemma bind_ok {A B} (rd : Reader A) (k : A → Reader B) bs b rest :
  (rd ≫= k) bs = Ok (b, rest) → ∃ a r, rd bs = Ok (a, r) ∧ k a r = Ok (b, rest).
Proof. unfold mbind, reader_bind. destruct (rd bs) as [[a r]|]; [eauto|done]. Qed.

Lemma decoded_not_applied body m :
  decode_frame body = Ok m → cr_applied (ms_cancel_result m) = false.
Proof.
  unfold decode_frame, decode_body. destruct body as [|v [|k payload]]; [done..|].
  case_if; [done|]. case_if; [done|].
  destruct (dec_payload _ _ payload) as [[m' rest]|] eqn:Ep; [|done]. intros [= <-].
  revert Ep. generalize (of_int k : MsgKind). intros kind. destruct kind; unfold dec_payload; intros Ep;
    repeat (apply bind_ok in Ep as (? & ? & _ & Ep)); unfold mret, reader_ret, r_fail in Ep;
    try done; by injection Ep as <- _.
Qed.

Lemma client_roundtrip_received {conn} `{Stream conn} ok (c d : conn) msg k r c' d' :
  client_roundtrip ok c d msg k = (Ok r, c', d') →
  r = Message_default ∨ ∃ body, decode_frame body = Ok r.
Proof.
  unfold client_roundtrip, recv_message, wire_err. intros Hr.
  destruct (negb ok); [done|]. destruct (send_message c msg) as [[|] ?]; [|done].
  destruct (recv_frame d) as [[body|] ?]; [|done].
  destruct (decode_frame body) as [dm|] eqn:Ed; [|done].
  repeat case_if_in Hr; try done; injection Hr as <- _ _; eauto.
Qed.

(** [Client::cancel] never reports that a cancellation was applied: the flag of
    the acknowledgement is decoded into another field. *)
Lemma client_cancel_not_applied {conn} `{Stream conn} ok (c d : conn) rid cr c' d' :
  client_cancel ok c d rid = (Ok cr, c', d') → cr_applied cr = false.
Proof.
  unfold client_cancel. destruct (client_roundtrip _ _ _ _ _) as [[[r|] ?] ?] eqn:E; [|done].
  intros [= <- _ _]. apply client_roundtrip_received in E as [->|[body Hb]]; [done|].
  by apply decoded_not_applied in Hb.
Qed.

(** A group whose member has fewer tokens than its chunk needs is not sent, and
    the coordinator gives up the worker instead of the request. *)
Lemma short_tokens_lose_worker co dg groups sent mem tvec :
  mem ∈ eg_members (dg_group dg) → tokens_ co !! em_request_id mem = Some tvec →
  Z.of_nat (length tvec) < em_token_start mem +u em_token_count mem →
  co_loop (loop_dispatch co dg groups sent).1 = L_losing (dg_assigned_worker dg) groups.
Proof.
  intros Hin Ht Hlt.
  assert (∀ ms total, mem ∈ ms → gather_tokens (tokens_ co) ms total = None) as Hnone.
  { clear Hin. induction ms as [|m0 ms IH]; intros total Hin; [by apply elem_of_nil in Hin|].
    cbn [gather_tokens]. destruct (tokens_ co !! em_request_id m0) as [tv|] eqn:Et; [|done].
    apply elem_of_cons in Hin as [<-|Hin].
    - simplify_eq. by rewrite (proj2 (Z.ltb_lt _ _)).
    - case_if; [done|]. cbv zeta. by rewrite (IH _ Hin). }
  unfold loop_dispatch, dispatch_message. rewrite (Hnone _ 0 Hin).
  by destruct (worker_socks_ co !! _).
Qed.
