(* ===== verification/CoordSpec.v ===== *)
(** * The coordinator as a sequential server

    What the threads of the coordinator do together, without threads: a frame of
    a connection demands a list of calls, a call is one access to the scheduler
    with the replies it causes, and the scheduling thread alternates cycles with
    the hand-over of their groups.  Every run of the coordinator is a sequence of
    such actions, each connection being served the calls its own frames demand,
    in their order, and the scheduler being in the state these calls leave. *)

From S2P Require Import Prelude Float Types Request Chunking Memory Compat Bytes Exec Observability SchedState SchedOps SchedCycle SchedFrame SchedInv RunCycle Protocol RemoteWorker Coordinator.

(** ** Calls *)

Inductive Call :=
| K_register (wd : WorkerDescriptor)
| K_ack (wd : WorkerDescriptor)
| K_lost (w : WorkerId)
| K_report (mr : MemberResult)
| K_submit (req : PrefillRequest)
| K_cancel (rid : RequestId)
| K_state
| K_explain (rid : RequestId)
| K_roll
| K_epoch
| K_stats
| K_say (m : Message).

Section spec.
Context `{FE : FloatEnv} `{CK : ClockSource} `{HO : HashOrder}.

(** The scheduler after a call, the replies, and whether the calls that the same
    frame demands after this one are made too. *)
Definition exec (st : Impl) (k : Call) : Impl * list Message * bool :=
  match k with
  | K_register wd => ((register_worker st wd).1, [], true)
  | K_ack wd =>
      (st, [kind_message MsgKind_worker_register_ack <| ms_epoch := im_epoch st |> <| ms_worker := wd |>],
       true)
  | K_lost w => ((worker_lost st w).1, [], true)
  | K_report mr =>
      match report_completion st mr with
      | (st, Ok _) => (st, [], true)
      | (st, Err e) => (st, [error_message e (mr_request_id mr)], false)
      end
  | K_submit req =>
      let a := kind_message MsgKind_submit_ack <| ms_request_id := rq_request_id req |> in
      match submit st req with
      | (st, Ok _) => (st, [a <| ms_accepted := true |>], true)
      | (st, Err e) => (st, [a <| ms_error := e |>], true)
      end
  | K_cancel rid =>
      let '(st, cr) := cancel st rid in
      (st, [kind_message MsgKind_cancel_ack <| ms_request_id := rid |>
              <| ms_applied := cr_applied cr |> <| ms_cancel_result := cr |>
              <| ms_error := mkErrorInfo (cr_code cr) (cr_message cr) |>], true)
  | K_state =>
      (st, [kind_message MsgKind_state <| ms_epoch := im_epoch st |>
              <| ms_workers := filter (λ w, is_nil (wd_worker_id w) = false) (workers st) |>], true)
  | K_explain rid => (st, [explain_reply st rid], true)
  | K_roll => ((roll_epoch st).1, [], true)
  | K_epoch => (st, [kind_message MsgKind_state <| ms_epoch := im_epoch st |>], true)
  | K_stats => (st, [kind_message MsgKind_stats_resp <| ms_stats := im_stats st |>], true)
  | K_say m => (st, [m], true)
  end.

(** ** Sessions *)

(** Who a connection turned out to be. *)
Inductive Role := R_new | R_worker (wd : WorkerDescriptor) | R_client | R_closed.

Definition first_demand (m : Message) : Role * list Call :=
  match ms_kind m with
  | MsgKind_worker_register =>
      let wd := ms_worker m in
      if is_nil (wd_worker_id wd) then (R_closed, [])
      else (R_worker wd, [K_register wd; K_ack wd])
  | MsgKind_hello => (R_client, [])
  | _ => (R_closed, [K_say (error_message (mkErrorInfo ErrorCode_protocol_violation
                               "expected hello or worker_register") 0)])
  end.

Definition worker_demand (wd : WorkerDescriptor) (m : Message) : Role * list Call :=
  match ms_kind m with
  | MsgKind_completion => (R_worker wd, K_report <$> ms_member_results m)
  | MsgKind_ping => (R_worker wd, [K_say (kind_message MsgKind_pong)])
  | MsgKind_shutdown => (R_closed, [K_say (kind_message MsgKind_shutdown_ack)])
  | _ => (R_worker wd, [])
  end.

Definition client_demand (m : Message) : Role * list Call :=
  match ms_kind m with
  | MsgKind_submit => (R_client, [K_submit (ms_request m)])
  | MsgKind_cancel => (R_client, [K_cancel (ms_request_id m)])
  | MsgKind_query_state => (R_client, [K_state])
  | MsgKind_query_explain => (R_client, [K_explain (ms_request_id m)])
  | MsgKind_completion => (R_client, K_report <$> ms_member_results m)
  | MsgKind_roll_epoch => (R_client, [K_roll; K_epoch])
  | MsgKind_query_stats => (R_client, [K_stats])
  | MsgKind_shutdown => (R_closed, [K_say (kind_message MsgKind_shutdown_ack)])
  | _ => (R_client, [])
  end.

(** What a frame demands: a failed connection of a worker loses the worker; a
    body that is no message is ignored, unless it is the first. *)
Definition demand (r : Role) (frame : Result (list Z)) : Role * list Call :=
  match r, frame with
  | R_new, _ => match result_bind frame decode_frame with
                | Ok m => first_demand m
                | Err _ => (R_closed, [])
                end
  | R_worker wd, Err _ => (R_closed, [K_lost (wd_worker_id wd)])
  | R_worker wd, Ok body => match decode_frame body with
                            | Ok m => worker_demand wd m
                            | Err _ => (r, [])
                            end
  | R_client, Err _ => (R_closed, [])
  | R_client, Ok body => match decode_frame body with
                         | Ok m => client_demand m
                         | Err _ => (r, [])
                         end
  | R_closed, _ => (R_closed, [])
  end.

(** [session fs ks r owed]: of a connection that received the frames [fs] the
    calls [ks] were made, each with whether the frame goes on after it; it is in
    role [r] and the calls [owed] are still to be made.  A frame is looked at
    when nothing is owed; a call that ends its frame drops what the frame still
    demanded; between frames the coordinator may stop. *)
Inductive session : list (Result (list Z)) → list (Call * bool) → Role → list Call → Prop :=
| se_new : session [] [] R_new []
| se_frame fs ks r f r' owed :
    session fs ks r [] → r ≠ R_closed → demand r f = (r', owed) →
    session (fs ++ [f]) ks r' owed
| se_call fs ks r k ok owed :
    session fs ks r (k :: owed) →
    session fs (ks ++ [(k, ok)]) r (if ok then owed else [])
| se_stop fs ks r : session fs ks r [] → r ≠ R_new → session fs ks R_closed [].

(** ** Histories *)

Inductive Action :=
| A_call (c : Z) (k : Call) (ok : bool) (rs : list Message)
| A_cycle (b : DispatchBatch)
| A_sent (dg : DispatchedGroup) (c : Z) (m : Message)
| A_lost (w : WorkerId).

(** The history leads the scheduler from one state to another. *)
Inductive plays : Impl → list Action → Impl → Prop :=
| pl_nil st : plays st [] st
| pl_call st c k st1 rs ok H st' :
    exec st k = (st1, rs, ok) → plays st1 H st' → plays st (A_call c k ok rs :: H) st'
| pl_cycle st b st1 H st' :
    run_cycle st = (st1, Ok b) → plays st1 H st' → plays st (A_cycle b :: H) st'
| pl_sent st dg c m H st' :
    ms_kind m = MsgKind_dispatch → ms_group m = dg_group dg → ms_epoch m = im_epoch st →
    plays st H st' → plays st (A_sent dg c m :: H) st'
| pl_lost st w H st' : plays (worker_lost st w).1 H st' → plays st (A_lost w :: H) st'.

(** The messages an action sends. *)
Definition sent (a : Action) : list (Z * Message) :=
  match a with
  | A_call c _ _ rs => pair c <$> rs
  | A_sent _ c m => [(c, m)]
  | _ => []
  end.

(** [hands_over H p]: in the history every group of every cycle was sent, or its
    worker reported lost, before the next cycle; the groups [p] are still open. *)
Inductive hands_over : list Action → list DispatchedGroup → Prop :=
| ho_nil : hands_over [] []
| ho_call H p c k ok rs : hands_over H p → hands_over (H ++ [A_call c k ok rs]) p
| ho_cycle H b : hands_over H [] → hands_over (H ++ [A_cycle b]) (db_groups b)
| ho_sent H dg p c m : hands_over H (dg :: p) → hands_over (H ++ [A_sent dg c m]) p
| ho_lost H dg p : hands_over H (dg :: p) → hands_over (H ++ [A_lost (dg_assigned_worker dg)]) p.

(** The frames of one connection and the calls made for it. *)
Definition frames_of (c : Z) (ins : list (Z * Result (list Z))) : list (Result (list Z)) :=
  (filter (λ x, x.1 = c) ins).*2.
Definition calls_of (c : Z) (H : list Action) : list (Call * bool) :=
  omap (λ a, match a with
             | A_call d k ok _ => if decide (d = c) then Some (k, ok) else None
             | _ => None
             end) H.

(** The connection [c] presented itself as worker [w]. *)
Definition registered_as (ins : list (Z * Result (list Z))) (c : Z) (w : WorkerId) : Prop :=
  ∃ f wd, (c, f) ∈ ins ∧ demand R_new f = (R_worker wd, [K_register wd; K_ack wd]) ∧
    wd_worker_id wd = w.

(** ** What the threads stand for *)

Fixpoint role (t : Thread) : Role :=
  match t with
  | T_first => R_new
  | T_registering wd | T_acking wd | T_worker wd => R_worker wd
  | T_client | T_submitting _ | T_rolled => R_client
  | T_reporting _ back => role back
  | T_done => R_closed
  end.
Definition owed (t : Thread) : list Call :=
  match t with
  | T_registering wd => [K_register wd; K_ack wd]
  | T_acking wd => [K_ack wd]
  | T_submitting req => [K_submit req]
  | T_reporting rest _ => K_report <$> rest
  | T_rolled => [K_epoch]
  | _ => []
  end.
Definition open_groups (l : Loop) (p : list DispatchedGroup) : Prop :=
  match l with
  | L_cycle => p = []
  | L_dispatching gs => p = gs
  | L_losing w gs => ∃ dg, p = dg :: gs ∧ dg_assigned_worker dg = w
  end.
(** A reporting thread goes back to reading frames. *)
Definition back_ok (t : Thread) : Prop :=
  match t with T_reporting _ back => between_frames back = true | _ => True end.

(** The run of the coordinator is the history [H]. *)
Record implements (st0 : Impl) (ins : list (Z * Result (list Z))) (outs : list (Z * Message))
    (H : list Action) (co : Coordinator) : Prop := {
  ip_plays : plays st0 H (co_scheduler co);
  ip_new : ∀ c, co_threads co !! c = None → frames_of c ins = [] ∧ calls_of c H = [];
  ip_session : ∀ c t, co_threads co !! c = Some t →
    session (frames_of c ins) (calls_of c H) (role t) (owed t) ∧ back_ok t;
  ip_sent : outs = H ≫= sent;
  ip_loop : ∃ p, hands_over H p ∧ open_groups (co_loop co) p;
  ip_socks : ∀ w c, worker_socks_ co !! w = Some c → registered_as ins c w;
  ip_target : ∀ dg c m, A_sent dg c m ∈ H → registered_as ins c (dg_assigned_worker dg)
}.

(** ** Lemmas on histories *)

Lemma plays_app st1 H1 st2 H2 st3 : plays st1 H1 st2 → plays st2 H2 st3 → plays st1 (H1 ++ H2) st3.
Proof. induction 1; intros Hp; [done|cbn; econstructor; eauto..]. Qed.

Lemma frames_of_app c i1 i2 : frames_of c (i1 ++ i2) = frames_of c i1 ++ frames_of c i2.
Proof. unfold frames_of. by rewrite filter_app, fmap_app. Qed.
Lemma frames_of_own c fs : frames_of c (pair c <$> fs) = fs.
Proof.
  unfold frames_of. induction fs as [|f fs IH]; [done|]. rewrite fmap_cons, filter_cons_True by done.
  by rewrite fmap_cons, IH.
Qed.
Lemma frames_of_other c d fs : c ≠ d → frames_of c (pair d <$> fs) = [].
Proof.
  intros Hne. unfold frames_of. induction fs as [|f fs IH]; [done|].
  rewrite fmap_cons, filter_cons_False by (cbn; congruence). done.
Qed.

(** The actions of the calls of one connection. *)
Definition call_actions (c : Z) (l : list (Call * bool * list Message)) : list Action :=
  (λ x, A_call c x.1.1 x.1.2 x.2) <$> l.

Lemma calls_of_app c H1 H2 : calls_of c (H1 ++ H2) = calls_of c H1 ++ calls_of c H2.
Proof. apply omap_app. Qed.
Lemma calls_of_own c l : calls_of c (call_actions c l) = l.*1.
Proof.
  unfold calls_of, call_actions. induction l as [|[[k ok] rs] l IH]; [done|]. cbn.
  rewrite decide_True by done. by f_equal.
Qed.
Lemma calls_of_other c d l : c ≠ d → calls_of c (call_actions d l) = [].
Proof.
  intros Hne. unfold calls_of, call_actions. induction l as [|x l IH]; [done|]. cbn.
  by rewrite decide_False by congruence.
Qed.

Lemma sent_calls c l : call_actions c l ≫= sent = pair c <$> mjoin l.*2.
Proof.
  unfold call_actions. induction l as [|[[k ok] rs] l IH]; [done|]. rewrite !fmap_cons, bind_cons, IH.
  symmetry. apply fmap_app.
Qed.

Lemma hands_over_calls H p c l : hands_over H p → hands_over (H ++ call_actions c l) p.
Proof.
  intros Hh. induction l as [|x l IH] using rev_ind; [by rewrite app_nil_r|].
  unfold call_actions. rewrite fmap_app, app_assoc. by apply ho_call.
Qed.

Lemma registered_mono ins ins' c w : registered_as ins c w → registered_as (ins ++ ins') c w.
Proof. intros (f & wd & Hin & H). exists f, wd. split; [|done]. apply elem_of_app. by left. Qed.

(** A step of the thread of connection [c], from [t] to [t'], that receives the
    frames [fs] and makes the calls [l]. *)
Lemma conn_implements st0 ins outs H co co' c t t' fs l :
  implements st0 ins outs H co → co_threads co !! c = Some t →
  co_threads co' = <[c := t']> (co_threads co) → co_loop co' = co_loop co →
  plays (co_scheduler co) (call_actions c l) (co_scheduler co') →
  (∀ w d, worker_socks_ co' !! w = Some d →
     worker_socks_ co !! w = Some d ∨ registered_as (pair c <$> fs) d w) →
  (∀ fs0 ks, session fs0 ks (role t) (owed t) → back_ok t →
     session (fs0 ++ fs) (ks ++ l.*1) (role t') (owed t') ∧ back_ok t') →
  implements st0 (ins ++ (pair c <$> fs)) (outs ++ (pair c <$> mjoin l.*2)) (H ++ call_actions c l) co'.
Proof.
  intros [I1 I2 I3 I4 (p & I5 & I6) I7 I8] Ht Et El Hp Hsk Hse. split.
  - by eapply plays_app.
  - intros d. rewrite Et, lookup_insert. case_decide as Hd; [done|]. intros Hn.
    rewrite frames_of_app, calls_of_app, frames_of_other, calls_of_other, !app_nil_r by done. by apply I2.
  - intros d t2. rewrite Et, lookup_insert, frames_of_app, calls_of_app. case_decide as Hd.
    + subst d. intros [= <-]. rewrite frames_of_own, calls_of_own. destruct (I3 c t Ht). by apply Hse.
    + intros Hs. rewrite frames_of_other, calls_of_other, !app_nil_r by done. by apply I3.
  - by rewrite I4, bind_app, sent_calls.
  - exists p. split; [by apply hands_over_calls|by rewrite El].
  - intros w d Hw. destruct (Hsk w d Hw) as [Ho|(f & wd & Hin & Hr)]; [by apply registered_mono, I7|].
    exists f, wd. split; [|done]. apply elem_of_app. by right.
  - intros dg d m [Hin|Hin]%elem_of_app; [by eapply registered_mono, I8|].
    apply list_elem_of_fmap in Hin as (x & E & _). discriminate E.
Qed.

(** ** Frames *)

(** The step in which thread [t] of connection [c] looks at frame [f] makes the
    first calls the frame demands, and owes the others. *)
Definition handles (co : Coordinator) (c : Z) (t : Thread) (f : Result (list Z))
    (co' : Coordinator) (out : list Message) : Prop :=
  ∃ t' (l : list (Call * bool * list Message)),
    co_threads co' = <[c := t']> (co_threads co) ∧ co_loop co' = co_loop co ∧
    plays (co_scheduler co) (call_actions c l) (co_scheduler co') ∧
    (∀ w d, worker_socks_ co' !! w = Some d →
       worker_socks_ co !! w = Some d ∨ registered_as [(c, f)] d w) ∧
    out = mjoin l.*2 ∧ demand (role t) f = (role t', l.*1.*1 ++ owed t') ∧
    Forall (λ x, x.1.2 = true) l ∧ back_ok t'.

Lemma session_calls fs ks r (l : list (Call * bool * list Message)) o :
  session fs ks r (l.*1.*1 ++ o) → Forall (λ x, x.1.2 = true) l → session fs (ks ++ l.*1) r o.
Proof.
  revert ks. induction l as [|[[k ok] rs] l IH]; intros ks Hs Hok; [by rewrite app_nil_r|].
  apply Forall_cons in Hok as [E Hok]. cbn in E. subst ok.
  change (((k, true), rs) :: l) with ([((k, true), rs)] ++ l). rewrite fmap_app, app_assoc.
  apply IH; [|done]. apply (se_call _ _ _ _ true) in Hs. exact Hs.
Qed.

Lemma handles_implements st0 ins outs H co c t f co' out :
  implements st0 ins outs H co → co_threads co !! c = Some t → owed t = [] → role t ≠ R_closed →
  handles co c t f co' out →
  ∃ acts, implements st0 (ins ++ [(c, f)]) (outs ++ (pair c <$> out)) (H ++ acts) co'.
Proof.
  intros Hi Ht Ho Hr (t' & l & E1 & E2 & E3 & E4 & -> & E6 & E7 & E8).
  exists (call_actions c l). apply (conn_implements st0 ins outs H co co' c t t' [f] l); try done.
  intros fs0 ks Hs _. split; [|done]. rewrite Ho in Hs. eapply session_calls; [|done].
  by eapply se_frame.
Qed.

Ltac call_done := eapply pl_call; [reflexivity|apply pl_nil].
Ltac same_thread := by rewrite insert_id.

Lemma first_handles co c f :
  handles co c T_first f (conn_first co c f).1 (conn_first co c f).2.
Proof.
  unfold conn_first, handles, role, demand.
  destruct (result_bind f decode_frame) as [m|e] eqn:Em.
  2:{ exists T_done, []. split_and!; try done; [apply pl_nil|auto]. }
  unfold first_demand. destruct (ms_kind m) eqn:Ek.
  all: try (eexists T_done, [(K_say _, true, [_])]; split_and!; try done; [call_done|auto|by repeat constructor]).
  - exists T_client, []. split_and!; try done; [apply pl_nil|auto].
  - destruct (is_nil _) eqn:Enil.
    + exists T_done, []. split_and!; try done; [apply pl_nil|auto].
    + exists (T_registering (ms_worker m)), []. split_and!; try done; [apply pl_nil|].
      intros w d. unfold goto. cbn [fst]. rsimp. rewrite lookup_insert. case_decide as Hw; [|auto].
      intros [= <-]. right. exists f, (ms_worker m). split; [by left|]. split; [|done].
      unfold demand. rewrite Em. unfold first_demand. by rewrite Ek, Enil.
Qed.

Lemma worker_handles co c wd f :
  co_threads co !! c = Some (T_worker wd) →
  handles co c (T_worker wd) f (worker_frame co c wd f).1 (worker_frame co c wd f).2.
Proof.
  intros Ht. unfold worker_frame, handles, role, demand. destruct f as [body|e].
  2:{ exists T_done, [(K_lost (wd_worker_id wd), true, [])]. unfold conn_lost. cbv zeta.
      case_bool_decide as Hsk; (split_and!; try done; [call_done| |by repeat constructor]); [|auto].
      intros w d. unfold goto. cbn [fst]. rsimp. rewrite lookup_delete. case_decide; [done|auto]. }
  destruct (decode_frame body) as [m|e].
  2:{ exists (T_worker wd), []. split_and!; try done; [same_thread|apply pl_nil|auto]. }
  unfold worker_demand. destruct (ms_kind m).
  all: try (exists (T_worker wd), []; split_and!; try done; [same_thread|apply pl_nil|auto]; done).
  - exists (T_reporting (ms_member_results m) (T_worker wd)), [].
    split_and!; try done; [apply pl_nil|auto].
  - exists T_done, [(K_say (kind_message MsgKind_shutdown_ack), true, [kind_message MsgKind_shutdown_ack])].
    split_and!; try done; [call_done|auto|by repeat constructor].
  - exists (T_worker wd), [(K_say (kind_message MsgKind_pong), true, [kind_message MsgKind_pong])].
    split_and!; try done; [same_thread|call_done|auto|by repeat constructor].
Qed.

Lemma client_handles co c f :
  co_threads co !! c = Some T_client →
  handles co c T_client f (client_frame co c f).1 (client_frame co c f).2.
Proof.
  intros Ht. unfold client_frame, handles, role, demand. destruct f as [body|e].
  2:{ exists T_done, []. split_and!; try done; [apply pl_nil|auto]. }
  destruct (decode_frame body) as [m|e].
  2:{ exists T_client, []. split_and!; try done; [same_thread|apply pl_nil|auto]. }
  unfold client_demand. cbv zeta. destruct (ms_kind m).
  all: try (exists T_client, []; split_and!; try done; [same_thread|apply pl_nil|auto]; done).
  - exists (T_submitting (ms_request m)), []. split_and!; try done; [apply pl_nil|auto].
  - destruct (cancel (co_scheduler co) (ms_request_id m)) as [st cr] eqn:Ec.
    eexists T_client, [(K_cancel (ms_request_id m), true, [_])].
    split_and!; try done; [same_thread| |auto|by repeat constructor].
    eapply pl_call; [cbn; by rewrite Ec|apply pl_nil].
  - eexists T_client, [(K_state, true, [_])].
    split_and!; try done; [same_thread|call_done|auto|by repeat constructor].
  - eexists T_client, [(K_explain (ms_request_id m), true, [_])].
    split_and!; try done; [same_thread|call_done|auto|by repeat constructor].
  - eexists T_client, [(K_stats, true, [_])].
    split_and!; try done; [same_thread|call_done|auto|by repeat constructor].
  - exists (T_reporting (ms_member_results m) T_client), []. split_and!; try done; [apply pl_nil|auto].
  - exists T_done, [(K_say (kind_message MsgKind_shutdown_ack), true, [kind_message MsgKind_shutdown_ack])].
    split_and!; try done; [call_done|auto|by repeat constructor].
  - exists T_rolled, [(K_roll, true, [])]. split_and!; try done; [call_done|auto|by repeat constructor].
Qed.

(** ** Calls that are steps of their own *)

Lemma call_implements st0 ins outs H co co' c t t' k rs ok st' :
  implements st0 ins outs H co → co_threads co !! c = Some t →
  co_threads co' = <[c := t']> (co_threads co) → co_loop co' = co_loop co →
  worker_socks_ co' = worker_socks_ co → exec (co_scheduler co) k = (st', rs, ok) →
  co_scheduler co' = st' → owed t = k :: (if ok then owed t' else tail (owed t)) →
  (ok = false → owed t' = []) → role t' = role t → back_ok t' →
  ∃ acts, implements st0 (ins ++ []) (outs ++ (pair c <$> rs)) (H ++ acts) co'.
Proof.
  intros Hi Ht E1 E2 E3 Hx <- Ho Hf Hr Hb. exists (call_actions c [(k, ok, rs)]).
  replace rs with (mjoin [(k, ok, rs)].*2) at 1 by apply app_nil_r.
  apply (conn_implements st0 ins outs H co co' c t t' [] [(k, ok, rs)]); try done.
  - eapply pl_call; [exact Hx|apply pl_nil].
  - rewrite E3. auto.
  - intros fs0 ks Hs _. split; [|done]. rewrite app_nil_r, Hr. rewrite Ho in Hs.
    apply (se_call _ _ _ _ ok) in Hs. destruct ok; [exact Hs|]. by rewrite (Hf eq_refl).
Qed.

Lemma report_implements st0 ins outs H co c rest back :
  implements st0 ins outs H co → co_threads co !! c = Some (T_reporting rest back) →
  ∃ acts, implements st0 (ins ++ []) (outs ++ (pair c <$> (report_next co c rest back).2)) (H ++ acts)
    (report_next co c rest back).1.
Proof.
  intros Hi Ht. pose proof (proj2 (ip_session _ _ _ _ _ Hi _ _ Ht)) as Hb. cbn in Hb.
  assert (back_ok back ∧ owed back = []) as [Hbb Hob] by (by destruct back).
  unfold report_next. destruct rest as [|mr rest].
  - exists []. apply (conn_implements st0 ins outs H co _ c (T_reporting [] back) back [] []); try done.
    + apply pl_nil.
    + auto.
    + intros fs0 ks Hs _. by rewrite !app_nil_r, Hob.
  - destruct (report_completion (co_scheduler co) mr) as [st res] eqn:Er.
    destruct res as [u|e]; cbn [fst snd].
    + eapply (call_implements _ _ _ _ co _ c _ _ (K_report mr) [] true st Hi Ht); try done.
      cbn. by rewrite Er.
    + eapply (call_implements _ _ _ _ co _ c _ back (K_report mr) _ false st Hi Ht); try done.
      cbn. by rewrite Er.
Qed.

Lemma submit_implements st0 ins outs H co c req :
  implements st0 ins outs H co → co_threads co !! c = Some (T_submitting req) →
  ∃ acts, implements st0 (ins ++ []) (outs ++ (pair c <$> (conn_submit co c req).2)) (H ++ acts)
    (conn_submit co c req).1.
Proof.
  intros Hi Ht. unfold conn_submit. destruct (submit (co_scheduler co) req) as [st res] eqn:Es.
  cbn [fst snd].
  eapply (call_implements _ _ _ _ co _ c _ T_client (K_submit req) _ true st Hi Ht); try done.
  unfold exec. rewrite Es. by destruct res.
Qed.

(** ** The scheduling thread *)

Lemma loop_implements st0 ins outs H co co' acts :
  implements st0 ins outs H co → co_threads co' = co_threads co →
  worker_socks_ co' = worker_socks_ co → plays (co_scheduler co) acts (co_scheduler co') →
  (∀ c, calls_of c acts = []) →
  (∀ p, hands_over H p → open_groups (co_loop co) p →
     ∃ p', hands_over (H ++ acts) p' ∧ open_groups (co_loop co') p') →
  (∀ dg c m, A_sent dg c m ∈ acts → worker_socks_ co !! dg_assigned_worker dg = Some c) →
  implements st0 (ins ++ []) (outs ++ (acts ≫= sent)) (H ++ acts) co'.
Proof.
  intros [I1 I2 I3 I4 (p & I5 & I6) I7 I8] Et Es Hp Hc Hl Hs. rewrite app_nil_r. split.
  - by eapply plays_app.
  - intros c. rewrite Et, calls_of_app, Hc, app_nil_r. apply I2.
  - intros c t. rewrite Et, calls_of_app, Hc, app_nil_r. apply I3.
  - by rewrite I4, bind_app.
  - by eapply Hl.
  - rewrite Es. apply I7.
  - intros dg c m [Hin|Hin]%elem_of_app; [by eapply I8|]. by eapply I7, Hs.
Qed.

Lemma cycle_implements st0 ins outs H co :
  implements st0 ins outs H co → co_loop co = L_cycle →
  ∃ acts, implements st0 (ins ++ []) (outs ++ []) (H ++ acts) (loop_cycle co).
Proof.
  intros Hi Hl. unfold loop_cycle. pose proof (run_cycle_eq (co_scheduler co)) as Hrun. cbv zeta in Hrun.
  destruct (form_groups _ _) as [st1 open]. destruct (foldl _ _ open) as [st2 b]. rewrite Hrun.
  exists [A_cycle b]. apply (loop_implements st0 ins outs H co _ [A_cycle b] Hi); try done.
  - eapply pl_cycle; [exact Hrun|apply pl_nil].
  - intros p Hh Ho. rewrite Hl in Ho. cbn in Ho. subst p. exists (db_groups b).
    split; [by apply ho_cycle|done].
  - intros dg c m [[=]|Hin]%elem_of_cons. by inversion Hin.
Qed.

Lemma dispatch_implements st0 ins outs H co dg gs s :
  implements st0 ins outs H co → co_loop co = L_dispatching (dg :: gs) →
  ∃ acts, implements st0 (ins ++ []) (outs ++ (loop_dispatch co dg gs s).2) (H ++ acts)
    (loop_dispatch co dg gs s).1.
Proof.
  intros Hi Hl.
  assert (∃ acts, implements st0 (ins ++ []) (outs ++ []) (H ++ acts)
    (co <| co_loop := L_losing (dg_assigned_worker dg) gs |>)) as Hlose.
  { exists []. apply (loop_implements st0 ins outs H co _ [] Hi); try done; [apply pl_nil| |].
    - intros p Hh Ho. rewrite Hl in Ho. cbn in Ho. subst p. exists (dg :: gs).
      rewrite app_nil_r. split; [done|]. by exists dg.
    - intros ? ? ? Hin. by inversion Hin. }
  unfold loop_dispatch. destruct (dispatch_message co dg) as [m|] eqn:Em; [|exact Hlose].
  destruct (worker_socks_ co !! dg_assigned_worker dg) as [c|] eqn:Ec; [|exact Hlose].
  destruct (s && has_value (encode_frame m)); [|exact Hlose]. cbn [fst snd].
  assert (ms_kind m = MsgKind_dispatch ∧ ms_group m = dg_group dg ∧
    ms_epoch m = im_epoch (co_scheduler co)) as (M1 & M2 & M3).
  { unfold dispatch_message in Em. rewrite Ec in Em. destruct (gather_tokens _ _ _) as [[ts os]|]; [|done].
    by injection Em as <-. }
  exists [A_sent dg c m]. apply (loop_implements st0 ins outs H co _ [A_sent dg c m] Hi); try done.
  - apply pl_sent; [done..|apply pl_nil].
  - intros p Hh Ho. rewrite Hl in Ho. cbn in Ho. subst p. exists gs. split; [by apply ho_sent|done].
  - intros dg' c' m' [[= -> -> ->]|Hin]%elem_of_cons; [done|]. by inversion Hin.
Qed.

Lemma lost_implements st0 ins outs H co w gs :
  implements st0 ins outs H co → co_loop co = L_losing w gs →
  ∃ acts, implements st0 (ins ++ []) (outs ++ []) (H ++ acts) (loop_lost co w gs).
Proof.
  intros Hi Hl. exists [A_lost w]. apply (loop_implements st0 ins outs H co _ [A_lost w] Hi); try done.
  - apply pl_lost, pl_nil.
  - intros p Hh Ho. rewrite Hl in Ho. destruct Ho as (dg & -> & <-). exists gs.
    split; [by apply ho_lost|done].
  - intros dg c m [[=]|Hin]%elem_of_cons. by inversion Hin.
Qed.

Lemma cstep_implements st0 ins outs H co i o co' :
  implements st0 ins outs H co → cstep co i o co' →
  ∃ acts, implements st0 (ins ++ i) (outs ++ o) (H ++ acts) co'.
Proof.
  intros Hi Hst. destruct Hst as [co c Hc|co c f Hc|co c wd Hc|co c wd Hc|co c wd f Hc|co c rest back Hc
    |co c f Hc|co c req Hc|co c Hc|co c t Hc Hb|co Hl|co Hl|co dg gs s Hl|co w gs Hl].
  - exists []. destruct Hi as [I1 I2 I3 I4 I5 I6 I7]. rewrite !app_nil_r. split; try done.
    + intros d. unfold goto. rsimp. rewrite lookup_insert. case_decide; [done|apply I2].
    + intros d t. unfold goto. rsimp. rewrite lookup_insert. case_decide; [|apply I3].
      subst d. intros [= <-]. destruct (I2 c Hc) as [-> ->]. split; [apply se_new|done].
  - eapply handles_implements; [done..|apply first_handles].
  - by eapply (call_implements _ _ _ _ co _ c _ (T_acking wd) (K_register wd) [] true _ Hi Hc).
  - by eapply (call_implements _ _ _ _ co _ c _ (T_worker wd) (K_ack wd) _ true _ Hi Hc).
  - eapply handles_implements; [done..|by apply worker_handles].
  - by apply report_implements.
  - eapply handles_implements; [done..|by apply client_handles].
  - by apply submit_implements.
  - by eapply (call_implements _ _ _ _ co _ c _ T_client K_epoch _ true _ Hi Hc).
  - exists []. apply (conn_implements st0 ins outs H co _ c t T_done [] []); try done; [apply pl_nil|auto|].
    intros fs ks Hs _. rewrite !app_nil_r. split; [|done]. destruct t; try done; by eapply se_stop.
  - by apply cycle_implements.
  - exists []. apply (loop_implements st0 ins outs H co _ [] Hi); try done; [apply pl_nil| |].
    + intros p Hh Ho. rewrite Hl in Ho. exists p. rewrite app_nil_r. done.
    + intros ? ? ? Hin. by inversion Hin.
  - by apply dispatch_implements.
  - by apply lost_implements.
Qed.

Lemma crun_implements co0 ins outs co :
  co_threads co0 = ∅ → worker_socks_ co0 = ∅ → co_loop co0 = L_cycle → crun co0 ins outs co →
  ∃ H, implements (co_scheduler co0) ins outs H co.
Proof.
  intros Ht Hs Hl. induction 1 as [|ins outs co i o co' _ [H IH] Hst].
  - exists []. split; rewrite ?Ht, ?Hs, ?Hl; try done; [apply pl_nil|exists []; split; [apply ho_nil|done]|].
    intros ? ? ? Hin. by inversion Hin.
  - destruct (cstep_implements _ _ _ _ _ _ _ _ IH Hst) as [acts Hi]. eauto.
Qed.

End spec.
