(* ===== verification/Tables.v ===== *)
(** * The worker and tenant tables

    Workers never hold more units than their capacity; a tenant's weight and
    normalized service never leave their initial values. *)

From S2P Require Import Prelude Float Types Request Chunking Memory Compat Exec Observability SchedState SchedOps SchedCycle SchedFrame SchedInv SchedOpsInv SchedOpsInv2 SubmitInv CycleInv DispatchInv GroupInv FormInv RunCycle Bytes Persist SchedPersist ImportInv CycleFrame Reach.

Section choose.
Context `{FE : FloatEnv} `{CK : ClockSource} `{HO : HashOrder} `{OR : Origin}.

(** ** Worker selection *)

Lemma choose_fold backend l acc :
  match foldl (λ chosen kv,
    if worker_eligible backend kv.2 then
      match chosen with
      | Some c => if kv.1 <? c then Some kv.1 else Some c
      | None => Some kv.1
      end
    else chosen) acc l with
  | Some w => (acc = Some w ∨ ∃ ws, (w, ws) ∈ l ∧ worker_eligible backend ws = true) ∧
      (∀ c, acc = Some c → w <= c) ∧
      ∀ w' ws', (w', ws') ∈ l → worker_eligible backend ws' = true → w <= w'
  | None => acc = None ∧ ∀ w' ws', (w', ws') ∈ l → worker_eligible backend ws' = false
  end.
Proof.
  revert acc. induction l as [|[k ws] l IH]; intros acc; cbn [foldl].
  { destruct acc as [c|].
    - split; [by left|]. split; [intros ? [= <-]; lia|]. intros ? ? Hin. inversion Hin.
    - split; [done|]. intros ? ? Hin. inversion Hin. }
  cbn [fst snd]. destruct (worker_eligible backend ws) eqn:E.
  - set (acc' := match acc with Some c => if k <? c then Some k else Some c | None => Some k end).
    assert (∃ a, acc' = Some a ∧ a <= k ∧ (∀ c, acc = Some c → a <= c) ∧ (acc = Some a ∨ a = k))
      as (a & Ha & Hak & Hac & Hor).
    { unfold acc'. destruct acc as [c|]; [destruct (Z.ltb_spec k c)|].
      - exists k. split_and!; [done|lia| |by right]. intros ? [= <-]. lia.
      - exists c. split_and!; [done|lia| |by left]. intros ? [= <-]. lia.
      - exists k. split_and!; [done|lia|done|by right]. }
    specialize (IH acc'). destruct (foldl _ acc' l) as [w|].
    + destruct IH as (H1 & H2 & H3). pose proof (H2 a Ha) as Hwa. split; [|split].
      * destruct H1 as [H1|(ws' & Hin & He)]; [|right; exists ws'; split; [by right|done]].
        rewrite Ha in H1. injection H1 as ->. destruct Hor as [?| ->]; [by left|right].
        exists ws. split; [by left|done].
      * intros c Hc. specialize (Hac c Hc). lia.
      * intros w' ws' [[= -> ->]|Hin]%elem_of_cons He; [lia|by eapply H3].
    + destruct IH as [IH _]. congruence.
  - specialize (IH acc). destruct (foldl _ acc l) as [w|].
    + destruct IH as (H1 & H2 & H3). split; [|split; [done|]].
      * destruct H1 as [?|(ws' & Hin & He)]; [by left|right]. exists ws'. split; [by right|done].
      * intros w' ws' [[= -> ->]|Hin]%elem_of_cons He; [congruence|by eapply H3].
    + destruct IH as [-> H]. split; [done|]. intros w' ws' [[= -> ->]|Hin]%elem_of_cons; [done|eauto].
Qed.

Lemma choose_worker_spec st backend :
  match choose_worker st backend with
  | Some w =>
      (∃ ws, workers_ st !! w = Some ws ∧ worker_eligible backend ws = true) ∧
      ∀ w' ws', workers_ st !! w' = Some ws' → worker_eligible backend ws' = true → w <= w'
  | None => ∀ w' ws', workers_ st !! w' = Some ws' → worker_eligible backend ws' = false
  end.
Proof.
  pose proof (choose_fold backend (iter (workers_ st)) None) as H. unfold choose_worker.
  destruct (foldl _ None (iter (workers_ st))) as [w|].
  - destruct H as ([?|(ws & Hin%elem_of_iter & He)] & _ & H3); [done|]. split; [eauto|].
    intros w' ws' Hw'. apply H3. by apply elem_of_iter.
  - destruct H as [_ H]. intros w' ws' Hw'. eapply H. by apply elem_of_iter.
Qed.

(** The worker chosen for a backend is the eligible one with the least id,
    whatever order the hash table is traversed in, and none is chosen only
    when none is eligible (ready or registered, with a free unit and a
    matching backend). *)
Theorem choose_worker_least st backend :
  match choose_worker st backend with
  | Some w =>
      (∃ ws, workers_ st !! w = Some ws ∧ worker_eligible backend ws = true) ∧
      ∀ w' ws', workers_ st !! w' = Some ws' → worker_eligible backend ws' = true → w <= w'
  | None => ∀ w' ws', workers_ st !! w' = Some ws' → worker_eligible backend ws' = false
  end.
Proof. exact (choose_worker_spec st backend). Qed.
End choose.

Section tables.
Context `{FE : FloatEnv} `{CK : ClockSource} `{HO : HashOrder} `{OR : Origin}.

(** ** Invariants of the two tables *)

Definition ws_ok (ws : Ws) : Prop :=
  0 <= ws_busy_units ws ∧
  (ws_busy_units ws = 0 ∨ ws_busy_units ws <= wd_capacity_units (ws_desc ws)).

(** Weight and service of a tenant at their initial values. *)
Definition ts_plain (ts : TenantService) : Prop :=
  ts_weight ts = d_one ∧ ts_normalized_service ts = d_zero.

Definition workers_ok (m : gmap Z Ws) : Prop := ∀ w ws, m !! w = Some ws → ws_ok ws.
Definition tenants_plain (m : gmap Z TenantService) : Prop :=
  ∀ t, ts_plain (map_at TenantService_default m t).

Record tables_ok (st : Impl) : Prop := {
  to_workers : workers_ok (workers_ st);
  to_tenants : tenants_plain (tenants_ st)
}.

Lemma tables_same st st' :
  tables_ok st → workers_ st' = workers_ st → tenants_ st' = tenants_ st → tables_ok st'.
Proof. intros [H1 H2] E1 E2. by split; rewrite ?E1, ?E2. Qed.

Lemma workers_ok_insert m w ws : workers_ok m → ws_ok ws → workers_ok (<[w := ws]> m).
Proof. intros Hm Hw k x [[<- <-]|[_ Hx]]%lookup_insert_Some; [done|by eapply Hm]. Qed.

Lemma workers_ok_dec m w : workers_ok m → workers_ok (dec_busy_opt w m).
Proof.
  intros Hm. destruct w as [w|]; [|done]. cbn. unfold dec_busy.
  destruct (m !! w) as [ws|] eqn:Hw; [|done]. destruct (Z.ltb_spec 0 (ws_busy_units ws)); [|done].
  apply workers_ok_insert; [done|]. destruct (Hm w ws Hw) as [H1 H2]. unfold ws_ok. rsimp.
  pose proof (Z.mod_pos_bound (ws_busy_units ws - 1) (2 ^ 64) ltac:(lia)) as Hb.
  pose proof (Z.mod_le (ws_busy_units ws - 1) (2 ^ 64) ltac:(lia) ltac:(lia)) as Hle.
  unfold u64. lia.
Qed.

Lemma tenants_plain_insert m t ts : tenants_plain m → ts_plain ts → tenants_plain (<[t := ts]> m).
Proof.
  intros Hm Ht k. unfold map_at in *. destruct (decide (t = k)) as [<-|Hne].
  - by rewrite lookup_insert_eq.
  - rewrite lookup_insert_ne by done. apply Hm.
Qed.

Lemma plain_close rem ts : ts_plain ts → ts_plain (close_tenant rem ts).
Proof.
  unfold close_tenant, sub_admitted, dec_outstanding, ts_plain. intros [H1 H2].
  destruct (_ <=? _); by rsimp.
Qed.

Lemma plain_dec ts : ts_plain ts → ts_plain (dec_outstanding ts).
Proof. done. Qed.

Lemma plain_weight ts w :
  ts_plain ts → ts_plain (if d_eqb (ts_weight ts) d_zero then ts <| ts_weight := w |> else ts).
Proof. intros [H1 H2]. rewrite H1. by split. Qed.

(** Closes the goals left by the operations on one request. *)
Ltac tables :=
  split; eff;
  repeat first [ assumption
               | apply workers_ok_dec | apply tenants_plain_insert
               | apply plain_close | apply plain_weight
               | lazymatch goal with |- ts_plain (map_at _ _ _) =>
                   match goal with H : tenants_plain _ |- _ => apply H end end
               | lazymatch goal with |- ts_plain (dec_outstanding _) => apply plain_dec end
               | lazymatch goal with |- ts_plain (setf _ _ ?t) =>
                   change (ts_plain t) end ].

Lemma cancel_tables st rid : tables_ok st → tables_ok (cancel st rid).1.
Proof.
  intros [Hw Ht]. unfold cancel. destruct (requests_ st !! rid) as [s|]; [|done].
  destruct (is_terminal_lifecycle _); [done|]. destruct (rs_in_flight s).
  - cbv zeta. tables.
  - rewrite release_reservation_eq. cbv beta iota zeta. repeat eff_step.
    destruct (is_nil (rs_current_group s)); cbv beta iota zeta; cbn [negb]; tables.
Qed.

Lemma cancel_generation_tables st rid g : tables_ok st → tables_ok (cancel_generation st rid g).1.
Proof.
  intros [Hw Ht]. unfold cancel_generation. destruct (requests_ st !! rid) as [s|]; [|done].
  destruct (is_terminal_lifecycle _); [done|]. destruct (_ && _); [|done]. cbv zeta. tables.
Qed.

Lemma force_retry_tables st rid : tables_ok st → tables_ok (force_retry st rid).1.
Proof.
  intros [Hw Ht]. unfold force_retry. destruct (requests_ st !! rid) as [s|]; [|done].
  destruct (is_terminal_lifecycle _); [done|].
  destruct (rs_in_flight s); rewrite ?release_reservation_eq; cbv beta iota zeta;
    rewrite ?drop_group_eq; cbv beta iota zeta; repeat eff_step;
    destruct (_ <=? _); rewrite ?restart_attempt_eq; cbv beta iota zeta; tables.
Qed.

Lemma report_tables st r : tables_ok st → tables_ok (report_completion st r).1.
Proof.
  intros Hok. unfold report_completion. destruct (is_nil (mr_epoch r)); [done|].
  destruct (negb _); [by apply (tables_same st)|].
  destruct (requests_ st !! mr_request_id r) as [s|]; [|done].
  do 6 (case_match; [by apply (tables_same st)|]).
  destruct Hok as [Hw Ht]. unfold apply_completion, account_chunk, im_now, apply_outcome.
  cbv beta iota zeta. destruct (mr_outcome r); repeat eff_step.
  all: repeat match goal with |- context [if ?b then _ else _] =>
    lazymatch b with
    | rs_cancel_pending _ => destruct b
    | _ <? chunk_count _ => destruct b
    | rs_retries_used _ <? _ => destruct b
    end end.
  all: rewrite ?restart_attempt_eq; unfold finish; cbv beta iota zeta;
    rewrite ?release_reservation_eq; cbv beta iota zeta; rewrite ?detach_eq; cbv beta iota zeta.
  all: tables.
Qed.

Lemma register_worker_tables st w : tables_ok st → tables_ok (register_worker st w).1.
Proof.
  intros [Hw Ht]. unfold register_worker. destruct (is_nil (wd_worker_id w)); [done|].
  destruct (is_nil (wd_boot_id w)); cbv beta iota zeta; cbn [negb]; split; eff; try done.
  all: apply workers_ok_insert; [done|]; split; rsimp; [lia|by left].
Qed.

Lemma unregister_worker_tables st w : tables_ok st → tables_ok (unregister_worker st w).1.
Proof.
  intros [Hw Ht]. unfold unregister_worker. destruct (workers_ st !! w) as [ws|] eqn:E; [|done].
  split; eff; try done. apply workers_ok_insert; [done|]. apply (Hw w ws E).
Qed.

Lemma worker_lost_tables st w : tables_ok st → tables_ok (worker_lost st w).1.
Proof.
  intros Hok. unfold worker_lost. cbv zeta.
  assert (tables_ok (foldl (recover_group w) st (iter_keys (groups_ st)))) as [Hw Ht].
  { apply (foldl_preserve tables_ok); [|done]. intros st1 gid _ H1. unfold recover_group.
    destruct (groups_ st1 !! gid) as [g|]; [|done]. destruct (gs_worker g =? w); [|done].
    apply (tables_same (foldl recover_member st1 (set_elements (gs_outstanding g)))); [|done..].
    apply (foldl_preserve tables_ok); [|done]. intros st2 rid _ H2. unfold recover_member.
    destruct (requests_ st2 !! rid) as [s|]; [|done]. destruct (_ && _); [|done].
    rewrite release_reservation_eq. cbv beta iota zeta. apply (tables_same st2); [done|by eff..]. }
  destruct (workers_ _ !! w) as [ws|]; split; eff; try done.
  apply workers_ok_insert; [done|]. split; rsimp; [lia|by left].
Qed.

Lemma attach_tables st ex be : tables_ok st → tables_ok (attach_executor st ex be).
Proof.
  intros [Hw Ht]. unfold attach_executor. cbv zeta. repeat eff_step.
  destruct (workers_ st !! 0) as [ws|] eqn:E; split; eff; try done.
  - apply workers_ok_insert; [done|]. destruct (Hw 0 ws E) as [H1 H2]. split; rsimp; done.
  - apply workers_ok_insert; [done|]. split; [done|by left].
Qed.

Lemma submit_tables st req toks : tables_ok st → tables_ok (submit_with_tokens st req toks).1.
Proof.
  intros [Hw Ht]. unfold submit_with_tokens. destruct (negb _); [done|].
  destruct (bool_decide _); [done|]. destruct (register_request _ _ _) as [tr [[]|e]]; [|done].
  cbv zeta. destruct (_ <=? _); [unfold reject_capacity; by split; eff|].
  destruct (cfg_per_tenant_outstanding_limit _ <=? _); [unfold reject_capacity; tables|].
  destruct (_ <? _); [unfold reject_capacity; tables|].
  unfold alloc_attempt, im_now. cbv beta iota zeta. destruct (_ =? 0); tables.
Qed.

(** ** The cycle *)

Lemma expire_one_tables now st rid : tables_ok st → tables_ok (expire_one now st rid).
Proof.
  intros [Hw Ht]. unfold expire_one. destruct (requests_ st !! rid) as [s|]; [|done].
  destruct (is_terminal_lifecycle _); [done|]. destruct (_ || _); [|done].
  rewrite release_reservation_eq, group_erase_member_eq. cbv beta iota zeta. repeat eff_step.
  destruct (past_deadline now s), (rs_in_flight s); tables.
Qed.

Lemma touch_tables st l : tables_ok st → tables_ok (touch_tenants st l).
Proof.
  intros Hok. unfold touch_tenants. destruct (1 <? length l)%nat; [|done].
  apply (foldl_preserve tables_ok); [|done]. intros st' rid _ [Hw Ht]. split; eff; [done|].
  apply tenants_plain_insert; [done|apply Ht].
Qed.

Lemma form_tables st l : tables_ok st → tables_ok (form_groups st l).1.
Proof.
  intros Hok. unfold form_groups.
  apply (foldl_preserve (λ acc : Impl * list OpenGroup, tables_ok acc.1)); [|done].
  intros [st' open] rid _ H. cbn [fst] in H. unfold form_one. destruct (negb _); [done|].
  destruct (pending_chunk _); [|done]. destruct (place _ _ _ _ _ _); [by apply (tables_same st')|].
  unfold alloc_group. cbv beta iota. by apply (tables_same st').
Qed.

Lemma reserve_members_tenants st rids : tenants_ (reserve_members st rids).1.1 = tenants_ st.
Proof.
  revert st. induction rids as [|rid rids IH]; intros st; [done|]. cbn [reserve_members].
  unfold alloc_reservation. cbv beta iota zeta.
  destruct (reserve _ _ _ _ _) as [m [[]|e]]; [|done].
  match goal with |- context [reserve_members ?x rids] => specialize (IH x);
    destruct (reserve_members x rids) as [[st' l] ok] end.
  cbn [fst] in *. rewrite IH. done.
Qed.

Lemma rollback_tenants st l : tenants_ (rollback st l) = tenants_ st.
Proof.
  rewrite rollback_eq. apply (foldl_preserve (λ st', tenants_ st' = tenants_ st)); [|done].
  intros st' x _ <-. done.
Qed.

Lemma trace_tenants line rids st : tenants_ (foldl (trace_request line) st rids) = tenants_ st.
Proof.
  apply (foldl_preserve (λ st', tenants_ st' = tenants_ st)); [|done]. by intros st' x _ <-.
Qed.

Lemma commit_group_tenants now w st g : tenants_ (commit_group now w st g).1 = tenants_ st.
Proof.
  unfold commit_group.
  assert (∀ l acc, tenants_ (foldl (commit_member now (eg_group_id (og_group g)) w) acc l).1.1.1
    = tenants_ acc.1.1.1) as Hf.
  { induction l as [|[rid m] l IH]; intros [[[st1 ms] out] bytes]; [done|]. cbn [foldl]. rewrite IH.
    cbn [fst]. unfold commit_member, alloc_generation. cbv beta iota zeta.
    destruct (_ =? 0); by eff. }
  specialize (Hf (zip (og_rids g) (eg_members (og_group g))) (st, [], ∅, 0)).
  destruct (foldl _ (st, [], ∅, 0) _) as [[[st1 ms] out] bytes]. cbn [fst] in *. by eff.
Qed.

Lemma dispatch_group_tenants now st b g : tenants_ (dispatch_group now (st, b) g).1 = tenants_ st.
Proof.
  unfold dispatch_group. destruct (bool_decide _); [done|].
  destruct (choose_worker _ _) as [w|]; [|apply trace_tenants].
  pose proof (reserve_members_tenants st (og_rids g)) as Hr.
  destruct (reserve_members st (og_rids g)) as [[st1 l] ok]. cbn [fst] in Hr.
  destruct ok; cbn [negb].
  - pose proof (commit_group_tenants now w st1 g) as Hc.
    destruct (commit_group now w st1 g) as [st2 dg]. cbn [fst] in *. congruence.
  - cbn [fst]. by rewrite trace_tenants, rollback_tenants.
Qed.

Lemma dispatch_group_tables now st b g :
  sched_inv st → og_ok st g → room st (length (og_rids g)) → tables_ok st →
  tables_ok (dispatch_group now (st, b) g).1.
Proof.
  intros Hi Ho Hr [Hw Ht]. pose proof (dispatch_group_tenants now st b g) as Hten.
  pose proof (dispatch_group_spec now st b g Hi Ho Hr) as Hsp.
  destruct (dispatch_group now (st, b) g) as [st' b']. cbn [fst] in *.
  split; [|by rewrite Hten].
  destruct Hsp as [_ [[(_ & _ & ->) _]|(w & dg & Hch & _ & -> & _)]]; [done|].
  pose proof (choose_worker_spec st (eg_backend (og_group g))) as Hcw. rewrite Hch in Hcw.
  destruct Hcw as [(ws & Hws & He) _].
  assert (ws_busy_units ws < wd_capacity_units (ws_desc ws)) as Hlt.
  { unfold worker_eligible in He. rewrite !andb_true_iff, negb_true_iff, Z.leb_gt in He. tauto. }
  intros k x. rewrite lookup_alter. destruct (decide (w = k)) as [<-|Hne]; [|exact (Hw k x)].
  rewrite Hws.
  intros [= <-]. destruct (Hw w ws Hws) as [H1 _]. unfold ws_ok. rsimp.
  destruct (decide (is_u64 (ws_busy_units ws + 1))) as [Hu|Hu].
  - rewrite (u64_small _ Hu). lia.
  - pose proof (Z.mod_pos_bound (ws_busy_units ws + 1) (2 ^ 64) ltac:(lia)) as Hb.
    pose proof (Z.mod_le (ws_busy_units ws + 1) (2 ^ 64) ltac:(lia) ltac:(lia)) as Hle.
    unfold u64. lia.
Qed.

Lemma swept_tables now st : tables_ok st → tables_ok (swept now st).
Proof.
  intros Hok. apply touch_tables. apply (foldl_preserve tables_ok); [|done].
  intros st' rid _. apply expire_one_tables.
Qed.

Lemma run_cycle_tables st :
  sched_inv st → cycle_room st → tables_ok st → tables_ok (run_cycle st).1.
Proof.
  intros Hi Hroom Hok. pose proof (run_cycle_eq st) as Heq.
  pose proof (cycle_formed st Hi Hroom) as Hf. cbv zeta in *.
  set (now := clock_now (im_clock_reads st)) in *. set (st0 := st <| im_clock_reads ::= S |>) in *.
  pose proof (form_tables (swept now st0) (ordered now st0)) as Hft.
  destruct (form_groups (swept now st0) (ordered now st0)) as [st1 open].
  destruct Hf as (Hform & Hog & Hg & Hnd & Hr).
  pose proof (dispatch_all_ind (λ st _, tables_ok st) now open st1 DispatchBatch_empty
    (fm_inv _ _ _ _ Hform) Hog Hg Hnd Hr) as Hd.
  destruct (foldl (dispatch_group now) (st1, DispatchBatch_empty) open) as [st2 batch].
  destruct Hd as [_ Hd].
  - apply Hft, swept_tables. by apply (tables_same st).
  - intros st3 b3 g _ Hi3 Ho3 Hr3 H3. pose proof (dispatch_group_tables now st3 b3 g Hi3 Ho3 Hr3 H3) as H.
    by destruct (dispatch_group now (st3, b3) g).
  - rewrite Heq. cbn [fst]. apply (tables_same st2); [done|unfold refresh_queue_stats; by eff..].
Qed.

Lemma step_tables st st' : sched_inv st → step st st' → tables_ok st → tables_ok st'.
Proof.
  intros Hi Hst Hok. destruct Hst; auto using submit_tables, run_cycle_tables, report_tables,
    cancel_tables, cancel_generation_tables, force_retry_tables, register_worker_tables,
    unregister_worker_tables, worker_lost_tables, attach_tables.
  by apply (tables_same st).
Qed.

(** ** Recovery *)

Lemma import_request_tables st rec : tables_ok st → tables_ok (import_request st rec).
Proof.
  intros [Hw Ht]. split; [exact Hw|]. unfold import_request, upd_tenant, put_rs. cbv zeta. rsimp.
  apply tenants_plain_insert; [done|]. destruct (Ht (rq_tenant_id (rs_request
    (import_rs (im_cfg st) (map_at Rs_default (requests_ st) (pr_request_id rec)) rec)))) as [H1 H2].
  rewrite H1. destruct (is_terminal_lifecycle _); split; rsimp; done.
Qed.

Lemma import_worker_tables st rec : tables_ok st → tables_ok (import_worker st rec).
Proof.
  intros [Hw Ht]. split; [|exact Ht]. unfold import_worker. rsimp.
  apply workers_ok_insert; [done|]. split; rsimp; [done|by left].
Qed.

Lemma import_tables st0 st :
  tables_ok st0 → tables_ok st → tables_ok (import_state st0 (export_state st)).1.
Proof.
  intros [H0 _] [_ Ht]. unfold import_state. cbv zeta. cbn [fst].
  match goal with |- tables_ok (log (upd_stats ?x _) _ _ _ _) => apply (tables_same x); [|done..] end.
  apply (foldl_preserve tables_ok).
  - intros x rec Hrec [Hw Hx]. split; [exact Hw|]. unfold import_tenant. rsimp.
    apply tenants_plain_insert; [done|]. unfold export_state in Hrec. cbn [ps_tenants] in Hrec.
    apply list_elem_of_fmap in Hrec as ([t ts] & -> & Hts%elem_of_iter).
    specialize (Ht t). unfold map_at in Ht. rewrite Hts in Ht. exact Ht.
  - apply (foldl_preserve tables_ok); [auto using import_worker_tables|].
    apply (foldl_preserve tables_ok); [auto using import_request_tables|].
    split; [|intros t; unfold map_at; rsimp; by rewrite lookup_empty].
    rsimp. do 2 case_if; exact H0.
Qed.
End tables.

Section table_theorems.
Context `{FE : FloatEnv} `{CK : ClockSource} `{HO : HashOrder}.

Lemma reachable_tables cfg st : config_fits cfg → reachable cfg st → tables_ok st.
Proof.
  intros Hc Hr. induction Hr as [|st st' Hr IH Hst|st0 st Hr0 IH0 He _ IH].
  - split; [|intros t; unfold map_at; cbn; by rewrite lookup_empty].
    intros w ws Hw. cbn in Hw. apply lookup_singleton_Some in Hw as [_ <-]. split; [done|by left].
  - destruct (reachable_inv cfg st Hc Hr) as [o Hi]. by eapply step_tables.
  - by apply import_tables.
Qed.

(** C29: no worker ever holds more units than its capacity: in every reachable
    state the busy units of a worker are zero or at most its capacity units. *)
Theorem workers_within_capacity cfg st w ws (Hc : config_fits cfg) (Hr : reachable cfg st)
    (Hw : workers_ st !! w = Some ws) :
  0 <= ws_busy_units ws ∧
  (ws_busy_units ws = 0 ∨ ws_busy_units ws <= wd_capacity_units (ws_desc ws)).
Proof. exact (to_workers _ (reachable_tables cfg st Hc Hr) w ws Hw). Qed.
End table_theorems.
