(* ===== verification/Typed.v ===== *)
(** * Stored values stay in the range of their types

    Every value of the scheduler that a snapshot stores fits the type it has in
    the code: a third invariant, beside those of [SchedInv] and [Tables], that
    every operation and every recovery preserves.  With data in range from the
    callers, whatever the scheduler did can be written to a file and read back. *)

From S2P Require Import Prelude Float FloatRange Types Request Chunking Memory Compat Bytes Persist Exec Observability SchedState SchedOps SchedCycle SchedPersist SchedFrame SchedInv SchedOpsInv CycleInv DispatchInv GroupInv FormInv RunCycle CycleStable ImportInv Reach Tables.

(** Readings of the clock are 64-bit. *)
Class Clock64 `{CK : ClockSource} : Prop := clock_range n : is_i64 (clock_now n).

#[global] Instance microsecond_clock_range : Clock64 (CK := microsecond_clock) | 100.
Proof. intros n. apply i64_range. Qed.

(** The tenants that occur, beside the default one: all numbers of 64 bits, or
    those of a known set of submissions. *)
Class Tenants := known : TenantId → Prop.
Definition tenant_in `{Tenants} (t : TenantId) : Prop := t = 0 ∨ known t.

Section typed.
Context `{FE : FloatEnv} `{CK : ClockSource} `{HO : HashOrder} `{C64 : !Clock64} `{TN : Tenants}.

Definition rs_typed (s : Rs) : Prop :=
  is_u64 (rs_attempt s) ∧ is_u64 (rs_completed_token_total s) ∧ is_u64 (rs_normalized_service s) ∧
  is_i64 (rs_admit_time s) ∧ enum_byte (rs_last_work_kind s) ∧
  tenant_in (rq_tenant_id (rs_request s)) ∧
  rp_token_count (rq_reusable_prefix (rs_request s)) <= rq_prompt_token_count (rs_request s).

Definition ts_typed (ts : TenantService) : Prop :=
  is_u64 (ts_scheduled_tokens ts) ∧ is_u64 (ts_completed_requests ts) ∧
  is_i64 (ts_wait_total_ns ts) ∧ is_u64 (ts_outstanding ts).

Definition requests_typed (m : gmap Z Rs) : Prop := map_Forall (λ _ s, rs_typed s) m.
Definition tenants_typed (m : gmap Z TenantService) : Prop :=
  map_Forall (λ t ts, tenant_in t ∧ ts_typed ts) m.
Definition counters_typed (st : Impl) : Prop :=
  is_u64 (im_epoch st) ∧ is_u64 (im_next_generation_value st) ∧ is_u64 (im_next_attempt_value st).

Record typed (st : Impl) : Prop := {
  ty_requests : requests_typed (requests_ st);
  ty_tenants : tenants_typed (tenants_ st);
  ty_counters : counters_typed st
}.

(** The fields of a request the predicate reads. *)
Definition stored (s : Rs) :=
  (rs_attempt s, rs_completed_token_total s, rs_normalized_service s, rs_admit_time s,
   rs_last_work_kind s, rs_request s).

Lemma typed_stored s s' : rs_typed s → stored s' = stored s → rs_typed s'.
Proof. unfold rs_typed, stored. intros H [= -> -> -> -> -> ->]. done. Qed.

Lemma typed_at m rid : requests_typed m → rs_typed (map_at Rs_default m rid).
Proof.
  intros Hm. unfold map_at. destruct (m !! rid) as [s|] eqn:E; [by apply (Hm rid)|].
  unfold rs_typed, is_u64, is_i64. cbn. split_and!; by left || done.
Qed.

Lemma tenant_typed_at m t : tenants_typed m → ts_typed (map_at TenantService_default m t).
Proof.
  intros Hm. unfold map_at. destruct (m !! t) as [ts|] eqn:E; [by apply (Hm t)|].
  unfold ts_typed, is_u64, is_i64. cbn. by split_and!.
Qed.

Lemma typed_same st st' :
  typed st → requests_ st' = requests_ st → tenants_ st' = tenants_ st →
  im_epoch st' = im_epoch st → im_next_generation_value st' = im_next_generation_value st →
  im_next_attempt_value st' = im_next_attempt_value st → typed st'.
Proof.
  intros [H1 H2 H3] E1 E2 E3 E4 E5. split; [by rewrite E1|by rewrite E2|].
  unfold counters_typed. by rewrite E3, E4, E5.
Qed.

Lemma requests_put m rid s : requests_typed m → rs_typed s → requests_typed (<[rid := s]> m).
Proof. intros Hm Hs. by apply map_Forall_insert_2. Qed.

Lemma tenants_put m t ts :
  tenants_typed m → tenant_in t → ts_typed ts → tenants_typed (<[t := ts]> m).
Proof. intros Hm Ht Hs. by apply map_Forall_insert_2. Qed.

Lemma requests_alter m f rid :
  requests_typed m → (∀ s, stored (f s) = stored s) → requests_typed (alter f rid m).
Proof.
  intros Hm Hf k s'. rewrite lookup_alter. case_decide as E; [|by apply Hm]. subst k.
  intros (s & Hs & ->)%fmap_Some. eapply typed_stored; [by apply (Hm rid)|apply Hf].
Qed.

(** ** Tenants *)

Lemma typed_dec ts : ts_typed ts → ts_typed (dec_outstanding ts).
Proof.
  intros (H1 & H2 & H3 & H4). unfold ts_typed, dec_outstanding. rsimp. split_and!; try done.
  case_if; [apply u64_range|done].
Qed.

Lemma typed_close rem ts : ts_typed ts → ts_typed (close_tenant rem ts).
Proof.
  intros H%typed_dec. unfold close_tenant, sub_admitted. case_if; [|done].
  destruct H as (H1 & H2 & H3 & H4). unfold ts_typed. by rsimp.
Qed.
End typed.

(** The tenant of a request after an update whose fields stay in range. *)
Ltac ts_ranges :=
  lazymatch goal with
  | |- ts_typed (dec_outstanding _) => apply typed_dec
  | |- ts_typed (close_tenant _ _) => apply typed_close
  | |- ts_typed (map_at _ _ _) => apply tenant_typed_at
  | |- ts_typed (if _ then _ else _) => case_if
  | |- ts_typed (setf _ _ ?x) =>
      let H := fresh in
      assert (ts_typed x) as H;
        [|destruct H as (? & ? & ? & ?); unfold ts_typed; rsimp; split_and!;
          first [assumption|apply u64_range]]
  end.

Ltac typed_goal :=
  repeat first
    [ assumption
    | apply requests_put | apply tenants_put | apply requests_alter
    | ts_ranges
    | lazymatch goal with |- is_u64 (_ +u _) => apply u64_range end ].

(** An operation on the request [s] of the table that keeps its stored fields. *)
Ltac typed_op :=
  split; [eff; typed_goal; try (eapply typed_stored; [eassumption|reflexivity])
         |eff; typed_goal
         |unfold counters_typed; eff; split_and!; typed_goal].

Section typed_ops.
Context `{FE : FloatEnv} `{CK : ClockSource} `{HO : HashOrder} `{C64 : !Clock64} `{TN : Tenants}.

Lemma typed_lookup st rid s :
  typed st → requests_ st !! rid = Some s → rs_typed s ∧ tenant_in (rq_tenant_id (rs_request s)).
Proof. intros Hty Hs. pose proof (ty_requests _ Hty rid s Hs) as H. split; [done|apply H]. Qed.

Lemma cancel_typed st rid : typed st → typed (cancel st rid).1.
Proof.
  intros Hty. pose proof Hty as [Hr Ht (He & Hg & Ha)]. unfold cancel.
  destruct (requests_ st !! rid) as [s|] eqn:E; [|done].
  destruct (typed_lookup _ _ _ Hty E) as [Hs Htn].
  destruct (is_terminal_lifecycle _); [done|]. destruct (rs_in_flight s).
  - cbv zeta. typed_op.
  - rewrite release_reservation_eq. cbv beta iota zeta. repeat eff_step.
    destruct (is_nil (rs_current_group s)); cbv beta iota zeta; cbn [negb]; typed_op.
Qed.

Lemma cancel_generation_typed st rid g : typed st → typed (cancel_generation st rid g).1.
Proof.
  intros Hty. pose proof Hty as [Hr Ht (He & Hg & Ha)]. unfold cancel_generation.
  destruct (requests_ st !! rid) as [s|] eqn:E; [|done].
  destruct (typed_lookup _ _ _ Hty E) as [Hs Htn].
  destruct (is_terminal_lifecycle _); [done|]. destruct (_ && _); [|done]. cbv zeta. typed_op.
Qed.

(** A restart allocates an attempt and clears the counts of the former one. *)
Lemma restart_typed st s s' :
  counters_typed st → rs_typed s →
  stored s' = (im_next_attempt_value st, 0, rs_normalized_service s, rs_admit_time s,
               WorkKind_retried, rs_request s) → rs_typed s'.
Proof.
  intros (_ & _ & Ha) (_ & _ & H3 & H4 & _ & H6). unfold stored, rs_typed. intros [= -> -> -> -> -> ->].
  split; [done|]. split; [unfold is_u64; lia|]. do 2 (split; [done|]). split; [by vm_compute|done].
Qed.

Lemma force_retry_typed st rid : typed st → typed (force_retry st rid).1.
Proof.
  intros Hty. pose proof Hty as [Hr Ht Hc]. pose proof Hc as (He & Hg & Ha). unfold force_retry.
  destruct (requests_ st !! rid) as [s|] eqn:E; [|done].
  destruct (typed_lookup _ _ _ Hty E) as [Hs Htn].
  destruct (is_terminal_lifecycle _); [done|].
  destruct (rs_in_flight s); rewrite ?release_reservation_eq; cbv beta iota zeta;
    rewrite ?drop_group_eq; cbv beta iota zeta; repeat eff_step;
    destruct (_ <=? _); rewrite ?restart_attempt_eq; cbv beta iota zeta; typed_op.
  all: apply (restart_typed st s); [done|done|reflexivity].
Qed.

(** ** Completion *)

Lemma account_typed st s :
  typed st → rs_typed s →
  typed (account_chunk st s).1 ∧ rs_typed (account_chunk st s).2 ∧
  rs_request (account_chunk st s).2 = rs_request s.
Proof.
  intros [Hr Ht (He & Hg & Ha)] Hs. pose proof Hs as (H1 & H2 & H3 & H4 & H5 & H6 & H7).
  unfold account_chunk, im_now. cbv beta iota zeta. cbn [fst snd]. split_and!.
  - typed_op.
  - unfold rs_typed. eff. split_and!; try done; [apply u64_range|apply d_add_range].
  - by eff.
Qed.

Lemma outcome_typed st s r :
  typed st → rs_typed s → typed (apply_outcome st s r).1 ∧ rs_typed (apply_outcome st s r).2.
Proof.
  intros [Hr Ht Hc] Hs. pose proof Hc as (He & Hg & Ha).
  assert (tenant_in (rq_tenant_id (rs_request s))) as Htn by apply Hs.
  unfold apply_outcome. destruct (mr_outcome r); repeat case_if; rewrite ?restart_attempt_eq;
    unfold finish; cbv beta iota zeta; cbn [fst snd]; split.
  all: try (typed_op; fail).
  all: first [ eapply typed_stored; [eassumption|reflexivity]
             | apply (restart_typed st s); [done|done|reflexivity] ].
Qed.

Lemma report_typed st r : typed st → typed (report_completion st r).1.
Proof.
  intros Hty. unfold report_completion. destruct (is_nil (mr_epoch r)); [done|].
  destruct (negb _); [by apply (typed_same st)|].
  destruct (requests_ st !! mr_request_id r) as [s|] eqn:E; [|done].
  do 6 (case_match; [by apply (typed_same st)|]).
  destruct (typed_lookup _ _ _ Hty E) as [Hs _]. unfold apply_completion.
  destruct (account_typed st s Hty Hs) as (Hty1 & Hs1 & _). destruct (account_chunk st s) as [st1 s1].
  destruct (outcome_typed st1 s1 r Hty1 Hs1) as [Hty2 Hs2]. destruct (apply_outcome st1 s1 r) as [st2 s2].
  cbn [fst snd] in *. pose proof Hty2 as [Hr Ht (He & Hg & Ha)].
  rewrite release_reservation_eq, detach_eq. cbv beta iota zeta. cbn [fst snd]. typed_op.
Qed.

(** ** Workers, epochs, executors *)

Lemma register_worker_typed st w : typed st → typed (register_worker st w).1.
Proof.
  intros Hty. unfold register_worker. destruct (is_nil (wd_worker_id w)); [done|].
  destruct (is_nil (wd_boot_id w)); cbv beta iota zeta; cbn [negb]; apply (typed_same st); try done; by eff.
Qed.

Lemma unregister_worker_typed st w : typed st → typed (unregister_worker st w).1.
Proof.
  intros Hty. unfold unregister_worker. destruct (workers_ st !! w); [|done].
  apply (typed_same st); try done; by eff.
Qed.

Lemma roll_epoch_typed st : typed st → typed (roll_epoch st).1.
Proof.
  intros [Hr Ht (He & Hg & Ha)]. split; [exact Hr|exact Ht|].
  split; [apply u64_range|done].
Qed.

Lemma attach_typed st ex be : typed st → typed (attach_executor st ex be).
Proof.
  intros Hty. unfold attach_executor. cbv zeta. repeat eff_step.
  destruct (workers_ st !! 0); apply (typed_same st); try done; by eff.
Qed.

Lemma worker_lost_typed st w : typed st → typed (worker_lost st w).1.
Proof.
  intros Hty. unfold worker_lost. cbv zeta.
  assert (typed (foldl (recover_group w) st (iter_keys (groups_ st)))) as Hty1.
  { apply (foldl_preserve typed); [|done]. intros st1 gid _ H1. unfold recover_group.
    destruct (groups_ st1 !! gid) as [g|]; [|done]. destruct (gs_worker g =? w); [|done].
    apply (typed_same (foldl recover_member st1 (set_elements (gs_outstanding g)))); [|done..].
    apply (foldl_preserve typed); [|done]. intros st2 rid _ H2. unfold recover_member.
    destruct (requests_ st2 !! rid) as [s|] eqn:E; [|done]. destruct (_ && _); [|done].
    destruct (typed_lookup _ _ _ H2 E) as [Hs _]. destruct H2 as [Hr Ht (He & Hg & Ha)].
    rewrite release_reservation_eq. cbv beta iota zeta. typed_op. }
  destruct (workers_ _ !! w) as [ws|]; apply (typed_same _ _ Hty1); by eff.
Qed.

(** ** Submission *)

Lemma admit_typed cfg req a t :
  ei_code (validate req) = ErrorCode_ok → tenant_in (rq_tenant_id req) → is_u64 a → is_i64 t →
  rs_typed (admit_rs cfg req a t).
Proof.
  intros Hv Htn Ha Ht. apply validate_ok_iff in Hv. unfold rs_typed, admit_rs. rsimp.
  split; [done|]. do 2 (split; [by vm_compute|]).
  split; [done|]. split; [by vm_compute|]. split; [done|]. tauto.
Qed.

Lemma submit_typed st req toks :
  typed st → tenant_in (rq_tenant_id req) → typed (submit_with_tokens st req toks).1.
Proof using C64.
  intros Hty Htn. pose proof Hty as [Hr Ht (He & Hg & Ha)]. unfold submit_with_tokens.
  destruct (bool_decide (ei_code (validate req) = ErrorCode_ok)) eqn:Ev; [|done].
  apply bool_decide_eq_true in Ev. cbn [negb].
  destruct (bool_decide _); [done|]. destruct (register_request _ _ _) as [tr [[]|e]]; [|by apply (typed_same st)].
  cbv zeta. destruct (_ <=? _); [unfold reject_capacity; by apply (typed_same st)|].
  destruct (cfg_per_tenant_outstanding_limit _ <=? _); [unfold reject_capacity; typed_op|].
  destruct (_ <? _); [unfold reject_capacity; typed_op|].
  unfold alloc_attempt, im_now. cbv beta iota zeta.
  match goal with |- context [admit_rs ?c req ?a ?t] =>
    pose proof (admit_typed c req a t Ev Htn Ha (clock_range _)) as Had;
    generalize dependent (admit_rs c req a t) end.
  intros s0 Hs0. destruct (_ =? 0); typed_op.
Qed.
End typed_ops.

Section typed_cycle.
Context `{FE : FloatEnv} `{CK : ClockSource} `{HO : HashOrder} `{C64 : !Clock64} `{TN : Tenants}.

(** ** The cycle *)

Lemma expire_one_typed now st rid : typed st → typed (expire_one now st rid).
Proof.
  intros Hty. unfold expire_one. destruct (requests_ st !! rid) as [s|] eqn:E; [|done].
  destruct (typed_lookup _ _ _ Hty E) as [Hs Htn]. destruct Hty as [Hr Ht (He & Hg & Ha)].
  destruct (is_terminal_lifecycle _); [done|]. destruct (_ || _); [|done].
  rewrite release_reservation_eq, group_erase_member_eq. cbv beta iota zeta. repeat eff_step.
  destruct (past_deadline now s), (rs_in_flight s); typed_op.
Qed.

Lemma typed_stable : cycle_stable typed.
Proof.
  split.
  - intros st H. by apply (typed_same st).
  - intros now st rid. apply expire_one_typed.
  - intros st rid [Hr Ht Hc]. split; eff; [done| |done].
    apply tenants_put; [done|apply (typed_at _ rid Hr)|by apply tenant_typed_at].
  - intros line st rid H. pose proof (typed_at _ rid (ty_requests _ H)) as Hs.
    destruct H as [Hr Ht (He & Hg & Ha)]. typed_op.
  - intros st H. by apply (typed_same st).
  - intros st m rid b H. unfold alloc_reservation. cbv beta iota.
    pose proof (typed_at _ rid (ty_requests _ H)) as Hs. destruct H as [Hr Ht (He & Hg & Ha)].
    eff. typed_op.
  - intros st m H. by apply (typed_same st).
  - intros st rv H. by apply (typed_same st).
  - intros st rid [Hr Ht Hc]. split; eff; [|done|done]. by apply requests_alter.
  - intros line st rid [Hr Ht Hc]. unfold trace_request. split; eff; [|done|done]. by apply requests_alter.
  - intros now gid w [[[st ms] out] bytes] [rid m] H. cbn [fst] in *.
    unfold commit_member, alloc_generation. cbv beta iota zeta.
    pose proof (typed_at _ rid (ty_requests _ H)) as Hs. destruct H as [Hr Ht (He & Hg & Ha)].
    destruct (_ =? 0); cbn [fst]; typed_op.
  - intros st ws gs f H. apply (typed_same st); [done|by eff..].
  - intros st [Hr Ht Hc]. unfold refresh_queue_stats. split; [eff|done|done].
    intros rid s'. rewrite lookup_fmap. intros (s & Hs & ->)%fmap_Some.
    eapply typed_stored; [by apply (Hr rid)|]. unfold age. by case_if.
Qed.

Lemma run_cycle_typed st : typed st → typed (run_cycle st).1.
Proof. apply run_cycle_stable, typed_stable. Qed.

Lemma step_typed st st' :
  (∀ t, is_u64 t → tenant_in t) → typed st → step st st' → typed st'.
Proof using C64.
  intros Hall Hty Hst. destruct Hst; [apply submit_typed; [done|apply Hall; unfold request_fits, request_wf in *; tauto]|..];
    auto using run_cycle_typed, report_typed,
    cancel_typed, cancel_generation_typed, force_retry_typed, register_worker_typed,
    unregister_worker_typed, worker_lost_typed, roll_epoch_typed, attach_typed.
Qed.
End typed_cycle.

Section typed_import.
Context `{FE : FloatEnv} `{CK : ClockSource} `{HO : HashOrder} `{C64 : !Clock64} `{TN : Tenants}.

(** ** Recovery *)

#[local] Opaque plan index_for_token_start remaining_prefill_tokens.

Lemma import_rs_stored cfg s rec :
  stored (import_rs cfg s rec) =
  (pr_attempt_id rec, pr_completed_token_total rec, pr_normalized_service rec, pr_arrival_ns rec,
   pr_work_kind rec, import_prefill_request rec).
Proof.
  unfold import_rs, trace_push. cbv zeta. destruct (_ <=? _); destruct (_ || _); reflexivity.
Qed.

#[local] Transparent plan index_for_token_start remaining_prefill_tokens.

Lemma typed_fields s a n d t k r :
  stored s = (a, n, d, t, k, r) →
  is_u64 a → is_u64 n → is_u64 d → is_i64 t → enum_byte k → tenant_in (rq_tenant_id r) →
  rp_token_count (rq_reusable_prefix r) <= rq_prompt_token_count r → rs_typed s.
Proof. unfold stored, rs_typed. intros [= -> -> -> -> -> ->]. done. Qed.

Lemma import_rs_typed cfg s0 rid s :
  rs_typed s → rs_typed (import_rs cfg s0 (export_request (rid, s))).
Proof.
  intros (H1 & H2 & H3 & H4 & H5 & H6 & H7).
  eapply typed_fields; [apply import_rs_stored|done..| |]; unfold import_prefill_request; by rsimp.
Qed.

Lemma import_request_typed st rid s :
  typed st → rs_typed s → typed (import_request st (export_request (rid, s))).
Proof.
  intros [Hr Ht (He & Hg & Ha)] Hs. unfold import_request. cbv zeta.
  set (s' := import_rs _ _ _).
  assert (rs_typed s') as Hs' by (by apply import_rs_typed). clearbody s'.
  assert (tenant_in (rq_tenant_id (rs_request s'))) as Htn by apply Hs'.
  split; [|unfold upd_tenant, put_rs; rsimp|done].
  - change (requests_ (upd_tenant ?x _ _)) with (requests_ x). unfold put_rs. rsimp. by apply requests_put.
  - apply tenants_put; [done|done|]. destruct (tenant_typed_at _ (rq_tenant_id (rs_request s')) Ht)
      as (T1 & T2 & T3 & T4). unfold ts_typed.
    repeat case_if; rsimp; split_and!; try done; apply u64_range.
Qed.

Lemma import_typed st0 st :
  typed st0 → typed st → typed (import_state st0 (export_state st)).1.
Proof.
  intros [_ _ (_ & Hg0 & Ha0)] [Hr Ht (He & Hg & Ha)]. unfold import_state. cbv zeta. cbn [fst].
  match goal with |- typed (log (upd_stats ?x _) _ _ _ _) => apply (typed_same x); [|done..] end.
  apply (foldl_preserve typed).
  { intros x rec Hrec [Hxr Hxt Hxc]. split; [exact Hxr| |exact Hxc]. unfold import_tenant. rsimp.
    unfold export_state in Hrec. cbn [ps_tenants] in Hrec.
    apply list_elem_of_fmap in Hrec as ([t ts] & -> & Hts%elem_of_iter).
    destruct (Ht t ts Hts) as [Htn (T1 & T2 & T3 & T4)]. by apply tenants_put. }
  apply (foldl_preserve typed).
  { intros x rec _ Hx. by apply (typed_same x). }
  apply (foldl_preserve typed).
  { intros x rec Hrec Hx. unfold export_state in Hrec. cbn [ps_requests] in Hrec.
    apply list_elem_of_fmap in Hrec as ([rid s] & -> & Hs%elem_of_iter).
    apply import_request_typed; [done|]. by apply (Hr rid). }
  split; [by apply map_Forall_empty..|]. unfold counters_typed. rsimp.
  do 2 case_if; rsimp; split_and!; done.
Qed.

Lemma new_typed cfg : typed (Impl_new cfg).
Proof.
  split; [apply map_Forall_empty..|]. unfold counters_typed, is_u64. cbn. lia.
Qed.

End typed_import.

Section typed_reachable.
Context `{FE : FloatEnv} `{CK : ClockSource} `{HO : HashOrder} `{C64 : !Clock64}.

Lemma reachable_typed cfg st : reachable cfg st → typed (TN := is_u64) st.
Proof using C64.
  intros Hr. induction Hr as [|st st' _ IH Hst|st0 st _ IH0 _ _ IH].
  - apply new_typed.
  - eapply (step_typed (TN := is_u64)); [by right|done..].
  - by apply import_typed.
Qed.

Lemma tenant_in_u64 t : tenant_in (H := is_u64) t → is_u64 t.
Proof. intros [->|H]; [unfold is_u64; lia|exact H]. Qed.
End typed_reachable.

(** ** Every snapshot can be stored *)

(** What the callers choose is in range: the data of the requests, the
    descriptors of the workers, and the number of entries of each table. *)
Definition request_storable (r : PrefillRequest) : Prop :=
  short_string (mk_name (rq_model r)) ∧ short_string (mk_revision (rq_model r)) ∧
  is_u64 (rq_adapter_id r) ∧ enum_byte (rq_adapter_relation r) ∧ is_i32 (rq_priority r) ∧
  is_u64 (rq_tenant_weight r) ∧ short_string (vs_tokenizer (rq_vocab r)) ∧
  is_u64 (vs_vocab_size (rq_vocab r)) ∧ enum_byte (rq_numeric_mode r) ∧
  enum_byte (rq_latency_class r) ∧ is_i64 (default 0 (rq_deadline r)) ∧
  is_i64 (default 0 (rq_max_queue_delay r)).

Definition storable (st : Impl) : Prop :=
  map_Forall (λ _ s, request_storable (rs_request s)) (requests_ st) ∧
  map_Forall (λ w ws, worker_ok (export_worker (w, ws))) (workers_ st) ∧
  Z.of_nat (size (requests_ st)) <= 2 ^ 24 ∧ Z.of_nat (size (workers_ st)) <= 2 ^ 20 ∧
  Z.of_nat (size (tenants_ st)) <= 2 ^ 20.

#[global] Instance request_storable_dec r : Decision (request_storable r).
Proof. unfold request_storable; apply _. Defined.
#[global] Instance storable_dec st : Decision (storable st).
Proof. unfold storable; apply _. Defined.

Section storable.
Context `{FE : FloatEnv} `{CK : ClockSource} `{HO : HashOrder}.

Lemma used_lifecycle_stored l : used_lifecycle l = true →
  enum_byte l ∧ to_int Lifecycle_submitted <= to_int l <= to_int Lifecycle_rejected.
Proof. unfold enum_byte. by destruct l. Qed.

Lemma export_request_ok `{OR : Origin} cfg ng ngrp rid s :
  config_wf cfg → is_u64 ng → rs_ok cfg ng ngrp rid s → rs_typed (TN := is_u64) s → request_storable (rs_request s) →
  req_ok (export_request (rid, s)) ∧ record_sane (export_request (rid, s)).
Proof.
  intros Hc Hng Hok (T1 & T2 & T3 & T4 & T5 & T6 & T7) (S1 & S2 & S3 & S4 & S5 & S6 & S7 & S8 & S9 & S10 & S11 & S12).
  pose proof Hok as []. destruct ro_id as [Hid _]. destruct ro_req as [Hwf Hlim]. apply tenant_in_u64 in T6.
  pose proof Hwf as (W1 & W2 & W3 & W4 & _). pose proof (remaining_le_prompt _ Hwf) as [Hrem Hru].
  destruct (used_lifecycle_stored _ ro_life) as [L1 L2].
  unfold is_u64 in Hng.
  assert (is_u64 (pr_next_chunk_token_start (export_request (rid, s)))) as Hstart.
  { unfold export_request. cbn [pr_next_chunk_token_start]. destruct (pending_chunk s) as [ch|] eqn:E; [|done].
    unfold pending_chunk in E. rewrite ro_plan in E.
    destruct (plan_next _ _ _ _ _ _ Hwf Hc E) as (H1 & H2 & H3 & _). unfold is_u64 in *. lia. }
  assert (is_u64 (pr_parent_generation (export_request (rid, s)))) as Hparent.
  { unfold export_request. cbn [pr_parent_generation]. destruct (pl_chunks (rs_plan s)) as [|c l] eqn:E; [done|].
    assert (pl_chunks (plan cfg (rs_request s) (rs_attempt s) 0) !! 0%nat = Some c) as Hc0
      by (by rewrite <- ro_plan, E).
    apply plan_lookup in Hc0 as (_ & _ & ->); [|done..]. by vm_compute. }
  split.
  - unfold req_ok. repeat split_and; try done; try (by rewrite <- Hid).
    all: cbn; unfold is_u64 in *; lia.
  - split; [exact L2|exact T7].
Qed.
End storable.

Section exportable.
Context `{FE : FloatEnv} `{CK : ClockSource} `{HO : HashOrder} `{C64 : !Clock64}.

Lemma iter_length {A} (m : gmap Z A) : length (iter m) = size m.
Proof. rewrite iter_perm. apply length_map_to_list. Qed.

Lemma export_forall {A B} (P : B → Prop) (f : Z * A → B) (m : gmap Z A) :
  map_Forall (λ k x, P (f (k, x))) m → Forall P (f <$> iter m).
Proof.
  intros Hm. apply Forall_fmap, Forall_forall. intros [k x] Hx%elem_of_iter. by apply Hm.
Qed.

Lemma export_tenant_ok m t ts :
  tenants_typed (TN := is_u64) m → tenants_plain m → m !! t = Some ts → tenant_ok (export_tenant (t, ts)).
Proof.
  intros Hty Hpl Ht. destruct (Hty t ts Ht) as (H0%tenant_in_u64 & H1 & H2 & H3 & H4).
  specialize (Hpl t). unfold map_at in Hpl. rewrite Ht in Hpl. destruct Hpl as [Hw Hn].
  cbn in Hw, Hn. unfold tenant_ok. cbn. rewrite Hw, Hn. by split_and!.
Qed.

(** A scheduler whose callers gave data in range has a snapshot the format can
    hold, whatever it did and however often it was recovered. *)
Lemma export_state_ok cfg st :
  config_fits cfg → reachable cfg st → storable st → state_ok (export_state st).
Proof using C64.
  intros Hc Hr (S1 & S2 & S3 & S4 & S5). destruct (reachable_inv cfg st Hc Hr) as [o Hi].
  pose proof (reachable_typed cfg st Hr) as [Hrq Htn (H1 & H2 & H3)].
  pose proof (reachable_tables cfg st Hc Hr) as [_ Hpl].
  assert (map_Forall (λ rid s, req_ok (export_request (rid, s)) ∧ record_sane (export_request (rid, s)))
    (requests_ st)) as Hrec.
  { intros rid s Hs. eapply export_request_ok; [apply (si_cfg _ Hi)|exact H2|by apply (si_rs _ Hi)|..].
    - by apply (Hrq rid).
    - by apply (S1 rid). }
  split; try done; unfold export_state; cbn [ps_requests ps_workers ps_tenants];
    rewrite ?length_fmap, ?iter_length.
  - split; [|done]. apply export_forall. intros rid s Hs. by apply Hrec.
  - split; [|done]. apply export_forall. exact S2.
  - split; [|done]. apply export_forall. intros t ts Ht. by eapply export_tenant_ok.
  - apply export_forall. intros rid s Hs. by apply Hrec.
Qed.
End exportable.
