(* ===== verification/Restore.v ===== *)
(** * Recovery from a persisted snapshot

    What [recover] rebuilds from the file [persist] wrote: the requests of the
    table with their identity, their place in the life cycle and their next
    chunk, and no authority for work that was in flight. *)

From S2P Require Import Prelude Float Types Request Chunking Memory Compat Exec Observability SchedState SchedOps SchedCycle SchedFrame SchedInv SchedOpsInv SchedOpsInv2 SubmitInv CycleInv DispatchInv GroupInv FormInv RunCycle Bytes Persist SchedPersist ImportInv CycleFrame Reach Evolve Authority Typed.

Section restore.
Context `{FE : FloatEnv} `{CK : ClockSource} `{HO : HashOrder} `{C64 : !Clock64}.

(** ** One request *)

Record restored (cfg cfg' : SchedulerConfig) (s s' : Rs) : Prop := {
  re_attempt : rs_attempt s' = rs_attempt s;
  re_identity : let r := rs_request s in let r' := rs_request s' in
    rq_request_id r' = rq_request_id r ∧ rq_tenant_id r' = rq_tenant_id r ∧
    rq_model r' = rq_model r ∧ rq_adapter_id r' = rq_adapter_id r ∧
    rq_adapter_relation r' = rq_adapter_relation r ∧ rq_vocab r' = rq_vocab r ∧
    rq_numeric_mode r' = rq_numeric_mode r ∧ rq_latency_class r' = rq_latency_class r ∧
    rq_priority r' = rq_priority r ∧ rq_deadline r' = rq_deadline r ∧
    rq_max_queue_delay r' = rq_max_queue_delay r ∧
    rq_prompt_token_count r' = rq_prompt_token_count r ∧
    remaining_prefill_tokens r' = remaining_prefill_tokens r;
  re_lifecycle : rs_lifecycle s' = recovered_lifecycle (rs_lifecycle s);
  re_idle : rs_in_flight s' = false;
  re_generation : running s → rs_current_generation s' = 0 ∧ rs_recovered_work s' = true;
  (** the estimates are not persisted; the plan is made again without them *)
  re_estimates : rq_compute_estimate (rs_request s') = 0 ∧ rq_memory_estimate_bytes (rs_request s') = 0;
  re_plan : rs_plan s' = plan cfg' (rs_request s') (rs_attempt s) 0;
  (** the next chunk starts where it did when the new plan has a chunk that
      starts there, and the request starts over when it has none *)
  re_work : queued s ∨ running s →
    ∃ ch ch', pending_chunk s = Some ch ∧ pending_chunk s' = Some ch' ∧
      ((∃ c, c ∈ pl_chunks (rs_plan s') ∧ ck_token_start c = ck_token_start ch) →
       ck_token_start ch' = ck_token_start ch) ∧
      ((∀ c, c ∈ pl_chunks (rs_plan s') → ck_token_start c ≠ ck_token_start ch) →
       ck_token_start ch' = 0) ∧
      (cfg' = cfg → rq_compute_estimate (rs_request s) = 0 →
       rq_memory_estimate_bytes (rs_request s) = 0 → ck_token_start ch' = ck_token_start ch)
}.

Lemma effective_no_estimates cfg r r' :
  remaining_prefill_tokens r' = remaining_prefill_tokens r →
  rq_compute_estimate r = 0 → rq_memory_estimate_bytes r = 0 →
  rq_compute_estimate r' = 0 → rq_memory_estimate_bytes r' = 0 →
  effective_chunk_token_count cfg r' = effective_chunk_token_count cfg r.
Proof.
  intros Hr H1 H2 H3 H4. unfold effective_chunk_token_count, limit_by_estimate.
  by rewrite Hr, H1, H2, H3, H4.
Qed.

Lemma restore_request `{OR : Origin} cfg cfg' ng ngrp rid s :
  config_wf cfg → config_wf cfg' → rs_ok cfg ng ngrp rid s →
  restored cfg cfg' s (import_rs cfg' Rs_default (export_request (rid, s))).
Proof.
  intros Hc Hc' Hok. destruct (ro_id _ _ _ _ _ Hok) as [Hid _]. pose proof (ro_req _ _ _ _ _ Hok) as Hfit.
  set (rec := export_request (rid, s)).
  pose proof (import_export_request rid s Hid) as Hident. cbv zeta in Hident. fold rec in Hident.
  pose proof (import_fits rid s Hfit Hid) as Hfit'. fold rec in Hfit'.
  destruct (import_rs_fields cfg' rec) as (E1 & E2 & E3 & E4 & E5 & E6 & E7). cbv zeta in *.
  set (s' := import_rs cfg' Rs_default rec) in *.
  assert (pr_attempt_id rec = rs_attempt s ∧ pr_lifecycle rec = rs_lifecycle s) as [Ea El] by done.
  split; cbv zeta; rewrite ?E1, ?E2, ?E4, ?E5, ?El; try done.
  - intros [_ Hl]. apply E6. by rewrite El.
  - intros Hlive. destruct (ro_live _ _ _ _ _ Hok Hlive) as (ch & Hch & _).
    assert (pr_next_chunk_token_start rec = ck_token_start ch) as Hstart by (cbn; by rewrite Hch).
    pose proof Hch as Hch2. unfold pending_chunk in Hch2. rewrite (ro_plan _ _ _ _ _ Hok) in Hch2.
    destruct (plan_next cfg (rs_request s) (rs_attempt s) 0 _ ch (proj1 Hfit) Hc Hch2)
      as (Hs0 & Hs1 & Hs2 & _).
    destruct Hident as (_&_&_&_&_&_&_&_&_&_&_&_&Hrem).
    rewrite Hstart in E7. specialize (E7 ltac:(lia)).
    destruct (index_lookup cfg' (import_prefill_request rec) (pr_attempt_id rec) 0
      (ck_token_start ch) Hfit' Hc' ltac:(lia)) as (ch' & Hch' & Hor). cbv zeta in *.
    exists ch, ch'. rewrite E3. split_and!; [done| | | |].
    + unfold pending_chunk. rewrite E7, E3. exact Hch'.
    + intros (c & Hin & Ec). destruct Hor as [?|[_ Hno]]; [done|]. by destruct (Hno c Hin).
    + intros Hno. destruct Hor as [E|[? _]]; [|done].
      by destruct (Hno ch' (list_elem_of_lookup_2 _ _ _ Hch')).
    + intros -> Hce Hme. destruct Hor as [?|[_ Hno]]; [done|].
      apply plan_lookup in Hch2 as (Hnz & Hlt & ->); [|apply Hfit|done].
      exfalso. eapply (Hno (chunk_at cfg (import_prefill_request rec) (pr_attempt_id rec) 0
        (remaining_prefill_tokens (import_prefill_request rec))
        (effective_chunk_token_count cfg (import_prefill_request rec))
        (Z.to_nat (rs_next_chunk_index s)))).
      * apply list_elem_of_lookup. eexists. apply plan_lookup; [apply Hfit'|done|].
        rewrite (effective_no_estimates cfg (rs_request s)), Hrem by done. done.
      * cbn. by rewrite (effective_no_estimates cfg (rs_request s)) by done.
Qed.

(** ** End to end *)

Lemma recover_persisted {store} `{ReliableFiles store} (fs fs' : store) st st0 path :
  state_ok (export_state st) →
  persist st fs path = (Ok tt, fs') →
  recover st0 fs' path = import_state st0 (export_state st).
Proof.
  intros Hok Hp. destruct (roundtrip_blob (export_state st) [] Hok) as (blob & Es & Hd).
  rewrite app_nil_r in Hd. unfold persist, save in Hp. rewrite Es in Hp.
  unfold recover, load. destruct (fs_write fs path blob) as [[] fs1] eqn:Ew; try done.
  assert (fs1 = fs') as <- by congruence. by rewrite (fs_read_written _ _ _ _ Ew), Hd.
Qed.

(** C16: crash recovery: recovering a scheduler from the file another one
    persisted rebuilds exactly its requests; each keeps its identity, attempt
    and place in the life cycle, and work in flight goes back to the queue without
    authority.  The plan is made again, without the estimates, which are not
    persisted: the next chunk starts where it did if the new plan has a chunk
    that starts there (always, if the request carries no estimates and the
    configuration is the same), and otherwise the request starts over.  Epoch and
    counters are not behind. *)
Theorem recover_restores {store} `{FSys : FileSystem store} (FOk : ReliableFiles store)
    cfg st st0 (fs fs' : store) path
    (Hc : config_fits cfg) (Hr : reachable cfg st) (H0 : config_wf (im_cfg st0))
    (Hok : storable st) (Hp : persist st fs path = (Ok tt, fs')) :
  let st' := (recover st0 fs' path).1 in
  has_value (recover st0 fs' path).2 = true ∧
  (∀ rid, requests_ st !! rid = None → requests_ st' !! rid = None) ∧
  (∀ rid s, requests_ st !! rid = Some s →
     ∃ s', requests_ st' !! rid = Some s' ∧ restored (im_cfg st) (im_cfg st0) s s') ∧
  groups_ st' = ∅ ∧ im_epoch st' = im_epoch st ∧
  im_next_generation_value st <= im_next_generation_value st' ∧
  im_next_attempt_value st <= im_next_attempt_value st'.
Proof using C64.
  cbv zeta. rewrite (recover_persisted fs fs' st st0 path (export_state_ok _ _ Hc Hr Hok) Hp).
  destruct (reachable_inv cfg st Hc Hr) as [o Hi]. destruct (export_ids st) as [Hnd Hids].
  destruct (import_state_tables st0 (export_state st) Hnd) as (Hg & He & Hn & Hat & Hin & Hout).
  cbv zeta in *. split_and!; try done.
  - intros rid Hnone. apply Hout. rewrite Hids, Hnone. by intros [? ?].
  - intros rid s Hs. eexists. split.
    + apply (Hin (export_request (rid, s))). unfold export_state. cbn [ps_requests].
      apply list_elem_of_fmap. exists (rid, s). split; [done|]. by apply elem_of_iter.
    + eapply restore_request; [apply (si_cfg _ Hi)|done|]. by apply (si_rs _ Hi).
Qed.

(** No request is in flight. *)
Definition quiet (st : Impl) : Prop :=
  ∀ rid s, requests_ st !! rid = Some s → rs_in_flight s = false.

Lemma quiet_rejects st r :
  quiet st →
  has_value (report_completion st r).2 = false ∧
  requests_ (report_completion st r).1 = requests_ st.
Proof.
  intros Hidle. unfold report_completion, reject_with.
  destruct (is_nil (mr_epoch r)); [done|]. destruct (negb (mr_epoch r =? im_epoch st)); [done|].
  destruct (requests_ st !! mr_request_id r) as [s|] eqn:Hs; [|done].
  rewrite (Hidle _ _ Hs). cbn [negb]. by repeat case_if.
Qed.

Lemma import_rs_quiet cfg s rec :
  rs_in_flight s = false → rs_in_flight (import_rs cfg s rec) = false.
Proof.
  intros Hs. unfold import_rs, trace_push. cbv zeta.
  destruct (_ || _); [reflexivity|]. destruct (_ <=? _); rsimp; done.
Qed.

Lemma import_state_quiet st0 ps : quiet (import_state st0 ps).1.
Proof.
  unfold quiet. rewrite (import_state_frame requests_) by done.
  destruct (import_base_fields st0 ps) as (Hr & _). cbv zeta in Hr.
  apply foldl_preserve; [|rewrite Hr; intros rid s; by rewrite lookup_empty].
  intros st rec _ Hst rid s. unfold import_request. cbv zeta.
  change (requests_ (upd_tenant ?st ?t ?f)) with (requests_ st).
  unfold put_rs. rsimp. rewrite lookup_insert_Some. intros [[_ <-]|[_ Hs]]; [|by eapply Hst].
  apply import_rs_quiet. unfold map_at. destruct (requests_ st !! _) eqn:E; [|done]. by eapply Hst.
Qed.

(** Right after a recovery, from whatever file, no completion is
    authoritative: a report is rejected without effect on the requests. *)
Theorem recover_fences {store} `{FSys : FileSystem store} st0 (fs : store) path r ps
    (Hl : load fs path = Ok ps) :
  let st' := (recover st0 fs path).1 in
  has_value (report_completion st' r).2 = false ∧
  requests_ (report_completion st' r).1 = requests_ st'.
Proof.
  cbv zeta. apply quiet_rejects. unfold recover. rewrite Hl. apply import_state_quiet.
Qed.

(** A recovery from the file another scheduler persisted stays within the
    reachable states. *)
Lemma recover_reachable {store} `{FSys : FileSystem store} `{FOk : !ReliableFiles store}
    cfg st st0 (fs fs' : store) path :
  config_fits cfg → reachable cfg st0 → requests_ st0 = ∅ → reachable cfg st → storable st →
  persist st fs path = (Ok tt, fs') → reachable cfg (recover st0 fs' path).1.
Proof using C64.
  intros Hc H0 He Hr Hok Hp.
  rewrite (recover_persisted fs fs' st st0 path (export_state_ok _ _ Hc Hr Hok) Hp).
  by apply reach_recover.
Qed.

(** C17: a recovery fences the work of the former process for good: a report of
    a generation it had issued is rejected in every state the recovered
    scheduler reaches. *)
Theorem recovered_work_fenced {store} `{FSys : FileSystem store} (FOk : ReliableFiles store)
    cfg st st0 st2 (fs fs' : store) path r
    (Hc : config_fits cfg) (Hr : reachable cfg st) (H0 : reachable cfg st0)
    (He : requests_ st0 = ∅) (Hok : storable st) (Hp : persist st fs path = (Ok tt, fs'))
    (Hst : rtc step (recover st0 fs' path).1 st2)
    (Hg : mr_generation r < im_next_generation_value st) :
  has_value (report_completion st2 r).2 = false.
Proof using C64.
  pose proof (recover_reachable cfg st st0 fs fs' path Hc H0 He Hr Hok Hp) as Hr'.
  rewrite (recover_persisted fs fs' st st0 path (export_state_ok _ _ Hc Hr Hok) Hp) in Hst, Hr'.
  destruct (reachable_inv _ _ Hc Hr') as [o Hi]. destruct (export_ids st) as [Hnd _].
  destruct (import_state_tables st0 (export_state st) Hnd) as (_ & _ & Hn & _).
  pose proof (import_state_quiet st0 (export_state st)) as Hidle.
  cbv zeta in Hn. cbn [ps_next_generation_value export_state] in Hn.
  set (st1 := (import_state st0 (export_state st)).1) in *.
  destruct (steps_evolution st1 st2 Hi Hst) as [_ Hold Hnew].
  destruct (report_cases st2 r (steps_inv _ _ Hi Hst)) as [(s & Hau & _)|(_ & Hv & _)]; [|done].
  exfalso. destruct Hau as (_ & _ & Hs & _ & _ & Eg & [Hf _] & _).
  destruct (requests_ st1 !! mr_request_id r) as [s1|] eqn:Hs1.
  - destruct (Hold _ s1 Hs1) as (s2 & Hs2 & Hev). assert (s2 = s) as -> by congruence.
    pose proof (Hidle _ s1 Hs1). destruct (ev_flight _ _ _ Hev Hf) as [[? _]|?]; [congruence|lia].
  - pose proof (Hnew _ s Hs1 Hs Hf). lia.
Qed.
End restore.
