(* ===== verification/Progress.v ===== *)
(** * Progress: a cycle of an idle scheduler starts work

    When nothing runs, a request waits, a worker is free for every waiting
    request and the memory holds the largest group there can be, then a cycle
    dispatches at least one group. *)

From S2P Require Import Prelude Float Types Request Chunking Memory Compat Exec Observability SchedState SchedOps SchedCycle SchedFrame SchedInv SchedOpsInv SchedOpsInv2 SubmitInv CycleInv DispatchInv GroupInv FormInv RunCycle Reach Safety CycleProps CycleFrame Tables.

Section progress.
Context `{FE : FloatEnv} `{CK : ClockSource} `{HO : HashOrder} `{OR : Origin}.

(** ** Memory *)

Lemma idle_reserved st : sched_inv st → idle st → mg_reserved (im_mem st) = 0.
Proof.
  intros Hi Hq. destruct (si_mem _ Hi) as [Hg _]. by rewrite (gi_total _ Hg), (idle_ledger st Hi Hq).
Qed.

(** ** One group *)

Lemma dispatch_group_commits now st b g :
  sched_inv st → og_ok st g → room st (length (og_rids g)) →
  (∃ w ws, workers_ st !! w = Some ws ∧ worker_eligible (eg_backend (og_group g)) ws = true) →
  mg_reserved (im_mem st) + sumZ (member_bytes st) (og_rids g) <= budget (im_mem st) →
  db_groups (dispatch_group now (st, b) g).2 ≠ [].
Proof.
  intros Hi Ho [_ Hres] (w' & ws & Hws & Hel) Hfit. unfold dispatch_group.
  rewrite bool_decide_false by (rewrite (og_lengths _ _ Ho); intros E%nil_length_inv;
    by apply (oo_nonempty _ _ Ho)).
  pose proof (choose_worker_spec st (eg_backend (og_group g))) as Hch.
  destruct (choose_worker st (eg_backend (og_group g))) as [w|].
  2:{ specialize (Hch _ _ Hws). congruence. }
  pose proof (reserve_members_iff ∅ st (og_rids g) Hi (oo_nodup _ _ Ho)) as Hok.
  destruct (reserve_members st (og_rids g)) as [[st1 l] ok]. cbn [snd] in Hok.
  assert (ok = true) as ->.
  { apply Hok; [intros rid Hin|exact Hres|exact Hfit].
    split; [set_solver|]. destruct (oo_cand _ _ Ho rid Hin) as (s & Hs & Hc).
    exists s. split; [done|by apply candidate_not_running]. }
  cbn [negb]. destruct (commit_group now w st1 g) as [st2 dg]. cbn [snd]. eff.
  intros E. apply (f_equal length) in E. rewrite length_app in E. cbn in E. lia.
Qed.

Lemma dispatch_group_grows now acc g :
  db_groups acc.2 ≠ [] → db_groups (dispatch_group now acc g).2 ≠ [].
Proof.
  destruct acc as [st b]. cbn [snd]. intros Hb. unfold dispatch_group.
  destruct (bool_decide _); [done|]. destruct (choose_worker _ _) as [w|]; [|by eff].
  destruct (reserve_members st (og_rids g)) as [[st1 l] ok]. destruct ok; cbn [negb]; [|by eff].
  destruct (commit_group now w st1 g) as [st2 dg]. cbn [snd]. eff. by destruct (db_groups b).
Qed.

(** ** The sweep of an idle scheduler *)

Lemma idle_flight st rid s :
  sched_inv st → idle st → requests_ st !! rid = Some s → nonterminal s = true →
  rs_in_flight s = false.
Proof.
  intros Hi Hq Hs Hn. destruct (rs_in_flight s) eqn:Hf; [|done]. destruct (Hq rid s Hs).
  apply (flight_nonterminal_running _ _ _ _ _ (si_rs _ Hi _ _ Hs)); [|done].
  unfold nonterminal in Hn. by apply negb_true_iff in Hn.
Qed.

Lemma expire_one_idle now st rid :
  sched_inv st → idle st →
  idle (expire_one now st rid) ∧ workers_ (expire_one now st rid) = workers_ st ∧
  groups_ (expire_one now st rid) = groups_ st.
Proof.
  intros Hi Hq. destruct (requests_ st !! rid) as [s|] eqn:Hs.
  2:{ unfold expire_one. by rewrite Hs. }
  split.
  - destruct (expire_one_spec now st rid s Hs) as (s' & Hr & He). intros r x. rewrite Hr.
    rewrite lookup_insert. case_decide; [|apply Hq]. intros [= <-]. unfold expired_or_same in He.
    destruct (overdue now s); [|subst s'; by eapply Hq]. intros [_ Hl]. destruct He. congruence.
  - unfold expire_one. rewrite Hs. destruct (is_terminal_lifecycle _) eqn:Ht; [done|].
    assert (rs_in_flight s = false) as Hf
      by (apply (idle_flight st rid); [done..|unfold nonterminal; by rewrite Ht]).
    destruct (_ || _); [|done]. rewrite release_reservation_eq. cbv beta iota zeta.
    repeat eff_step. rewrite Hf. destruct (past_deadline now s); by eff.
Qed.

Lemma swept_idle now st :
  sched_inv st → idle st →
  idle (swept now st) ∧ workers_ (swept now st) = workers_ st ∧ groups_ (swept now st) = groups_ st.
Proof.
  intros Hi Hq. unfold swept. cbv zeta.
  destruct (touch_tenants_frame (expire_sweep now st) (candidates (expire_sweep now st)))
    as (_ & Hr & Hg & Hw). unfold idle. rewrite Hr, Hg, Hw.
  assert (sched_inv (expire_sweep now st) ∧ idle (expire_sweep now st) ∧
    workers_ (expire_sweep now st) = workers_ st ∧ groups_ (expire_sweep now st) = groups_ st)
    as (_ & H1 & H2); [|done].
  apply (foldl_preserve (λ st', sched_inv st' ∧ idle st' ∧ workers_ st' = workers_ st ∧
    groups_ st' = groups_ st)); [|done].
  intros st' rid _ (Hi' & Hq' & Hw' & Hg').
  destruct (expire_one_idle now st' rid Hi' Hq') as (? & ? & ?).
  split; [by apply expire_one_inv|]. split; [done|]. split; congruence.
Qed.

(** ** The cycle *)

(** No chunk needs more than [M] octets, and the largest group of such chunks
    fits the memory. *)
Definition roomy (M : Z) (st : Impl) : Prop :=
  0 <= M ∧ Z.max 1 (cfg_max_requests_per_group (im_cfg st)) * M <= budget (im_mem st) ∧
  ∀ rid s ch, requests_ st !! rid = Some s → nonterminal s = true →
    ch ∈ pl_chunks (rs_plan s) → ck_memory_estimate_bytes ch <= M.

Definition backend_of (st : Impl) (s : Rs) : string :=
  cky_backend (make_compat_key (rs_request s) (im_cfg st)).

(** For every waiting request there is a worker that can take it now. *)
Definition served (st : Impl) : Prop :=
  ∀ rid s, requests_ st !! rid = Some s → queued s →
    ∃ w ws, workers_ st !! w = Some ws ∧ worker_eligible (backend_of st s) ws = true.

Lemma queued_nonterminal s : queued s → nonterminal s = true.
Proof. unfold queued, nonterminal. by intros ->. Qed.

Lemma queued_candidate st rid s :
  sched_inv st → idle st → requests_ st !! rid = Some s → queued s → is_candidate s = true.
Proof.
  intros Hi Hq Hs Hqu. apply candidate_spec. split; [done|].
  split; [by eapply idle_flight; eauto using queued_nonterminal|].
  pose proof (si_rs _ Hi _ _ Hs) as Hok. destruct (ro_live _ _ _ _ _ Hok) as (ch & Hch & _); [by left|].
  apply lookup_lt_Some in Hch. pose proof (ro_index _ _ _ _ _ Hok). unfold chunk_count. lia.
Qed.

Lemma candidate_chunk_bytes st rid s :
  sched_inv st → requests_ st !! rid = Some s → is_candidate s = true →
  ∃ ch, pending_chunk s = Some ch ∧ ch ∈ pl_chunks (rs_plan s).
Proof.
  intros Hi Hs (Hl & _ & _)%candidate_spec.
  destruct (ro_live _ _ _ _ _ (si_rs _ Hi _ _ Hs)) as (ch & Hch & _); [by left|].
  exists ch. split; [done|]. by eapply list_elem_of_lookup_2.
Qed.

Lemma progress_back st st' rid s' :
  progress_kept (requests_ st) (requests_ st') →
  size (requests_ st') = size (requests_ st) → requests_ st' !! rid = Some s' →
  ∃ s, requests_ st !! rid = Some s ∧ prog s' = prog s.
Proof.
  intros Hp Hsz Hs'. destruct (requests_ st !! rid) as [s|] eqn:Hs.
  { destruct (Hp rid s Hs) as (x & Hx & E). exists s. split; [done|congruence]. }
  exfalso. assert (dom (requests_ st) = dom (requests_ st')) as Hd.
  { apply set_subseteq_size_eq.
    - intros k (x & Hx)%elem_of_dom. destruct (Hp k x Hx) as (y & Hy & _). by apply elem_of_dom_2 in Hy.
    - by rewrite !size_dom, Hsz. }
  apply not_elem_of_dom in Hs. rewrite Hd in Hs. apply elem_of_dom_2 in Hs'. done.
Qed.

(** Every group formed in an idle scheduler fits the memory and has a worker. *)
Lemma formed_fits M st now st1 open g :
  let st0 := swept now (st <| im_clock_reads ::= S |>) in
  sched_inv st → idle st → roomy M st → served st →
  forming st0 (ordered now (st <| im_clock_reads ::= S |>)) st1 open →
  keeps (Z.of_nat (length (ordered now (st <| im_clock_reads ::= S |>)))) st0 st1 →
  og_ok st1 g →
  (∃ w ws, workers_ st1 !! w = Some ws ∧ worker_eligible (eg_backend (og_group g)) ws = true) ∧
  mg_reserved (im_mem st1) + sumZ (member_bytes st1) (og_rids g) <= budget (im_mem st1).
Proof.
  intros st0 Hi Hq (HM & Hbud & Hch) Hsv Hf Hk Ho.
  set (stc := st <| im_clock_reads ::= S |>) in *.
  assert (sched_inv stc) as Hic by (unfold stc; frame_inv st).
  destruct (swept_idle now stc Hic Hq) as (Hq0 & Hw0 & _). fold st0 in Hq0, Hw0.
  pose proof (swept_keeps now st) as Hk0. fold stc st0 in Hk0.
  assert (idle st1) as Hq1.
  { intros rid s Hs. destruct (same_requests_r _ _ _ _ (fm_same _ _ _ _ Hf) Hs) as (s0 & Hs0 & E).
    rewrite (unres_running _ _ E). by eapply Hq0. }
  assert (im_cfg st1 = im_cfg st) as Hcfg.
  { rewrite (fm_cfg _ _ _ _ Hf). exact (proj1 (proj1 (swept_frame now stc))). }
  (* a candidate of [st1] is a waiting request of [st] with the same plan *)
  assert (∀ rid s1, requests_ st1 !! rid = Some s1 → is_candidate s1 = true →
    ∃ s, requests_ st !! rid = Some s ∧ queued s ∧ prog s1 = prog s) as Hback.
  { intros rid s1 Hs1 Hc. destruct (same_requests_r _ _ _ _ (fm_same _ _ _ _ Hf) Hs1) as (s0 & Hs0 & E).
    rewrite (unres_candidate _ _ E) in Hc. destruct (swept_origin now stc rid s0 Hs0) as (s & Hs & He).
    unfold expired_or_same in He. apply candidate_spec in Hc as [Hl _]. destruct (overdue now s).
    - destruct He. congruence.
    - subst s0. exists s. do 2 (split; [done|]).
      change (prog (unres s1) = prog (unres s)). by rewrite E. }
  split.
  - rewrite (fm_workers _ _ _ _ Hf), Hw0.
    destruct (oo_packed _ _ Ho) as [P1 [_ P2] _ _ _ _ _ _]. rewrite P2.
    pose proof (oo_nonempty _ _ Ho) as Hne. rewrite <- (oo_ids _ _ Ho) in Hne.
    destruct (eg_members (og_group g)) as [|m ms] eqn:Em; [done|].
    apply Forall_cons in P1 as [(s1 & ch & Hs1 & _ & Hkey & _) _].
    destruct (oo_cand _ _ Ho (em_request_id m)) as (s1' & Hs1' & Hc).
    { rewrite <- (oo_ids _ _ Ho), Em. by left. }
    simplify_eq. destruct (Hback _ _ Hs1 Hc) as (s & Hs & Hqu & E).
    rewrite <- Hkey, Hcfg. assert (rs_request s1 = rs_request s) as -> by (unfold prog in E; congruence).
    exact (Hsv _ s Hs Hqu).
  - rewrite (idle_reserved st1 (fm_inv _ _ _ _ Hf) Hq1), (keeps_budget _ _ _ Hk), (keeps_budget _ _ _ Hk0).
    assert (sumZ (member_bytes st1) (og_rids g) <= M * Z.of_nat (length (og_rids g))) as Hsum.
    { apply sumZ_bound. intros rid Hin. destruct (oo_cand _ _ Ho rid Hin) as (s1 & Hs1 & Hc).
      destruct (candidate_chunk_bytes st1 rid s1 (fm_inv _ _ _ _ Hf) Hs1 Hc) as (ch & Hp & Hin').
      destruct (Hback _ _ Hs1 Hc) as (s & Hs & Hqu & E).
      unfold member_bytes, map_at. rewrite Hs1. change (default Rs_default (Some s1)) with s1.
      rewrite Hp.
      apply (Hch rid s); [done|by apply queued_nonterminal|].
      by replace (rs_plan s) with (rs_plan s1) by (unfold prog in E; congruence). }
    assert (Z.of_nat (length (og_rids g)) <= Z.max 1 (cfg_max_requests_per_group (im_cfg st))) as Hlen.
    { rewrite <- (og_lengths _ _ Ho).
      destruct (pk_limits _ _ (oo_packed _ _ Ho)) as [->|[H _]]; [lia|]. rewrite Hcfg in H. lia. }
    nia.
Qed.

(** No starvation of an idle scheduler: when some request waits and is not
    overdue, every waiting request has a worker that can take it and the memory
    holds the largest group there can be, a cycle dispatches a group. *)
Lemma cycle_dispatches M st rid s :
  sched_inv st → cycle_room st → idle st → roomy M st → served st →
  requests_ st !! rid = Some s → queued s → overdue (clock_now (im_clock_reads st)) s = false →
  ∃ st' batch, run_cycle st = (st', Ok batch) ∧ db_groups batch ≠ [].
Proof.
  intros Hi Hroom Hq Hr Hsv Hs Hqu Hod.
  pose proof (run_cycle_eq st) as Heq. pose proof (cycle_formed st Hi Hroom) as Hf.
  cbv zeta in *. set (now := clock_now (im_clock_reads st)) in *.
  set (st0 := st <| im_clock_reads ::= S |>) in *.
  pose proof (form_groups_keeps (swept now st0) (ordered now st0)) as Hk.
  destruct (form_groups (swept now st0) (ordered now st0)) as [st1 open].
  destruct Hf as (Hform & Hok & _ & _ & Hrm). cbn [fst] in Hk.
  destruct open as [|g open].
  { exfalso. assert (rid ∈ ordered now st0) as Hin.
    { apply ordered_spec. destruct (swept_spec now st0 rid s Hs) as (x & Hx & He).
      unfold expired_or_same in He. rewrite Hod in He. subst x. exists s.
      split; [done|]. by eapply queued_candidate. }
    rewrite <- (fm_part _ _ _ _ Hform) in Hin. by apply list_elem_of_nil in Hin || inversion Hin. }
  apply Forall_cons in Hok as [Ho _].
  destruct (formed_fits M st now st1 (g :: open) g Hi Hq Hr Hsv Hform Hk Ho) as [Hwk Hfit].
  assert (room st1 (length (og_rids g))) as Hrg.
  { unfold room, total_members in *. rewrite fmap_cons in Hrm.
    change (mjoin (og_rids g :: (og_rids <$> open)))
      with (og_rids g ++ mjoin (og_rids <$> open)) in Hrm. rewrite length_app in Hrm. lia. }
  pose proof (dispatch_group_commits now st1 DispatchBatch_empty g (fm_inv _ _ _ _ Hform) Ho Hrg Hwk Hfit)
    as Hne.
  assert (db_groups (foldl (dispatch_group now) (st1, DispatchBatch_empty) (g :: open)).2 ≠ []) as Hall.
  { cbn [foldl]. apply (foldl_preserve (λ acc, db_groups acc.2 ≠ [])); [|done].
    intros acc g' _. apply dispatch_group_grows. }
  destruct (foldl (dispatch_group now) (st1, DispatchBatch_empty) (g :: open)) as [st2 batch].
  eexists _, batch. split; [exact Heq|]. exact Hall.
Qed.

End progress.
