(* ===== verification/Drive.v ===== *)
(** * Driving to quiescence

    [drive_until_quiescent] with CPU executors: every cycle of an idle scheduler
    starts work, every report is accepted and takes its request one chunk on or
    to a final state, and the worker is free again; so the number of chunks left
    decreases and the loop ends with every request final. *)

From S2P Require Import Prelude Float Types Request Chunking Memory Compat Exec Observability SchedState SchedOps SchedCycle SchedFrame SchedInv SchedOpsInv SchedOpsInv2 SubmitInv CycleInv DispatchInv GroupInv FormInv RunCycle Tally Bytes Persist SchedPersist ImportInv CycleFrame Reach Evolve Authority CycleProps CycleFrame Tables Safety Progress.

Section drive.
Context `{FE : FloatEnv} `{CK : ClockSource} `{HO : HashOrder} `{OR : Origin}.

(** ** Load of the workers *)

(** Groups outstanding on a worker. *)
Definition load (gs : gmap Z Gs) (w : WorkerId) : Z :=
  map_sum (λ _ g, if gs_worker g =? w then 1 else 0) gs.

(** The busy units of every worker are its outstanding groups. *)
Definition balanced (gs : gmap Z Gs) (wks : gmap Z Ws) : Prop :=
  ∀ w ws, wks !! w = Some ws →
    ws_busy_units ws = load gs w ∧ ws_busy_units ws <= wd_capacity_units (ws_desc ws) ∧
    wd_capacity_units (ws_desc ws) < 2 ^ 64.

Lemma load_nonneg gs w : 0 <= load gs w.
Proof. apply map_sum_nonneg. intros. case_if; lia. Qed.

Lemma load_empty w : load ∅ w = 0.
Proof. apply map_sum_empty. Qed.

Lemma load_insert_new gs gid g w :
  gs !! gid = None → load (<[gid := g]> gs) w = load gs w + (if gs_worker g =? w then 1 else 0).
Proof. intros H. unfold load. rewrite map_sum_insert_new by done. lia. Qed.

Lemma load_erase gs gid rid w :
  load (erase_member gid rid gs) w
  = load gs w - (if bool_decide (freed_worker gs gid rid = Some w) then 1 else 0).
Proof.
  unfold erase_member, freed_worker. destruct (gs !! gid) as [g|] eqn:Hg.
  2:{ rewrite bool_decide_false by done. lia. }
  destruct (bool_decide (gs_outstanding g ∖ {[rid]} = ∅)).
  - unfold load. rewrite (map_sum_delete _ gs gid g Hg).
    destruct (Z.eqb_spec (gs_worker g) w) as [->|Hne];
      [rewrite bool_decide_true by done|rewrite bool_decide_false by congruence]; lia.
  - rewrite bool_decide_false by done. unfold load.
    rewrite (map_sum_insert _ gs gid _ g Hg). rsimp. lia.
Qed.

Lemma freed_worker_load gs gid rid w : freed_worker gs gid rid = Some w → 1 <= load gs w.
Proof.
  unfold freed_worker. destruct (gs !! gid) as [g|] eqn:Hg; [|done].
  case_if; [|done]. intros [= <-]. unfold load.
  pose proof (map_sum_ge_one (λ _ g', if gs_worker g' =? gs_worker g then 1 else 0) gs gid g) as H.
  cbn in H. rewrite Z.eqb_refl in H. apply H; [|done]. intros. case_if; lia.
Qed.

(** A member leaves its group. *)
Lemma balanced_erase gs wks gid rid :
  balanced gs wks →
  balanced (erase_member gid rid gs) (dec_busy_opt (freed_worker gs gid rid) wks).
Proof.
  intros Hb w ws Hw. rewrite load_erase. unfold dec_busy_opt in Hw.
  destruct (freed_worker gs gid rid) as [w0|] eqn:Hf.
  2:{ rewrite bool_decide_false by done. destruct (Hb w ws Hw) as (? & ? & ?). split_and!; lia. }
  pose proof (freed_worker_load _ _ _ _ Hf) as H1. unfold dec_busy in Hw.
  destruct (wks !! w0) as [ws0|] eqn:Hw0.
  2:{ rewrite bool_decide_false by congruence. destruct (Hb w ws Hw) as (? & ? & ?). split_and!; lia. }
  destruct (Hb w0 ws0 Hw0) as (B1 & B2 & B3). pose proof (load_nonneg gs w0) as Hn.
  rewrite (proj2 (Z.ltb_lt 0 _)) in Hw by lia. rewrite lookup_insert in Hw.
  case_decide as E.
  - subst w0. injection Hw as <-. rewrite bool_decide_true by done. rsimp.
    rewrite u64_small by (unfold is_u64; lia). split_and!; lia.
  - rewrite bool_decide_false by congruence. destruct (Hb w ws Hw) as (? & ? & ?). split_and!; lia.
Qed.

(** A group is committed to a worker with a free unit. *)
Lemma balanced_commit gs wks gid g ws :
  balanced gs wks → gs !! gid = None → wks !! gs_worker g = Some ws →
  ws_busy_units ws < wd_capacity_units (ws_desc ws) →
  balanced (<[gid := g]> gs) (alter (setf ws_busy_units (λ n, n +u 1)) (gs_worker g) wks).
Proof.
  intros Hb Hn Hws Hlt w x Hx. rewrite load_insert_new by done. rewrite lookup_alter in Hx.
  pose proof (load_nonneg gs (gs_worker g)) as Hl. destruct (Hb _ _ Hws) as (B1 & B2 & B3).
  case_decide as E.
  - subst w. rewrite Hws in Hx. injection Hx as <-. rewrite Z.eqb_refl. rsimp.
    rewrite u64_small by (unfold is_u64; lia). split_and!; lia.
  - rewrite (proj2 (Z.eqb_neq _ _)) by done. destruct (Hb w x Hx) as (? & ? & ?). split_and!; lia.
Qed.

(** An idle scheduler has no groups, so its workers are free. *)
Lemma idle_no_groups st : sched_inv st → idle st → groups_ st = ∅.
Proof.
  intros Hi Hq. apply map_eq. intros gid. rewrite lookup_empty.
  destruct (groups_ st !! gid) as [g|] eqn:Hg; [|done].
  destruct (si_groups _ Hi gid g Hg) as (_ & Hne & Hout). exfalso. apply Hne.
  apply set_eq. intros rid. rewrite Hout. split; [|by intros ?%elem_of_empty].
  intros (s & Hs & Hr & _). by destruct (Hq rid s Hs).
Qed.

(** ** The end of a cycle *)

Definition batch_work (b : DispatchBatch) : list (DispatchedGroup * ExecutableMember) :=
  mjoin ((λ dg, pair dg <$> eg_members (dg_group dg)) <$> db_groups b).

(** Where a cycle leaves a request. *)
Definition cycled (now : Nanoseconds) (s s' : Rs) : Prop :=
  prog s' = prog s ∧
  (overdue now s = false ∧ rs_lifecycle s' = rs_lifecycle s ∧ (running s' → running s) ∨
   overdue now s = true ∧ rs_lifecycle s' = Lifecycle_expired ∨
   queued s ∧ running s').

(** A dispatched group has a number, members and a worker of the table. *)
Definition placed (st : Impl) (dg : DispatchedGroup) : Prop :=
  dg_group_id dg ≠ 0 ∧ eg_members (dg_group dg) ≠ [] ∧ is_Some (workers_ st !! dg_assigned_worker dg).

Lemma dispatch_group_balanced now st b g :
  sched_inv st → og_ok st g → room st (length (og_rids g)) →
  balanced (groups_ st) (workers_ st) →
  (∀ dg, dg ∈ db_groups b → placed st dg) →
  let '(st', b') := dispatch_group now (st, b) g in
  balanced (groups_ st') (workers_ st') ∧
  (∀ dg, dg ∈ db_groups b' → placed st' dg).
Proof.
  intros Hi Ho Hr Hb Hw. pose proof (dispatch_group_spec now st b g Hi Ho Hr) as Hsp.
  destruct (dispatch_group now (st, b) g) as [st' b'].
  destruct Hsp as [_ [[(_ & Hg & Hwk) Hdb]|(w & dg & Hch & [_ Hg] & Hwk & Hdb & Hid & Hd & Hgrp)]].
  { unfold placed in *. by rewrite Hg, Hwk, Hdb. }
  pose proof (choose_worker_spec st (eg_backend (og_group g))) as Hcw. rewrite Hch in Hcw.
  destruct Hcw as [(ws & Hws & He) _]. unfold placed. rewrite Hg, Hwk, Hdb. split.
  - apply (balanced_commit _ _ _ (mkGs _ w _) ws Hb (oo_fresh _ _ Ho) Hws).
    unfold worker_eligible in He. rewrite !andb_true_iff, negb_true_iff, Z.leb_gt in He. tauto.
  - intros dg'. rewrite elem_of_app, list_elem_of_singleton, lookup_alter_is_Some.
    intros [Hin| ->]; [by apply Hw|]. rewrite Hd, Hid, Hgrp. split.
    { pose proof (oo_gid _ _ Ho). lia. }
    split; [|eauto]. unfold numbered_group. rsimp. intros E.
    apply (f_equal (fmap em_request_id)) in E. rewrite numbered_ids, (oo_ids _ _ Ho) in E.
    by apply (oo_nonempty _ _ Ho).
Qed.

Record cycle_end (st st' : Impl) (b : DispatchBatch) : Prop := {
  ce_inv : sched_inv st';
  ce_keeps : keeps (3 * Z.of_nat (size (requests_ st))) st st';
  ce_size : size (requests_ st') = size (requests_ st);
  ce_balanced : balanced (groups_ st') (workers_ st');
  ce_placed : ∀ dg, dg ∈ db_groups b → placed st' dg;
  ce_work : ∀ dg m, (dg, m) ∈ batch_work b → dispatched_as st' dg m;
  ce_nodup : NoDup ((em_request_id ∘ snd) <$> batch_work b);
  ce_running : ∀ rid s, requests_ st' !! rid = Some s → running s →
    rid ∈ (em_request_id ∘ snd) <$> batch_work b;
  ce_cycled : ∀ rid s', requests_ st' !! rid = Some s' → ∃ s, requests_ st !! rid = Some s ∧
    cycled (clock_now (im_clock_reads st)) s s'
}.

Lemma batch_work_rids b : (em_request_id ∘ snd) <$> batch_work b = batch_rids b.
Proof.
  unfold batch_work, batch_rids. induction (db_groups b) as [|dg l IH]; [done|].
  rewrite !fmap_cons.
  change (mjoin ((pair dg <$> eg_members (dg_group dg)) :: ?l)) with
    ((pair dg <$> eg_members (dg_group dg)) ++ mjoin l).
  change (mjoin ((em_request_id <$> eg_members (dg_group dg)) :: ?l)) with
    ((em_request_id <$> eg_members (dg_group dg)) ++ mjoin l).
  rewrite fmap_app. f_equal; [|exact IH]. rewrite <- list_fmap_compose. done.
Qed.

Lemma elem_of_batch_work b dg m :
  (dg, m) ∈ batch_work b ↔ dg ∈ db_groups b ∧ m ∈ eg_members (dg_group dg).
Proof.
  unfold batch_work. rewrite list_elem_of_join. split.
  - intros (l & Hin & (dg' & -> & Hdg)%list_elem_of_fmap).
    apply list_elem_of_fmap in Hin as (m' & [= -> ->] & Hm). done.
  - intros [Hdg Hm]. exists (pair dg <$> eg_members (dg_group dg)).
    split; apply list_elem_of_fmap; eauto.
Qed.

Lemma same_requests_dom st st' : same_requests st st' → dom (requests_ st') = dom (requests_ st).
Proof.
  intros H. apply set_eq. intros rid. rewrite !elem_of_dom. split; intros [s Hs].
  - destruct (same_requests_r _ _ _ _ H Hs) as (x & Hx & _). eauto.
  - destruct (same_requests_l _ _ _ _ H Hs) as (x & Hx & _). eauto.
Qed.

Lemma dispatch_group_dom now st b g :
  sched_inv st → og_ok st g → room st (length (og_rids g)) →
  let '(st', b') := dispatch_group now (st, b) g in dom (requests_ st') = dom (requests_ st).
Proof.
  intros Hi Ho Hr. pose proof (dispatch_group_spec now st b g Hi Ho Hr) as Hsp.
  destruct (dispatch_group now (st, b) g) as [st' b'].
  destruct Hsp as [He [[(Hs & _) _]|(w & dg & _ & Hc & _)]]; [by apply same_requests_dom|].
  apply set_eq. intros rid. rewrite !elem_of_dom. destruct (decide (rid ∈ og_rids g)) as [Hin|Hn].
  - destruct (committed_to_in _ _ _ _ _ Hc Hin) as (s & s' & -> & -> & _). split; eauto.
  - by rewrite (de_other _ _ _ He rid Hn).
Qed.

Lemma swept_dom now st : dom (requests_ (swept now st)) = dom (requests_ st).
Proof.
  apply set_eq. intros rid. rewrite !elem_of_dom. split; intros [s Hs].
  - destruct (swept_origin now st rid s Hs) as (x & Hx & _). eauto.
  - destruct (swept_spec now st rid s Hs) as (x & Hx & _). eauto.
Qed.

(** Where each request is after a cycle. *)
Lemma run_cycle_cycled st rid s s' :
  sched_inv st → cycle_room st → requests_ st !! rid = Some s →
  requests_ (run_cycle st).1 !! rid = Some s' → cycled (clock_now (im_clock_reads st)) s s'.
Proof.
  intros Hi Hroom Hs Hs'. destruct (kp_prog _ _ _ (run_cycle_keeps st Hi Hroom) rid s Hs) as (x & Hx & Hp).
  assert (x = s') as -> by congruence. split; [done|].
  set (now := clock_now (im_clock_reads st)). pose (stc := st <| im_clock_reads ::= S |>).
  destruct (swept_spec now stc rid s Hs) as (s1 & Hs1 & He).
  pose proof (cycle_requests st rid s1 Hi Hroom) as Hcr. destruct (Hcr Hs1) as (y & Hy & _ & Hkept).
  assert (y = s') as -> by congruence.
  unfold expired_or_same in He. destruct (overdue now s) eqn:Hod.
  - right; left. split; [done|]. destruct He as [He _].
    destruct Hkept as [(-> & _)|[(Hl & _)%candidate_spec _]]; [done|congruence].
  - subst s1. destruct Hkept as [(Hl & Hf & _)|[(Hl & _)%candidate_spec Hr]].
    + left. do 2 (split; [done|]). unfold running. by rewrite Hl, Hf.
    + right; right. done.
Qed.

Lemma run_cycle_ends st :
  sched_inv st → cycle_room st → idle st → balanced (groups_ st) (workers_ st) →
  ∃ st' b, run_cycle st = (st', Ok b) ∧ cycle_end st st' b.
Proof.
  intros Hi Hroom Hq Hb. pose proof (run_cycle_keeps st Hi Hroom) as Hk.
  pose proof (run_cycle_inv st Hi Hroom) as Hi'.
  pose proof (λ rid s s', run_cycle_cycled st rid s s' Hi Hroom) as Hcy.
  set (stc := st <| im_clock_reads ::= S |>). set (now := clock_now (im_clock_reads st)) in *.
  assert (sched_inv stc) as Hic by (unfold stc; frame_inv st).
  destruct (swept_idle now stc Hic Hq) as (Hq0 & Hw0 & Hg0).
  destruct (run_cycle_ind (λ st' b, batch_inv (swept now stc) st' b ∧
      balanced (groups_ st') (workers_ st') ∧
      (∀ dg, dg ∈ db_groups b → placed st' dg) ∧
      dom (requests_ st') = dom (requests_ st)) st Hi Hroom)
    as (st2 & batch & E & _ & ([B0 B1 B2 B3 _ _ _ _ B4] & Hb2 & Hw2 & Hd2)).
  - intros st1 open Hf. split; [by eapply forming_batch|].
    rewrite (fm_groups _ _ _ _ Hf), (fm_workers _ _ _ _ Hf), (same_requests_dom _ _ (fm_same _ _ _ _ Hf)).
    fold stc now. rewrite Hw0, Hg0, swept_dom.
    split; [done|]. split; [|done]. intros dg Hin. by inversion Hin.
  - intros st1 b1 g Hi1 Ho Hr1 (HP1 & HP2 & HP3 & HP4).
    pose proof (dispatch_group_batch now (swept now stc) st1 b1 g Hi1 Ho Hr1 HP1) as H1.
    pose proof (dispatch_group_balanced now st1 b1 g Hi1 Ho Hr1 HP2 HP3) as H2.
    pose proof (dispatch_group_dom now st1 b1 g Hi1 Ho Hr1) as H3.
    fold now. destruct (dispatch_group now (st1, b1) g). rewrite H3. naive_solver.
  - eexists _, batch. split; [exact E|]. rewrite E in *. cbn [fst] in *.
    split; try done.
    + unfold refresh_queue_stats. eff. by rewrite map_size_fmap, <- !size_dom, Hd2.
    + intros dg m [Hdg Hm]%elem_of_batch_work. by apply dispatched_age, B1.
    + by rewrite batch_work_rids.
    + rewrite batch_work_rids. intros rid s'. unfold refresh_queue_stats. eff.
      rewrite lookup_fmap. intros (s2 & Hs2 & ->)%fmap_Some Hrun.
      assert (running s2) as Hrun2 by (by apply (core_running _ _ (age_core s2))).
      destruct (B3 rid s2 Hs2 Hrun2) as [?|(s1 & Hs1 & Hrun1 & _)]; [done|].
      by destruct (Hq0 rid s1 Hs1).
    + intros rid s' Hs'. destruct (requests_ st !! rid) as [s|] eqn:Hs; [by eauto|]. exfalso.
      apply not_elem_of_dom in Hs. apply Hs. rewrite <- Hd2. revert Hs'.
      unfold refresh_queue_stats. eff. rewrite lookup_fmap. intros (s2 & Hs2 & _)%fmap_Some.
      by apply elem_of_dom_2 in Hs2.
Qed.

(** ** Reports *)

Lemma apply_outcome_rest st s r :
  let '(st', s') := apply_outcome st s r in
  im_epoch st' = im_epoch st ∧ im_token_resolver st' = im_token_resolver st ∧
  (rs_cancel_pending s = false → rs_cancel_pending s' = false).
Proof.
  unfold apply_outcome, finish.
  destruct (mr_outcome r); repeat case_if; rewrite ?restart_attempt_eq; cbv beta iota zeta.
  all: split; [by eff|split; [by eff|]]; by eff.
Qed.

(** What a completion leaves alone, and how it takes its request out of the
    group. *)
Lemma apply_completion_frame st s r :
  nonterminal s = true → rs_current_group s ≠ 0 →
  let st' := (apply_completion st s r).1 in
  surroundings st' = surroundings st ∧
  im_next_generation_value st' = im_next_generation_value st ∧
  im_next_reservation_value st' = im_next_reservation_value st ∧
  im_next_group_value st' = im_next_group_value st ∧
  groups_ st' = erase_member (rs_current_group s) (rq_request_id (rs_request s)) (groups_ st) ∧
  workers_ st' = dec_busy_opt (freed_worker (groups_ st) (rs_current_group s)
                                 (rq_request_id (rs_request s))) (workers_ st) ∧
  (rs_cancel_pending s = false → ∀ s', requests_ st' !! mr_request_id r = Some s' →
   rs_cancel_pending s' = false).
Proof.
  intros Hn Hg. unfold apply_completion. destruct (account_chunk st s) as [st1 s1] eqn:Eacc.
  assert (same_counters st st1 ∧ im_mem st1 = im_mem st ∧ groups_ st1 = groups_ st ∧
    workers_ st1 = workers_ st ∧ im_epoch st1 = im_epoch st ∧
    im_token_resolver st1 = im_token_resolver st ∧ rs_request s1 = rs_request s ∧
    rs_reservation s1 = rs_reservation s ∧ rs_current_group s1 = rs_current_group s ∧
    rs_cancel_pending s1 = rs_cancel_pending s ∧ rs_lifecycle s1 = rs_lifecycle s)
    as ((C1 & C2 & C3 & C4) & M1 & G1 & W1 & E1 & T1 & Q1 & V1 & K1 & P1 & L1).
  { revert Eacc. unfold account_chunk, im_now. intros [= <- <-]. split_and!; try done; counters. }
  assert (nonterminal s1 = true) as Hn1 by (unfold nonterminal in *; by rewrite L1).
  pose proof (apply_outcome_effect st1 s1 r Hn1) as Heff.
  pose proof (apply_outcome_rest st1 s1 r) as Hrest.
  destruct (apply_outcome st1 s1 r) as [st2 s2]. simpl in Heff.
  destruct Heff as [(D1 & D2 & D3 & D4) R2 M2 G2 W2 Q2 V2 K2 F2 N2 A2].
  destruct Hrest as (E2 & T2 & P2).
  cbv beta iota zeta. rewrite release_reservation_eq, detach_eq. cbv beta iota zeta. cbn [fst snd].
  pose proof (limits_release_opt (rs_reservation s2) (im_mem st2)) as Hl. unfold limits in Hl.
  assert (is_nil (rs_current_group s2) = false) as Hnil
    by (unfold is_nil; apply Z.eqb_neq; congruence).
  unfold surroundings. eff. rewrite Hnil, Hl, identity_dec.
  split_and!; try congruence.
  rewrite P1 in P2. intros Hc s'. rewrite lookup_insert_eq. intros [= <-]. eff. by apply P2.
Qed.

(** ** Work left *)

Definition chunks_left (s : Rs) : Z :=
  if nonterminal s then chunk_count s - rs_next_chunk_index s else 0.
Definition work_left (st : Impl) : Z := map_sum (λ _ s, chunks_left s) (requests_ st).

(** Every request that is not final waits or runs. *)
Definition all_live (st : Impl) : Prop :=
  ∀ rid s, requests_ st !! rid = Some s → nonterminal s = true → queued s ∨ running s.

Lemma chunks_left_pos st rid s :
  sched_inv st → requests_ st !! rid = Some s → queued s ∨ running s → 1 <= chunks_left s.
Proof.
  intros Hi Hs Hl. pose proof (si_rs _ Hi _ _ Hs) as Hok.
  destruct (ro_live _ _ _ _ _ Hok Hl) as (ch & Hch & _). apply lookup_lt_Some in Hch.
  pose proof (ro_index _ _ _ _ _ Hok). unfold chunks_left, chunk_count.
  assert (nonterminal s = true) as -> by (unfold nonterminal; destruct Hl as [->|[_ ->]]; done). lia.
Qed.

Lemma chunks_left_nonneg st rid s :
  sched_inv st → all_live st → requests_ st !! rid = Some s → 0 <= chunks_left s.
Proof.
  intros Hi Hl Hs. destruct (nonterminal s) eqn:Hn.
  - pose proof (chunks_left_pos st rid s Hi Hs (Hl rid s Hs Hn)). lia.
  - unfold chunks_left. rewrite Hn. lia.
Qed.

Lemma no_work_terminal st rid s :
  sched_inv st → all_live st → work_left st <= 0 → requests_ st !! rid = Some s →
  is_terminal_lifecycle (rs_lifecycle s) = true.
Proof.
  intros Hi Hl Hw Hs. destruct (nonterminal s) eqn:Hn; [|unfold nonterminal in Hn; by apply negb_false_iff].
  pose proof (chunks_left_pos st rid s Hi Hs (Hl rid s Hs Hn)) as Hp.
  pose proof (map_sum_ge_one (λ _ s, chunks_left s) (requests_ st) rid s
    (λ j y Hj, chunks_left_nonneg st j y Hi Hl Hj) Hs) as Hge. unfold work_left in Hw. cbn in *. lia.
Qed.

(** ** A request nothing stands in the way of *)

Definition unhindered (st : Impl) (rid : RequestId) : Prop :=
  ∃ s toks, requests_ st !! rid = Some s ∧ rq_deadline (rs_request s) = None ∧
    rq_max_queue_delay (rs_request s) = None ∧ rs_cancel_pending s = false ∧
    im_token_resolver st !! rid = Some toks ∧
    Z.of_nat (length toks) = rq_prompt_token_count (rs_request s) ∧
    (rs_lifecycle s = Lifecycle_completed ∨ queued s ∨ running s).

Lemma chunk_end cfg req attempt i ch :
  request_wf req → config_wf cfg → pl_chunks (plan cfg req attempt 0) !! i = Some ch →
  0 <= ck_token_start ch ∧ 1 <= ck_token_count ch ∧
  ck_token_start ch + ck_token_count ch <= remaining_prefill_tokens req.
Proof.
  intros Hr Hc Hi. pose proof (plan_chunk_bounds _ _ _ _ _ _ Hr Hc Hi) as [[? _] _].
  apply plan_lookup in Hi as (Hnz & Hlt & ->); [|done..].
  pose proof (effective_chunk_bounds cfg req Hr Hc Hnz) as [? _]. cbn in *. lia.
Qed.

(** The CPU executor answers with a success when the tokens are there. *)
Lemma cpu_member_outcome R m :
  let o := mr_outcome (cpu_execute_member R m) in
  o = MemberOutcome_success ∨ o = MemberOutcome_non_retryable_failure.
Proof. cbv zeta. unfold cpu_execute_member, member_failure. repeat case_match; auto. Qed.

Lemma cpu_member_succeeds toks m resolver :
  resolver !! em_request_id m = Some toks → 0 <= em_token_start m → 1 <= em_token_count m →
  em_token_start m + em_token_count m <= Z.of_nat (length toks) →
  em_token_start m + em_token_count m < 2 ^ 64 →
  mr_outcome (cpu_execute_member (InMemoryTokenResolver resolver) m) = MemberOutcome_success.
Proof.
  intros Ht H0 H1 Hlen Hu. unfold cpu_execute_member.
  rewrite (proj2 (Z.eqb_neq _ _)) by lia. cbn [resolve_tokens InMemoryTokenResolver].
  unfold in_memory_resolve. rewrite Ht, u64_small by (unfold is_u64; lia).
  by rewrite (proj2 (Z.ltb_ge _ _)) by lia.
Qed.

(** ** Draining the batch *)

(** The requests of [st'] are those of [st], in the same attempt. *)
Definition descends (st st' : Impl) : Prop :=
  ∀ rid s', requests_ st' !! rid = Some s' → ∃ s, requests_ st !! rid = Some s ∧
    rs_request s' = rs_request s ∧ rs_attempt s' = rs_attempt s ∧
    (nonterminal s' = true → nonterminal s = true).

(** The members [L] of the batch are still to be reported; nothing else runs. *)
Record draining (st0 : Impl) (L : list (DispatchedGroup * ExecutableMember)) (st : Impl) : Prop := {
  dn_inv : sched_inv st;
  dn_around : surroundings st = surroundings st0;
  dn_gen : im_next_generation_value st = im_next_generation_value st0;
  dn_res : im_next_reservation_value st = im_next_reservation_value st0;
  dn_grp : im_next_group_value st = im_next_group_value st0;
  dn_size : size (requests_ st) = size (requests_ st0);
  dn_work : ∀ dg m, (dg, m) ∈ L → dispatched_as st dg m;
  dn_nodup : NoDup ((em_request_id ∘ snd) <$> L);
  dn_running : ∀ rid s, requests_ st !! rid = Some s → running s → rid ∈ (em_request_id ∘ snd) <$> L;
  dn_live : all_live st;
  dn_balanced : balanced (groups_ st) (workers_ st);
  dn_descends : descends st0 st;
  dn_tallied : tallied st0 → tallied st
}.

Definition boot_of (st : Impl) (w : WorkerId) : WorkerBootId :=
  match workers_ st !! w with Some ws => wd_boot_id (ws_desc ws) | None => 0 end.

(** The report of a member, as [drive_group] makes it. *)
Definition member_report (st : Impl) (dg : DispatchedGroup) (m : ExecutableMember) : MemberResult :=
  stamp (im_epoch st) (dg_assigned_worker dg) (boot_of st (dg_assigned_worker dg))
    (cpu_execute_member (InMemoryTokenResolver (im_token_resolver st)) m).

Lemma surroundings_inj st st' :
  surroundings st = surroundings st' →
  im_cfg st = im_cfg st' ∧ im_epoch st = im_epoch st' ∧
  im_token_resolver st = im_token_resolver st' ∧ budget (im_mem st) = budget (im_mem st') ∧
  (∀ w, identity <$> workers_ st !! w = identity <$> workers_ st' !! w).
Proof.
  unfold surroundings. intros E. injection E as E1 E2 E3 E4 E5 E6. split_and!; try done.
  - unfold budget. by rewrite E4, E5.
  - intros w. by rewrite <- !lookup_fmap, E6.
Qed.

Lemma member_report_same st st' dg m :
  surroundings st = surroundings st' → member_report st dg m = member_report st' dg m.
Proof.
  intros (_ & E2 & E3 & _ & E5)%surroundings_inj. unfold member_report, boot_of. rewrite E2, E3.
  specialize (E5 (dg_assigned_worker dg)).
  destruct (workers_ st !! _) as [ws|], (workers_ st' !! _) as [ws'|]; try done. cbn in E5.
  unfold identity in E5. by injection E5 as -> _.
Qed.

Lemma member_report_authoritative st dg m s :
  im_epoch st ≠ 0 → is_Some (workers_ st !! dg_assigned_worker dg) → dispatched_as st dg m →
  requests_ st !! em_request_id m = Some s →
  authoritative st (member_report st dg m) s ∧ mr_request_id (member_report st dg m) = em_request_id m.
Proof.
  intros He [ws Hws] (s0 & ch & Hs0 & Hrun & _ & Hw & Ha & Hg & _) Hs. simplify_eq.
  assert (∀ R, mr_request_id (cpu_execute_member R m) = em_request_id m ∧
    mr_attempt_id (cpu_execute_member R m) = em_attempt_id m ∧
    mr_generation (cpu_execute_member R m) = em_generation m) as Hid.
  { intros R. unfold cpu_execute_member, member_failure. repeat case_match; done. }
  destruct (Hid (InMemoryTokenResolver (im_token_resolver st))) as (I1 & I2 & I3).
  unfold authoritative, member_report, stamp, boot_of. rewrite Hws. rsimp. rewrite I1, I2, I3.
  split; [|done]. do 3 (split; [done|]). split; [right; eauto|].
  do 2 (split; [done|]). split; [done|]. by right.
Qed.

Lemma cpu_outcome_settles st o s s' :
  o = MemberOutcome_success ∨ o = MemberOutcome_non_retryable_failure → settled st o s s' →
  rs_request s' = rs_request s ∧ rs_attempt s' = rs_attempt s ∧ ~ running s' ∧
  (nonterminal s' = true → queued s' ∧ rs_next_chunk_index s' = rs_next_chunk_index s + 1) ∧
  (o = MemberOutcome_success → rs_cancel_pending s = false →
   rs_lifecycle s' = Lifecycle_completed ∨ queued s').
Proof.
  intros Ho (Hq & Hf & _ & _ & Hl & Hrest).
  assert (bool_decide (o = MemberOutcome_retryable_failure) = false) as Hr
    by (destruct Ho as [->| ->]; done).
  rewrite Hr in Hrest. cbn [andb] in Hrest. destruct Hrest as (Ha & _ & _ & Hidx).
  split; [done|]. split; [done|]. split; [intros [Hx _]; congruence|]. unfold queued, nonterminal.
  rewrite Hl in *. destruct Ho as [->| ->]; cbn [settle] in *; [|done].
  destruct (rs_cancel_pending s); [by split; intros|].
  destruct (last_chunk s); [split; [done|auto]|].
  split; [|auto]. intros _. split; [done|]. exact Hidx.
Qed.

Lemma settled_chunks st st' rid s s' :
  sched_inv st → sched_inv st' → im_cfg st' = im_cfg st → requests_ st !! rid = Some s →
  requests_ st' !! rid = Some s' → running s → rs_request s' = rs_request s →
  rs_attempt s' = rs_attempt s →
  (nonterminal s' = true → queued s' ∧ rs_next_chunk_index s' = rs_next_chunk_index s + 1) →
  chunks_left s' + 1 <= chunks_left s.
Proof.
  intros Hi Hi' Hcfg Hs Hs' Hrun Hq Ha Hn.
  pose proof (chunks_left_pos st rid s Hi Hs ltac:(by right)) as Hpos.
  assert (chunk_count s' = chunk_count s) as Hc.
  { unfold chunk_count. by rewrite (ro_plan _ _ _ _ _ (si_rs _ Hi' _ _ Hs')),
      (ro_plan _ _ _ _ _ (si_rs _ Hi _ _ Hs)), Hq, Ha, Hcfg. }
  assert (nonterminal s = true) as Hns by (unfold nonterminal; by rewrite (proj2 Hrun)).
  unfold chunks_left in *. rewrite Hns in *. destruct (nonterminal s') eqn:E; [|lia].
  destruct (Hn eq_refl) as [_ ->]. lia.
Qed.

(** The report of a member is accepted: its request leaves the batch, a chunk
    nearer to its end. *)
Lemma drain_step st0 st dg m L :
  im_epoch st0 ≠ 0 → draining st0 ((dg, m) :: L) st → placed st dg →
  let st' := (report_completion st (member_report st0 dg m)).1 in
  draining st0 L st' ∧ work_left st' + 1 <= work_left st ∧
  (∀ rid, unhindered st rid → unhindered st' rid).
Proof.
  intros Hep [Di Da Dg Dr Dgp Dsz Dw Dn Drun Dl Db Dd Dt] (Hgz & _ & Hws) st'. subst st'.
  rewrite <- (member_report_same _ _ dg m Da).
  destruct (surroundings_inj _ _ Da) as (Ecfg & Eep & Etok & _).
  pose proof (Dw dg m ltac:(by left)) as Hdisp. pose proof Hdisp as (s & ch & Hs & Hrun & Hgid & Hrest).
  destruct (member_report_authoritative st dg m s ltac:(congruence) Hws Hdisp Hs) as [Ha Hid].
  destruct (report_cases st (member_report st dg m) Di) as [(s0 & Ha0 & ->)|(Hna & _)];
    [|by destruct (Hna s)].
  assert (s0 = s) as -> by (destruct Ha as (_ & _ & H1 & _), Ha0 as (_ & _ & H2 & _); congruence).
  clear Ha0 Ha. rewrite <- Hgid in Hgz.
  assert (nonterminal s = true) as Hnt by (unfold nonterminal; by rewrite (proj2 Hrun)).
  set (r := member_report st dg m) in *. rewrite <- Hid in Hs.
  pose proof (apply_completion_inv st s r Di Hs Hrun) as Hi'.
  destruct (apply_completion_frame st s r Hnt Hgz) as (F1 & F2 & F3 & F4 & F5 & F6 & F7).
  destruct (apply_completion_settles st s r Di Hs Hrun) as (_ & s' & Hreq & _ & Hset).
  set (st' := (apply_completion st s r).1) in *. rewrite Hid in *.
  assert (mr_outcome r = mr_outcome (cpu_execute_member (InMemoryTokenResolver (im_token_resolver st)) m))
    as Hout by done.
  destruct (cpu_outcome_settles st (mr_outcome r) s s') as (Q1 & Q2 & Q3 & Q4 & Q5);
    [rewrite Hout; apply cpu_member_outcome|done|].
  assert (requests_ st' !! em_request_id m = Some s') as Hs' by (rewrite Hreq; apply lookup_insert_eq).
  assert (∀ rid, rid ≠ em_request_id m → requests_ st' !! rid = requests_ st !! rid) as Hoth
    by (intros rid Hne; rewrite Hreq; by apply lookup_insert_ne).
  destruct (surroundings_inj _ _ F1) as (Ecfg' & _ & Etok' & _).
  rewrite fmap_cons, NoDup_cons in Dn. destruct Dn as [Dnin Dn]. cbn in Dnin.
  split; [split|split].
  - done.
  - congruence.
  - congruence.
  - congruence.
  - congruence.
  - rewrite Hreq, <- Dsz. by eapply size_put.
  - intros dg' m' Hin. destruct (Dw dg' m' ltac:(by right)) as (x & chx & Hx & Hrx & R1 & R2 & R3 & R4 & R5 & R6 & R7 & R8 & R9).
    exists x, chx. rewrite Hoth, Ecfg'; [done|]. intros E. apply Dnin. rewrite <- E.
    apply list_elem_of_fmap. by exists (dg', m').
  - done.
  - intros rid x Hx Hrx. destruct (decide (rid = em_request_id m)) as [->|Hne]; [congruence|].
    rewrite Hoth in Hx by done. pose proof (Drun rid x Hx Hrx) as Hin.
    rewrite fmap_cons in Hin. by apply elem_of_cons in Hin as [?|?].
  - intros rid x Hx Hnx. destruct (decide (rid = em_request_id m)) as [->|Hne].
    + simplify_eq. left. by apply Q4.
    + rewrite Hoth in Hx by done. by apply (Dl rid).
  - rewrite F5, F6. by apply balanced_erase.
  - intros rid x Hx. destruct (decide (rid = em_request_id m)) as [->|Hne].
    + simplify_eq. destruct (Dd _ _ Hs) as (y & Hy & Y1 & Y2 & Y3). exists y. rewrite Q1, Q2. auto.
    + rewrite Hoth in Hx by done. by apply Dd.
  - intros Ht. apply apply_completion_tallied; [by rewrite Hid| |by apply Dt].
    rewrite Hout. destruct (cpu_member_outcome (InMemoryTokenResolver (im_token_resolver st)) m)
      as [->| ->]; done.
  - unfold work_left. rewrite Hreq, (map_sum_insert _ _ _ _ s Hs).
    pose proof (settled_chunks st st' (em_request_id m) s s' Di Hi' Ecfg' Hs Hs' Hrun Q1 Q2 Q4). lia.
  - intros rid (x & toks & Hx & U1 & U2 & U3 & U4 & U5 & U6).
    destruct (decide (rid = em_request_id m)) as [->|Hne].
    2:{ exists x, toks. rewrite Hoth, Etok' by done. done. }
    simplify_eq. exists s', toks. rewrite Q1, Etok'. do 3 (split; [done|]).
    split; [by apply F7|]. do 2 (split; [done|]).
    assert (mr_outcome r = MemberOutcome_success) as Hsucc.
    { rewrite Hout. destruct Hrest as (_ & _ & _ & _ & Hch & Hst & Hct & _).
      pose proof (si_rs _ Di _ _ Hs) as Hok. pose proof (ro_req _ _ _ _ _ Hok) as [Hwf Hp].
      unfold pending_chunk in Hch. rewrite (ro_plan _ _ _ _ _ Hok) in Hch.
      destruct (chunk_end _ _ _ _ _ Hwf (proj1 (si_cfg _ Di)) Hch) as (? & ? & ?).
      pose proof (remaining_le_prompt _ Hwf) as [? _].
      apply (cpu_member_succeeds toks); rewrite ?Hst, ?Hct; [done|lia..]. }
    destruct (Q5 Hsucc U3) as [?|?]; auto.
Qed.

Lemma placed_same st st' dg : surroundings st = surroundings st' → placed st dg → placed st' dg.
Proof.
  intros (_ & _ & _ & _ & E)%surroundings_inj (Hg & Hm & [ws Hws]). do 2 (split; [done|]).
  specialize (E (dg_assigned_worker dg)). rewrite Hws in E. by destruct (workers_ st' !! _).
Qed.

Lemma drain_members st0 dg ms L st :
  im_epoch st0 ≠ 0 → placed st0 dg → draining st0 ((pair dg <$> ms) ++ L) st →
  let st' := foldl (λ st m, (report_completion st (member_report st0 dg m)).1) st ms in
  draining st0 L st' ∧ work_left st' + Z.of_nat (length ms) <= work_left st ∧
  (∀ rid, unhindered st rid → unhindered st' rid).
Proof.
  intros He Hp. revert st. induction ms as [|m ms IH]; intros st Hd.
  { cbn. split; [done|]. split; [lia|done]. }
  change ((pair dg <$> m :: ms) ++ L) with ((dg, m) :: ((pair dg <$> ms) ++ L)) in Hd.
  destruct (drain_step st0 st dg m _ He Hd
    (placed_same _ _ _ (eq_sym (dn_around _ _ _ Hd)) Hp)) as (Hd1 & Hw1 & Hu1).
  destruct (IH _ Hd1) as (Hd2 & Hw2 & Hu2). cbn [foldl length]. split; [done|]. split; [lia|auto].
Qed.

(** All workers execute on the CPU, in process. *)
Definition cpu_workers (st : Impl) : Prop :=
  ∀ w ws, workers_ st !! w = Some ws → ws_local_exec ws = Some CpuExecutor.

Lemma foldl_fmap {A B C} (f : A → B → A) (g : C → B) l a :
  foldl f a (g <$> l) = foldl (λ a c, f a (g c)) a l.
Proof. revert a. induction l as [|c l IH]; intros a; [done|]. apply IH. Qed.

(** [drive_group] reports every member of the group. *)
Lemma drive_group_reports st0 st dg :
  surroundings st = surroundings st0 → cpu_workers st → placed st dg →
  drive_group st dg
  = foldl (λ st m, (report_completion st (member_report st0 dg m)).1) st (eg_members (dg_group dg)).
Proof.
  intros Ha Hc (_ & _ & [ws Hws]). unfold drive_group, group_results. rewrite Hws, (Hc _ _ Hws).
  destruct (cpu_execute_members (dg_group dg) (InMemoryTokenResolver (im_token_resolver st)))
    as (out & Hex & Hms & _).
  change (ex_execute CpuExecutor) with cpu_execute. rewrite Hex, Hms, !foldl_fmap.
  assert (∀ ms st1, foldl (λ a c, (report_completion a (stamp (im_epoch st) (dg_assigned_worker dg)
       (wd_boot_id (ws_desc ws)) (cpu_execute_member (InMemoryTokenResolver (im_token_resolver st)) c))).1) st1 ms
     = foldl (λ st m, (report_completion st (member_report st0 dg m)).1) st1 ms) as Heq; [|by apply Heq].
  induction ms as [|m ms IH]; intros st1; [done|]. cbn [foldl].
  rewrite <- IH. do 3 f_equal. rewrite <- (member_report_same st st0 dg m Ha).
  unfold member_report, boot_of. by rewrite Hws.
Qed.

Lemma cpu_workers_same st st' : surroundings st = surroundings st' → cpu_workers st → cpu_workers st'.
Proof.
  intros (_ & _ & _ & _ & E)%surroundings_inj Hc w ws' Hw'. specialize (E w). rewrite Hw' in E.
  destruct (workers_ st !! w) as [ws|] eqn:Hw; [|done]. cbn in E. unfold identity in E.
  injection E as _ <-. by eapply Hc.
Qed.

(** The whole batch. *)
Lemma drain_groups st0 dgs st :
  im_epoch st0 ≠ 0 → cpu_workers st0 → (∀ dg, dg ∈ dgs → placed st0 dg) →
  draining st0 (mjoin ((λ dg, pair dg <$> eg_members (dg_group dg)) <$> dgs)) st →
  let st' := foldl drive_group st dgs in
  draining st0 [] st' ∧
  work_left st' + Z.of_nat (length (mjoin ((λ dg, eg_members (dg_group dg)) <$> dgs)))
    <= work_left st ∧
  (∀ rid, unhindered st rid → unhindered st' rid).
Proof.
  intros He Hc. revert st. induction dgs as [|dg dgs IH]; intros st Hp Hd.
  { cbn in *. split; [done|]. split; [lia|done]. }
  rewrite fmap_cons in Hd.
  change (mjoin ((pair dg <$> eg_members (dg_group dg)) :: ?l))
    with ((pair dg <$> eg_members (dg_group dg)) ++ mjoin l) in Hd.
  pose proof (dn_around _ _ _ Hd) as Ha. cbn [foldl].
  rewrite (drive_group_reports st0 st dg Ha (cpu_workers_same _ _ (eq_sym Ha) Hc)
    (placed_same _ _ _ (eq_sym Ha) (Hp dg ltac:(by left)))).
  destruct (drain_members st0 dg (eg_members (dg_group dg)) _ st He (Hp dg ltac:(by left)) Hd)
    as (Hd1 & Hw1 & Hu1).
  destruct (IH _ (λ dg' Hin, Hp dg' ltac:(by right)) Hd1) as (Hd2 & Hw2 & Hu2).
  split; [done|]. split; [|auto]. rewrite fmap_cons.
  change (mjoin (eg_members (dg_group dg) :: ?l)) with (eg_members (dg_group dg) ++ mjoin l).
  rewrite length_app. lia.
Qed.

(** ** The loop *)

(** Every request that is not final has a worker that, once free, can take it. *)
Definition serving (st : Impl) : Prop :=
  ∀ rid s, requests_ st !! rid = Some s → nonterminal s = true →
    ∃ w ws, workers_ st !! w = Some ws ∧
      worker_eligible (backend_of st s) (ws <| ws_busy_units := 0 |>) = true.

Record drivable (M : Z) (st : Impl) : Prop := {
  dv_idle : idle st;
  dv_live : all_live st;
  dv_epoch : im_epoch st ≠ 0;
  dv_roomy : roomy M st;
  dv_balanced : balanced (groups_ st) (workers_ st);
  dv_cpu : cpu_workers st;
  dv_serving : serving st
}.

Lemma serving_served st :
  sched_inv st → idle st → balanced (groups_ st) (workers_ st) → serving st → served st.
Proof.
  intros Hi Hq Hb Hsv rid s Hs Hqu.
  destruct (Hsv rid s Hs (queued_nonterminal _ Hqu)) as (w & ws & Hws & Hel).
  exists w, ws. split; [done|]. destruct (Hb w ws Hws) as [Hbusy _].
  rewrite (idle_no_groups st Hi Hq), load_empty in Hbusy.
  revert Hel. unfold worker_eligible. rsimp. by rewrite Hbusy.
Qed.

Lemma cycled_live now s s' :
  ~ running s → (nonterminal s = true → queued s ∨ running s) → cycled now s s' →
  nonterminal s' = true →
  nonterminal s = true ∧ (queued s' ∧ overdue now s = false ∧ queued s ∨ running s').
Proof.
  intros Hnr Hl (_ & Hc) Hn. unfold queued, nonterminal in *.
  destruct Hc as [(Ho & E & _)|[(_ & E)|(E & Hr)]].
  - rewrite E in *. destruct (Hl Hn); [|done]. auto.
  - by rewrite E in Hn.
  - rewrite E. auto.
Qed.

Lemma cycle_draining st st' b :
  sched_inv st → idle st → all_live st → cycle_end st st' b → draining st' (batch_work b) st'.
Proof.
  intros Hi Hq Hl [C1 C2 C3 C4 C5 C6 C7 C8 C9]. split; try done.
  - intros rid s' Hs' Hn. destruct (C9 rid s' Hs') as (s & Hs & Hc).
    destruct (cycled_live _ s s' (Hq rid s Hs) (Hl rid s Hs) Hc Hn) as [_ [(? & _)|?]]; auto.
  - intros rid s' Hs'. eauto 10.
Qed.

Lemma cycle_work_left st st' b :
  sched_inv st → idle st → all_live st → cycle_end st st' b → work_left st' <= work_left st.
Proof.
  intros Hi Hq Hl Hce. unfold work_left. apply map_sum_le.
  - intros rid s Hs. by eapply chunks_left_nonneg.
  - intros rid s' Hs'. destruct (ce_cycled _ _ _ Hce rid s' Hs') as (s & Hs & Hc). exists s.
    split; [done|]. pose proof (chunks_left_nonneg st rid s Hi Hl Hs) as Hpos.
    unfold chunks_left in *. destruct (nonterminal s') eqn:Hn; [|done].
    destruct (cycled_live _ s s' (Hq rid s Hs) (Hl rid s Hs) Hc Hn) as [Hns _]. rewrite Hns.
    destruct Hc as [Hp _]. unfold prog in Hp. injection Hp as _ _ Hplan Hidx _.
    unfold chunk_count. by rewrite Hplan, Hidx.
Qed.

Lemma cycle_unhindered st st' b rid :
  idle st → cycle_end st st' b → unhindered st rid → unhindered st' rid.
Proof.
  intros Hq Hce (s & toks & Hs & U1 & U2 & U3 & U4 & U5 & U6).
  destruct (kp_prog _ _ _ (ce_keeps _ _ _ Hce) rid s Hs) as (s' & Hs' & _).
  destruct (ce_cycled _ _ _ Hce rid s' Hs') as (s0 & Hs0 & Hp & Hc).
  assert (s0 = s) as -> by congruence. unfold prog in Hp. injection Hp as P1 _ _ _ P5.
  destruct (surroundings_inj _ _ (kp_around _ _ _ (ce_keeps _ _ _ Hce))) as (_ & _ & Etok & _).
  exists s', toks. rewrite P1, P5, Etok. do 6 (split; [done|]). unfold queued in *.
  destruct Hc as [(_ & -> & _)|[(Ho & _)|(_ & ?)]]; [|exfalso|auto].
  - destruct U6 as [?|[?|?]]; auto. by destruct (Hq rid s Hs).
  - unfold overdue, past_deadline, queue_delay_exceeded in Ho. rewrite U1, U2 in Ho.
    by rewrite !andb_false_r in Ho.
Qed.

(** Nothing was dispatched: nothing is left. *)
Lemma empty_batch_done M st st' b :
  sched_inv st → drivable M st → cycle_room st → run_cycle st = (st', Ok b) → cycle_end st st' b →
  db_groups b = [] → work_left st' = 0.
Proof.
  intros Hi [V1 V2 V3 V4 V5 V6 V7] Hroom Hrun Hce Hb. apply map_sum_zero. intros rid s' Hs'.
  unfold chunks_left. destruct (nonterminal s') eqn:Hn; [|done]. exfalso.
  destruct (ce_cycled _ _ _ Hce rid s' Hs') as (s & Hs & Hc).
  destruct (cycled_live _ s s' (V1 rid s Hs) (V2 rid s Hs) Hc Hn) as [_ [(_ & Ho & Hqu)|Hr]].
  - destruct (cycle_dispatches M st rid s Hi Hroom V1 V4 (serving_served st Hi V1 V5 V7) Hs Hqu Ho)
      as (st2 & b2 & Hrun2 & Hne). rewrite Hrun in Hrun2. injection Hrun2 as <- <-. done.
  - pose proof (ce_running _ _ _ Hce rid s' Hs' Hr) as Hin. unfold batch_work in Hin.
    rewrite Hb in Hin. by inversion Hin.
Qed.

(** What an idle scheduler needs to be driven on survives requests that move on
    in the same attempt. *)
Lemma drivable_after M st st' :
  sched_inv st → sched_inv st' → drivable M st → surroundings st' = surroundings st →
  descends st st' → idle st' → all_live st' → balanced (groups_ st') (workers_ st') →
  drivable M st'.
Proof.
  intros Hi Hi' [V1 V2 V3 (HM & Hbud & Hch) V5 V6 Hsv] Ha Hd Hq Hl Hb.
  destruct (surroundings_inj _ _ Ha) as (Ecfg & Eep & _ & Ebud & Ewk).
  split; try done.
  - congruence.
  - split; [done|]. rewrite Ecfg, Ebud. split; [done|]. intros rid s' ch Hs' Hn Hin.
    destruct (Hd rid s' Hs') as (s & Hs & Q & A & Hn'). apply (Hch rid s ch Hs (Hn' Hn)).
    rewrite (ro_plan _ _ _ _ _ (si_rs _ Hi _ _ Hs)), <- Ecfg, <- Q, <- A.
    by rewrite <- (ro_plan _ _ _ _ _ (si_rs _ Hi' _ _ Hs')).
  - by eapply cpu_workers_same.
  - intros rid s' Hs' Hn. destruct (Hd rid s' Hs') as (s & Hs & Q & _ & Hn').
    destruct (Hsv rid s Hs (Hn' Hn)) as (w & ws & Hws & Hel). specialize (Ewk w).
    rewrite Hws in Ewk. destruct (workers_ st' !! w) as [ws'|] eqn:Hws'; [|done].
    cbn in Ewk. unfold identity in Ewk. injection Ewk as E _. exists w, ws'. split; [done|].
    revert Hel. unfold backend_of, worker_eligible. rsimp. by rewrite Q, E, Ecfg.
Qed.

Definition counters_room (n : nat) (st : Impl) : Prop :=
  let k := 3 * Z.of_nat (size (requests_ st)) * Z.of_nat n in
  im_next_generation_value st + k < 2 ^ 64 ∧ im_next_reservation_value st + k < 2 ^ 64 ∧
  im_next_group_value st + k < 2 ^ 64.

Lemma counters_room_cycle n st : counters_room (S n) st → cycle_room st.
Proof. unfold counters_room, cycle_room. cbv zeta. nia. Qed.

Lemma cycle_descends st st' b :
  idle st → all_live st → cycle_end st st' b → descends st st'.
Proof.
  intros Hq Hl Hce rid s' Hs'. destruct (ce_cycled _ _ _ Hce rid s' Hs') as (s & Hs & Hc).
  exists s. pose proof Hc as [Hp _]. unfold prog in Hp. injection Hp as P1 P2 _ _ _.
  do 3 (split; [done|]). intros Hn.
  apply (cycled_live _ s s' (Hq rid s Hs) (Hl rid s Hs) Hc Hn).
Qed.

Lemma descends_trans st1 st2 st3 : descends st1 st2 → descends st2 st3 → descends st1 st3.
Proof.
  intros H1 H2 rid s3 Hs3. destruct (H2 rid s3 Hs3) as (s2 & Hs2 & A2 & B2 & C2).
  destruct (H1 rid s2 Hs2) as (s1 & Hs1 & A1 & B1 & C1). exists s1.
  split; [done|]. split; [congruence|]. split; [congruence|auto].
Qed.

(** One round of the loop. *)
Lemma drive_round M n st :
  sched_inv st → drivable M st → counters_room (S n) st →
  ∃ st' b, run_cycle st = (st', Ok b) ∧
    let st2 := foldl drive_group st' (db_groups b) in
    sched_inv st2 ∧ drivable M st2 ∧ counters_room n st2 ∧
    size (requests_ st2) = size (requests_ st) ∧ surroundings st2 = surroundings st ∧
    (tallied st → tallied st2) ∧
    (∀ rid, unhindered st rid → unhindered st2 rid) ∧
    (if bool_decide (db_groups b = []) then work_left st2 = 0 else work_left st2 < work_left st).
Proof.
  intros Hi Hdv Hcr. pose proof (counters_room_cycle n st Hcr) as Hroom.
  pose proof Hdv as [V1 V2 V3 V4 V5 V6 V7].
  destruct (run_cycle_ends st Hi Hroom V1 V5) as (st' & b & Hrun & Hce).
  exists st', b. split; [done|]. cbv zeta.
  pose proof Hce as [C1 C2 C3 C4 C5 C6 C7 C8 C9]. pose proof C2 as [K1 K2 K3 K4 K5].
  destruct (surroundings_inj _ _ K1) as (_ & Eep & _).
  destruct (drain_groups st' (db_groups b) st' ltac:(congruence)
    (cpu_workers_same _ _ (eq_sym K1) V6) C5 (cycle_draining _ _ _ Hi V1 V2 Hce)) as (Hd & Hw & Hu).
  set (st2 := foldl drive_group st' (db_groups b)) in *.
  pose proof Hd as [D1 D2 D3 D4 D5 D6 _ _ D9 D10 D11 D12 D13].
  pose proof (run_cycle_tallied st) as Htal. rewrite Hrun in Htal. cbn [fst] in Htal.
  pose proof (cycle_work_left _ _ _ Hi V1 V2 Hce) as Hwl.
  split; [done|]. split; [|split; [|split; [congruence|split; [congruence|split; [auto|split]]]]].
  - apply (drivable_after M st); try done; [congruence| |].
    + eapply descends_trans; [by eapply cycle_descends|done].
    + intros rid s Hs Hr. pose proof (D9 rid s Hs Hr) as Hin. by inversion Hin.
  - pose proof (si_next _ Hi) as [N1 N2]. pose proof (proj1 (si_fresh _ Hi)) as N3.
    unfold grows, counters_room in *. cbv zeta in *. rewrite D6, C3, D3, D4, D5. nia.
  - intros rid Hr. apply Hu. by eapply cycle_unhindered.
  - case_bool_decide as Hb.
    + assert (st2 = st') as -> by (unfold st2; by rewrite Hb).
      exact (empty_batch_done M st st' b Hi Hdv Hroom Hrun Hce Hb).
    + destruct (db_groups b) as [|dg dgs] eqn:Eb; [done|].
      destruct (C5 dg ltac:(by left)) as (_ & Hne & _).
      rewrite fmap_cons in Hw.
      change (mjoin (eg_members (dg_group dg) :: ?l)) with (eg_members (dg_group dg) ++ mjoin l) in Hw.
      rewrite length_app in Hw. destruct (eg_members (dg_group dg)); [done|]. cbn [length] in Hw. lia.
Qed.

Lemma drive_groups_steps st l : rtc step st (foldl drive_group st l).
Proof.
  apply (foldl_preserve (rtc step st)); [|done]. intros st1 dg _ H1. unfold drive_group. cbv zeta.
  apply (foldl_preserve (rtc step st)); [|done]. intros st2 mr _ H2.
  eapply rtc_r; [done|]. apply step_report.
Qed.

Lemma drive_ends M n st :
  sched_inv st → drivable M st → counters_room n st → work_left st <= Z.of_nat n →
  ∃ st', drive_until_quiescent n st = (st', Ok tt) ∧ sched_inv st' ∧ all_live st' ∧
    work_left st' <= 0 ∧ size (requests_ st') = size (requests_ st) ∧
    (∀ rid, unhindered st rid → unhindered st' rid) ∧ idle st' ∧ rtc step st st' ∧
    surroundings st' = surroundings st ∧ (tallied st → tallied st').
Proof.
  revert st. induction n as [|n IH]; intros st Hi Hdv Hcr Hw; cbn [drive_until_quiescent].
  { exists st. split; [done|]. split; [done|]. split; [by apply Hdv|]. split; [lia|].
    do 2 (split; [done|]). split; [by apply Hdv|done]. }
  assert (rtc step st (run_cycle st).1) as Hsteps
    by (apply rtc_once, step_cycle; by eapply counters_room_cycle).
  destruct (drive_round M n st Hi Hdv Hcr) as (st' & b & Hrun & Hi2 & Hdv2 & Hcr2 & Hsz & Hsu & Hta & Hu & Hwork).
  rewrite Hrun in *. cbn [fst] in Hsteps.
  cbv zeta in *. case_bool_decide as Hb; case_bool_decide as Hl.
  - exists st'. rewrite Hb in *. cbn [foldl] in *. split; [done|]. split; [done|].
    split; [by apply Hdv2|]. split; [lia|]. split; [done|]. split; [done|]. split; [by apply Hdv2|done].
  - by rewrite Hb in Hl.
  - by apply nil_length_inv in Hl.
  - destruct (IH _ Hi2 Hdv2 Hcr2 ltac:(lia)) as (st3 & Hr3 & Hi3 & Hl3 & Hw3 & Hz3 & Hu3 & Hq3 & Hs3 & Hsu3 & Hta3).
    exists st3. split; [done|]. do 3 (split; [done|]). split; [congruence|]. split; [auto|].
    split; [done|]. split; [|split; [congruence|auto]].
    etrans; [exact Hsteps|]. etrans; [apply drive_groups_steps|exact Hs3].
Qed.

End drive.

Section drive_theorem.
Context `{FE : FloatEnv} `{CK : ClockSource} `{HO : HashOrder}.

End drive_theorem.
