(* ===== verification/Workload.v ===== *)
(** * Workloads that complete

    The programs around the library submit some requests to a new scheduler
    with a CPU executor and drive it to quiescence.  A workload is the list of
    what they submit; when it fits the limits of its configuration
    ([workload_ok]) every submission is accepted, the state left can be driven,
    and driving it brings every request to its end, every request without a time
    limit to completion. *)

From S2P Require Import Prelude Float Types Request Chunking Memory Compat Exec Observability SchedState SchedOps SchedCycle SchedFrame SchedInv SchedOpsInv SchedOpsInv2 SubmitInv RunCycle Tally Bytes Persist SchedPersist Reach CycleFrame Safety Evolve Trace Typed Progress Drive Submission.

(** A request with its tokens. *)
Definition Job : Type := PrefillRequest * list Z.

Abbreviation job_id x := (rq_request_id (fst x)).

Definition wl_submit `{FloatEnv, ClockSource} (st : Impl) (x : Job) : Impl :=
  (submit_with_tokens st x.1 x.2).1.

Section plans.
Context `{FE : FloatEnv}.

Lemma plan_memory cfg r r' a a' s s' :
  config_wf cfg → request_wf r → request_wf r' → remaining_prefill_tokens r ≠ 0 →
  remaining_prefill_tokens r' = remaining_prefill_tokens r →
  rq_compute_estimate r' = rq_compute_estimate r →
  rq_memory_estimate_bytes r' = rq_memory_estimate_bytes r →
  ck_memory_estimate_bytes <$> pl_chunks (plan cfg r' a' s')
  = ck_memory_estimate_bytes <$> pl_chunks (plan cfg r a s).
Proof.
  intros Hc Hr Hr' Hnz E1 E2 E3. rewrite !plan_closed by (done || by rewrite E1). cbn [pl_chunks].
  assert (effective_chunk_token_count cfg r' = effective_chunk_token_count cfg r) as ->
    by (unfold effective_chunk_token_count; by rewrite E1, E2, E3).
  rewrite E1, <- !list_fmap_compose. apply list_fmap_ext. intros i x _. cbn. by rewrite E3.
Qed.

Lemma plan_length cfg r a s :
  config_wf cfg → request_wf r → remaining_prefill_tokens r ≠ 0 →
  remaining_prefill_tokens r
  <= Z.max 1 (cfg_max_tokens_per_chunk cfg) * Z.of_nat (length (pl_chunks (plan cfg r a s))).
Proof.
  intros Hc Hr Hnz. rewrite plan_closed by done. cbn [pl_chunks]. rewrite length_fmap, length_seq.
  pose proof (effective_chunk_bounds cfg r Hr Hc Hnz) as [H1 H2]. unfold plan_fuel.
  set (c := effective_chunk_token_count cfg r) in *. set (rem := remaining_prefill_tokens r) in *.
  pose proof (Z.mul_succ_div_gt (rem + c - 1) c ltac:(lia)). nia.
Qed.
End plans.

(** ** What fits *)

Definition list_sum {A} (f : A → Z) (l : list A) : Z := foldr (λ x n, f x + n) 0 l.

Lemma list_sum_app {A} (f : A → Z) l1 l2 : list_sum f (l1 ++ l2) = list_sum f l1 + list_sum f l2.
Proof. unfold list_sum. induction l1 as [|x l1 IH]; [done|]. cbn in *. lia. Qed.

Lemma list_sum_one {A} (f : A → Z) x : list_sum f [x] = f x.
Proof. unfold list_sum. cbn. lia. Qed.

Lemma list_sum_nonneg {A} (f : A → Z) l : Forall (λ x, 0 <= f x) l → 0 <= list_sum f l.
Proof. unfold list_sum. intros Hl. induction Hl as [|x l Hx Hl IH]; cbn in *; lia. Qed.

Lemma list_sum_le {A} (f g : A → Z) l : Forall (λ x, f x <= g x) l → list_sum f l <= list_sum g l.
Proof. unfold list_sum. intros Hl. induction Hl as [|x l Hx Hl IH]; cbn in *; lia. Qed.

Lemma list_sum_const {A} (f : A → Z) l c :
  Forall (λ x, f x = c) l → list_sum f l = c * Z.of_nat (length l).
Proof. unfold list_sum. intros Hl. induction Hl as [|x l Hx Hl IH]; cbn [foldr length]; lia. Qed.

Lemma list_sum_scale {A} (f : A → Z) k l : list_sum (λ x, k * f x) l = k * list_sum f l.
Proof. unfold list_sum. induction l as [|x l IH]; cbn [foldr]; lia. Qed.

Lemma list_sum_fmap {A B} (g : B → A) (f : A → Z) l : list_sum f (g <$> l) = list_sum (f ∘ g) l.
Proof. unfold list_sum. induction l as [|x l IH]; [done|]. cbn in *. by rewrite IH. Qed.

(** Tokens to prefill. *)
Definition wl_tokens (W : list Job) : Z := list_sum (λ x, remaining_prefill_tokens x.1) W.

(** A valid request with its tokens, work left and any CPU worker. *)
Definition job_ok (cfg : SchedulerConfig) (x : Job) : Prop :=
  request_fits x.1 ∧ ei_code (validate x.1) = ErrorCode_ok ∧
  Z.of_nat (length x.2) = rq_prompt_token_count x.1 ∧ remaining_prefill_tokens x.1 ≠ 0 ∧
  cky_backend (make_compat_key x.1 cfg) = kBackendAny.

#[global] Instance job_ok_dec cfg x : Decision (job_ok cfg x).
Proof. unfold job_ok; apply _. Defined.

(** No deadline, no limit on the time in the queue. *)
Definition untimed (x : Job) : Prop := rq_deadline x.1 = None ∧ rq_max_queue_delay x.1 = None.

#[global] Instance untimed_dec x : Decision (untimed x).
Proof. unfold untimed; apply _. Defined.

Record workload_ok (cfg : SchedulerConfig) (W : list Job) : Prop := {
  wo_config : config_fits cfg;
  wo_jobs : Forall (job_ok cfg) W;
  wo_ids : NoDup ((λ x, job_id x) <$> W);
  wo_admitted : Z.of_nat (length W) <= cfg_max_admitted_requests cfg;
  wo_outstanding : Z.of_nat (length W) <= cfg_per_tenant_outstanding_limit cfg;
  wo_budget : wl_tokens W <= cfg_per_tenant_admitted_token_limit cfg
}.

(** A job is known by the id of its request. *)
Lemma job_unique (W : list Job) x y :
  NoDup ((λ x, job_id x) <$> W) → x ∈ W → y ∈ W → job_id x = job_id y → x = y.
Proof.
  intros Hnd [i Hi]%list_elem_of_lookup [j Hj]%list_elem_of_lookup E.
  assert (i = j) as ->.
  { apply (NoDup_lookup _ _ _ (job_id x) Hnd); rewrite list_lookup_fmap; [by rewrite Hi|by rewrite Hj, E]. }
  rewrite Hi in Hj. by injection Hj.
Qed.

Section workload.
Context `{FE : FloatEnv} `{CK : ClockSource} `{HO : HashOrder}.

Definition job_plan (cfg : SchedulerConfig) (x : Job) : list PrefillChunk :=
  pl_chunks (plan cfg x.1 1 0).

Definition wl_chunks (cfg : SchedulerConfig) (W : list Job) : Z :=
  list_sum (λ x, Z.of_nat (length (job_plan cfg x))) W.

Definition wl_memory (cfg : SchedulerConfig) : Z := budget (im_mem (Impl_new cfg)).

(** The largest group of such chunks fits the memory. *)
Definition wl_roomy (cfg : SchedulerConfig) (W : list Job) : Prop :=
  Forall (λ x, Forall (λ ch, Z.max 1 (cfg_max_requests_per_group cfg) * ck_memory_estimate_bytes ch
                             <= wl_memory cfg) (job_plan cfg x)) W.

(** A run of [n] cycles has a cycle per chunk, and memory for a full group. *)
Definition fits_drive (cfg : SchedulerConfig) (W : list Job) (n : nat) : Prop :=
  wl_chunks cfg W <= Z.of_nat n ∧ wl_roomy cfg W.

#[global] Instance fits_drive_dec cfg W n : Decision (fits_drive cfg W n).
Proof. unfold fits_drive, wl_roomy; apply _. Defined.

(** Tokens do not matter for that. *)
Lemma fits_requests cfg W rs n :
  fst <$> W = rs → fits_drive cfg ((λ r, (r, [])) <$> rs) n → fits_drive cfg W n.
Proof.
  intros <-. unfold fits_drive, wl_chunks, wl_roomy. rewrite !list_sum_fmap, !Forall_fmap. done.
Qed.

(** Chunks bound tokens and requests. *)
Lemma chunks_bound cfg W :
  config_wf cfg → Forall (λ x, request_wf x.1 ∧ remaining_prefill_tokens x.1 ≠ 0) W →
  wl_tokens W <= Z.max 1 (cfg_max_tokens_per_chunk cfg) * wl_chunks cfg W ∧
  Z.of_nat (length W) <= wl_chunks cfg W.
Proof.
  intros Hc HW. split.
  - unfold wl_chunks. rewrite <- list_sum_scale. apply list_sum_le. apply (Forall_impl _ _ _ HW).
    intros x [Hr Hz]. by apply plan_length.
  - rewrite <- (Z.mul_1_l (Z.of_nat (length W))), <- (list_sum_const (λ _, 1) W 1)
      by (apply Forall_forall; done).
    apply list_sum_le. apply (Forall_impl _ _ _ HW). intros x [Hr Hz].
    pose proof (plan_length cfg x.1 1 0 Hc Hr Hz) as Hl. pose proof (remaining_le_prompt _ Hr) as [_ Hu].
    unfold job_plan, is_u64 in *. destruct (pl_chunks _); cbn [length] in *; lia.
Qed.

Lemma job_plan_of cfg x a :
  config_wf cfg → job_ok cfg x →
  ck_memory_estimate_bytes <$> pl_chunks (plan cfg x.1 a 0) = ck_memory_estimate_bytes <$> job_plan cfg x.
Proof. intros Hc ((Hw & _) & _ & _ & Hz & _). by apply plan_memory. Qed.

(** The scheduler the submissions start with. *)
Record wl_start (cfg : SchedulerConfig) (st : Impl) : Prop := {
  ws_inv : sched_inv (OR := origin_new) st;
  ws_empty : requests_ st = ∅;
  ws_cfg : im_cfg st = cfg;
  ws_tenants t : ts_admitted_tokens (tenant_of st t) = 0;
  ws_tallied : tallied st
}.

Lemma machinery_inj st st' :
  machinery st = machinery st' →
  im_cfg st = im_cfg st' ∧ im_epoch st = im_epoch st' ∧ im_mem st = im_mem st' ∧
  groups_ st = groups_ st' ∧ workers_ st = workers_ st' ∧
  im_next_generation_value st = im_next_generation_value st' ∧
  im_next_reservation_value st = im_next_reservation_value st' ∧
  im_next_group_value st = im_next_group_value st'.
Proof. unfold machinery. intros E. by injection E as E1 E2 E3 E4 E5 E6 E7 E8. Qed.

Lemma live_count_size t (rs : gmap Z Rs) : live_count t rs <= Z.of_nat (size rs).
Proof.
  unfold live_count. etrans; [apply (map_sum_bound _ _ 1)|lia]. intros k x _. by case_match.
Qed.

Section run.
Variables (cfg : SchedulerConfig) (st0 : Impl).
Hypothesis H0 : wl_start cfg st0.

(** ** Submission *)

(** After the jobs [W] were submitted. *)
Record submitted (W : list Job) (st : Impl) : Prop := {
  sb_inv : sched_inv (OR := origin_new) st;
  sb_requests rid s : requests_ st !! rid = Some s →
    ∃ x a t, x ∈ W ∧ rid = job_id x ∧ s = admit_rs cfg x.1 a t;
  sb_size : size (requests_ st) = length W;
  sb_jobs x : x ∈ W → is_Some (requests_ st !! job_id x) ∧
    im_token_resolver st !! job_id x = Some x.2;
  sb_machinery : machinery st = machinery st0;
  sb_tenants t : 0 <= ts_admitted_tokens (tenant_of st t) <= wl_tokens W;
  sb_work : work_left st = wl_chunks cfg W;
  sb_tallied : tallied st;
  sb_steps : rtc step st0 st
}.

Lemma submitted_start : submitted [] st0.
Proof using H0.
  destruct H0 as [Hi He Hc Ht Hta]. split; try done.
  - intros rid s. by rewrite He, lookup_empty.
  - by rewrite He.
  - intros x Hx. by apply not_elem_of_nil in Hx.
  - intros t. rewrite Ht. unfold wl_tokens. cbn. lia.
  - unfold work_left. by rewrite He, map_sum_empty.
Qed.

(** The next job is accepted. *)
Lemma submitted_admissible W x st :
  workload_ok cfg (W ++ [x]) → submitted W st → admissible st x.1 x.2.
Proof using H0.
  intros HW [Hinv Hreqs Hsize Hjobs Hmach Hten _ _ _].
  destruct (machinery_inj _ _ Hmach) as (Ecfg & _). rewrite (ws_cfg cfg st0 H0) in Ecfg.
  destruct HW as [Hc Hj Hid Had Hou Hbu]. apply Forall_app in Hj as [_ Hj].
  rewrite Forall_singleton in Hj. destruct Hj as ((Hwf & Hp) & Hval & Htok & Hrem & _).
  rewrite length_app in Had, Hou. cbn [length] in Had, Hou.
  unfold wl_tokens in Hbu. rewrite list_sum_app, list_sum_one in Hbu.
  fold (wl_tokens W) in Hbu. pose proof (remaining_le_prompt _ Hwf) as [Hrp Hru].
  destruct (si_tenants _ Hinv (rq_tenant_id x.1)) as [Hout _]. cbv zeta in Hout.
  pose proof (live_count_size (rq_tenant_id x.1) (requests_ st)).
  pose proof (Hten (rq_tenant_id x.1)) as Ht. destruct Hc as [Hcw Hlim].
  assert (is_u64 (cfg_per_tenant_admitted_token_limit cfg)) as Hl64 by apply Hcw.
  split; rewrite ?Ecfg; try done.
  - apply eq_None_not_Some. intros [s Hs]. destruct (Hreqs _ _ Hs) as (y & _ & _ & Hy & Ey & _).
    rewrite fmap_app, NoDup_app in Hid. destruct Hid as (_ & Hid & _).
    apply (Hid (job_id y)); [apply list_elem_of_fmap; by exists y|]. rewrite <- Ey. cbn. by left.
  - lia.
  - unfold tenant_of. rewrite Hout. lia.
  - unfold is_u64 in *. rewrite u64_small; unfold is_u64; lia.
Qed.

Lemma admitted_work x a t :
  config_wf cfg → job_ok cfg x →
  chunks_left (admit_rs cfg x.1 a t) = Z.of_nat (length (job_plan cfg x)).
Proof.
  intros Hc Hj. destruct (admit_rs_fields cfg x.1 a t) as (Hq & _ & _ & _ & Ep).
  unfold chunks_left. rewrite (queued_nonterminal _ Hq). unfold chunk_count. rewrite Ep.
  change (rs_next_chunk_index (admit_rs cfg x.1 a t)) with 0.
  pose proof (f_equal length (job_plan_of cfg x a Hc Hj)) as E. rewrite !length_fmap in E. lia.
Qed.

Lemma submitted_next W x st :
  workload_ok cfg (W ++ [x]) → submitted W st → submitted (W ++ [x]) (wl_submit st x).
Proof using H0.
  intros HW Hs. pose proof (submitted_admissible W x st HW Hs) as Hadm.
  destruct Hs as [Hinv Hreqs Hsize Hjobs Hmach Hten Hwork Htal Hst].
  destruct (machinery_inj _ _ Hmach) as (Ecfg & _). rewrite (ws_cfg cfg st0 H0) in Ecfg.
  pose proof (wo_jobs _ _ HW) as Hj. apply Forall_app in Hj as [_ Hj]. rewrite Forall_singleton in Hj.
  pose proof Hj as ((Hwf & Hp) & _). pose proof (remaining_le_prompt _ Hwf) as [Hrp Hru].
  unfold wl_submit.
  assert (ts_admitted_tokens (tenant_of st (rq_tenant_id x.1)) +u remaining_prefill_tokens x.1
          <= ts_admitted_tokens (tenant_of st (rq_tenant_id x.1)) + remaining_prefill_tokens x.1 ∧
          0 <= ts_admitted_tokens (tenant_of st (rq_tenant_id x.1)) +u remaining_prefill_tokens x.1) as Eadd.
  { pose proof (Hten (rq_tenant_id x.1)). unfold is_u64 in Hru.
    split; [apply Z.mod_le; lia|apply u64_range]. }
  pose proof (submit_with_tokens_inv st x.1 x.2 Hinv (conj Hwf Hp)) as Hinv'.
  pose proof (submit_tallied st x.1 x.2 (ad_fresh _ _ _ Hadm) Htal) as Htal'.
  destruct (submit_admits st x.1 x.2 Hadm) as [_ [(a & t & Hr) Hres Hm Ht]]. rewrite Ecfg in Hr.
  pose proof (ad_fresh _ _ _ Hadm) as Hnone.
  split; try done.
  - rewrite Hr. intros rid s [[<- <-]|[Hne Hs]]%lookup_insert_Some.
    + exists x, a, t. split; [|done]. rewrite elem_of_app. right. by left.
    + destruct (Hreqs _ _ Hs) as (y & a' & t' & Hy & Ey & Es). exists y, a', t'.
      split; [rewrite elem_of_app; by left|done].
  - rewrite Hr, map_size_insert_None, length_app by done. cbn [length]. lia.
  - intros y [Hy| ->%list_elem_of_singleton]%elem_of_app; rewrite Hr, Hres;
      [|by rewrite !lookup_insert_eq].
    destruct (Hjobs y Hy) as [[s Hys] Hyr].
    rewrite !lookup_insert_ne by (intros E; rewrite E in Hnone; congruence). by rewrite Hys.
  - congruence.
  - intros t0. rewrite Ht. unfold wl_tokens. rewrite list_sum_app, list_sum_one.
    fold (wl_tokens W). pose proof (Hten t0). pose proof (Hten (rq_tenant_id x.1)).
    unfold is_u64 in Hru. destruct (Z.eqb_spec (rq_tenant_id x.1) t0) as [<-|]; lia.
  - unfold work_left, wl_chunks in *. rewrite Hr, map_sum_insert_new, list_sum_app, list_sum_one by done.
    rewrite admitted_work by (done || apply (wo_config _ _ HW)). lia.
  - eapply rtc_r; [done|]. by apply step_submit.
Qed.

Lemma workload_prefix W1 W2 : workload_ok cfg (W1 ++ W2) → workload_ok cfg W1.
Proof.
  intros [Hc Hj Hid Had Hou Hbu]. pose proof Hj as Hj2. apply Forall_app in Hj as [Hj1 Hj2'].
  rewrite length_app in *. rewrite fmap_app, NoDup_app in Hid.
  assert (0 <= wl_tokens W2) as Hpos.
  { apply list_sum_nonneg. apply (Forall_impl _ _ _ Hj2'). intros x ((Hwf & _) & _).
    apply (remaining_le_prompt _ Hwf). }
  unfold wl_tokens in Hbu, Hpos. rewrite list_sum_app in Hbu.
  split; try done; [apply Hid|unfold wl_tokens; lia..].
Qed.

Lemma submitted_all W : workload_ok cfg W → submitted W (foldl wl_submit st0 W).
Proof using H0.
  induction W as [|x W IH] using rev_ind; intros HW; [apply submitted_start|].
  rewrite foldl_app. cbn [foldl]. apply submitted_next; [done|]. by apply IH, (workload_prefix W [x]).
Qed.

Lemma submitted_queued W st rid s :
  submitted W st → requests_ st !! rid = Some s →
  queued s ∧ rs_in_flight s = false ∧ rs_cancel_pending s = false ∧
  ∃ x, x ∈ W ∧ rid = job_id x ∧ rs_request s = x.1 ∧ rs_trace s ≠ [] ∧
    ∃ a, rs_plan s = plan cfg x.1 a 0.
Proof.
  intros Hs (x & a & t & Hx & -> & ->)%(sb_requests _ _ Hs).
  destruct (admit_rs_fields cfg x.1 a t) as (H1 & H2 & H3 & H4 & H5).
  do 3 (split; [done|]). exists x. do 4 (split; [done|]). by exists a.
Qed.

(** ** Driving *)

Hypothesis Hm0 :
  machinery st0 = machinery (attach_executor (Impl_new cfg) (Some CpuExecutor) kBackendCpu).

Definition cpu_worker : Ws :=
  mkWs (mkWorkerDescriptor 0 1 "local" 0 kBackendCpu [CpuExecutor_device] WorkerState_ready 1 "")
    0 (Some CpuExecutor).

Lemma attached_machinery c :
  machinery (attach_executor (Impl_new c) (Some CpuExecutor) kBackendCpu)
  = (c, 1, im_mem (Impl_new c), ∅, {[0 := cpu_worker]}, (1, 1, 1)).
Proof. reflexivity. Qed.

Definition wl_share : Z := wl_memory cfg / Z.max 1 (cfg_max_requests_per_group cfg).

Lemma submitted_drivable W st :
  workload_ok cfg W → wl_roomy cfg W → submitted W st → drivable wl_share st.
Proof using Hm0.
  intros HW Hmem Hs. pose proof (sb_machinery _ _ Hs) as Em. rewrite Hm0, attached_machinery in Em.
  unfold machinery in Em. injection Em as Ec Ee Em Eg Ew _ _ _.
  set (k := Z.max 1 (cfg_max_requests_per_group cfg)) in *.
  assert (0 <= wl_memory cfg) as Hb by apply budget_range. assert (1 <= k) as Hk by lia.
  pose proof (wo_jobs _ _ HW) as Hj. rewrite Forall_forall in Hj.
  unfold wl_roomy in Hmem. rewrite Forall_forall in Hmem.
  split.
  - intros rid s Hr [Hf _]. destruct (submitted_queued _ _ _ _ Hs Hr) as (_ & E & _). congruence.
  - intros rid s Hr _. left. by eapply submitted_queued.
  - by rewrite Ee.
  - unfold wl_share. fold k. split; [apply Z.div_pos; lia|]. rewrite Ec, Em. fold k.
    split; [exact (Z.mul_div_le (wl_memory cfg) k ltac:(lia))|].
    intros rid s ch Hr _ Hch.
    destruct (submitted_queued _ _ _ _ Hs Hr) as (_ & _ & _ & x & Hx & _ & _ & _ & a & Ep).
    apply Z.div_le_lower_bound; [lia|]. specialize (Hmem x Hx). rewrite Forall_forall in Hmem.
    assert (ck_memory_estimate_bytes ch ∈ ck_memory_estimate_bytes <$> job_plan cfg x) as Hin.
    { rewrite <- (job_plan_of cfg x a) by (apply HW || by apply Hj). rewrite <- Ep. by apply list_elem_of_fmap_2. }
    apply list_elem_of_fmap in Hin as (ch' & -> & Hin). by apply Hmem.
  - rewrite Eg, Ew. intros w ws [<- <-]%lookup_singleton_Some. rewrite load_empty. cbn. lia.
  - intros w ws. rewrite Ew. by intros [<- <-]%lookup_singleton_Some.
  - intros rid s Hr _. exists 0, cpu_worker. split; [by rewrite Ew, lookup_singleton_eq|].
    destruct (submitted_queued _ _ _ _ Hs Hr) as (_ & _ & _ & x & Hx & _ & Eq & _).
    unfold backend_of. rewrite Eq, Ec. destruct (Hj x Hx) as (_ & _ & _ & _ & ->). reflexivity.
Qed.

Lemma submitted_counters W st n :
  submitted W st → Z.of_nat (length W) < 2 ^ 32 → Z.of_nat n < 2 ^ 16 → counters_room n st.
Proof using Hm0.
  intros Hs HW Hn. pose proof (sb_machinery _ _ Hs) as Em. rewrite Hm0, attached_machinery in Em.
  unfold machinery in Em. injection Em as _ _ _ _ _ E1 E2 E3.
  unfold counters_room. cbv zeta. rewrite E1, E2, E3, (sb_size _ _ Hs). nia.
Qed.

Lemma submitted_unhindered W st x :
  workload_ok cfg W → submitted W st → x ∈ W → untimed x → unhindered st (job_id x).
Proof.
  intros HW Hs Hx [Hd Hq]. destruct (sb_jobs _ _ Hs x Hx) as [[s Hr] Ht].
  destruct (submitted_queued _ _ _ _ Hs Hr) as (Hqu & _ & Hcp & y & Hy & Ey & Eq & _).
  apply (job_unique W) in Ey as <-; [|apply (wo_ids _ _ HW)|done..].
  exists s, x.2. rewrite Eq. do 5 (split; [done|]). split; [|auto].
  pose proof (wo_jobs _ _ HW) as Hj. rewrite Forall_forall in Hj. apply (Hj x Hx).
Qed.

(** What driving leaves: the requests submitted and no other, at their end. *)
Record driven (W : list Job) (st' : Impl) : Prop := {
  dn_inv : sched_inv (OR := origin_new) st';
  dn_size : size (requests_ st') = length W;
  dn_jobs x : x ∈ W → ∃ s, requests_ st' !! job_id x = Some s ∧ rs_request s = x.1 ∧
    rs_trace s ≠ [] ∧ is_terminal_lifecycle (rs_lifecycle s) = true ∧
    (untimed x → rs_lifecycle s = Lifecycle_completed);
  dn_only rid s : requests_ st' !! rid = Some s → ∃ x, x ∈ W ∧ rid = job_id x;
  dn_workers : identity <$> workers_ st' = {[0 := identity cpu_worker]};
  dn_tallied : tallied st';
  dn_steps : rtc step st0 st'
}.

Lemma submitted_driven W st st' :
  workload_ok cfg W → submitted W st → sched_inv (OR := origin_new) st' → all_live st' →
  work_left st' <= 0 → size (requests_ st') = size (requests_ st) →
  (∀ rid, unhindered st rid → unhindered st' rid) → rtc step st st' →
  surroundings st' = surroundings st → (tallied st → tallied st') → driven W st'.
Proof using Hm0.
  intros HW Hs Hinv Hlive Hw Hsz Hu Hst Hsu Htal.
  assert (∀ x, x ∈ W → ∃ s, requests_ st' !! job_id x = Some s ∧ rs_request s = x.1 ∧
    rs_trace s ≠ [] ∧ is_terminal_lifecycle (rs_lifecycle s) = true ∧
    (untimed x → rs_lifecycle s = Lifecycle_completed)) as Hjobs.
  { intros x Hx. destruct (sb_jobs _ _ Hs x Hx) as [[s Hr] _].
    destruct (eo_old _ _ (steps_evolution _ _ (sb_inv _ _ Hs) Hst) _ _ Hr) as (s' & Hr' & Hev).
    pose proof (no_work_terminal st' _ s' Hinv Hlive Hw Hr') as Hter.
    exists s'. split; [done|].
    assert (rs_request s = x.1 ∧ rs_trace s ≠ []) as [Eq Htr].
    { destruct (submitted_queued _ _ _ _ Hs Hr) as (_ & _ & _ & y & Hy & Ey & Eq & Htr & _).
      by apply (job_unique W) in Ey as <-; [|apply (wo_ids _ _ HW)|done..]. }
    split; [by rewrite (ev_request _ _ _ Hev)|]. split; [|split; [done|]].
    - pose proof (steps_trace st st' (job_id x) Hst) as Hp.
      rewrite (trace_of_lookup _ _ _ Hr), (trace_of_lookup _ _ _ Hr') in Hp.
      intros E. rewrite E in Hp. by apply prefix_nil_inv in Hp.
    - intros Hun. destruct (Hu _ (submitted_unhindered W st x HW Hs Hx Hun))
        as (s2 & _ & Hr2 & _ & _ & _ & _ & _ & Hl).
      assert (s2 = s') as -> by congruence.
      destruct Hl as [|[E|[_ E]]]; [done|..]; by rewrite E in Hter. }
  assert (dom (requests_ st) = dom (requests_ st')) as Hdom.
  { apply set_subseteq_size_eq; [|rewrite !size_dom; lia].
    intros rid [s Hr]%elem_of_dom. apply elem_of_dom.
    destruct (submitted_queued _ _ _ _ Hs Hr) as (_ & _ & _ & x & Hx & -> & _).
    destruct (Hjobs x Hx) as (s' & Hs' & _). by exists s'. }
  split; try done.
  - rewrite Hsz. apply Hs.
  - intros rid s' Hr'. assert (is_Some (requests_ st !! rid)) as [s Hr]
      by (apply elem_of_dom; rewrite Hdom; apply elem_of_dom; eauto).
    destruct (submitted_queued _ _ _ _ Hs Hr) as (_ & _ & _ & x & Hx & E & _). by exists x.
  - pose proof (sb_machinery _ _ Hs) as Em. rewrite Hm0, attached_machinery in Em.
    unfold machinery in Em. injection Em as _ _ _ _ Ew _ _ _.
    unfold surroundings in Hsu. injection Hsu as _ _ _ _ _ Hsu. by rewrite Hsu, Ew, map_fmap_singleton.
  - by apply Htal, Hs.
  - etrans; [apply Hs|done].
Qed.

(** The submissions and the drive that follows them. *)
Lemma workload_completes W n :
  workload_ok cfg W → fits_drive cfg W n → Z.of_nat (length W) < 2 ^ 32 → Z.of_nat n < 2 ^ 16 →
  ∃ st', drive_until_quiescent n (foldl wl_submit st0 W) = (st', Ok tt) ∧ driven W st'.
Proof using H0 Hm0.
  intros HW [Hwork Hroom] HN Hn. pose proof (submitted_all W HW) as Hs.
  set (st := foldl _ _ _) in *. clearbody st.
  destruct (drive_ends wl_share n st (sb_inv _ _ Hs) (submitted_drivable W st HW Hroom Hs)
    (submitted_counters W st n Hs HN Hn) ltac:(by rewrite (sb_work _ _ Hs)))
    as (st' & Hrun & Hi' & Hl' & Hw' & Hsz & Hu & _ & Hst & Hsu & Hta).
  exists st'. split; [done|]. by apply (submitted_driven W st).
Qed.
End run.

(** ** Starting points *)

(** A new scheduler, with or without the CPU executor. *)
Lemma new_start cfg : config_fits cfg → wl_start cfg (Impl_new cfg).
Proof. intros Hc. split; [by apply new_inv|done..| |done]. intros t. reflexivity. Qed.

Lemma attached_start cfg :
  config_fits cfg → wl_start cfg (attach_executor (Impl_new cfg) (Some CpuExecutor) kBackendCpu).
Proof.
  intros Hc. split; [by apply attach_executor_inv, new_inv|done..| |done]. intros t. reflexivity.
Qed.
End workload.

(** ** What a driven workload shows *)

Section shown.
Context `{FE : FloatEnv} `{CK : ClockSource} `{HO : HashOrder}.

Lemma completed_all (rs : gmap Z Rs) :
  (∀ rid s, rs !! rid = Some s → rs_lifecycle s = Lifecycle_completed) →
  life_count Lifecycle_completed rs = Z.of_nat (size rs).
Proof.
  intros H. unfold life_count. revert H. induction rs as [|k s rs Hk IH] using map_ind; intros H.
  { by rewrite map_sum_empty, map_size_empty. }
  rewrite map_sum_insert_new, map_size_insert_None, IH by
    (done || (intros r x Hx; apply (H r); rewrite lookup_insert_ne by congruence; done)).
  rewrite (H k s) by apply lookup_insert_eq. rewrite bool_decide_true by done. lia.
Qed.

Lemma driven_completed st0 W st rid s :
  driven st0 W st → Forall untimed W → requests_ st !! rid = Some s →
  rs_lifecycle s = Lifecycle_completed.
Proof.
  intros Hd Hun Hs. rewrite Forall_forall in Hun. destruct (dn_only _ _ _ Hd _ _ Hs) as (x & Hx & ->).
  destruct (dn_jobs _ _ _ Hd x Hx) as (s' & Hs' & _ & _ & _ & Hc).
  assert (s' = s) as -> by congruence. by apply Hc, Hun.
Qed.

Lemma driven_stats st0 W st :
  driven st0 W st → Forall untimed W →
  st_completed (im_stats st) = Z.of_nat (length W) ∧ st_admitted (im_stats st) = Z.of_nat (length W).
Proof.
  intros Hd Hun. destruct (stats_new _ _ (si_stats _ (dn_inv _ _ _ Hd))) as [Ha Hf].
  rewrite Ha, (dn_size _ _ _ Hd). split; [|done].
  rewrite (Hf Lifecycle_completed _ eq_refl), completed_all; [by rewrite (dn_size _ _ _ Hd)|].
  intros rid s. by eapply driven_completed.
Qed.

Lemma driven_terminal st0 W st x : driven st0 W st → x ∈ W → is_terminal st (job_id x) = true.
Proof.
  intros Hd Hx. destruct (dn_jobs _ _ _ Hd x Hx) as (s & Hs & _ & _ & Ht & _).
  unfold is_terminal. by rewrite Hs.
Qed.

(** Every token of the workload is counted once. *)
Lemma total_jobs (m : gmap Z Rs) W :
  NoDup ((λ x, job_id x) <$> W) → size m = length W →
  (∀ x, x ∈ W → ∃ s, m !! job_id x = Some s ∧ rs_completed_uncached s = remaining_prefill_tokens x.1) →
  token_total m = wl_tokens W.
Proof.
  revert m. induction W as [|x W IH]; intros m Hnd Hsz Hall.
  { apply map_size_empty_inv in Hsz. by subst m. }
  destruct (Hall x ltac:(by left)) as (s & Hs & Hc).
  rewrite fmap_cons, NoDup_cons in Hnd. destruct Hnd as [Hnin Hnd].
  unfold token_total, wl_tokens. rewrite (map_sum_delete _ _ _ _ Hs), Hc. cbn [list_sum foldr]. f_equal.
  apply IH; [done| |].
  - rewrite map_size_delete_Some by eauto. rewrite Hsz. done.
  - intros y Hy. destruct (Hall y ltac:(by right)) as (s' & Hs' & Hc'). exists s'. split; [|done].
    rewrite lookup_delete_ne; [done|]. intros E. apply Hnin. rewrite E. apply list_elem_of_fmap. by exists y.
Qed.

Lemma driven_tokens cfg st0 W st :
  workload_ok cfg W → driven st0 W st → Forall untimed W →
  st_completed_tokens (im_stats st) = u64 (wl_tokens W).
Proof.
  intros HW Hd Hun. rewrite (dn_tallied _ _ _ Hd). f_equal.
  apply total_jobs; [apply (wo_ids _ _ HW)|apply Hd|]. intros x Hx.
  destruct (dn_jobs _ _ _ Hd x Hx) as (s & Hs & Eq & _ & _ & Hc). exists s. split; [done|].
  rewrite <- Eq. rewrite Forall_forall in Hun.
  apply (ro_done _ _ _ _ _ (si_rs _ (dn_inv _ _ _ Hd) _ _ Hs)); [done|]. by apply Hc, Hun.
Qed.

Lemma driven_reachable W cfg st :
  driven (attach_executor (Impl_new cfg) (Some CpuExecutor) kBackendCpu) W st → reachable cfg st.
Proof.
  intros Hd. apply pristine_reachable. eapply rtc_l; [apply step_attach|]. apply Hd.
Qed.

(** No reservation is left. *)
Lemma driven_no_leak W cfg st :
  config_fits cfg → Forall untimed W →
  driven (attach_executor (Impl_new cfg) (Some CpuExecutor) kBackendCpu) W st →
  active_reservation_count (im_mem st) = 0.
Proof.
  intros Hc Hun Hd. apply (quiescent_no_leak cfg st Hc (driven_reachable _ _ _ Hd)).
  intros rid s Hs. apply not_true_is_false. intros Hf.
  destruct (ro_flight _ _ _ _ _ (si_rs _ (dn_inv _ _ _ Hd) _ _ Hs) Hf) as [Hl _].
  rewrite (driven_completed _ _ _ _ _ Hd Hun Hs) in Hl. by destruct Hl.
Qed.
End shown.

(** ** What a workload leaves can be stored *)

Section stored.
Context `{FE : FloatEnv} `{CK : ClockSource} `{HO : HashOrder} `{C64 : !Clock64}.

Lemma drive_typed `{TN : Tenants} n st : typed st → typed (drive_until_quiescent n st).1.
Proof.
  revert st. induction n as [|n IH]; intros st H; [done|]. cbn [drive_until_quiescent].
  pose proof (run_cycle_typed st H) as H1. destruct (run_cycle st) as [st1 [b|e]]; [|done].
  cbn [fst] in H1. destruct (bool_decide _); [done|]. apply IH.
  apply (foldl_preserve typed); [|done]. intros st2 dg _ H2. unfold drive_group. cbv zeta.
  apply (foldl_preserve typed); [|done]. intros st3 mr _ H3. by apply report_typed.
Qed.

Lemma size_below k (X : gset Z) :
  0 <= k → (∀ x, x ∈ X → 0 <= x < k) → Z.of_nat (size X) <= k.
Proof.
  intros Hk HX. assert (X ⊆ list_to_set (seqZ 0 k)) as Hsub.
  { intros x Hx%HX. apply elem_of_list_to_set, elem_of_seqZ. lia. }
  apply subseteq_size in Hsub. rewrite size_list_to_set in Hsub by apply NoDup_seqZ.
  rewrite length_seqZ in Hsub. lia.
Qed.

(** Few tenants, requests in range: the state can be written to a file. *)
Definition few : Tenants := λ t, 0 <= t < 2 ^ 20.

Lemma few_in t : tenant_in (H := few) t → 0 <= t < 2 ^ 20.
Proof. intros [->|H]; [lia|exact H]. Qed.

Definition job_storable (x : Job) : Prop :=
  request_storable x.1 ∧ 0 <= rq_tenant_id x.1 < 2 ^ 20.

#[global] Instance job_storable_dec x : Decision (job_storable x).
Proof. unfold job_storable; apply _. Defined.

Lemma driven_storable st0 W n st :
  Z.of_nat (length W) <= 2 ^ 24 → Forall job_storable W → typed (TN := few) st0 →
  drive_until_quiescent n (foldl wl_submit st0 W) = (st, Ok tt) → driven st0 W st → storable st.
Proof using C64.
  intros HN Hreq Hty0 Hrun Hd. rewrite Forall_forall in Hreq. unfold storable. rewrite (dn_size _ _ _ Hd).
  assert (typed (TN := few) st) as Hty.
  { replace st with (drive_until_quiescent n (foldl wl_submit st0 W)).1 by (by rewrite Hrun).
    apply drive_typed, (foldl_preserve (typed (TN := few))); [|done].
    intros st1 x Hx H1. apply submit_typed; [done|]. right. by apply Hreq. }
  pose proof (dn_workers _ _ _ Hd) as Hw.
  assert (∀ w ws, workers_ st !! w = Some ws → w = 0 ∧ ws_desc ws = ws_desc cpu_worker) as Hws.
  { intros w ws Hl. apply (f_equal (lookup w)) in Hw. rewrite lookup_fmap, Hl in Hw.
    cbn in Hw. symmetry in Hw. apply lookup_singleton_Some in Hw as [<- E].
    unfold identity in E. split; [done|congruence]. }
  split; [|split; [|split; [lia|split]]].
  - intros rid s Hs. destruct (dn_only _ _ _ Hd _ _ Hs) as (x & Hx & ->).
    destruct (dn_jobs _ _ _ Hd x Hx) as (s' & Hs' & Eq & _). assert (s' = s) as -> by congruence.
    rewrite Eq. by apply Hreq.
  - intros w ws Hl. destruct (Hws w ws Hl) as [-> Ed]. unfold export_worker. rewrite Ed.
    apply (bool_decide_unpack _). by vm_compute.
  - apply (f_equal size) in Hw. rewrite map_size_fmap, map_size_singleton in Hw. rewrite Hw. lia.
  - rewrite <- size_dom. apply size_below; [lia|]. intros t [ts Ht]%elem_of_dom.
    apply few_in, (ty_tenants _ Hty t ts Ht).
Qed.
End stored.
