(* ===== verification/Bench.v ===== *)
(** * The benchmark command

    [cmd_benchmark] submits its requests to a fresh scheduler with a CPU
    executor and drives it to quiescence: a workload in the sense of [Workload],
    for which the line printed reports every request completed. *)

From S2P Require Import Prelude Float Types Request Chunking Memory Compat Exec Observability SchedState SchedOps SchedCycle SchedFrame SchedInv SchedOpsInv SchedOpsInv2 Tally Drive Network RemoteWorker Sockets Cli CliProps Submission Workload.

Section bench.
Context `{FE : FloatEnv} `{CK : ClockSource} `{HO : HashOrder}.

Definition benchmark_job (prompt i : Z) : Job :=
  (benchmark_request prompt i, cli_gen_tokens prompt (u64 (i + 1))).

Definition benchmark_jobs (prompt count : Z) : list Job := benchmark_job prompt <$> seqZ 0 count.

Lemma benchmark_config_fits : config_fits benchmark_config.
Proof. apply (bool_decide_unpack _). vm_compute. exact I. Qed.

Lemma benchmark_request_fields prompt i :
  1 <= prompt < 2 ^ 32 → 0 <= i < 2 ^ 64 - 1 →
  let r := benchmark_request prompt i in
  request_fits r ∧ ei_code (validate r) = ErrorCode_ok ∧ rq_request_id r = i + 1 ∧
  rq_prompt_token_count r = prompt ∧ remaining_prefill_tokens r = prompt ∧
  rq_deadline r = None ∧ rq_max_queue_delay r = None.
Proof.
  intros Hprompt Hi. cbv zeta.
  assert (u64 (i + 1) = i + 1) as Ei by (apply u64_small; unfold is_u64; lia).
  assert (0 <= i mod 4 < 4) as Hm by (apply Z.mod_pos_bound; lia).
  assert (request_wf (benchmark_request prompt i)) as Hwf.
  { unfold request_wf, benchmark_request. rsimp. rewrite Ei.
    split_and!; try apply u64_range; unfold is_u64, is_i32; cbn; lia. }
  split; [split; [done|unfold benchmark_request; rsimp; lia]|].
  assert (remaining_prefill_tokens (benchmark_request prompt i) = prompt) as Er.
  { rewrite remaining_exact by (done || (unfold benchmark_request; rsimp; cbn; lia)).
    unfold benchmark_request. rsimp. cbn. lia. }
  split; [|unfold benchmark_request in *; by rsimp].
  apply validate_ok_iff. unfold benchmark_request. rsimp. rewrite Ei. change (d_leb d_one d_zero) with false.
  split_and!; cbn; try done; lia.
Qed.

(** Prompts of one length to prefill. *)
Lemma benchmark_job_ok prompt i :
  1 <= prompt < 2 ^ 32 → 0 <= i < 2 ^ 64 - 1 → job_ok benchmark_config (benchmark_job prompt i).
Proof.
  intros Hp Hi. destruct (benchmark_request_fields prompt i Hp Hi) as (Hf & Hv & _ & En & Er & _).
  unfold job_ok, benchmark_job. cbn [fst snd]. rewrite En, Er. unfold cli_gen_tokens. rewrite gen_tokens_length.
  split_and!; try done; lia.
Qed.

Lemma benchmark_jobs_in prompt count x :
  1 <= prompt < 2 ^ 32 → count < 2 ^ 64 → x ∈ benchmark_jobs prompt count →
  job_ok benchmark_config x ∧ remaining_prefill_tokens x.1 = prompt ∧ untimed x.
Proof.
  intros Hp Hc (i & -> & [Hi1 Hi2]%elem_of_seqZ)%list_elem_of_fmap.
  split; [apply benchmark_job_ok; lia|].
  destruct (benchmark_request_fields prompt i Hp ltac:(lia)) as (_ & _ & _ & _ & Er & Hd & Hq). by split.
Qed.

Lemma benchmark_jobs_length prompt count :
  0 <= count → Z.of_nat (length (benchmark_jobs prompt count)) = count.
Proof. intros Hc. unfold benchmark_jobs. rewrite length_fmap, length_seqZ. lia. Qed.

Lemma benchmark_ids prompt count :
  1 <= prompt < 2 ^ 32 → 0 <= count < 2 ^ 32 →
  (λ x, job_id x) <$> benchmark_jobs prompt count = seqZ 1 count.
Proof.
  intros Hp Hc. unfold benchmark_jobs. rewrite <- list_fmap_compose.
  rewrite <- (fmap_add_seqZ 1 0). apply list_fmap_ext. intros k i [-> Hk]%lookup_seqZ.
  unfold compose, benchmark_job. cbn [fst]. rewrite (Z.add_comm 1).
  destruct (benchmark_request_fields prompt (0 + Z.of_nat k) Hp ltac:(lia)) as (_ & _ & E & _). exact E.
Qed.

Lemma benchmark_jobs_ok prompt count :
  1 <= prompt < 2 ^ 32 → 0 <= count <= 4096 →
  wl_tokens (benchmark_jobs prompt count) <= 2 ^ 33 →
  workload_ok benchmark_config (benchmark_jobs prompt count).
Proof.
  intros Hp Hc Ht. split; rewrite ?benchmark_jobs_length by lia.
  - apply benchmark_config_fits.
  - apply Forall_forall. intros x Hx. by apply (benchmark_jobs_in prompt count x Hp ltac:(lia)).
  - rewrite benchmark_ids by lia. apply NoDup_seqZ.
  - cbn. lia.
  - cbn. lia.
  - change (cfg_per_tenant_admitted_token_limit benchmark_config) with (2 ^ 34). lia.
Qed.

(** The scheduler the submission loop starts with. *)
Definition benchmark_start : Impl :=
  (im_now (attach_executor (Impl_new benchmark_config) (Some CpuExecutor) kBackendCpu)).2.

Lemma benchmark_starts : wl_start benchmark_config benchmark_start.
Proof.
  destruct (attached_start benchmark_config benchmark_config_fits) as [Hi He Hc Ht Hta].
  split; [|done|done|exact Ht|exact Hta]. unfold benchmark_start, im_now. cbn [snd]. revert Hi.
  generalize (attach_executor (Impl_new benchmark_config) (Some CpuExecutor) kBackendCpu).
  intros st Hi. frame_inv st.
Qed.

Lemma benchmark_submits prompt count st :
  foldl (benchmark_submit prompt) st (seqZ 0 count) = foldl wl_submit st (benchmark_jobs prompt count).
Proof.
  unfold benchmark_jobs. rewrite foldl_fmap. unfold benchmark_submit, wl_submit, benchmark_job. reflexivity.
Qed.

(** C10: the benchmark completes its work: when the requests fit one driving run
    (a cycle per chunk suffices) and a full group of chunks fits the memory, the
    command exits with code 0 and prints a line that reports every request
    submitted as admitted and completed, and every token of every prompt as
    processed. *)
Theorem benchmark_completes args count prompt
    (Hcount : u64_arg args "--count" "1000" = count)
    (Hprompt : u64_arg args "--prompt" "1024" = prompt)
    (Hrange : 1 <= prompt < 2 ^ 32)
    (Hfit : fits_drive benchmark_config (benchmark_jobs prompt count) kDriveCycles) :
  ∃ t0 t1 s, cmd_benchmark args = done_with [benchmark_line count t0 t1 s] ∧
    st_completed s = count ∧ st_admitted s = count ∧ st_completed_tokens s = count * prompt.
Proof.
  assert (0 <= count < 2 ^ 64) as [Hc0 Hsmall] by (subst count; apply strtoull_range).
  pose proof (λ x, benchmark_jobs_in prompt count x Hrange Hsmall) as Hin.
  destruct (chunks_bound benchmark_config (benchmark_jobs prompt count)) as [Htok Hlen].
  { apply benchmark_config_fits. }
  { apply Forall_forall. intros x Hx. destruct (Hin x Hx) as (((Hwf & _) & _ & _ & Hz & _) & _). done. }
  destruct Hfit as [Hch Hroom]. change (Z.of_nat kDriveCycles) with 4096 in Hch.
  change (Z.max 1 (cfg_max_tokens_per_chunk benchmark_config)) with 512 in Htok.
  rewrite benchmark_jobs_length in Hlen by done.
  assert (workload_ok benchmark_config (benchmark_jobs prompt count)) as HW
    by (apply benchmark_jobs_ok; lia).
  assert (Forall untimed (benchmark_jobs prompt count)) as Hun
    by (apply Forall_forall; intros x Hx; by apply Hin).
  assert (wl_tokens (benchmark_jobs prompt count) = count * prompt) as Et.
  { unfold wl_tokens. rewrite (list_sum_const _ _ prompt), benchmark_jobs_length by
      (lia || (apply Forall_forall; intros x Hx; by apply Hin)). lia. }
  destruct (workload_completes benchmark_config benchmark_start benchmark_starts eq_refl
    (benchmark_jobs prompt count) kDriveCycles HW) as (st' & Hrun & Hd).
  { split; [|done]. change (Z.of_nat kDriveCycles) with 4096. lia. }
  { rewrite benchmark_jobs_length; lia. }
  { change (Z.of_nat kDriveCycles) with 4096. lia. }
  unfold cmd_benchmark. rewrite Hcount, Hprompt. unfold benchmark_submitted.
  destruct (im_now _) as [t0 st0] eqn:E0.
  assert (st0 = benchmark_start) as -> by (unfold benchmark_start; by rewrite E0). clear E0.
  rewrite benchmark_submits, Hrun.
  destruct (driven_stats _ _ _ Hd Hun) as [Hcm Had]. rewrite benchmark_jobs_length in Hcm, Had by done.
  pose proof (driven_tokens _ _ _ _ HW Hd Hun) as Hdt.
  rewrite Et, u64_small in Hdt by (unfold is_u64; nia).
  unfold im_now. eexists t0, _, _. split; [done|]. by eff.
Qed.
End bench.
