(* ===== verification/Programs.v ===== *)
(** * The stand-alone benchmark and the downstream consumer

    [bench/benchmark.cpp] and [tools/consumer/main.cpp]: each program as a
    function to its exit code and the lines it prints.  The readings of the
    benchmark's own clock are a parameter, and so are the files of the consumer;
    the scheduler's clock is that of [SchedState]. *)

From S2P Require Import Prelude Float Types Request Chunking Memory Compat Bytes Persist Exec Observability SchedState SchedOps SchedCycle SchedPersist Network RemoteWorker Sockets Cli.

(** [Result::value]: the default value of the type after an error. *)
Definition value_of {A} (def : A) (r : Result A) : A := match r with Ok a => a | Err _ => def end.

Section programs.
Context `{FE : FloatEnv} `{CK : ClockSource} `{HO : HashOrder}.

(** The default configuration with the fields the programs set. *)
Definition library_config (tokens_per_chunk requests_per_group : Z) : SchedulerConfig :=
  let c := SchedulerConfig_default in
  mkSchedulerConfig tokens_per_chunk (cfg_max_work_per_chunk c)
    (cfg_max_memory_per_chunk c) (cfg_max_prefill_budget_per_cycle c) (cfg_preemption_enabled
    c) requests_per_group (cfg_max_tokens_per_group c) (cfg_max_compute_per_group
    c) (cfg_max_memory_per_group c) (cfg_max_pack_wait_ns c) (cfg_min_preferred_occupancy c)
    (cfg_gather_for_occupancy c) (Z.shiftl 8 30) (cfg_memory_headroom_bytes c)
    (cfg_memory_headroom_fraction c)
    (cfg_enforce_memory_headroom c) (cfg_max_admitted_requests c)
    (cfg_per_tenant_outstanding_limit c) (cfg_per_tenant_admitted_token_limit c)
    (cfg_max_queued_requests c) (cfg_reject_on_memory_pressure c) (cfg_aging_rate c)
    (cfg_service_by_tokens c) (cfg_fairness_quantum c) (cfg_deadline_slack_ns c)
    (cfg_drop_expired c) (cfg_default_max_retries c) (cfg_deterministic_tie_break c)
    (cfg_track_service_accounting c).

Definition new_with_cpu (cfg : SchedulerConfig) : Impl :=
  attach_executor (Impl_new cfg) (Some CpuExecutor) kBackendCpu.

(** ** The benchmark *)

Definition secs_since (t0 t1 : Nanoseconds) : double :=
  d_div (d_bits (d_of_Z (i64 (t1 - t0)))) d_1e9.

Definition batok (n seed : Z) : list Z :=
  gen_tokens (Z.to_nat n) (Z.lxor 0x9E3779B97F4A7C15 seed).

Definition breq (id : RequestId) (t : TenantId) (prompt : Z) : PrefillRequest :=
  PrefillRequest_default
    <| rq_request_id := id |>
    <| rq_tenant_id := t |>
    <| rq_model := mkModelKey "m" "1" |>
    <| rq_prompt_token_count := prompt |>
    <| rq_tenant_weight := d_one |>
    <| rq_priority := id mod 8 |>
    <| rq_compute_estimate := u64 (prompt * 4) |>
    <| rq_memory_estimate_bytes := u64 (prompt * 16) |>
    <| rq_input_shape := mkInputShape prompt 512 8 64 |>.

(** [n / (s > 0 ? s : 1e-9)] with no decimals. *)
Definition rate (n : Z) (s : double) : string :=
  print_fixed 0 (d_div (d_bits (d_of_Z n)) (if d_ltb d_zero s then s else d_1em9)).

Definition bench_submit (tenant : Z → TenantId) (prompt : Z) (st : Impl) (i : Z) : Impl :=
  (submit_with_tokens st (breq (u64 (i + 1)) (tenant i) prompt) (batok prompt (u64 (i + 1)))).1.

(** 1) Submission, scheduling and completion. *)
Definition throughput_lines (n : Z) (submit_s sched_s : double) (s : Stats) : list string := [
  "submit_throughput=" +:+ rate n submit_s +:+ " req/s (" +:+ std_to_string n +:+ " reqs in " +:+
    print_fixed 3 submit_s +:+ "s)";
  "sched_complete=" +:+ rate n sched_s +:+ " req/s" +:+ field " groups" (st_groups_formed s) +:+
    field " tokens" (st_completed_tokens s) +:+ " (" +:+ print_fixed 3 sched_s +:+ "s)";
  "cpu_executor=" +:+ rate (st_completed_tokens s) sched_s +:+ " tok/s" ].

Definition bench_throughput (t0 t1 t2 t3 : Nanoseconds) : list string :=
  let st := foldl (bench_submit (λ i, 1 + i mod 4) 512) (new_with_cpu (library_config 512 16))
              (seqZ 0 2000) in
  let st := (drive_until_quiescent kDriveCycles st).1 in
  throughput_lines 2000 (secs_since t0 t1) (secs_since t2 t3) (im_stats st).

(** 2) Chunk plans. *)
Definition plan_line (s : double) (chunks : Z) : string :=
  "chunk_plan=" +:+ rate 100000 s +:+ " plans/s (" +:+ std_to_string chunks +:+ " chunks)".

Definition plan_rounds (n : nat) : Z :=
  Nat.iter n (λ chunks, chunks +u
    Z.of_nat (length (pl_chunks (plan (library_config 1024 16) (breq 1 1 10000) 1 0)))) 0.

Definition bench_chunk_plans (t0 t1 : Nanoseconds) : list string :=
  [plan_line (secs_since t0 t1) (plan_rounds (Z.to_nat 100000))].

(** 3) Group formation: one cycle. *)
Definition group_line (s : double) (groups tokens : Z) : string :=
  "group_formation=" +:+ rate groups s +:+ " groups/s (" +:+ std_to_string groups +:+ " groups, " +:+
    std_to_string tokens +:+ " tokens)".

Definition bench_groups (t0 t1 : Nanoseconds) : list string :=
  let st := foldl (bench_submit (λ i, 1 + i mod 2) 1024) (new_with_cpu (library_config 1024 16))
              (seqZ 0 2000) in
  let b := value_of DispatchBatch_empty (run_cycle st).2 in
  [group_line (secs_since t0 t1) (Z.of_nat (length (db_groups b))) (db_cycle_scheduled_tokens b)].

(** 4) Snapshots and the persistence format.  A snapshot does not change the
    scheduler, and the decoded state is dropped. *)
Definition snapshot_line (s : double) : string := "snapshot=" +:+ rate 100 s +:+ " sn/s".
Definition persist_line (ser_s deser_s : double) (bytes : Z) : string :=
  "persist_serialize=" +:+ rate 1 ser_s +:+ " states/s deserialize=" +:+ rate 1 deser_s +:+
    " states/s (bytes=" +:+ std_to_string bytes +:+ ")".

Definition bench_persistence (t0 t1 t2 t3 t4 t5 : Nanoseconds) : list string :=
  let st := foldl (bench_submit (λ _, 1) 512) (new_with_cpu (library_config 4096 16)) (seqZ 0 2000) in
  let st := (drive_until_quiescent kDriveCycles st).1 in
  let blob := value_of [] (serialize_state (export_state st)) in
  [snapshot_line (secs_since t0 t1);
   persist_line (secs_since t2 t3) (secs_since t4 t5) (Z.of_nat (length blob))].

(** 5) Queue depth: submissions to a scheduler without an executor. *)
Definition queue_line (s : double) (depth : Z) : string :=
  "queue_10k_submit=" +:+ rate 10000 s +:+ " req/s (depth=" +:+ std_to_string depth +:+ ")".

Definition bench_enqueue (st : Impl) (i : Z) : Impl :=
  (submit st (breq (u64 (i + 1)) 1 256)).1.

Definition bench_queue (t0 t1 : Nanoseconds) : list string :=
  let st := foldl bench_enqueue (Impl_new (library_config 4096 16)) (seqZ 0 10000) in
  [queue_line (secs_since t0 t1) (queued_count_locked st)].

(** [now n] is the [n]-th reading of [std::chrono::steady_clock]. *)
Definition benchmark_main (now : nat → Nanoseconds) : Cmd :=
  done_with (["== Prefill Fabric benchmark =="] ++
    bench_throughput (now 0%nat) (now 1%nat) (now 2%nat) (now 3%nat) ++
    bench_chunk_plans (now 4%nat) (now 5%nat) ++
    bench_groups (now 6%nat) (now 7%nat) ++
    bench_persistence (now 8%nat) (now 9%nat) (now 10%nat) (now 11%nat) (now 12%nat) (now 13%nat) ++
    bench_queue (now 14%nat) (now 15%nat) ++
    ["== benchmark complete =="]).

(** ** The consumer *)

Definition ctok (n seed : Z) : list Z :=
  gen_tokens (Z.to_nat n) (Z.lxor 0x9E3779B97F4A7C15 seed).

Definition consumer_config : SchedulerConfig := library_config 1024 16.

Definition consumer_request (i : Z) : PrefillRequest :=
  PrefillRequest_default
    <| rq_request_id := i |>
    <| rq_tenant_id := 1 |>
    <| rq_model := mkModelKey "m" "1" |>
    <| rq_prompt_token_count := 1500 |>
    <| rq_compute_estimate := 1500 |>
    <| rq_memory_estimate_bytes := 1500 * 16 |>
    <| rq_input_shape := mkInputShape 1500 0 0 0 |>.

Definition consumer_submit (st : Impl) (i : Z) : Impl :=
  (submit_with_tokens st (consumer_request i) (ctok 1500 i)).1.

Definition unreleased_count (g : MemoryGovernor) : Z := active_reservation_count g.

Definition consumer_line (completed ok : bool) (groups explained : Z) (recovered noleak : bool) : string :=
  "consumer completed=" +:+ bool_text completed +:+ " ok=" +:+ bool_text ok +:+
  field " groups" groups +:+ field " explained" explained +:+
  " recovered=" +:+ bool_text recovered +:+ " noleak=" +:+ bool_text noleak.

(** [remove] is [std::remove]; the result of [persist] is not looked at. *)
Definition consumer_main {store} `{FileSystem store} (remove : store → string → store) (fs : store)
    : Cmd * store :=
  let st := foldl consumer_submit (new_with_cpu consumer_config) (seqZ 1 2) in
  let '(st, d) := drive_until_quiescent kDriveCycles st in
  let completed := is_terminal st 1 && is_terminal st 2 in
  let s := im_stats st in
  let ex1 := explain st 1 in
  let trace_size := match ex1 with Ok x => Z.of_nat (length (xp_trace x)) | Err _ => 0 end in
  let fs := (persist st fs "consumer.pfstate").2 in
  let recovered := has_value (recover (Impl_new consumer_config) fs "consumer.pfstate").2 in
  let fs := remove fs "consumer.pfstate" in
  let noleak := unreleased_count (im_mem st) =? 0 in
  let code := if completed && has_value d && (st_completed s =? 2) && has_value ex1 &&
                 (0 <? trace_size) && recovered && noleak then 0 else 1 in
  ((Some code, [Out (consumer_line completed (has_value d) (st_groups_formed s) trace_size recovered noleak)]), fs).
End programs.
