(* ===== verification/ProgramProps.v ===== *)
(** * What the programs report

    The benchmark reports its requests completed, its queue at its full depth
    and one group per cycle of its one worker; the consumer exits with 0. *)

From S2P Require Import Prelude Float Types Request Chunking Memory Compat Bytes Persist Exec Observability SchedState SchedOps SchedCycle SchedPersist SchedFrame SchedInv SchedOpsInv SchedOpsInv2 CycleInv DispatchInv GroupInv FormInv RunCycle CycleFrame Reach Safety Evolve Tally Tables Typed Restore Progress Drive Network RemoteWorker Sockets Cli CliProps Submission Workload Programs.

Section capacity.
Context `{FE : FloatEnv} `{CK : ClockSource} `{HO : HashOrder} `{OR : Origin}.

Definition total_busy (m : gmap Z Ws) : Z := map_sum (λ _ ws, ws_busy_units ws) m.

(** On an idle scheduler a cycle occupies one unit per group it dispatches. *)
Lemma cycle_group_count st :
  sched_inv st → cycle_room st → idle st → balanced (groups_ st) (workers_ st) →
  ∃ st' b, run_cycle st = (st', Ok b) ∧ Z.of_nat (length (db_groups b)) = total_busy (workers_ st').
Proof.
  intros Hi Hroom Hq Hb. set (stc := st <| im_clock_reads ::= S |>).
  set (now := clock_now (im_clock_reads st)).
  assert (sched_inv stc) as Hic by (unfold stc; frame_inv st).
  destruct (swept_idle now stc Hic Hq) as (_ & Hw0 & Hg0).
  destruct (run_cycle_ind (λ st' b, balanced (groups_ st') (workers_ st') ∧
      Z.of_nat (length (db_groups b)) = total_busy (workers_ st')) st Hi Hroom)
    as (st2 & batch & E & _ & _ & Hn).
  - intros st1 open Hf. rewrite (fm_groups _ _ _ _ Hf), (fm_workers _ _ _ _ Hf). fold stc now.
    rewrite Hw0, Hg0. split; [done|]. symmetry. apply map_sum_zero. intros w ws Hws.
    destruct (Hb w ws Hws) as [-> _]. change (groups_ stc) with (groups_ st).
    by rewrite (idle_no_groups st Hi Hq), load_empty.
  - intros st1 b1 g Hi1 Ho Hr1 [Hb1 Hn1].
    pose proof (dispatch_group_spec now st1 b1 g Hi1 Ho Hr1) as Hsp. fold now.
    destruct (dispatch_group now (st1, b1) g) as [st' b'].
    destruct Hsp as [_ [[(_ & Hg & Hwk) Hdb]|(w & dg & Hch & [_ Hg] & Hwk & Hdb & _)]].
    { by rewrite Hg, Hwk, Hdb. }
    pose proof (choose_worker_spec st1 (eg_backend (og_group g))) as Hcw. rewrite Hch in Hcw.
    destruct Hcw as [(ws & Hws & He) _].
    unfold worker_eligible in He. rewrite !andb_true_iff, negb_true_iff, Z.leb_gt in He.
    destruct He as [[_ Hlt] _]. rewrite Hg, Hwk, Hdb. split.
    + exact (balanced_commit _ _ _ (mkGs _ w _) ws Hb1 (oo_fresh _ _ Ho) Hws Hlt).
    + destruct (Hb1 w ws Hws) as (B1 & B2 & B3). pose proof (load_nonneg (groups_ st1) w).
      unfold total_busy in *. rewrite <- (insert_id _ _ _ Hws), alter_insert_eq, length_app. cbn [length].
      erewrite map_sum_insert by done. rsimp. rewrite u64_small by (unfold is_u64; lia). lia.
  - eexists _, batch. split; [exact E|]. unfold refresh_queue_stats. by eff.
Qed.
End capacity.

Section one_cycle.
Context `{FE : FloatEnv} `{CK : ClockSource} `{HO : HashOrder}.

(** A workload that fits one driving run is not large. *)
Lemma fits_few cfg W :
  workload_ok cfg W → fits_drive cfg W kDriveCycles → Z.of_nat (length W) < 2 ^ 32.
Proof.
  intros HW [Hch _]. change (Z.of_nat kDriveCycles) with 4096 in Hch.
  destruct (chunks_bound cfg W) as [_ Hlen]; [apply (wo_config _ _ HW)| |].
  { apply (Forall_impl _ _ _ (wo_jobs _ _ HW)). by intros x ((Hwf & _) & _ & _ & Hz & _). }
  do 2 (eapply Z.le_lt_trans; [eassumption|]). done.
Qed.

(** Submitting a workload to a new scheduler with the CPU executor and driving it. *)
Lemma program_drives cfg W :
  workload_ok cfg W → fits_drive cfg W kDriveCycles →
  ∃ st, drive_until_quiescent kDriveCycles (foldl wl_submit (new_with_cpu cfg) W) = (st, Ok tt) ∧
    driven (new_with_cpu cfg) W st.
Proof.
  intros HW Hf. apply (workload_completes cfg (new_with_cpu cfg)
    (attached_start cfg (wo_config _ _ HW)) eq_refl); try done. by apply (fits_few cfg).
Qed.

Lemma program_storable `{C64 : !Clock64} cfg W st :
  Z.of_nat (length W) <= 2 ^ 24 → Forall job_storable W →
  drive_until_quiescent kDriveCycles (foldl wl_submit (new_with_cpu cfg) W) = (st, Ok tt) →
  driven (new_with_cpu cfg) W st → storable st.
Proof.
  intros HN HW. refine (driven_storable (new_with_cpu cfg) W kDriveCycles st HN HW _).
  unfold new_with_cpu. apply attach_typed, new_typed.
Qed.

(** The first cycle of a workload gives the one worker its one group. *)
Lemma workload_first_cycle cfg W x :
  workload_ok cfg W → Z.of_nat (length W) < 2 ^ 32 → wl_roomy cfg W → x ∈ W → untimed x →
  ∃ st' b, run_cycle (foldl wl_submit (new_with_cpu cfg) W) = (st', Ok b) ∧
    length (db_groups b) = 1%nat.
Proof.
  intros HW HN Hroom Hx Hun. pose proof (attached_start cfg (wo_config _ _ HW)) as H0.
  pose proof (submitted_all cfg (new_with_cpu cfg) H0 W HW) as Hs.
  set (st := foldl _ _ _) in *. clearbody st. pose proof (sb_inv _ _ _ _ Hs) as Hi.
  pose proof (submitted_drivable cfg (new_with_cpu cfg) eq_refl W st HW Hroom Hs) as Hdv.
  pose proof (sb_machinery _ _ _ _ Hs) as Em. unfold new_with_cpu in Em.
  rewrite attached_machinery in Em.
  unfold machinery in Em. injection Em as _ _ _ _ Ew _ _ _.
  pose proof (submitted_counters cfg (new_with_cpu cfg) eq_refl W st 1 Hs HN ltac:(lia)) as Hcr.
  pose proof (counters_room_cycle 0 st Hcr) as Hcroom.
  destruct (cycle_group_count st Hi Hcroom (dv_idle _ _ Hdv) (dv_balanced _ _ Hdv))
    as (st' & b & Hrun & Hcount).
  destruct (run_cycle_ends st Hi Hcroom (dv_idle _ _ Hdv) (dv_balanced _ _ Hdv))
    as (? & ? & Hrun' & Hce). rewrite Hrun in Hrun'. injection Hrun' as <- <-.
  exists st', b. split; [done|]. apply Nat.le_antisymm.
  - pose proof (kp_around _ _ _ (ce_keeps _ _ _ Hce)) as Hsu.
    unfold surroundings in Hsu. injection Hsu as _ _ _ _ _ Hsu. rewrite Ew, map_fmap_singleton in Hsu.
    assert (∃ ws, workers_ st' = {[0 := ws]} ∧ ws_desc ws = ws_desc cpu_worker) as (ws & Ew' & Ed).
    { apply map_fmap_singleton_inv in Hsu as (ws & E & ->). exists ws. split; [done|].
      unfold identity in E. congruence. }
    destruct (ce_balanced _ _ _ Hce 0 ws ltac:(by rewrite Ew', lookup_singleton_eq)) as (_ & Hle & _).
    rewrite Ed in Hle. cbn in Hle. unfold total_busy in Hcount. rewrite Ew' in Hcount.
    rewrite <- insert_empty, map_sum_insert_new, map_sum_empty in Hcount by apply lookup_empty. lia.
  - destruct (drive_round _ 0 st Hi Hdv Hcr) as (? & ? & Hrun' & Hi2 & Hdv2 & _ & _ & _ & _ & Hu & Hwork).
    rewrite Hrun in Hrun'. injection Hrun' as <- <-. cbv zeta in *.
    destruct (db_groups b) as [|dg l] eqn:Eb; [exfalso|cbn; lia]. rewrite bool_decide_true in Hwork by done.
    cbn [foldl] in *.
    destruct (Hu (job_id x) (submitted_unhindered cfg (new_with_cpu cfg) W st x HW Hs Hx Hun))
      as (s' & _ & Hs' & _ & _ & _ & _ & _ & Hl).
    pose proof (no_work_terminal st' _ s' Hi2 (dv_live _ _ Hdv2) ltac:(lia) Hs') as Ht.
    destruct (ce_cycled _ _ _ Hce _ s' Hs') as (s & Hs1 & _ & Hc).
    destruct (submitted_queued _ _ _ _ _ _ Hs Hs1) as (Hq & _). unfold queued in Hq.
    destruct Hl as [Hl|[Hl|[_ Hl]]]; [|by rewrite Hl in Ht..].
    destruct Hc as [(_ & E & _)|[[_ E]|[_ [_ E]]]]; congruence.
Qed.
End one_cycle.

Section programs.
Context `{FE : FloatEnv} `{CK : ClockSource} `{HO : HashOrder} `{C64 : !Clock64}.

(** ** The requests *)

Lemma library_config_fits n : is_u64 n → config_fits (library_config n 16).
Proof.
  intros Hn. split; [|by vm_compute]. unfold config_wf. split; [exact Hn|].
  split_and!; apply (bool_decide_unpack _); by vm_compute.
Qed.

Definition bench_job (tenant : Z → TenantId) (prompt i : Z) : Job :=
  (breq (u64 (i + 1)) (tenant i) prompt, batok prompt (u64 (i + 1))).

Definition bench_jobs (tenant : Z → TenantId) (prompt N : Z) : list Job :=
  bench_job tenant prompt <$> seqZ 0 N.

Lemma breq_fields i t prompt :
  1 <= prompt < 2 ^ 32 → 0 <= i < 2 ^ 32 → 1 <= t < 2 ^ 64 →
  let r := breq (u64 (i + 1)) t prompt in
  request_fits r ∧ ei_code (validate r) = ErrorCode_ok ∧ rq_request_id r = i + 1 ∧
  rq_prompt_token_count r = prompt ∧ remaining_prefill_tokens r = prompt ∧
  rq_deadline r = None ∧ rq_max_queue_delay r = None.
Proof.
  intros Hprompt Hi Ht. cbv zeta.
  assert (u64 (i + 1) = i + 1) as Ei by (apply u64_small; unfold is_u64; lia).
  assert (request_wf (breq (u64 (i + 1)) t prompt)) as Hwf.
  { unfold request_wf, breq. rsimp. rewrite Ei.
    split_and!; try apply u64_range; try done; unfold is_u64, is_i32; cbn; lia. }
  split; [split; [done|unfold breq; rsimp; lia]|].
  assert (remaining_prefill_tokens (breq (u64 (i + 1)) t prompt) = prompt) as Er.
  { rewrite remaining_exact by (done || (unfold breq; rsimp; cbn; lia)).
    unfold breq. rsimp. cbn. lia. }
  split; [|unfold breq in *; by rsimp].
  apply validate_ok_iff. unfold breq. rsimp. rewrite Ei. change (d_leb d_one d_zero) with false.
  split_and!; cbn; try done; lia.
Qed.

Lemma breq_storable i t prompt : request_storable (breq i t prompt).
Proof.
  assert (0 <= i mod 8 < 8) by (apply Z.mod_pos_bound; lia).
  unfold request_storable, breq. rsimp.
  split_and!; lazymatch goal with
    | |- is_i32 _ => unfold is_i32; lia
    | |- _ => apply (bool_decide_unpack _); by vm_compute
    end.
Qed.

Lemma bench_jobs_length tenant prompt N :
  0 <= N → Z.of_nat (length (bench_jobs tenant prompt N)) = N.
Proof. intros HN. unfold bench_jobs. rewrite length_fmap, length_seqZ. lia. Qed.

Section bench_jobs.
Variables (chunk : Z) (tenant : Z → TenantId) (prompt N : Z).
Hypotheses (Hch : is_u64 chunk) (Hp : 1 <= prompt <= 1024) (HN : 0 <= N <= 10000)
  (Ht : ∀ i, 1 <= tenant i < 2 ^ 20).

Lemma bench_jobs_in x :
  x ∈ bench_jobs tenant prompt N →
  job_ok (library_config chunk 16) x ∧ remaining_prefill_tokens x.1 = prompt ∧ untimed x ∧
  job_storable x.
Proof using Hp HN Ht.
  intros (i & -> & [Hi1 Hi2]%elem_of_seqZ)%list_elem_of_fmap. specialize (Ht i).
  destruct (breq_fields i (tenant i) prompt ltac:(lia) ltac:(lia) ltac:(lia))
    as (Hf & Hv & _ & En & Er & Hd & Hq). unfold bench_job, job_ok. cbn [fst snd]. rewrite En, Er.
  split; [|split; [done|split; [done|]]].
  - split; [done|]. split; [done|]. unfold batok. rewrite gen_tokens_length. split; [lia|]. by split; [lia|].
  - split; [apply breq_storable|]. cbn [fst]. unfold breq. rsimp. lia.
Qed.

Lemma bench_ids : (λ x, job_id x) <$> bench_jobs tenant prompt N = seqZ 1 N.
Proof using Hp HN Ht.
  unfold bench_jobs. rewrite <- list_fmap_compose.
  rewrite <- (fmap_add_seqZ 1 0). apply list_fmap_ext. intros k i [-> Hk]%lookup_seqZ.
  unfold compose, bench_job. cbn [fst]. rewrite (Z.add_comm 1). specialize (Ht (0 + Z.of_nat k)).
  destruct (breq_fields (0 + Z.of_nat k) (tenant (0 + Z.of_nat k)) prompt ltac:(lia) ltac:(lia) ltac:(lia))
    as (_ & _ & E & _). exact E.
Qed.

Lemma bench_tokens : wl_tokens (bench_jobs tenant prompt N) = N * prompt.
Proof using chunk Hp HN Ht.
  unfold wl_tokens. rewrite (list_sum_const _ _ prompt), bench_jobs_length by
    (lia || (apply Forall_forall; intros x Hx; by apply bench_jobs_in)). lia.
Qed.

Lemma bench_jobs_ok : workload_ok (library_config chunk 16) (bench_jobs tenant prompt N).
Proof using Hch Hp HN Ht.
  split; rewrite ?bench_jobs_length by lia.
  - by apply library_config_fits.
  - apply Forall_forall. intros x Hx. by apply bench_jobs_in.
  - rewrite bench_ids. apply NoDup_seqZ.
  - cbn. lia.
  - cbn. lia.
  - rewrite bench_tokens. change (cfg_per_tenant_admitted_token_limit (library_config chunk 16)) with (2 ^ 34).
    nia.
Qed.

Lemma bench_untimed : Forall untimed (bench_jobs tenant prompt N).
Proof using chunk Hp HN Ht. apply Forall_forall. intros x Hx. by apply bench_jobs_in. Qed.

Lemma bench_submits st :
  foldl (bench_submit tenant prompt) st (seqZ 0 N) = foldl wl_submit st (bench_jobs tenant prompt N).
Proof.
  unfold bench_jobs. rewrite foldl_fmap. unfold bench_submit, wl_submit, bench_job. reflexivity.
Qed.

(** Driving one of the benchmark's workloads. *)
Lemma bench_driven :
  fits_drive (library_config chunk 16) (bench_jobs tenant prompt N) kDriveCycles →
  ∃ st, drive_until_quiescent kDriveCycles
      (foldl (bench_submit tenant prompt) (new_with_cpu (library_config chunk 16)) (seqZ 0 N))
    = (st, Ok tt) ∧
    driven (new_with_cpu (library_config chunk 16)) (bench_jobs tenant prompt N) st ∧ storable st.
Proof using Hch Hp HN Ht C64.
  intros Hf. destruct (program_drives _ _ bench_jobs_ok Hf) as (st & Hrun & Hd).
  exists st. rewrite bench_submits. split; [done|]. split; [done|].
  refine (program_storable _ _ st _ _ Hrun Hd).
  - rewrite bench_jobs_length; lia.
  - apply Forall_forall. intros x Hx. by apply bench_jobs_in.
Qed.
End bench_jobs.

Lemma bench_enqueue_eq st i : bench_enqueue st i = wl_submit st (bench_job (λ _, 1) 256 i).
Proof.
  unfold bench_enqueue, wl_submit, bench_job, submit, batok. cbn [fst snd].
  change (rq_request_id (breq (u64 (i + 1)) 1 256)) with (u64 (i + 1)). reflexivity.
Qed.

Lemma bench_enqueues st N :
  foldl bench_enqueue st (seqZ 0 N) = foldl wl_submit st (bench_jobs (λ _, 1) 256 N).
Proof.
  unfold bench_jobs. generalize (seqZ 0 N). intros l. revert st.
  induction l as [|i l IH]; intros st; [reflexivity|].
  rewrite fmap_cons. cbn [foldl]. rewrite <- bench_enqueue_eq. apply IH.
Qed.

(** ** The figures printed *)

Lemma queued_count_all st :
  (∀ rid s, requests_ st !! rid = Some s → is_waiting s = true) →
  queued_count_locked st = u64 (Z.of_nat (size (requests_ st))).
Proof.
  intros Hq. unfold queued_count_locked. rewrite <- iter_length.
  assert (∀ l n, (∀ kv, kv ∈ l → is_waiting kv.2 = true) →
    foldl (λ n (kv : Z * Rs), if is_waiting kv.2 then n +u 1 else n) (u64 n) l
    = u64 (n + Z.of_nat (length l))) as H.
  { induction l as [|kv l IH]; intros n Hl; [cbn; f_equal; lia|]. cbn [foldl length].
    rewrite (Hl kv) by left. replace (u64 n +u 1) with (u64 (n + 1))
      by (unfold u64; by rewrite Zplus_mod_idemp_l).
    rewrite IH by (intros; apply Hl; by right). f_equal. lia. }
  apply (H _ 0). intros [rid s] Hin%elem_of_iter. by apply (Hq rid).
Qed.

Lemma plan_rounds_total n :
  plan_rounds n
  = u64 (Z.of_nat n * Z.of_nat (length (pl_chunks (plan (library_config 1024 16) (breq 1 1 10000) 1 0)))).
Proof.
  unfold plan_rounds. set (k := Z.of_nat (length _)). clearbody k.
  induction n as [|n IH]; [done|]. cbn [Nat.iter nat_rect]. unfold Nat.iter in IH. rewrite IH.
  unfold u64. rewrite Zplus_mod_idemp_l. f_equal. lia.
Qed.

End programs.

Section benchmark_program.
Context `{FE : FloatEnv} `{CK : ClockSource} `{HO : HashOrder} `{C64 : !Clock64}.

Lemma tenant_cycle_range k i : 1 <= k <= 4 → 1 <= 1 + i mod k < 2 ^ 20.
Proof. intros Hk. pose proof (Z.mod_pos_bound i k ltac:(lia)). lia. Qed.

Lemma one_tenant (i : Z) : 1 <= 1 < 2 ^ 20.
Proof. lia. Qed.

Lemma bench_throughput_spec t0 t1 t2 t3 :
  fits_drive (library_config 512 16) (bench_jobs (λ i, 1 + i mod 4) 512 2000) kDriveCycles →
  ∃ s, bench_throughput t0 t1 t2 t3
       = throughput_lines 2000 (secs_since t0 t1) (secs_since t2 t3) s ∧
    st_completed s = 2000 ∧ st_admitted s = 2000 ∧ st_completed_tokens s = 2000 * 512.
Proof using C64.
  intros Hf. pose proof (λ i, tenant_cycle_range 4 i ltac:(lia)) as Hten.
  destruct (bench_driven 512 _ 512 2000 ltac:(by vm_compute) ltac:(lia) ltac:(lia) Hten Hf)
    as (st & Hrun & Hd & _).
  pose proof (bench_untimed 512 _ 512 2000 ltac:(lia) ltac:(lia) Hten) as Hun.
  exists (im_stats st). split; [unfold bench_throughput; cbv zeta; by rewrite Hrun|].
  destruct (driven_stats _ _ _ Hd Hun) as [-> ->]. rewrite bench_jobs_length by lia.
  rewrite (driven_tokens _ _ _ _
    (bench_jobs_ok 512 _ 512 2000 ltac:(by vm_compute) ltac:(lia) ltac:(lia) Hten) Hd Hun).
  by rewrite bench_tokens by (lia || done).
Qed.

Lemma bench_groups_spec t0 t1 :
  wl_roomy (library_config 1024 16) (bench_jobs (λ i, 1 + i mod 2) 1024 2000) →
  ∃ tokens, bench_groups t0 t1 = [group_line (secs_since t0 t1) 1 tokens].
Proof using C64.
  intros Hm. pose proof (λ i, tenant_cycle_range 2 i ltac:(lia)) as Hten.
  destruct (workload_first_cycle (library_config 1024 16) (bench_jobs (λ i, 1 + i mod 2) 1024 2000)
    (bench_job (λ i, 1 + i mod 2) 1024 0)) as (st & b & Hrun & Hb).
  - exact (bench_jobs_ok 1024 _ 1024 2000 ltac:(by vm_compute) ltac:(lia) ltac:(lia) Hten).
  - rewrite bench_jobs_length; lia.
  - exact Hm.
  - unfold bench_jobs. apply list_elem_of_fmap. exists 0. split; [done|]. apply elem_of_seqZ. lia.
  - by split.
  - exists (db_cycle_scheduled_tokens b). unfold bench_groups. cbv zeta.
    rewrite bench_submits, Hrun. cbn [snd value_of]. by rewrite Hb.
Qed.

Lemma bench_persistence_spec t0 t1 t2 t3 t4 t5 :
  fits_drive (library_config 4096 16) (bench_jobs (λ _, 1) 512 2000) kDriveCycles →
  ∃ ps blob, bench_persistence t0 t1 t2 t3 t4 t5
    = [snapshot_line (secs_since t0 t1);
       persist_line (secs_since t2 t3) (secs_since t4 t5) (Z.of_nat (length blob))] ∧
    serialize_state ps = Ok blob ∧ deserialize_state blob = Ok ps ∧
    Z.of_nat (length (ps_requests ps)) = 2000.
Proof using C64.
  intros Hf. destruct (bench_driven 4096 (λ _, 1) 512 2000 ltac:(by vm_compute) ltac:(lia)
    ltac:(lia) one_tenant Hf) as (st & Hrun & Hd & Hsto).
  pose proof (export_state_ok _ st (library_config_fits 4096 ltac:(by vm_compute))
    (driven_reachable _ _ _ Hd) Hsto) as Hok.
  destruct (roundtrip_blob (export_state st) [] Hok) as (blob & Es & Er). rewrite app_nil_r in Er.
  exists (export_state st), blob. split; [|split; [done|split; [done|]]].
  - unfold bench_persistence. cbv zeta. rewrite Hrun. cbn [fst]. by rewrite Es.
  - unfold export_state. cbn [ps_requests]. rewrite length_fmap, iter_length, (dn_size _ _ _ Hd).
    apply bench_jobs_length. lia.
Qed.

Lemma bench_queue_spec t0 t1 : bench_queue t0 t1 = [queue_line (secs_since t0 t1) 10000].
Proof.
  unfold bench_queue. cbv zeta. rewrite bench_enqueues.
  pose proof (submitted_all (library_config 4096 16) (Impl_new (library_config 4096 16))
    (new_start _ (library_config_fits 4096 ltac:(by vm_compute))) (bench_jobs (λ _, 1) 256 10000)
    (bench_jobs_ok 4096 _ 256 10000 ltac:(by vm_compute) ltac:(lia) ltac:(lia) one_tenant)) as Hs.
  rewrite queued_count_all; [by rewrite (sb_size _ _ _ _ Hs), bench_jobs_length by lia|]. intros rid s Hr.
  destruct (submitted_queued _ _ _ _ _ _ Hs Hr) as (Hq & Hf & _). unfold is_waiting.
  by rewrite Hf, bool_decide_true.
Qed.

(** The benchmark program runs to its end whatever the clocks read: its 2000
    requests are completed with every token, the cycle it measures dispatches
    exactly one group, the state it serializes holds the 2000 requests and is
    read back exactly, and its queue holds all 10000 requests. *)
Theorem benchmark_program_reports now
    (H1 : fits_drive (library_config 512 16) (bench_jobs (λ i, 1 + i mod 4) 512 2000) kDriveCycles)
    (H3 : wl_roomy (library_config 1024 16) (bench_jobs (λ i, 1 + i mod 2) 1024 2000))
    (H4 : fits_drive (library_config 4096 16) (bench_jobs (λ _, 1) 512 2000) kDriveCycles) :
  ∃ s chunks tokens ps blob,
    benchmark_main now = done_with (["== Prefill Fabric benchmark =="] ++
      throughput_lines 2000 (secs_since (now 0%nat) (now 1%nat)) (secs_since (now 2%nat) (now 3%nat)) s ++
      [plan_line (secs_since (now 4%nat) (now 5%nat)) chunks;
       group_line (secs_since (now 6%nat) (now 7%nat)) 1 tokens;
       snapshot_line (secs_since (now 8%nat) (now 9%nat));
       persist_line (secs_since (now 10%nat) (now 11%nat)) (secs_since (now 12%nat) (now 13%nat))
         (Z.of_nat (length blob));
       queue_line (secs_since (now 14%nat) (now 15%nat)) 10000;
       "== benchmark complete =="]) ∧
    st_completed s = 2000 ∧ st_admitted s = 2000 ∧ st_completed_tokens s = 2000 * 512 ∧
    chunks = u64 (100000 *
      Z.of_nat (length (pl_chunks (plan (library_config 1024 16) (breq 1 1 10000) 1 0)))) ∧
    serialize_state ps = Ok blob ∧ deserialize_state blob = Ok ps ∧
    Z.of_nat (length (ps_requests ps)) = 2000.
Proof using C64.
  destruct (bench_throughput_spec (now 0%nat) (now 1%nat) (now 2%nat) (now 3%nat) H1)
    as (s & E1 & Hc & Ha & Htk).
  destruct (bench_groups_spec (now 6%nat) (now 7%nat) H3) as (tokens & E3).
  destruct (bench_persistence_spec (now 8%nat) (now 9%nat) (now 10%nat) (now 11%nat) (now 12%nat)
    (now 13%nat) H4) as (ps & blob & E4 & Hser & Hde & Hlen).
  pose proof (plan_rounds_total (Z.to_nat 100000)) as Ep. rewrite Z2Nat.id in Ep by lia.
  unfold benchmark_main. rewrite E1, E3, E4, bench_queue_spec. unfold bench_chunk_plans.
  revert Ep. generalize (plan_rounds (Z.to_nat 100000)). intros chunks Ep.
  exists s, chunks, tokens, ps, blob. by split_and!.
Qed.
End benchmark_program.

Section consumer.
Context `{FE : FloatEnv} `{CK : ClockSource} `{HO : HashOrder} `{C64 : !Clock64}.

Definition consumer_jobs : list Job := (λ i, (consumer_request i, ctok 1500 i)) <$> seqZ 1 2.

Lemma consumer_jobs_ok : workload_ok consumer_config consumer_jobs.
Proof. split; apply (bool_decide_unpack _); by vm_compute. Qed.

Lemma consumer_untimed : Forall untimed consumer_jobs.
Proof. apply (bool_decide_unpack _); by vm_compute. Qed.

Lemma consumer_submits st :
  foldl consumer_submit st (seqZ 1 2) = foldl wl_submit st consumer_jobs.
Proof.
  unfold consumer_jobs. rewrite foldl_fmap. unfold consumer_submit, wl_submit. reflexivity.
Qed.

(** What the consumer tests of the scheduler it drove. *)
Lemma driven_consumer st :
  driven (new_with_cpu consumer_config) consumer_jobs st →
  is_terminal st 1 = true ∧ is_terminal st 2 = true ∧ st_completed (im_stats st) = 2 ∧
  unreleased_count (im_mem st) = 0 ∧ ∃ x, explain st 1 = Ok x ∧ 0 < Z.of_nat (length (xp_trace x)).
Proof.
  intros Hd.
  assert ((consumer_request 1, ctok 1500 1) ∈ consumer_jobs ∧
          (consumer_request 2, ctok 1500 2) ∈ consumer_jobs) as [Hj1 Hj2].
  { unfold consumer_jobs. change (seqZ 1 2) with [1; 2]. rewrite !fmap_cons. split; [left|right; left]. }
  split; [exact (driven_terminal _ _ _ _ Hd Hj1)|]. split; [exact (driven_terminal _ _ _ _ Hd Hj2)|].
  split; [apply (driven_stats _ _ _ Hd consumer_untimed)|]. split.
  - exact (driven_no_leak _ _ _ (wo_config _ _ consumer_jobs_ok) consumer_untimed Hd).
  - destruct (dn_jobs _ _ _ Hd _ Hj1) as (s & Hs & _ & Ht & _).
    change (rq_request_id (consumer_request 1, ctok 1500 1).1) with 1 in Hs.
    unfold explain. rewrite Hs. eexists. split; [done|]. cbn [xp_trace].
    destruct (rs_trace s); [done|cbn; lia].
Qed.

(** The downstream consumer succeeds: if its file can be written, the
    program exits with 0; it reports both requests completed and explained, the
    state recovered from the file and no memory reservation left. *)
Lemma consumer_succeeds {store} `{FSys : FileSystem store} (FOk : ReliableFiles store)
    (remove : store → string → store) fs
    (Hfit : fits_drive consumer_config consumer_jobs kDriveCycles)
    (Hw : ∀ st, (persist st fs "consumer.pfstate").1 = Ok tt) :
  ∃ groups explained fs',
    consumer_main remove fs
    = ((Some 0, [Out (consumer_line true true groups explained true true)]), fs') ∧ 0 < explained.
Proof using C64.
  destruct (program_drives _ _ consumer_jobs_ok Hfit) as (st & Hrun & Hd).
  destruct (driven_consumer st Hd) as (T1 & T2 & Hc & Hu & x & Hx & Htr).
  assert (has_value (recover (Impl_new consumer_config) (persist st fs "consumer.pfstate").2
    "consumer.pfstate").2 = true) as Hrec.
  { rewrite (recover_persisted fs (persist st fs "consumer.pfstate").2 st); [done| |].
    - apply (export_state_ok consumer_config); [apply consumer_jobs_ok|by eapply driven_reachable|].
      refine (program_storable _ _ st _ _ Hrun Hd);
        apply (bool_decide_unpack _); by vm_compute.
    - specialize (Hw st). by destruct (persist st fs "consumer.pfstate") as [? fs1]; cbn in Hw; subst. }
  unfold consumer_main. rewrite consumer_submits, Hrun. cbv zeta.
  rewrite T1, T2, Hc, Hu, Hx, Hrec. cbn [has_value andb].
  eexists _, _, _. split; [|exact Htr]. by rewrite (proj2 (Z.ltb_lt _ _) Htr).
Qed.
End consumer.
