(* ===== verification/Examples.v ===== *)
(** * The example programs

    The programs under [examples/], each as a function to its exit code and the
    lines it prints.  They share their shape: requests are submitted with their
    tokens to a new scheduler with one executor, which is driven to quiescence,
    and what it then answers decides the exit code. *)

From S2P Require Import Prelude Float Types Request Chunking Memory Compat Bytes Persist Exec Observability SchedState SchedOps SchedCycle SchedPersist Network RemoteWorker Sockets Cli Workload Programs.

Section examples.
Context `{FE : FloatEnv} `{CK : ClockSource} `{HO : HashOrder}.

(** The fields every example sets: one model, estimates after the length. *)
Definition example_request (id : RequestId) (t : TenantId) (prompt : Z) : PrefillRequest :=
  PrefillRequest_default
    <| rq_request_id := id |>
    <| rq_tenant_id := t |>
    <| rq_model := mkModelKey "m" "1" |>
    <| rq_prompt_token_count := prompt |>
    <| rq_compute_estimate := prompt |>
    <| rq_memory_estimate_bytes := prompt * 16 |>
    <| rq_input_shape := mkInputShape prompt 0 0 0 |>.

(** [std::vector<std::uint32_t>(n, v)]. *)
Definition same_tokens (n v : Z) : list Z := replicate (Z.to_nat n) (u32 v).

(** The requests of a program submitted in order, and the scheduler driven; the
    results of both calls are dropped. *)
Definition example_drive (st : Impl) : Impl := (drive_until_quiescent kDriveCycles st).1.
Definition example_run (cfg : SchedulerConfig) (jobs : list Job) : Impl :=
  example_drive (foldl wl_submit (new_with_cpu cfg) jobs).

(** [return ok ? 0 : 1] after printing. *)
Definition exit_with (line : string) (ok : bool) : Cmd := (Some (if ok then 0 else 1), [Out line]).

Definition request_count (st : Impl) : Z := Z.of_nat (size (requests_ st)).

(** ** One request *)

Definition basic_jobs : list Job := [(example_request 1 1 2048, same_tokens 2048 7)].

Definition basic_cpu_prefill : Cmd :=
  let st := example_run (library_config 1024 16) basic_jobs in
  exit_with (field "completed" (st_completed (im_stats st)) +:+
             field " tokens" (st_completed_tokens (im_stats st))) (is_terminal st 1).

Definition cached_jobs : list Job :=
  [(example_request 1 1 32000 <| rq_reusable_prefix := mkReusablePrefixMetadata 28000 "" true |>,
    same_tokens 32000 3)].

Definition cached_prefix_remainder : Cmd :=
  let st := example_run (library_config 1000 16) cached_jobs in
  exit_with (field "completed_tokens" (st_completed_tokens (im_stats st)))
    (st_completed_tokens (im_stats st) =? 4000).

Definition chunked_jobs : list Job := [(example_request 1 1 6000, same_tokens 6000 1)].

Definition chunked_long_prompt : Cmd :=
  let st := example_run (library_config 1000 16) chunked_jobs in
  exit_with ("completed=" +:+ bool_text (is_terminal st 1)) (is_terminal st 1).

(** [now] is the count of the program's own reading of the steady clock. *)
Definition deadline_jobs (now : Z) : list Job :=
  [(example_request 1 1 3000 <| rq_deadline := Some (i64 (now + 100000000)) |>, same_tokens 3000 5)].

Definition deadline_sensitive (now : Z) : Cmd :=
  let st := example_run (library_config 1000 16) (deadline_jobs now) in
  exit_with ("completed=" +:+ bool_text (is_terminal st 1)) (is_terminal st 1).

(** ** Several requests *)

Definition packed_jobs : list Job :=
  (λ i, (example_request (u64 (1 + i)) 1 2000, same_tokens 2000 i)) <$> seqZ 0 8.

Definition compatible_packed_prefill : Cmd :=
  let st := example_run (library_config 2000 8) packed_jobs in
  exit_with (field "groups" (st_groups_formed (im_stats st)) +:+
             field " completed" (st_completed (im_stats st))) (st_completed (im_stats st) =? 8).

Definition mixed_jobs : list Job :=
  (λ i, (example_request i 1 (u64 (i * 1000)), same_tokens (u64 (i * 1000)) i)) <$> seqZ 1 6.

Definition mixed_prompt_lengths : Cmd :=
  let st := example_run (library_config 512 16) mixed_jobs in
  let all := forallb (is_terminal st) (seqZ 1 6) in
  exit_with ("all completed=" +:+ bool_text all +:+
             field " tokens" (st_completed_tokens (im_stats st))) all.

(** The doubles 4.0 and 1.0 are the weights. *)
Definition fairness_jobs : list Job :=
  ((λ i, (example_request (u64 (1 + i)) 1 4000 <| rq_tenant_weight := 0x4010000000000000 |>,
          same_tokens 4000 i)) <$> seqZ 0 8) ++
  ((λ i, (example_request (u64 (100 + i)) 2 300 <| rq_tenant_weight := d_one |>,
          same_tokens 300 i)) <$> seqZ 0 8).

Definition multiple_tenants_fairness : Cmd :=
  let st := example_run (library_config 2000 16) fairness_jobs in
  exit_with (field "completed" (st_completed (im_stats st))) (st_completed (im_stats st) =? 16).

Definition retry_jobs : list Job :=
  (λ i, (example_request (u64 (1 + i)) 1 2048 <| rq_max_retries := 2 |>, same_tokens 2048 i))
    <$> seqZ 0 4.

Definition retry_partial_completion : Cmd :=
  let st := example_run (library_config 1024 16) retry_jobs in
  exit_with (field "completed" (st_completed (im_stats st)) +:+
             field " leaks" (unreleased_count (im_mem st))) (unreleased_count (im_mem st) =? 0).

(** ** Cancellation *)

Definition cancellation_jobs : list Job :=
  [(example_request 1 1 20000, same_tokens 20000 1); (example_request 2 1 200, same_tokens 200 2)].

Definition cancellation : Cmd :=
  let st := foldl wl_submit (new_with_cpu (library_config 500 16)) cancellation_jobs in
  let st := (cancel st 2).1 in
  let st := example_drive st in
  exit_with ("b_terminal=" +:+ bool_text (is_terminal st 2) +:+
             field " cancelled" (st_cancelled (im_stats st))) (unreleased_count (im_mem st) =? 0).

(** ** Persistence *)

Definition persistence_jobs : list Job := [(example_request 1 1 1500, same_tokens 1500 9)].

Definition persistence_recovery {store} `{FileSystem store} (remove : store → string → store)
    (fs : store) : Cmd * store :=
  let cfg := library_config 4096 16 in
  let st := example_run cfg persistence_jobs in
  let fs := (persist st fs "example.pfstate").2 in
  let '(st2, rec) := recover (Impl_new cfg) fs "example.pfstate" in
  (exit_with ("recovered=" +:+ bool_text (has_value rec) +:+
              field " requests" (request_count st2)) (has_value rec),
   remove fs "example.pfstate").

(** ** CUDA *)

(** The default configuration with 12 GiB and chunks of 512 tokens. *)
Definition cuda_example_config : SchedulerConfig :=
  let c := library_config 512 16 in
  mkSchedulerConfig (cfg_max_tokens_per_chunk c) (cfg_max_work_per_chunk c)
    (cfg_max_memory_per_chunk c) (cfg_max_prefill_budget_per_cycle c) (cfg_preemption_enabled
    c) (cfg_max_requests_per_group c) (cfg_max_tokens_per_group c) (cfg_max_compute_per_group
    c) (cfg_max_memory_per_group c) (cfg_max_pack_wait_ns c) (cfg_min_preferred_occupancy c)
    (cfg_gather_for_occupancy c) (Z.shiftl 12 30) (cfg_memory_headroom_bytes c)
    (cfg_memory_headroom_fraction c)
    (cfg_enforce_memory_headroom c) (cfg_max_admitted_requests c)
    (cfg_per_tenant_outstanding_limit c) (cfg_per_tenant_admitted_token_limit c)
    (cfg_max_queued_requests c) (cfg_reject_on_memory_pressure c) (cfg_aging_rate c)
    (cfg_service_by_tokens c) (cfg_fairness_quantum c) (cfg_deadline_slack_ns c)
    (cfg_drop_expired c) (cfg_default_max_retries c) (cfg_deterministic_tie_break c)
    (cfg_track_service_accounting c).

Definition cuda_job : Job :=
  (example_request 1 1 4000 <| rq_backend := kBackendCuda |>, same_tokens 4000 3).

(** [cuda] is what [create_cuda_executor] returns. *)
Definition cuda_prefill (cuda : option Executor) : Cmd :=
  let run ex :=
    let st := attach_executor (Impl_new cuda_example_config) (Some ex) kBackendCuda in
    let st := example_drive (wl_submit st cuda_job) in
    exit_with ("completed=" +:+ bool_text (is_terminal st 1) +:+
               field " tokens" (st_completed_tokens (im_stats st))) (is_terminal st 1) in
  let unavailable := done_with ["CUDA unavailable on this machine; example did not run on GPU."] in
  match cuda with
  | Some ex => if ex_available ex then run ex else unavailable
  | None => unavailable
  end.
End examples.
