(* ===== verification/ExampleProps.v ===== *)
(** * What the examples print

    Each example exits with 0: the requests are driven to their end, cancelled
    ones included, no reservation is left, and the state persisted is recovered. *)

From S2P Require Import Prelude Float Types Request Chunking Memory Compat Bytes Persist Exec Cuda Observability SchedState SchedOps SchedCycle SchedPersist SchedFrame SchedInv SchedOpsInv SchedOpsInv2 SubmitInv CycleInv DispatchInv RunCycle ImportInv CycleFrame Reach Safety Evolve Tally Tables Typed Restore Progress Drive Network RemoteWorker Sockets Cli CliProps Submission Workload Programs ProgramProps Examples.

(** ** Cancelling a request that waits *)

Section cancelled.
Context `{FE : FloatEnv} `{CK : ClockSource} `{HO : HashOrder} `{OR : Origin}.

(** What cancelling does to a request that waits in no group. *)
Record cancelled_one (st : Impl) (rid : RequestId) (st' : Impl) : Prop := {
  cd_requests : ∃ s', requests_ st' = <[rid := s']> (requests_ st) ∧
    rs_lifecycle s' = Lifecycle_cancelled;
  cd_machinery : machinery st' = machinery st;
  cd_resolver : im_token_resolver st' = im_token_resolver st
}.

Lemma cancel_waiting st rid s :
  sched_inv st → requests_ st !! rid = Some s → queued s → rs_in_flight s = false →
  rs_current_group s = 0 → cancelled_one st rid (cancel st rid).1.
Proof.
  intros Hi Hs Hq Hf Hg. unfold cancel. rewrite Hs, Hq, Hf. cbn [is_terminal_lifecycle].
  pose proof (not_running_unreserved st rid s Hi Hs (not_flight_not_running s Hf)) as Hres.
  rewrite release_reservation_eq. cbv beta iota zeta. repeat eff_step. rewrite Hg, Hres.
  cbn [is_nil negb]. change (negb (is_nil 0)) with false. cbv beta iota zeta. cbn [fst]. split.
  - eexists. split; by eff.
  - unfold machinery. by eff.
  - by eff.
Qed.

Lemma cancel_drivable M st rid st' :
  drivable M st → cancelled_one st rid st' → drivable M st'.
Proof.
  intros [V1 V2 V3 V4 V5 V6 V7] [(s' & Er & Hl) Em _].
  destruct (machinery_inj _ _ Em) as (Ec & Ee & Emm & Eg & Ew & _).
  assert (∀ r x, requests_ st' !! r = Some x → x = s' ∨ requests_ st !! r = Some x) as Hold.
  { intros r x. rewrite Er. intros [[_ <-]|[_ H]]%lookup_insert_Some; auto. }
  assert (nonterminal s' = false) as Hnt by (unfold nonterminal; by rewrite Hl).
  split.
  - intros r x [->|Hx]%Hold; [|by apply (V1 r)]. unfold running. rewrite Hl. by intros [_ [=]].
  - intros r x [->|Hx]%Hold Hn; [congruence|]. by apply (V2 r).
  - congruence.
  - unfold roomy in *. rewrite Ec, Emm. destruct V4 as (A & B & C). do 2 (split; [done|]).
    intros r x ch [->|Hx]%Hold Hn; [congruence|]. by apply (C r).
  - by rewrite Eg, Ew.
  - unfold cpu_workers. by rewrite Ew.
  - intros r x [->|Hx]%Hold Hn; [congruence|]. unfold backend_of. rewrite Ec, Ew. by apply (V7 r).
Qed.

Lemma cancel_counters n st rid st' :
  is_Some (requests_ st !! rid) → counters_room n st → cancelled_one st rid st' → counters_room n st'.
Proof.
  intros [s Hs] Hc [(s' & Er & _) Em _]. destruct (machinery_inj _ _ Em) as (_ & _ & _ & _ & _ & E1 & E2 & E3).
  unfold counters_room. cbv zeta. rewrite E1, E2, E3, Er, map_size_insert, Hs. exact Hc.
Qed.

Lemma cancel_work st rid st' :
  sched_inv st → all_live st → is_Some (requests_ st !! rid) → cancelled_one st rid st' →
  work_left st' <= work_left st.
Proof.
  intros Hi Hlv [s Hs] [(s' & Er & Hl) _ _]. unfold work_left. rewrite Er.
  rewrite (map_sum_insert _ _ _ _ _ Hs).
  assert (chunks_left s' = 0) as -> by (unfold chunks_left, nonterminal; by rewrite Hl).
  enough (0 <= chunks_left s) by lia. destruct (nonterminal s) eqn:En.
  - pose proof (chunks_left_pos st rid s Hi Hs (Hlv rid s Hs En)). lia.
  - unfold chunks_left. by rewrite En.
Qed.

Lemma cancel_unhindered st rid st' r :
  r ≠ rid → unhindered st r → cancelled_one st rid st' → unhindered st' r.
Proof.
  intros Hne (s & toks & Hs & H) [(s' & Er & _) _ Eres]. exists s, toks.
  rewrite Er, Eres, lookup_insert_ne by done. by split.
Qed.
End cancelled.

(** ** The programs *)

Section examples.
Context `{FE : FloatEnv} `{CK : ClockSource} `{HO : HashOrder}.

(** The submissions of the programs, with the configuration they are made under. *)
Definition program_workloads (now : Z) : list (SchedulerConfig * list Job) :=
  [(library_config 1024 16, basic_jobs); (library_config 1000 16, cached_jobs);
   (library_config 1000 16, chunked_jobs); (library_config 1000 16, deadline_jobs now);
   (library_config 2000 8, packed_jobs); (library_config 512 16, mixed_jobs);
   (library_config 2000 16, fairness_jobs); (library_config 1024 16, retry_jobs);
   (library_config 500 16, cancellation_jobs); (library_config 4096 16, persistence_jobs);
   (consumer_config, consumer_jobs)].

Definition programs_fit (now : Z) : Prop :=
  Forall (λ p, fits_drive p.1 p.2 kDriveCycles) (program_workloads now).

#[global] Instance programs_fit_dec now : Decision (programs_fit now).
Proof. unfold programs_fit; apply _. Defined.

(** A workload that is one by computation. *)
Definition workload_okb (cfg : SchedulerConfig) (W : list Job) : Prop :=
  config_fits cfg ∧ Forall (job_ok cfg) W ∧ NoDup ((λ x, job_id x) <$> W) ∧
  Z.of_nat (length W) <= cfg_max_admitted_requests cfg ∧
  Z.of_nat (length W) <= cfg_per_tenant_outstanding_limit cfg ∧
  wl_tokens W <= cfg_per_tenant_admitted_token_limit cfg.

#[global] Instance workload_okb_dec cfg W : Decision (workload_okb cfg W).
Proof. unfold workload_okb; apply _. Defined.

Lemma workload_okb_ok cfg W : bool_decide (workload_okb cfg W) = true → workload_ok cfg W.
Proof. intros (? & ? & ? & ? & ? & ?)%bool_decide_eq_true_1. by split. Qed.

(** The answers of the driven scheduler. *)
Lemma example_ends cfg W :
  workload_ok cfg W → fits_drive cfg W kDriveCycles →
  driven (new_with_cpu cfg) W (example_run cfg W).
Proof.
  intros HW Hf. destruct (program_drives cfg W HW Hf) as (st & Hrun & Hd).
  unfold example_run, example_drive. by rewrite Hrun.
Qed.

Lemma example_stats cfg W :
  bool_decide (workload_okb cfg W) = true → bool_decide (Forall untimed W) = true →
  fits_drive cfg W kDriveCycles →
  let st := example_run cfg W in
  st_completed (im_stats st) = Z.of_nat (length W) ∧
  st_completed_tokens (im_stats st) = u64 (wl_tokens W) ∧
  unreleased_count (im_mem st) = 0 ∧ (∀ x, x ∈ W → is_terminal st (job_id x) = true).
Proof.
  intros HW%workload_okb_ok Hun%bool_decide_eq_true_1 Hf. cbv zeta.
  pose proof (example_ends cfg W HW Hf) as Hd.
  split; [by apply (driven_stats _ _ _ Hd)|]. split; [by apply (driven_tokens _ _ _ _ HW Hd)|].
  split; [by apply (driven_no_leak W cfg _ (wo_config _ _ HW) Hun)|]. intros x. by apply (driven_terminal _ _ _ _ Hd).
Qed.

Lemma basic_prints :
  fits_drive (library_config 1024 16) basic_jobs kDriveCycles →
  basic_cpu_prefill = done_with ["completed=1 tokens=2048"].
Proof.
  intros Hf. destruct (example_stats (library_config 1024 16) basic_jobs ltac:(by vm_compute)
    ltac:(by vm_compute) Hf) as (Hc & Ht & _ & Hx). unfold basic_cpu_prefill. cbv zeta. rewrite Hc, Ht.
  rewrite (Hx (example_request 1 1 2048, same_tokens 2048 7) ltac:(by left) : is_terminal _ 1 = true).
  by vm_compute.
Qed.

Lemma cached_prints :
  fits_drive (library_config 1000 16) cached_jobs kDriveCycles →
  cached_prefix_remainder = done_with ["completed_tokens=4000"].
Proof.
  intros Hf. destruct (example_stats (library_config 1000 16) cached_jobs ltac:(by vm_compute)
    ltac:(by vm_compute) Hf) as (_ & Ht & _). unfold cached_prefix_remainder. cbv zeta. rewrite Ht.
  by vm_compute.
Qed.

Lemma chunked_prints :
  fits_drive (library_config 1000 16) chunked_jobs kDriveCycles →
  chunked_long_prompt = done_with ["completed=1"].
Proof.
  intros Hf. destruct (example_stats (library_config 1000 16) chunked_jobs ltac:(by vm_compute)
    ltac:(by vm_compute) Hf) as (_ & _ & _ & Hx). unfold chunked_long_prompt. cbv zeta.
  by rewrite (Hx (example_request 1 1 6000, same_tokens 6000 1) ltac:(by left) : is_terminal _ 1 = true).
Qed.

Lemma packed_prints :
  fits_drive (library_config 2000 8) packed_jobs kDriveCycles →
  ∃ groups, compatible_packed_prefill = done_with [field "groups" groups +:+ " completed=8"].
Proof.
  intros Hf. destruct (example_stats (library_config 2000 8) packed_jobs ltac:(by vm_compute)
    ltac:(by vm_compute) Hf) as (Hc & _). unfold compatible_packed_prefill. cbv zeta. rewrite Hc.
  by eexists.
Qed.

Lemma mixed_prints :
  fits_drive (library_config 512 16) mixed_jobs kDriveCycles →
  mixed_prompt_lengths = done_with ["all completed=1 tokens=21000"].
Proof.
  intros Hf. destruct (example_stats (library_config 512 16) mixed_jobs ltac:(by vm_compute)
    ltac:(by vm_compute) Hf) as (_ & Ht & _ & Hx). unfold mixed_prompt_lengths. cbv zeta. rewrite Ht.
  assert (forallb (is_terminal (example_run (library_config 512 16) mixed_jobs)) (seqZ 1 6) = true) as ->.
  { apply forallb_forall. intros i Hi%list_elem_of_In.
    apply (Hx (example_request i 1 (u64 (i * 1000)), same_tokens (u64 (i * 1000)) i)).
    unfold mixed_jobs. apply list_elem_of_fmap. by exists i. }
  by vm_compute.
Qed.

Lemma fairness_prints :
  fits_drive (library_config 2000 16) fairness_jobs kDriveCycles →
  multiple_tenants_fairness = done_with ["completed=16"].
Proof.
  intros Hf. destruct (example_stats (library_config 2000 16) fairness_jobs ltac:(by vm_compute)
    ltac:(by vm_compute) Hf) as (Hc & _). unfold multiple_tenants_fairness. cbv zeta. by rewrite Hc.
Qed.

Lemma retry_prints :
  fits_drive (library_config 1024 16) retry_jobs kDriveCycles →
  retry_partial_completion = done_with ["completed=4 leaks=0"].
Proof.
  intros Hf. destruct (example_stats (library_config 1024 16) retry_jobs ltac:(by vm_compute)
    ltac:(by vm_compute) Hf) as (Hc & _ & Hu & _). unfold retry_partial_completion. cbv zeta.
  by rewrite Hc, Hu.
Qed.

(** With a deadline: at its end, if not completed then expired. *)
Lemma deadline_jobs_ok now :
  0 <= now < 2 ^ 63 - 100000000 → workload_ok (library_config 1000 16) (deadline_jobs now).
Proof.
  intros Hn. pose proof (workload_okb_ok (library_config 1000 16) chunked_jobs ltac:(by vm_compute)) as [Hc _ _ _ _ _].
  unfold deadline_jobs. rewrite i64_small by (unfold is_i64; lia).
  assert (0 <= now + 100000000) as Hd by lia. revert Hd. generalize (now + 100000000). intros d Hd.
  split; [done| |apply NoDup_singleton|by vm_compute..]. rewrite Forall_singleton.
  split; [|split; [|by vm_compute]].
  - apply (bool_decide_unpack _). by vm_compute.
  - cbn [fst]. unfold validate, example_request. rsimp. cbn -[Z.ltb].
    by rewrite (proj2 (Z.ltb_ge d 0) Hd).
Qed.

Lemma deadline_prints now :
  0 <= now < 2 ^ 63 - 100000000 →
  fits_drive (library_config 1000 16) (deadline_jobs now) kDriveCycles →
  deadline_sensitive now = done_with ["completed=1"].
Proof.
  intros Hn Hf. pose proof (example_ends _ _ (deadline_jobs_ok now Hn) Hf) as Hd.
  unfold deadline_sensitive. cbv zeta.
  assert (is_terminal (example_run (library_config 1000 16) (deadline_jobs now)) 1 = true) as ->.
  { unfold deadline_jobs in Hd at 1. exact (driven_terminal _ _ _ _ Hd (list_elem_of_here _ _)). }
  done.
Qed.

(** A cancelled request ends cancelled; the others complete. *)
Lemma cancel_ends cfg W x :
  workload_ok cfg W → fits_drive cfg W kDriveCycles → x ∈ W →
  let st := (cancel (foldl wl_submit (new_with_cpu cfg) W) (job_id x)).1 in
  let st' := example_drive st in
  sched_inv (OR := origin_new) st' ∧ size (requests_ st') = length W ∧
  unreleased_count (im_mem st') = 0 ∧
  (∃ s, requests_ st' !! job_id x = Some s ∧ rs_lifecycle s = Lifecycle_cancelled) ∧
  (∀ y, y ∈ W → y ≠ x → untimed y →
     ∃ s, requests_ st' !! job_id y = Some s ∧ rs_lifecycle s = Lifecycle_completed).
Proof.
  intros HW Hfit Hx. cbv zeta. pose proof (fits_few cfg W HW Hfit) as HN. destruct Hfit as [Hwork Hroom]. pose proof (attached_start cfg (wo_config _ _ HW)) as H0.
  pose proof (submitted_all cfg (new_with_cpu cfg) H0 W HW) as Hs.
  set (st0 := foldl _ _ _) in *. clearbody st0. pose proof (sb_inv _ _ _ _ Hs) as Hi0.
  pose proof (submitted_drivable cfg (new_with_cpu cfg) eq_refl W st0 HW Hroom Hs) as Hdv.
  destruct (sb_jobs _ _ _ _ Hs x Hx) as [[s Hr] _].
  assert (cancelled_one st0 (job_id x) (cancel st0 (job_id x)).1) as Hcd.
  { destruct (sb_requests _ _ _ _ Hs _ _ Hr) as (y & a & t & _ & _ & ->).
    destruct (admit_rs_fields cfg y.1 a t) as (Hq & Hf & _). by apply (cancel_waiting _ _ _ Hi0 Hr). }
  pose proof (cancel_inv st0 (job_id x) Hi0) as Hi. set (st := (cancel st0 (job_id x)).1) in *.
  clearbody st.
  destruct (drive_ends _ kDriveCycles st Hi (cancel_drivable _ _ _ _ Hdv Hcd)
    (cancel_counters _ _ _ _ ltac:(by exists s)
       (submitted_counters cfg (new_with_cpu cfg) eq_refl W st0 kDriveCycles Hs HN ltac:(done)) Hcd))
    as (st' & Hrun & Hi' & Hl' & Hw' & Hsz & Hu & Hq' & Hst' & _).
  { etrans; [|exact Hwork]. rewrite <- (sb_work _ _ _ _ Hs).
    apply (cancel_work st0 (job_id x) st Hi0 (dv_live _ _ Hdv) ltac:(by exists s) Hcd). }
  pose proof Hcd as [(sx & Er & Hlx) _ _].
  unfold example_drive. rewrite Hrun. cbn [fst]. split; [done|]. split; [|split; [|split]].
  - rewrite Hsz, Er, map_size_insert, Hr. apply Hs.
  - exact (idle_unreserved st' Hi' Hq').
  - destruct (eo_old _ _ (steps_evolution _ _ Hi Hst') (job_id x) sx) as (s' & Hs' & Hev).
    { by rewrite Er, lookup_insert_eq. }
    exists s'. split; [done|]. rewrite (ev_final _ _ _ Hev); by rewrite Hlx.
  - intros y Hy Hne Hun. assert (job_id y ≠ job_id x) as Hid.
    { intros E. apply Hne. by apply (job_unique W _ _ (wo_ids _ _ HW)). }
    destruct (Hu _ (cancel_unhindered _ _ _ _ Hid
      (submitted_unhindered cfg (new_with_cpu cfg) W st0 y HW Hs Hy Hun) Hcd))
      as (s2 & _ & Hs2 & _ & _ & _ & _ & _ & Hl).
    exists s2. split; [done|]. pose proof (no_work_terminal st' _ s2 Hi' Hl' Hw' Hs2) as Ht.
    destruct Hl as [|[E|[_ E]]]; [done|..]; by rewrite E in Ht.
Qed.

Lemma cancellation_jobs_ok : workload_ok (library_config 500 16) cancellation_jobs.
Proof. apply workload_okb_ok. by vm_compute. Qed.

Lemma cancellation_prints :
  fits_drive (library_config 500 16) cancellation_jobs kDriveCycles →
  cancellation = done_with ["b_terminal=1 cancelled=1"].
Proof.
  intros Hf. unfold cancellation. cbv zeta.
  pose (a := (example_request 1 1 20000, same_tokens 20000 1)).
  pose (b := (example_request 2 1 200, same_tokens 200 2)).
  assert (a ∈ cancellation_jobs ∧ b ∈ cancellation_jobs) as [Ja Jb]
    by (split; unfold cancellation_jobs; [left|right; left]).
  destruct (cancel_ends _ _ b cancellation_jobs_ok Hf Jb) as (Hi & Hsz & Hu & (sb & Hb & Hlb) & Ho).
  destruct (Ho a Ja) as (sa & Ha & Hla).
  { intros E. apply (f_equal (λ x, job_id x)) in E. discriminate E. }
  { by split. }
  change (job_id a) with 1 in Ha. change (job_id b) with 2 in *.
  set (st := example_drive _) in *. clearbody st.
  assert (st_cancelled (im_stats st) = 1) as ->.
  { rewrite (proj2 (stats_new _ _ (si_stats _ Hi)) Lifecycle_cancelled _ eq_refl). unfold life_count.
    rewrite (map_sum_delete _ _ _ _ Hb), (map_sum_delete _ _ 1 sa) by (by rewrite lookup_delete_ne).
    rewrite Hlb, Hla. rewrite bool_decide_true, bool_decide_false by done.
    assert (delete 1 (delete 2 (requests_ st)) = ∅) as ->; [|by rewrite map_sum_empty].
    apply map_size_empty_inv. rewrite !map_size_delete, lookup_delete_ne, Ha, Hb, Hsz by done. done. }
  rewrite Hu. unfold is_terminal. by rewrite Hb, Hlb.
Qed.

End examples.

Section persistence.
Context `{FE : FloatEnv} `{CK : ClockSource} `{HO : HashOrder} `{C64 : !Clock64}.

(** Importing an exported state rebuilds every request and no other. *)
Lemma import_count st st0 :
  size (requests_ (import_state st0 (export_state st)).1) = size (requests_ st).
Proof.
  destruct (export_ids st) as [Hnd Hids].
  destruct (import_state_tables st0 (export_state st) Hnd) as (_ & _ & _ & _ & Hin & Hout).
  cbv zeta in *. rewrite <- !size_dom. f_equal. apply set_eq. intros rid. rewrite !elem_of_dom. split.
  - intros [s Hs]. apply Hids. destruct (decide (rid ∈ pr_request_id <$> ps_requests (export_state st)))
      as [|Hn]; [done|]. by rewrite (Hout rid Hn) in Hs.
  - intros Hs%Hids. apply list_elem_of_fmap in Hs as (r & -> & Hr). rewrite (Hin r Hr). done.
Qed.

Lemma persistence_jobs_ok : workload_ok (library_config 4096 16) persistence_jobs.
Proof. apply workload_okb_ok. by vm_compute. Qed.

Lemma persistence_prints {store} `{FSys : FileSystem store} (FOk : ReliableFiles store)
    (remove : store → string → store) fs
    (Hfit : fits_drive (library_config 4096 16) persistence_jobs kDriveCycles)
    (Hw : ∀ st, (persist st fs "example.pfstate").1 = Ok tt) :
  (persistence_recovery remove fs).1 = done_with ["recovered=1 requests=1"].
Proof using C64.
  unfold persistence_recovery. cbv zeta. unfold example_run, example_drive.
  destruct (program_drives _ _ persistence_jobs_ok Hfit) as (st & Hrun & Hd).
  assert (storable st) as Hsto.
  { refine (program_storable _ _ st _ _ Hrun Hd); apply (bool_decide_unpack _); by vm_compute. }
  rewrite Hrun. cbn [fst].
  pose proof (export_state_ok _ st (wo_config _ _ persistence_jobs_ok) (driven_reachable _ _ _ Hd) Hsto) as Hok.
  rewrite (recover_persisted fs (persist st fs "example.pfstate").2 st _ _ Hok) by
    (specialize (Hw st); by destruct (persist st fs "example.pfstate"); cbn in *; subst).
  pose proof (import_count st (Impl_new (library_config 4096 16))) as Hsz.
  rewrite (dn_size _ _ _ Hd) in Hsz.
  assert ((import_state (Impl_new (library_config 4096 16)) (export_state st)).2 = Ok tt) as Hrec
    by reflexivity.
  destruct (import_state _ _) as [st2 rec]. cbn [fst snd] in *. subst rec.
  unfold request_count. by rewrite Hsz.
Qed.

(** C30: the programs shipped with the library succeed: when their submissions
    fit one driving run and their files can be written, the examples (the CUDA
    one built without CUDA) and the downstream consumer exit with 0 and print
    what their requests amount to: every request completed, only the remainder
    after a reusable prefix counted, the cancelled request cancelled, no
    reservation left and the persisted state recovered, whatever the clocks read
    and however hash tables are iterated. *)
Theorem programs_succeed {store} `{FSys : FileSystem store} (FOk : ReliableFiles store)
    (remove : store → string → store) fs now
    (Hnow : 0 <= now < 2 ^ 63 - 100000000) (Hfit : programs_fit now)
    (Hw : ∀ st path, (persist st fs path).1 = Ok tt) :
  basic_cpu_prefill = done_with ["completed=1 tokens=2048"] ∧
  cached_prefix_remainder = done_with ["completed_tokens=4000"] ∧
  chunked_long_prompt = done_with ["completed=1"] ∧
  deadline_sensitive now = done_with ["completed=1"] ∧
  (∃ groups, compatible_packed_prefill = done_with [field "groups" groups +:+ " completed=8"]) ∧
  mixed_prompt_lengths = done_with ["all completed=1 tokens=21000"] ∧
  multiple_tenants_fairness = done_with ["completed=16"] ∧
  retry_partial_completion = done_with ["completed=4 leaks=0"] ∧
  cancellation = done_with ["b_terminal=1 cancelled=1"] ∧
  (persistence_recovery remove fs).1 = done_with ["recovered=1 requests=1"] ∧
  cuda_prefill stub_create_cuda_executor
    = done_with ["CUDA unavailable on this machine; example did not run on GPU."] ∧
  (∃ groups explained, 0 < explained ∧
     (consumer_main remove fs).1 = done_with [consumer_line true true groups explained true true]).
Proof using C64.
  unfold programs_fit, program_workloads in Hfit. rewrite !Forall_cons in Hfit. cbn [fst snd] in Hfit.
  destruct Hfit as (F1 & F2 & F3 & F4 & F5 & F6 & F7 & F8 & F9 & F10 & F11 & _).
  split; [exact (basic_prints F1)|]. split; [exact (cached_prints F2)|].
  split; [exact (chunked_prints F3)|]. split; [exact (deadline_prints now Hnow F4)|].
  split; [exact (packed_prints F5)|]. split; [exact (mixed_prints F6)|].
  split; [exact (fairness_prints F7)|]. split; [exact (retry_prints F8)|].
  split; [exact (cancellation_prints F9)|].
  split; [exact (persistence_prints FOk remove fs F10 (λ st, Hw st _))|]. split; [reflexivity|].
  destruct (consumer_succeeds FOk remove fs F11 (λ st, Hw st _)) as (groups & explained & fs' & E & He).
  exists groups, explained. split; [done|]. by rewrite E.
Qed.
End persistence.
