(* ===== verification/Order.v ===== *)
(** * Order of the candidates

    The comparator is a lexicographic order of integers, so the list the cycle
    works through does not depend on the hash tables or on the sorting
    algorithm. *)

From S2P Require Import Prelude Float Types Request Chunking Memory Compat Exec Observability SchedState SchedOps SchedCycle SchedFrame SchedInv SchedOpsInv SchedOpsInv2 SubmitInv CycleInv DispatchInv GroupInv FormInv RunCycle Reach Tables.

(** ** Lexicographic order *)

Fixpoint lex_ltb (a b : list Z) : bool :=
  match a, b with
  | x :: a, y :: b => if x =? y then lex_ltb a b else x <? y
  | [], _ :: _ => true
  | _, [] => false
  end.

Lemma lex_ltb_irrefl a : lex_ltb a a = false.
Proof. induction a as [|x a IH]; cbn; [done|]. by rewrite Z.eqb_refl. Qed.

Lemma lex_ltb_trans a b c : lex_ltb a b = true → lex_ltb b c = true → lex_ltb a c = true.
Proof.
  revert b c. induction a as [|x a IH]; intros [|y b] [|z c]; cbn; try done.
  destruct (Z.eqb_spec x y), (Z.eqb_spec y z), (Z.eqb_spec x z); rewrite ?Z.ltb_lt; try lia; eauto.
Qed.

Lemma lex_ltb_total a b : length a = length b → a ≠ b → lex_ltb a b = true ∨ lex_ltb b a = true.
Proof.
  revert b. induction a as [|x a IH]; intros [|y b]; cbn; try done. intros [= Hl] Hne.
  rewrite (Z.eqb_sym y x). destruct (Z.eqb_spec x y) as [->|Hxy].
  - apply IH; [done|]. by intros ->.
  - rewrite !Z.ltb_lt. lia.
Qed.

Section sort_unique.
Context {A : Type} (lt : A → A → bool).
Hypothesis lt_irrefl : ∀ x, lt x x = false.
Hypothesis lt_trans : ∀ x y z, lt x y = true → lt y z = true → lt x z = true.
Hypothesis lt_total : ∀ x y, x ≠ y → lt x y = true ∨ lt y x = true.

Definition in_order (l : list A) : Prop := StronglySorted (λ x y, lt x y = true) l.

Lemma sort_insert_in_order x l : x ∉ l → in_order l → in_order (sort_insert lt x l).
Proof using All.
  intros Hx Hl. induction Hl as [|y l Hl IH Hall]; cbn.
  { by repeat constructor. }
  rewrite not_elem_of_cons in Hx. destruct Hx as [Hxy Hx]. destruct (lt y x) eqn:E.
  - constructor; [by apply IH|]. rewrite Forall_forall in *. intros z Hz.
    rewrite sort_insert_perm in Hz. apply elem_of_cons in Hz as [->|Hz]; auto.
  - destruct (lt_total x y Hxy) as [Hlt|Hlt]; [|congruence].
    constructor; [by constructor|]. constructor; [done|].
    eapply Forall_impl; [exact Hall|]. intros z. cbn. eauto.
Qed.

Lemma sort_by_in_order l : NoDup l → in_order (sort_by lt l).
Proof using All.
  induction 1 as [|x l Hx _ IH]; cbn; [constructor|].
  apply sort_insert_in_order; [|done]. change (x ∉ sort_by lt l). by rewrite sort_by_perm.
Qed.

(** [std::sort] has only one possible result. *)
Lemma sort_by_unique l l' : l' ≡ₚ l → NoDup l → in_order l' → l' = sort_by lt l.
Proof using All.
  intros Hp Hnd Hs. apply (StronglySorted_unique_strong (λ x y, lt x y = true)).
  - intros x y _ _ H1 H2. pose proof (lt_trans _ _ _ H1 H2) as H. by rewrite lt_irrefl in H.
  - done.
  - by apply sort_by_in_order.
  - by rewrite sort_by_perm.
Qed.
End sort_unique.

Section order.
Context `{FE : FloatEnv} `{CK : ClockSource} `{HO : HashOrder}.

(** Urgent first, then the earliest deadline, the highest priority and latency
    class, the longest aged, the first admitted and the least id. *)
Definition sort_key (st : Impl) (now : Nanoseconds) (rid : RequestId) : list Z :=
  let s := map_at Rs_default (requests_ st) rid in
  [ if urgent (im_cfg st) now s then 0 else 1; deadline_key s; - rq_priority (rs_request s);
    - to_int (rq_latency_class (rs_request s)); - rs_aging_cycles s; rs_admit_time s; rid ].

Lemma sorter_lex st now a b :
  tables_ok st → sorter st now a b = lex_ltb (sort_key st now a) (sort_key st now b).
Proof.
  intros [_ Ht]. unfold sorter, sort_key. cbn [lex_ltb]. cbv zeta.
  set (sa := map_at Rs_default (requests_ st) a). set (sb := map_at Rs_default (requests_ st) b).
  assert (∀ t, fairness_key (map_at TenantService_default (tenants_ st) t)
    = fairness_key TenantService_default) as Hf.
  { intros t. unfold fairness_key. destruct (Ht t) as [-> ->]. done. }
  rewrite !Hf. replace (d_eqb (fairness_key TenantService_default)
    (fairness_key TenantService_default)) with true by (by vm_compute). cbn [negb].
  assert (∀ x y, (- x =? - y) = (x =? y)) as Hneg.
  { intros x y. destruct (Z.eqb_spec x y), (Z.eqb_spec (- x) (- y)); lia. }
  assert (∀ x y, (- x <? - y) = (y <? x)) as Hneg'.
  { intros x y. destruct (Z.ltb_spec y x), (Z.ltb_spec (- x) (- y)); lia. }
  rewrite !Hneg, !Hneg'.
  destruct (urgent (im_cfg st) now sa), (urgent (im_cfg st) now sb); cbn [Bool.eqb negb]; try done.
  all: change (0 =? 0) with true; change (1 =? 1) with true; cbv iota.
  all: destruct (deadline_key sa =? deadline_key sb); cbn [negb]; [|done].
  all: destruct (rq_priority (rs_request sa) =? rq_priority (rs_request sb)); cbn [negb]; [|done].
  all: destruct (to_int (rq_latency_class (rs_request sa)) =? _); cbn [negb]; [|done].
  all: destruct (rs_aging_cycles sa =? rs_aging_cycles sb); cbn [negb]; [|done].
  all: destruct (rs_admit_time sa =? rs_admit_time sb); cbn [negb]; [|done].
  all: destruct (Z.eqb_spec a b) as [->|]; [apply Z.ltb_irrefl|done].
Qed.

(** C28: the dispatch order is determined by the requests alone: the comparator
    is the lexicographic order of (urgency, deadline, priority, latency class,
    aging, admission time, id), so whatever order the hash table lists the
    candidates in and however they are sorted, a sorted arrangement of them is
    the list the cycle uses.  The tenants' service never takes part in it. *)
Theorem dispatch_order_unique cfg st now (Hc : config_fits cfg) (Hr : reachable cfg st) :
  (∀ a b, sorter (swept now st) now a b
     = lex_ltb (sort_key (swept now st) now a) (sort_key (swept now st) now b)) ∧
  in_order (sorter (swept now st) now) (ordered now st) ∧
  ∀ l, l ≡ₚ candidates (expire_sweep now st) → in_order (sorter (swept now st) now) l →
    l = ordered now st.
Proof.
  pose proof (swept_tables now st (reachable_tables cfg st Hc Hr)) as Hok.
  assert (∀ x, sorter (swept now st) now x x = false) as Hirr
    by (intros; rewrite (sorter_lex _ _ _ _ Hok); apply lex_ltb_irrefl).
  assert (∀ x y z, sorter (swept now st) now x y = true → sorter (swept now st) now y z = true →
    sorter (swept now st) now x z = true) as Htr
    by (intros x y z; rewrite !(sorter_lex _ _ _ _ Hok); apply lex_ltb_trans).
  assert (∀ x y, x ≠ y → sorter (swept now st) now x y = true ∨ sorter (swept now st) now y x = true)
    as Htot.
  { intros x y Hne. rewrite !(sorter_lex _ _ _ _ Hok). apply lex_ltb_total; [done|].
    unfold sort_key. cbv zeta. intros E. injection E. done. }
  split; [intros; by apply sorter_lex|]. split.
  - apply sort_by_in_order; [done..|]. apply candidates_nodup.
  - intros l Hl Hs. apply sort_by_unique; [done..|apply candidates_nodup|done].
Qed.
End order.
