(* ===== verification/Demo.v ===== *)
(** * Concrete executions

    A short run of a scheduler with the default configuration: an attached CPU
    executor, two submitted requests, a cycle that dispatches both in one
    group, and reports.  The theorems of the other files are instantiated on
    these states in [Witnesses]. *)

From S2P Require Import Prelude Float Types Request Chunking Memory Compat Exec Observability SchedState SchedOps SchedCycle SchedFrame SchedInv SchedOpsInv SchedOpsInv2 SubmitInv CycleInv DispatchInv GroupInv FormInv RunCycle Bytes Persist SchedPersist ImportInv CycleFrame Reach Evolve Authority Recovery.

Definition demo_cfg : SchedulerConfig := SchedulerConfig_default.

Definition demo_req (rid tenant tokens : Z) : PrefillRequest :=
  PrefillRequest_default <| rq_request_id := rid |> <| rq_tenant_id := tenant |>
    <| rq_prompt_token_count := tokens |> <| rq_memory_estimate_bytes := 16 * tokens |>
    <| rq_max_retries := 2 |>.

Definition demo_attached : Impl := attach_executor (Impl_new demo_cfg) (Some CpuExecutor) "".
Definition demo_one : Impl := (submit demo_attached (demo_req 11 1 300)).1.
Definition demo_two : Impl := (submit demo_one (demo_req 12 2 5000)).1.
(** Both requests run, in one group on the local worker. *)
Definition demo_running : Impl := (run_cycle demo_two).1.

Definition demo_rs (st : Impl) (rid : RequestId) : Rs := map_at Rs_default (requests_ st) rid.

Definition demo_report (st : Impl) (rid : RequestId) (o : MemberOutcome) : MemberResult :=
  MemberResult_default <| mr_outcome := o |> <| mr_request_id := rid |>
    <| mr_attempt_id := rs_attempt (demo_rs st rid) |>
    <| mr_generation := rs_current_generation (demo_rs st rid) |>
    <| mr_epoch := im_epoch st |>.

Definition demo_success : MemberResult := demo_report demo_running 11 MemberOutcome_success.
(** Request 11 has completed. *)
Definition demo_reported : Impl := (report_completion demo_running demo_success).1.

Lemma demo_cfg_fits : config_fits demo_cfg.
Proof. apply (bool_decide_unpack _). vm_compute. exact I. Qed.

Lemma demo_req_fits :
  request_fits (demo_req 11 1 300) ∧ request_fits (demo_req 12 2 5000).
Proof. split; apply (bool_decide_unpack _); vm_compute; exact I. Qed.

Lemma demo_submitted st req :
  pristine demo_cfg st → request_fits req → pristine demo_cfg (submit st req).1.
Proof. intros Hr Hq. eapply rtc_r; [exact Hr|]. by apply step_submit. Qed.

Lemma submit_workers st req : workers_ (submit st req).1 = workers_ st.
Proof.
  unfold submit, submit_with_tokens. destruct (negb _); [done|]. destruct (bool_decide _); [done|].
  destruct (register_request _ _ _) as [tr [[]|e]]; [|done]. cbv zeta.
  do 3 (destruct (_ : bool); [unfold reject_capacity; by eff|]).
  unfold alloc_attempt, im_now. cbv beta iota zeta. destruct (_ =? 0); by eff.
Qed.

Lemma demo_attached_pristine : pristine demo_cfg demo_attached.
Proof. apply rtc_once. exact (step_attach _ (Some CpuExecutor) ""). Qed.

Lemma demo_one_pristine : pristine demo_cfg demo_one.
Proof. unfold demo_one. apply demo_submitted; [apply demo_attached_pristine|apply demo_req_fits]. Qed.

Lemma demo_two_pristine : pristine demo_cfg demo_two.
Proof. unfold demo_two. apply demo_submitted; [apply demo_one_pristine|apply demo_req_fits]. Qed.

Lemma demo_running_pristine : pristine demo_cfg demo_running.
Proof.
  eapply rtc_r; [apply demo_two_pristine|]. apply step_cycle.
  unfold cycle_room. vm_compute. done.
Qed.

Lemma demo_reported_pristine : pristine demo_cfg demo_reported.
Proof. eapply rtc_r; [apply demo_running_pristine|]. apply step_report. Qed.

Lemma demo_two_reachable : reachable demo_cfg demo_two.
Proof. apply pristine_reachable, demo_two_pristine. Qed.

Lemma demo_running_reachable : reachable demo_cfg demo_running.
Proof. apply pristine_reachable, demo_running_pristine. Qed.

Lemma demo_reported_reachable : reachable demo_cfg demo_reported.
Proof. apply pristine_reachable, demo_reported_pristine. Qed.

(** A new scheduler with the state [demo_running] exported. *)
Definition demo_restarted : Impl := (import_state demo_attached (export_state demo_running)).1.
(** The work that was in flight runs again. *)
Definition demo_resumed : Impl := (run_cycle demo_restarted).1.

Lemma demo_restarted_reachable : reachable demo_cfg demo_restarted.
Proof.
  apply reach_recover; [apply pristine_reachable, demo_attached_pristine|reflexivity|].
  apply demo_running_reachable.
Qed.

Lemma demo_resumed_reachable : reachable demo_cfg demo_resumed.
Proof.
  eapply reach_step; [apply demo_restarted_reachable|]. apply step_cycle.
  unfold cycle_room. vm_compute. done.
Qed.

(** ** What a snapshot does not keep

    Tokens and memory estimates are not persisted: the recovered requests are
    dispatched again, without memory, and fail in the executor. *)
Example recovered_requests_fail :
  lifecycle demo_resumed 11 = Some Lifecycle_dispatched ∧ reserved_bytes (im_mem demo_resumed) = 0 ∧
  reserved_bytes (im_mem demo_running) = 70336 ∧
  let st := (drive_until_quiescent 3 (attach_executor demo_restarted (Some CpuExecutor) "")).1 in
  lifecycle st 11 = Some Lifecycle_failed_non_retryable ∧
  lifecycle st 12 = Some Lifecycle_failed_non_retryable.
Proof. split_and!; by vm_compute. Qed.

(** Nor does the plan survive, when an estimate shaped it: of 4000 tokens with an
    estimate of 2 GiB the first chunk of 1000 is done; the recovered request is
    planned in one chunk of 4000 and starts over. *)
Definition costly_req : PrefillRequest :=
  demo_req 11 1 4000 <| rq_memory_estimate_bytes := Z.shiftl 2 30 |>.
Definition costly_sent : Impl := (run_cycle (submit demo_attached costly_req).1).1.
Definition costly_done : Impl :=
  (report_completion costly_sent (demo_report costly_sent 11 MemberOutcome_success)).1.
Definition costly_back : Impl := (import_state demo_attached (export_state costly_done)).1.

Example recovered_progress_lost :
  lifecycle costly_done 11 = Some Lifecycle_queued ∧
  ck_token_start <$> pending_chunk (demo_rs costly_done 11) = Some 1000 ∧
  lifecycle costly_back 11 = Some Lifecycle_queued ∧
  ck_token_start <$> pending_chunk (demo_rs costly_back 11) = Some 0.
Proof. split_and!; by vm_compute. Qed.

(** Importing into a scheduler with work in flight drops the requests but not
    their reservations. *)
Example import_leaks_reservations :
  let st := (import_state demo_running (export_state demo_attached)).1 in
  requests_ st = ∅ ∧ reserved_bytes (im_mem st) = 70336.
Proof. split; by vm_compute. Qed.

(** ** A report without a worker

    Request 11 is sent to the registered worker 7 of boot 42.  The report of that
    worker is accepted and the one of an earlier boot is not; a report that
    names neither worker nor boot is accepted too. *)
Definition remote_worker : WorkerDescriptor :=
  WorkerDescriptor_default <| wd_worker_id := 7 |> <| wd_boot_id := 42 |>.
Definition remote_registered : Impl :=
  (register_worker (unregister_worker (Impl_new demo_cfg) 0).1 remote_worker).1.
Definition remote_waiting : Impl := (submit remote_registered (demo_req 11 1 300)).1.
Definition remote_running : Impl := (run_cycle remote_waiting).1.
Definition remote_report (w b : Z) : MemberResult :=
  demo_report remote_running 11 MemberOutcome_success <| mr_worker := w |> <| mr_boot := b |>.

Lemma remote_registered_pristine : pristine demo_cfg remote_registered.
Proof.
  unfold remote_registered. eapply rtc_r; [|apply step_register]. apply rtc_once, step_unregister.
Qed.

Lemma remote_waiting_pristine : pristine demo_cfg remote_waiting.
Proof.
  unfold remote_waiting. apply demo_submitted; [apply remote_registered_pristine|apply demo_req_fits].
Qed.

Lemma remote_running_reachable : reachable demo_cfg remote_running.
Proof.
  apply pristine_reachable. eapply rtc_r; [apply remote_waiting_pristine|]. apply step_cycle.
  unfold cycle_room. vm_compute. done.
Qed.

Example unnamed_report_accepted :
  rs_dispatched_worker (demo_rs remote_running 11) = 7 ∧
  has_value (report_completion remote_running (remote_report 7 42)).2 = true ∧
  has_value (report_completion remote_running (remote_report 7 41)).2 = false ∧
  has_value (report_completion remote_running (remote_report 0 0)).2 = true.
Proof. split_and!; by vm_compute. Qed.

(** ** A group that never fits

    The per-group memory limit looks at the largest member, the reservations
    add up: two chunks that each fit the memory are packed into one group whose
    reservations do not, in every cycle again, so neither is ever dispatched. *)
Definition with_memory (bytes : Z) (c : SchedulerConfig) : SchedulerConfig :=
  mkSchedulerConfig (cfg_max_tokens_per_chunk c) (cfg_max_work_per_chunk c)
    (cfg_max_memory_per_chunk c) (cfg_max_prefill_budget_per_cycle c) (cfg_preemption_enabled
    c) (cfg_max_requests_per_group c) (cfg_max_tokens_per_group c) (cfg_max_compute_per_group
    c) (cfg_max_memory_per_group c) (cfg_max_pack_wait_ns c) (cfg_min_preferred_occupancy c)
    (cfg_gather_for_occupancy c) bytes 0 (cfg_memory_headroom_fraction c)
    (cfg_enforce_memory_headroom c) (cfg_max_admitted_requests c)
    (cfg_per_tenant_outstanding_limit c) (cfg_per_tenant_admitted_token_limit c)
    (cfg_max_queued_requests c) (cfg_reject_on_memory_pressure c) (cfg_aging_rate c)
    (cfg_service_by_tokens c) (cfg_fairness_quantum c) (cfg_deadline_slack_ns c)
    (cfg_drop_expired c) (cfg_default_max_retries c) (cfg_deterministic_tie_break c)
    (cfg_track_service_accounting c).
Definition tight_cfg : SchedulerConfig := with_memory 100000 demo_cfg.
Definition tight_one : Impl :=
  (submit (attach_executor (Impl_new tight_cfg) (Some CpuExecutor) "") (demo_req 11 1 4096)).1.
Definition tight_two : Impl := (submit tight_one (demo_req 12 1 4096)).1.

Definition batch_size (r : Result DispatchBatch) : option nat :=
  match r with Ok b => Some (length (db_groups b)) | Err _ => None end.

Example oversized_group_deferred :
  batch_size (run_cycle tight_one).2 = Some 1%nat ∧
  batch_size (run_cycle tight_two).2 = Some 0%nat ∧
  batch_size (run_cycle (run_cycle tight_two).1).2 = Some 0%nat.
Proof. split_and!; by vm_compute. Qed.
