(* ===== verification/NetDemo.v ===== *)
(** * A concrete distributed run

    A coordinator, a CPU worker and a client: the worker registers, the client
    says hello and submits a request with its tokens, a cycle forms a group, and
    the group is ready to be sent.  Every state is reached by the coordinator's
    steps, from frames the codecs produced. *)

From S2P Require Import Prelude Float Types Request Chunking Memory Compat Bytes Persist Exec Observability SchedState SchedOps SchedCycle SchedPersist Protocol ProtocolProps Network RemoteWorker SchedFrame SchedInv RunCycle Coordinator Reach CoordProps Demo.

Definition demo_worker_proc : WorkerProc := mkWorkerProc 7 "127.0.0.1" CpuExecutor "cpu" 42.

(** The frame a peer sends for a message. *)
Definition demo_frame (m : Message) : Result (list Z) := encode_frame m.

Definition demo_tokens : list Z := gen_tokens 300 17.
Definition demo_submission : Message :=
  kind_message MsgKind_submit <| ms_request := demo_req 11 1 300 |> <| ms_tokens := demo_tokens |>.

Definition demo_co_start : Coordinator := Coordinator_start demo_cfg.

Definition demo_co_worker : Coordinator :=
  let co := goto demo_co_start 1 T_first in
  let co := (conn_first co 1 (demo_frame (register_message demo_worker_proc))).1 in
  let wd := ms_worker (transmitted (register_message demo_worker_proc)) in
  let co := conn_register co 1 wd in
  (conn_ack co 1 wd).1.

Definition demo_co_client : Coordinator :=
  let co := goto demo_co_worker 2 T_first in
  (conn_first co 2 (demo_frame (kind_message MsgKind_hello))).1.

Definition demo_co_received : Coordinator :=
  (client_frame demo_co_client 2 (demo_frame demo_submission)).1.
Definition demo_co_submitted : Coordinator :=
  (conn_submit demo_co_received 2 (demo_req 11 1 300)).1.

(** The group of the cycle waits to be sent. *)
Definition demo_co_cycled : Coordinator := loop_cycle demo_co_submitted.

Definition demo_co_batch : DispatchBatch :=
  match (run_cycle (co_scheduler demo_co_submitted)).2 with
  | Ok b => b | Err _ => DispatchBatch_empty
  end.
Definition demo_co_group : DispatchedGroup :=
  default (mkDispatchedGroup 0 ExecutionGroup_default 0 0 0) (head (db_groups demo_co_batch)).
Definition demo_co_dispatch : Message :=
  default Message_default (dispatch_message demo_co_cycled demo_co_group).

(** The run: the states are reached by steps of the coordinator that stay within
    what the scheduler's step relation covers. *)
Definition demo_run ins outs co : Prop :=
  crun demo_co_start ins outs co ∧ pristine demo_cfg (co_scheduler co).

#[local] Instance covered_threads_dec (m : gmap Z Thread) : Decision (map_Forall (λ _ t,
  match t with T_submitting req => request_fits req | _ => True end) m).
Proof. apply map_Forall_dec. intros _ []; apply _. Defined.

Lemma demo_run_step ins outs co i o co' :
  demo_run ins outs co → covered co → cstep co i o co' → demo_run (ins ++ i) (outs ++ o) co'.
Proof.
  intros [Hr Hp] Hc Hs. split; [by eapply crun_step|by eapply cstep_pristine].
Qed.

Ltac demo_covered :=
  split; [apply (bool_decide_unpack _); vm_compute; exact I|intros _; unfold cycle_room; by vm_compute].

Definition demo_register_frame := (1, demo_frame (register_message demo_worker_proc)).
Definition demo_hello_frame := (2, demo_frame (kind_message MsgKind_hello)).
Definition demo_submit_frame := (2, demo_frame demo_submission).

Lemma demo_co_worker_run : ∃ outs, demo_run [demo_register_frame] outs demo_co_worker.
Proof.
  eexists. refine (demo_run_step [demo_register_frame] _ _ [] _ _ _ _ (cs_ack _ 1 _ _)); [|demo_covered|by vm_compute].
  refine (demo_run_step [demo_register_frame] _ _ [] _ _ _ _ (cs_register _ 1 _ _)); [|demo_covered|by vm_compute].
  refine (demo_run_step [] _ _ [_] _ _ _ _ (cs_first _ 1 _ _)); [|demo_covered|by vm_compute].
  refine (demo_run_step [] _ _ [] _ _ _ _ (cs_accept _ 1 _)); [|demo_covered|by vm_compute].
  split; [apply crun_refl|apply coordinator_start_pristine].
Qed.

Lemma demo_co_client_run :
  ∃ outs, demo_run [demo_register_frame; demo_hello_frame] outs demo_co_client.
Proof.
  destruct demo_co_worker_run as [outs Hr]. eexists.
  refine (demo_run_step [demo_register_frame] _ _ [_] _ _ _ _ (cs_first _ 2 _ _)); [|demo_covered|by vm_compute].
  refine (demo_run_step [demo_register_frame] _ _ [] _ _ Hr _ (cs_accept _ 2 _)); [demo_covered|by vm_compute].
Qed.

Definition demo_frames := [demo_register_frame; demo_hello_frame; demo_submit_frame].

Lemma demo_co_submitted_run : ∃ outs, demo_run demo_frames outs demo_co_submitted.
Proof.
  destruct demo_co_client_run as [outs Hr]. eexists.
  refine (demo_run_step demo_frames _ _ [] _ _ _ _ (cs_submit _ 2 _ _)); [|demo_covered|by vm_compute].
  refine (demo_run_step [demo_register_frame; demo_hello_frame] _ _ [_] _ _ Hr _ (cs_client _ 2 _ _));
    [demo_covered|by vm_compute].
Qed.

Lemma demo_co_submitted_pristine : pristine demo_cfg (co_scheduler demo_co_submitted).
Proof. by destruct demo_co_submitted_run as (outs & _ & Hp). Qed.

Lemma demo_co_room : cycle_room (co_scheduler demo_co_submitted).
Proof. unfold cycle_room. vm_compute. done. Qed.

Lemma demo_co_cycled_run : ∃ outs, demo_run demo_frames outs demo_co_cycled.
Proof.
  destruct demo_co_submitted_run as [outs Hr]. eexists.
  refine (demo_run_step demo_frames _ _ [] _ _ Hr _ (cs_cycle _ _)); [demo_covered|by vm_compute].
Qed.
