(* ===== verification/Witnesses.v ===== *)
(** * The theorems on concrete executions

    Each lemma instantiates a theorem on the states of [Demo] or on a small
    input, with its hypotheses discharged by computation. *)

From S2P Require Import Prelude Float Types Request Chunking Memory Compat Exec Cuda Observability Explain SchedState SchedOps SchedCycle SchedFrame SchedInv SchedOpsInv SchedOpsInv2 SubmitInv CycleInv DispatchInv GroupInv FormInv RunCycle Reach Safety Safety Evolve Authority Recovery CycleProps CycleFrame Tables Progress Drive Order Demo.

(** ** Planning *)

Abbreviation demo_plan := (plan demo_cfg (demo_req 12 2 5000) 7 0).

Lemma plan_covers_remaining_witness :
  covered_tokens demo_plan = 5000 ∧ length (pl_chunks demo_plan) = 2%nat ∧
  covers 0 (pl_chunks demo_plan) (covered_tokens demo_plan).
Proof.
  split; [by vm_compute|]. split; [by vm_compute|].
  exact (proj1 (plan_covers_remaining demo_cfg (demo_req 12 2 5000) 7 0
    (proj1 (proj2 demo_req_fits)) (proj1 demo_cfg_fits))).
Defined.

Definition demo_chunk : PrefillChunk :=
  default (mkPrefillChunk 0 0 0 0 0 0 0 0 WorkKind_full_prompt 0 0 None)
    (pl_chunks demo_plan !! 1%nat).

Lemma demo_chunk_lookup : pl_chunks demo_plan !! 1%nat = Some demo_chunk.
Proof. by vm_compute. Qed.

Lemma plan_chunks_valid_witness :
  ck_token_count demo_chunk = 904 ∧
  ei_code (chunk_validate demo_chunk (demo_req 12 2 5000)) = ErrorCode_ok.
Proof.
  split; [by vm_compute|].
  exact (proj1 (plan_chunks_valid demo_cfg (demo_req 12 2 5000) 7 0 demo_chunk
    (proj1 (proj2 demo_req_fits)) (proj1 demo_cfg_fits)
    (list_elem_of_lookup_2 _ _ _ demo_chunk_lookup))).
Defined.

(** ** Memory *)

Definition demo_gov : MemoryGovernor := MemoryGovernor_new 1000 100.
Definition demo_gov1 : MemoryGovernor := (reserve demo_gov 5 11 400 ReservationKind_reserved).1.

Lemma demo_gov_inv : gov_inv demo_gov ∧ gov_inv demo_gov1.
Proof.
  assert (gov_inv demo_gov) as H by (apply gov_inv_new; unfold is_u64; lia).
  split; [done|]. apply gov_inv_reserve; [done|lia].
Qed.

Lemma reserve_refines_ledger_witness :
  has_value (reserve demo_gov1 6 12 600 ReservationKind_reserved).2 = false ∧
  has_value (reserve demo_gov1 6 12 500 ReservationKind_reserved).2 = true.
Proof.
  split; [by vm_compute|].
  apply (reserve_refines_ledger demo_gov1 6 12 500 ReservationKind_reserved (proj2 demo_gov_inv)).
  - unfold is_u64. lia.
  - split; [by vm_compute|]. right. vm_compute. discriminate.
Defined.

Lemma release_refines_ledger_witness :
  ledger demo_gov1 !! 5 = Some (11, 400) ∧ ledger (release demo_gov1 5) = delete 5 (ledger demo_gov1).
Proof.
  split; [by vm_compute|]. exact (proj1 (release_refines_ledger demo_gov1 5 (proj2 demo_gov_inv))).
Defined.

(** ** Reachable states of the scheduler *)

Lemma demo_lookup_11 : requests_ demo_running !! 11 = Some (demo_rs demo_running 11).
Proof. by vm_compute. Qed.
Lemma demo_lookup_12 : requests_ demo_running !! 12 = Some (demo_rs demo_running 12).
Proof. by vm_compute. Qed.
Lemma demo_running_11 : running (demo_rs demo_running 11).
Proof. by vm_compute. Qed.

Lemma memory_owned_exactly_witness :
  reserved_bytes (im_mem demo_running) = 4800 + 65536 ∧
  reserved_bytes (im_mem demo_running) = ledger_total (ledger (im_mem demo_running)).
Proof.
  split; [by vm_compute|].
  exact (proj1 (proj2 (memory_owned_exactly demo_cfg demo_running demo_cfg_fits
    demo_running_reachable))).
Defined.

Lemma statistics_exact_witness :
  st_completed (im_stats demo_reported) = 1 ∧
  st_admitted (im_stats demo_reported) = Z.of_nat (size (requests_ demo_reported)).
Proof.
  split; [by vm_compute|].
  exact (proj1 (statistics_exact demo_cfg demo_reported demo_cfg_fits demo_reported_pristine)).
Defined.

Lemma admission_limits_hold_witness :
  Z.of_nat (size (requests_ demo_running)) <= cfg_max_admitted_requests (im_cfg demo_running).
Proof.
  exact (proj1 (admission_limits_hold demo_cfg demo_running demo_cfg_fits demo_running_reachable)).
Defined.

Lemma progress_exact_witness :
  ∃ ch, pending_chunk (demo_rs demo_running 11) = Some ch ∧
    rs_completed_uncached (demo_rs demo_running 11) = ck_token_start ch.
Proof.
  destruct (proj1 (progress_exact demo_cfg demo_running 11 (demo_rs demo_running 11) demo_cfg_fits
    demo_running_reachable demo_lookup_11) (or_intror demo_running_11)) as (ch & Hch & _ & Hdone).
  exists ch. split; [exact Hch|exact (Hdone demo_running_pristine)].
Defined.

Definition demo_group : Gs :=
  default (mkGs ExecutionGroup_default 0 ∅) (groups_ demo_running !! 1).

Lemma groups_track_running_witness :
  (11 ∈ gs_outstanding demo_group) ∧ gs_outstanding demo_group ≠ ∅.
Proof.
  split; [apply (bool_decide_unpack _); vm_compute; exact I|].
  refine (proj1 (groups_track_running demo_cfg demo_running 1 demo_group demo_cfg_fits
    demo_running_reachable _)).
  by vm_compute.
Defined.

Lemma authority_unique_witness :
  0 < rs_current_generation (demo_rs demo_running 11) < im_next_generation_value demo_running.
Proof.
  exact (proj1 (authority_unique demo_cfg demo_running 11 12 _ _ demo_cfg_fits
    demo_running_reachable demo_lookup_11 demo_lookup_12 demo_running_11)).
Defined.

(** ** Completions *)

Lemma demo_success_authoritative :
  authoritative demo_running demo_success (demo_rs demo_running 11).
Proof.
  unfold authoritative. split; [by vm_compute|]. split; [by vm_compute|].
  split; [exact demo_lookup_11|]. split; [left; by vm_compute|].
  split; [by vm_compute|]. split; [by vm_compute|]. split; [exact demo_running_11|].
  left. by vm_compute.
Qed.

Lemma remote_report_authoritative :
  authoritative remote_running (remote_report 7 42) (demo_rs remote_running 11).
Proof.
  unfold authoritative. split; [by vm_compute|]. split; [by vm_compute|].
  split; [by vm_compute|].
  split.
  { right. exists (map_at Ws_default (workers_ remote_running) 7). split; by vm_compute. }
  split; [by vm_compute|]. split; [by vm_compute|]. split; [split; by vm_compute|].
  right. by vm_compute.
Qed.


Lemma report_settles_witness :
  ∃ s', requests_ demo_reported = <[11 := s']> (requests_ demo_running) ∧
    settled demo_running MemberOutcome_success (demo_rs demo_running 11) s'.
Proof.
  exact (report_settles demo_cfg demo_running demo_success _ demo_cfg_fits demo_running_reachable
    demo_success_authoritative).
Defined.

Lemma final_states_absorbing_witness :
  lifecycle (roll_epoch demo_reported).1 11 = lifecycle demo_reported 11.
Proof.
  refine (proj1 (final_states_absorbing demo_cfg demo_reported (roll_epoch demo_reported).1 11
    demo_cfg_fits demo_reported_reachable _ _)).
  - apply rtc_once. apply step_epoch.
  - by vm_compute.
Defined.

Lemma demo_reported_ok : report_completion demo_running demo_success = (demo_reported, Ok tt).
Proof.
  assert ((report_completion demo_running demo_success).2 = Ok tt) as H by (by vm_compute).
  unfold demo_reported. destruct (report_completion demo_running demo_success). cbn in *. by rewrite H.
Qed.

Lemma completion_applied_once_witness :
  has_value (report_completion (cancel demo_reported 12).1 demo_success).2 = false.
Proof.
  refine (completion_applied_once demo_cfg demo_running demo_reported (cancel demo_reported 12).1
    demo_success demo_success demo_cfg_fits demo_running_reachable _ _ eq_refl eq_refl).
  - exact demo_reported_ok.
  - apply rtc_once. apply step_cancel.
Defined.

Lemma epoch_roll_fences_witness :
  code_of (report_completion (roll_epoch demo_running).1 demo_success).2 = ErrorCode_stale_epoch.
Proof.
  refine (proj1 (epoch_roll_fences demo_running demo_success _ _ _)).
  - by vm_compute.
  - by vm_compute.
  - vm_compute. done.
Defined.

(** ** Worker loss *)

Lemma demo_assigned : assigned_to demo_running 0 (demo_rs demo_running 11).
Proof.
  split; [exact demo_running_11|]. exists demo_group. split; by vm_compute.
Qed.

Lemma worker_lost_recovers_witness :
  ∃ s', requests_ (worker_lost demo_running 0).1 !! 11 = Some s' ∧
    requeued (demo_rs demo_running 11) s'.
Proof.
  exact (proj1 (proj1 (worker_lost_recovers demo_cfg demo_running 0 demo_cfg_fits
    demo_running_reachable) 11 _ demo_lookup_11) demo_assigned).
Defined.

Lemma lost_work_fenced_witness :
  has_value (report_completion (worker_lost demo_running 0).1 demo_success).2 = false.
Proof.
  refine (lost_work_fenced demo_cfg demo_running (worker_lost demo_running 0).1 0 11
    (demo_rs demo_running 11) demo_success demo_cfg_fits demo_running_reachable
    demo_lookup_11 demo_assigned _ _ _).
  - apply rtc_refl.
  - by vm_compute.
  - by vm_compute.
Defined.

(** ** The cycle *)

Lemma demo_two_room : cycle_room demo_two.
Proof. unfold cycle_room. vm_compute. done. Qed.

Lemma cycle_expires_overdue_witness :
  ∃ s', requests_ demo_running !! 11 = Some s' ∧
    (rs_lifecycle s' = Lifecycle_queued ∨
     rs_lifecycle (demo_rs demo_two 11) = Lifecycle_queued ∧ rs_lifecycle s' = Lifecycle_dispatched).
Proof.
  destruct (cycle_expires_overdue demo_cfg demo_two 11 (demo_rs demo_two 11) demo_cfg_fits
    demo_two_reachable demo_two_room ltac:(by vm_compute)) as (s' & Hs' & _ & H).
  exists s'. split; [exact Hs'|]. apply H. by vm_compute.
Defined.

Lemma cycle_batch_exact_witness :
  ∃ st' batch, run_cycle demo_two = (st', Ok batch) ∧
    (∀ dg m, dg ∈ db_groups batch → m ∈ eg_members (dg_group dg) → fresh_member demo_two m) ∧
    NoDup (batch_rids batch) ∧ batch_rids batch = [11; 12].
Proof.
  destruct (cycle_batch_exact demo_cfg demo_two demo_cfg_fits demo_two_reachable demo_two_room)
    as (st' & batch & E & Hm & H & _).
  exists st', batch. split; [exact E|]. split; [exact (λ dg m Hd Hi, proj2 (Hm dg m Hd Hi))|].
  split; [exact H|].
  assert (match (run_cycle demo_two).2 with Ok b => batch_rids b | Err _ => [] end = [11; 12]) as Hb
    by (by vm_compute).
  rewrite E in Hb. exact Hb.
Defined.

Definition demo_batch : DispatchBatch :=
  match (run_cycle demo_two).2 with Ok b => b | Err _ => DispatchBatch_empty end.

Lemma demo_batch_ok : (run_cycle demo_two).2 = Ok demo_batch.
Proof.
  assert (has_value (run_cycle demo_two).2 = true) as H by (by vm_compute).
  unfold demo_batch. destruct ((run_cycle demo_two).2); [done|]. discriminate H.
Qed.

Definition demo_dispatched : DispatchedGroup :=
  default (mkDispatchedGroup 0 ExecutionGroup_default 0 0 0) (head (db_groups demo_batch)).

Lemma cycle_groups_within_limits_witness :
  length (eg_members (dg_group demo_dispatched)) = 2%nat ∧
  within_limits (im_cfg demo_two) (dg_group demo_dispatched) ∧
  sumZ em_memory_estimate_bytes (eg_members (dg_group demo_dispatched)) <= budget (im_mem demo_two).
Proof.
  split; [by vm_compute|].
  assert (no_wrap (im_cfg demo_two)) as Hnw by (split; vm_compute; done).
  refine (let H := cycle_groups_within_limits demo_cfg demo_two demo_dispatched demo_cfg_fits
    demo_two_reachable demo_two_room Hnw _ in conj (proj1 H) (proj1 (proj2 H))).
  - exists demo_batch. split; [exact demo_batch_ok|].
    assert (db_groups demo_batch !! 0%nat = Some demo_dispatched) as Hb by (by vm_compute).
    by apply list_elem_of_lookup_2 in Hb.
Defined.

Lemma demo_worker : workers_ demo_running !! 0 = Some (map_at Ws_default (workers_ demo_running) 0).
Proof.
  assert (match workers_ demo_running !! 0 with Some _ => true | None => false end = true) as H
    by (by vm_compute).
  unfold map_at. destruct (workers_ demo_running !! 0); [done|]. discriminate H.
Qed.

Lemma workers_within_capacity_witness :
  ws_busy_units (map_at Ws_default (workers_ demo_running) 0) = 1 ∧
  0 <= ws_busy_units (map_at Ws_default (workers_ demo_running) 0).
Proof.
  split; [by vm_compute|].
  exact (proj1 (workers_within_capacity demo_cfg demo_running 0 _ demo_cfg_fits
    demo_running_reachable demo_worker)).
Defined.

Lemma dispatch_order_unique_witness :
  ordered 1000 demo_two = [11; 12] ∧
  in_order (sorter (swept 1000 demo_two) 1000) (ordered 1000 demo_two).
Proof.
  split; [by vm_compute|].
  exact (proj1 (proj2 (dispatch_order_unique demo_cfg demo_two 1000 demo_cfg_fits
    demo_two_reachable))).
Defined.

(** ** Driving to quiescence *)

Definition demo_ws : Ws :=
  mkWs (mkWorkerDescriptor 0 1 "local" 0 "cpu" [CpuExecutor_device] WorkerState_ready 1 "") 0
    (Some CpuExecutor).

Lemma demo_two_workers : workers_ demo_two = {[ 0 := demo_ws ]}.
Proof. unfold demo_two, demo_one. rewrite !submit_workers. reflexivity. Qed.

Lemma demo_two_worker ws w : workers_ demo_two !! w = Some ws → w = 0 ∧ ws = demo_ws.
Proof. rewrite demo_two_workers. by intros [-> ->]%lookup_singleton_Some. Qed.

Lemma demo_two_idle : idle demo_two.
Proof.
  assert (map_Forall (λ _ s, ~ running s) (requests_ demo_two)) as H
    by (apply (bool_decide_unpack _); vm_compute; exact I). exact H.
Qed.

Lemma demo_two_roomy : roomy 65536 demo_two.
Proof.
  split; [lia|]. split; [by vm_compute|].
  assert (map_Forall (λ _ s, Forall (λ ch, ck_memory_estimate_bytes ch <= 65536)
    (pl_chunks (rs_plan s))) (requests_ demo_two)) as H
    by (apply (bool_decide_unpack _); vm_compute; exact I).
  intros rid s ch Hs _. specialize (H rid s Hs). cbn in H. rewrite Forall_forall in H. apply H.
Qed.

Lemma demo_two_serving : serving demo_two.
Proof.
  assert (map_Forall (λ _ s, worker_eligible (backend_of demo_two s) demo_ws = true)
    (requests_ demo_two)) as H by (apply (bool_decide_unpack _); vm_compute; exact I).
  intros rid s Hs _. exists 0, demo_ws. split; [by rewrite demo_two_workers, lookup_singleton_eq|].
  exact (H rid s Hs).
Qed.

Lemma demo_two_drivable : drivable 65536 demo_two.
Proof.
  split.
  - exact demo_two_idle.
  - assert (map_Forall (λ _ s, rs_lifecycle s = Lifecycle_queued) (requests_ demo_two)) as H
      by (apply (bool_decide_unpack _); vm_compute; exact I).
    intros rid s Hs _. left. exact (H rid s Hs).
  - by vm_compute.
  - exact demo_two_roomy.
  - intros w ws [-> ->]%demo_two_worker. split_and!; [|done..].
    by rewrite (idle_no_groups demo_two (pristine_inv _ _ demo_cfg_fits demo_two_pristine) demo_two_idle).
  - intros w ws [-> ->]%demo_two_worker. reflexivity.
  - exact demo_two_serving.
Qed.


(** ** The CUDA executor *)

Abbreviation demo_member := (mkExecutableMember 11 1 1 0 0 3 WorkKind_full_prompt 0 0 0 0).
Abbreviation demo_cuda_group := (ExecutionGroup_default <| eg_members := [demo_member] |>).
Abbreviation demo_tokens_of := (InMemoryTokenResolver {[ 11 := [5; 6; 7] ]}).
Abbreviation demo_device := (mkSim ∅ 4096 : SimDevice false).

Definition demo_cuda_out : ExecutorResult :=
  match (cuda_execute (mkCudaExecutor 0 0) demo_cuda_group demo_tokens_of demo_device).1 with
  | Ok out => out
  | Err _ => mkExecutorResult false [] "" 0 ""
  end.

Lemma cuda_execute_agrees_witness :
  er_members demo_cuda_out = cpu_execute_member demo_tokens_of <$> [demo_member].
Proof.
  refine (proj2 (cuda_execute_agrees (mkCudaExecutor 0 0) demo_cuda_group demo_tokens_of
    demo_device demo_device demo_cuda_out _ _ _) _).
  - by vm_compute.
  - constructor; [split_and!; by vm_compute|constructor].
  - by vm_compute.
  - by vm_compute.
Defined.

(** Four octets: the buffer of one token is allocated, the second buffer is
    refused. *)
Abbreviation tiny_device := (mkSim ∅ 4 : SimDevice false).
Abbreviation one_token_group :=
  (ExecutionGroup_default <| eg_members :=
     [mkExecutableMember 11 1 1 0 0 1 WorkKind_full_prompt 0 0 0 0] |>).

Lemma cuda_execute_no_leak_witness :
  (cudaMalloc 4 tiny_device).1.1 = cudaSuccess ∧
  size (cl_mem (cudaMalloc 4 tiny_device).2) = 1%nat ∧
  (cudaMalloc 8 (cudaMalloc 4 tiny_device).2).1.1 ≠ cudaSuccess ∧
  dom (cl_mem (cuda_execute (mkCudaExecutor 0 0) one_token_group demo_tokens_of tiny_device).2) = ∅.
Proof.
  split; [by vm_compute|]. split; [by vm_compute|]. split; [by vm_compute|].
  exact (cuda_execute_no_leak (mkCudaExecutor 0 0) one_token_group demo_tokens_of tiny_device).
Defined.

(** ** Explanations *)

(** A trace line with a quotation mark, a line break and a control character. *)
Definition demo_line : string := String dquote (String (Ascii.ascii_of_N 10) (String (Ascii.ascii_of_N 1) "x\y")).
Definition demo_explain : Explain := mkExplain 11 7 "completed" ["submitted"; demo_line].

Lemma explain_json_roundtrip_witness :
  read_json (Explain_to_json demo_explain)
  = Some (JObj [("request_id", JNum 11); ("attempt_id", JNum 7); ("lifecycle", JStr "completed");
                ("trace", JArr [JStr "submitted"; JStr demo_line])]).
Proof. refine (explain_json_roundtrip demo_explain _ _); unfold is_u64; cbn; lia. Defined.
