(* ===== verification/NetWitnesses.v ===== *)
(** * Persistence and network theorems on concrete executions

    Each lemma instantiates a theorem on the snapshot of the scheduler run of
    [Demo], on the messages and states of the distributed run of [NetDemo], or
    on a small input. *)

From S2P Require Import Prelude Float Types Request Chunking Memory Compat Bytes Persist Exec Observability SchedState SchedOps SchedCycle SchedPersist Protocol ProtocolProps Network RemoteWorker SchedFrame SchedInv RunCycle Coordinator Reach Typed Restore Authority CoordProps CoordSpec Demo NetDemo.

(** ** Persistence *)

Abbreviation demo_snapshot := (export_state demo_running).

Lemma demo_snapshot_ok : state_ok demo_snapshot.
Proof.
  constructor; try reflexivity; try (split; [|by vm_compute]);
    apply (bool_decide_unpack _); vm_compute; exact I.
Qed.
Lemma demo_running_storable : storable demo_running.
Proof. apply (bool_decide_unpack _). vm_compute. exact I. Qed.

Definition demo_blob : list Z := match serialize_state demo_snapshot with Ok b => b | Err _ => [] end.
Lemma demo_blob_ok : serialize_state demo_snapshot = Ok demo_blob.
Proof. reflexivity. Qed.

Lemma persist_roundtrip_witness :
  ∃ blob, serialize_state demo_snapshot = Ok blob ∧ deserialize_state blob = Ok demo_snapshot.
Proof. exact (persist_roundtrip demo_snapshot demo_snapshot_ok). Defined.

Lemma truncated_blob_rejected_witness :
  code_of (deserialize_state (take 100 demo_blob)) = ErrorCode_truncation.
Proof.
  refine (truncated_blob_rejected demo_snapshot demo_blob (take 100 demo_blob) demo_snapshot_ok
    demo_blob_ok _ _).
  - apply prefix_take.
  - intros E. apply (f_equal length) in E. revert E. by vm_compute.
Defined.

Lemma corrupted_blob_detected_witness :
  code_of (deserialize_state (<[40%nat := 99]> demo_blob)) = ErrorCode_checksum_mismatch.
Proof.
  refine (proj2 (proj2 (proj2 (corrupted_blob_detected demo_snapshot demo_blob 40 99
    (nth 40 demo_blob 0) demo_snapshot_ok demo_blob_ok _ _ _))) _).
  - by vm_compute.
  - by vm_compute.
  - by vm_compute.
  - lia.
Defined.

Lemma demo_blob_read : deserialize_state demo_blob = Ok demo_snapshot.
Proof. by vm_compute. Qed.

Lemma deserialize_valid_witness : state_ok demo_snapshot.
Proof.
  refine (proj1 (deserialize_valid demo_blob demo_snapshot _ demo_blob_read)).
  apply (bool_decide_unpack _). vm_compute. exact I.
Defined.

Abbreviation demo_fresh := (Impl_new demo_cfg).
Definition demo_files : gmap string (list Z) := (persist demo_running ∅ "state.pf").2.

Lemma recover_restores_witness :
  ∃ s', requests_ (recover demo_fresh demo_files "state.pf").1 !! 11 = Some s' ∧
    restored (im_cfg demo_running) demo_cfg (demo_rs demo_running 11) s'.
Proof.
  refine (proj1 (proj2 (proj2 (recover_restores memory_files_reliable demo_cfg demo_running demo_fresh
    ∅ demo_files "state.pf" demo_cfg_fits demo_running_reachable _ demo_running_storable _))) 11 (demo_rs demo_running 11) _).
  - exact (proj1 demo_cfg_fits).
  - reflexivity.
  - by vm_compute.
Defined.

Abbreviation demo_recovered := ((recover demo_attached demo_files "state.pf").1).

(** The report of request 11 from before the crash, after its work was
    dispatched again. *)
Lemma recovered_work_fenced_witness :
  lifecycle (run_cycle demo_recovered).1 11 = Some Lifecycle_dispatched ∧
  has_value (report_completion (run_cycle demo_recovered).1 demo_success).2 = false.
Proof.
  split; [by vm_compute|].
  refine (recovered_work_fenced memory_files_reliable demo_cfg demo_running demo_attached
    (run_cycle demo_recovered).1 ∅ demo_files "state.pf" demo_success demo_cfg_fits
    demo_running_reachable _ _ demo_running_storable eq_refl _ _).
  - exact (pristine_reachable _ _ demo_attached_pristine).
  - reflexivity.
  - apply rtc_once, step_cycle. unfold cycle_room. by vm_compute.
  - by vm_compute.
Defined.

(** ** Frames and connections *)

Lemma demo_submission_fits : message_fits demo_submission.
Proof. apply (bool_decide_unpack _). vm_compute. exact I. Qed.


Definition demo_body : list Z := match encode_frame demo_submission with Ok b => b | Err _ => [] end.
Lemma demo_body_ok : encode_frame demo_submission = Ok demo_body.
Proof. reflexivity. Qed.

Lemma frame_truncated_witness :
  code_of (decode_frame (take 60 demo_body)) = ErrorCode_truncation.
Proof.
  refine (frame_truncated demo_submission demo_body (take 60 demo_body) demo_submission_fits _
    demo_body_ok _ _).
  - discriminate.
  - apply prefix_take.
  - intros E. apply (f_equal length) in E. revert E. by vm_compute.
Defined.

Lemma decode_valid_witness : message_fits (transmitted demo_submission).
Proof.
  refine (proj1 (decode_valid demo_body (transmitted demo_submission) _ _)).
  - apply (bool_decide_unpack _). vm_compute. exact I.
  - by vm_compute.
Defined.

(** A connection that moves three octets per call. *)
Abbreviation demo_pipe := (mkPipe [] 3).

Lemma transfer_terminates_witness :
  (send_all demo_pipe [1; 2; 3; 4; 5]).1 ≠ err ErrorCode_io_failure "out of fuel".
Proof. exact (proj1 (transfer_terminates demo_pipe [1; 2; 3; 4; 5] 5 ltac:(lia))). Defined.

Abbreviation demo_messages := [kind_message MsgKind_hello; demo_submission; kind_message MsgKind_ping].
Definition demo_sent : Pipe := (send_messages demo_pipe demo_messages).2.

Lemma messages_delivered_witness :
  match recv_messages 3 demo_sent with
  | (Ok ms', c2) => ms' = (transmitted <$> demo_messages) ∧ pp_octets c2 = []
  | (Err e, _) => ei_code e = ErrorCode_io_failure ∧ ~ faultless Pipe
  end.
Proof.
  refine (messages_delivered demo_messages demo_pipe demo_sent _ eq_refl _).
  - apply (bool_decide_unpack _). vm_compute. exact I.
  - by vm_compute.
Defined.

(** ** The distributed run *)

Lemma demo_co_threads :
  co_threads demo_co_cycled !! 2 = Some T_client ∧ frames_of 2 demo_frames = [demo_hello_frame.2; demo_submit_frame.2].
Proof. split; by vm_compute. Qed.


Lemma demo_co_dispatched : dispatch_message demo_co_cycled demo_co_group = Some demo_co_dispatch.
Proof. by vm_compute. Qed.

#[local] Instance members_fit_dec ms : Decision (members_fit ms).
Proof. unfold members_fit; apply _. Defined.

Lemma remote_execution_exact_witness :
  length (eg_members (dg_group demo_co_group)) = 1%nat ∧
  ms_member_results (worker_dispatch demo_worker_proc (transmitted demo_co_dispatch))
  = (λ mem, worker_stamp demo_worker_proc (im_epoch (co_scheduler demo_co_cycled))
       (cpu_execute_member (InMemoryTokenResolver (tokens_ demo_co_cycled)) mem))
    <$> eg_members (dg_group demo_co_group).
Proof.
  split; [by vm_compute|].
  refine (remote_execution_exact demo_co_cycled demo_co_group demo_co_dispatch demo_worker_proc
    demo_co_dispatched _ eq_refl).
  apply (bool_decide_unpack _). vm_compute. exact I.
Defined.

Definition demo_co_result : MemberResult :=
  default MemberResult_default
    (head (ms_member_results (transmitted (worker_dispatch demo_worker_proc (transmitted demo_co_dispatch))))).

Lemma demo_co_cycle_ok :
  run_cycle (co_scheduler demo_co_submitted) = (co_scheduler demo_co_cycled, Ok demo_co_batch).
Proof. by vm_compute. Qed.

Lemma remote_completion_authoritative_witness :
  mr_outcome demo_co_result = MemberOutcome_success ∧
  ∃ s, authoritative (co_scheduler demo_co_cycled) demo_co_result s.
Proof.
  split; [by vm_compute|].
  refine (remote_completion_authoritative demo_cfg (co_scheduler demo_co_submitted) demo_co_cycled
    demo_co_batch demo_co_group demo_co_dispatch demo_worker_proc demo_co_result demo_cfg_fits
    (pristine_reachable _ _ demo_co_submitted_pristine) demo_co_room demo_co_cycle_ok _ demo_co_dispatched
    eq_refl _ _ _ _).
  - apply (list_elem_of_lookup_2 _ 0). by vm_compute.
  - by vm_compute.
  - by vm_compute.
  - by vm_compute.
  - apply (list_elem_of_lookup_2 _ 0). by vm_compute.
Defined.
