(* ===== verification/CliWitnesses.v ===== *)
(** * Socket and command-line theorems on concrete executions

    A process that connects twice, moves, assigns and destroys its sockets; an
    address; a submission of the command line to the coordinator of [NetDemo];
    and the benchmark with its default arguments. *)

From S2P Require Import Prelude Float Types Request Chunking Memory Compat Bytes Persist Exec Observability SchedState SchedOps SchedCycle SchedPersist Protocol ProtocolProps Network RemoteWorker Sockets Cli SchedFrame SchedInv Submission Coordinator CliProps Drive Typed Workload Bench Programs ProgramProps Examples ExampleProps Demo NetDemo.

(** ** Sockets *)

(** Two connections; the second socket is assigned to the first object, whose
    descriptor is closed, and the listener is started. *)
Definition demo_os : SimOs := mkSimOs {[0; 1; 2]} 100 0.
Definition demo_started : Proc SimOs :=
  proc_start (sock_assign 10 11 (proc_connect 11 "127.0.0.1" 80
    (proc_connect 10 "localhost" 80 (Proc_init demo_os 0)))).
(** The listener is started again. *)
Definition demo_proc : Proc SimOs := proc_start demo_started.

Lemma demo_proc_run : pruns (Proc_init demo_os 0) {[5]} demo_proc.
Proof.
  assert (pruns (Proc_init demo_os 0) ∅ demo_started) as Hs.
  { replace (∅ : gset Z) with (overwritten (sock_assign 10 11 (proc_connect 11 "127.0.0.1" 80
      (proc_connect 10 "localhost" 80 (Proc_init demo_os 0)))) ∪ (∅ ∪ (∅ ∪ (∅ ∪ ∅)))) by (by vm_compute).
    eapply pruns_step; [|apply pstep_start].
    eapply pruns_step; [|apply pstep_assign; vm_compute; eauto].
    eapply pruns_step; [|apply pstep_connect; by vm_compute].
    eapply pruns_step; [apply pruns_refl|apply pstep_connect; by vm_compute]. }
  replace ({[5]} : gset Z) with (overwritten demo_started ∪ ∅) by (by vm_compute).
  eapply pruns_step; [exact Hs|apply pstep_start].
Qed.

Lemma sockets_owned_witness :
  slot demo_proc (Some 10) = 4 ∧ slot demo_proc None = 6 ∧ (slot demo_proc (Some 10) ∉ sim_fds demo_os) ∧
  so_bad_closes (pc_os demo_proc) = 0%nat ∧ 5 ∈ so_open (pc_os demo_proc).
Proof.
  destruct (sockets_owned demo_os 0 {[5]} demo_proc demo_proc_run) as (Hb & Ho & Hn & _).
  split; [by vm_compute|]. split; [by vm_compute|]. split; [apply Hn; by vm_compute|].
  split; [exact Hb|]. apply Ho. right. left. by apply elem_of_singleton.
Defined.

(** ** The command line *)

Lemma hostport_roundtrip_witness : parse_hostport "fe80::1:8080" = ("fe80::1", 8080).
Proof. exact (hostport_roundtrip "fe80::1" 8080 ltac:(lia)). Defined.

Definition demo_args : list string := ["submit"; "--prompt"; "300"; "--tenant"; "2"].
Abbreviation demo_cli_request := (make_request demo_args 17).

(** Pipes that move seven octets per call in either direction. *)
Definition demo_up : Pipe := mkPipe [] 7.
Definition demo_upload : Result unit * Pipe :=
  send_message demo_up (submit_message demo_cli_request (cli_tokens demo_cli_request)).
Definition demo_cli_frame : list Z :=
  match (recv_frame demo_upload.2).1 with Ok f => f | Err _ => [] end.

Lemma pair_eq {A B} (x : A * B) a : x.1 = a → x = (a, x.2).
Proof. destruct x. by intros <-. Qed.

Lemma demo_upload_ok :
  send_message demo_up (submit_message demo_cli_request (cli_tokens demo_cli_request))
  = (Ok tt, demo_upload.2).
Proof. unfold demo_upload. apply pair_eq. by vm_compute. Qed.
Lemma demo_upload_received :
  recv_frame demo_upload.2 = (Ok demo_cli_frame, (recv_frame demo_upload.2).2).
Proof. apply pair_eq. by vm_compute. Qed.

Lemma cli_submit_consistent_witness :
  (submit (co_scheduler demo_co_client) demo_cli_request).2 = Ok tt ∧
  tokens_ (conn_submit (client_frame demo_co_client 2 (Ok demo_cli_frame)).1 2 demo_cli_request).1 !! 17
  = Some (cli_tokens demo_cli_request).
Proof.
  assert ((submit (co_scheduler demo_co_client) demo_cli_request).2 = Ok tt) as Hacc by (by vm_compute).
  split; [exact Hacc|].
  refine (proj1 (proj2 (proj2 (cli_submit_consistent demo_args 17 demo_co_client 2 demo_up
    demo_upload.2 (recv_frame demo_upload.2).2 demo_cli_frame _ _ eq_refl _ _ Hacc)))).
  - apply (bool_decide_unpack _). vm_compute. exact I.
  - vm_compute. discriminate.
  - exact demo_upload_ok.
  - exact demo_upload_received.
Defined.

(** Requests that fit, by computation. *)
Lemma fits_computed cfg W n : bool_decide (fits_drive cfg W n) = true → fits_drive cfg W n.
Proof. apply bool_decide_eq_true_1. Qed.

Lemma bench_fits chunk tenant prompt N :
  bool_decide (fits_drive (library_config chunk 16)
    ((λ r, (r, [])) <$> ((λ i, breq (u64 (i + 1)) (tenant i) prompt) <$> seqZ 0 N)) kDriveCycles) = true →
  fits_drive (library_config chunk 16) (bench_jobs tenant prompt N) kDriveCycles.
Proof.
  intros H%bool_decide_eq_true_1. eapply fits_requests; [|exact H].
  unfold bench_jobs. rewrite <- list_fmap_compose. reflexivity.
Qed.

(** With no arguments the benchmark submits 1000 requests of 1024 tokens. *)
Lemma benchmark_completes_witness :
  ∃ t0 t1 s, cmd_benchmark [] = done_with [benchmark_line 1000 t0 t1 s] ∧
    st_completed s = 1000 ∧ st_admitted s = 1000 ∧ st_completed_tokens s = 1000 * 1024.
Proof.
  apply (benchmark_completes [] 1000 1024); [by vm_compute|by vm_compute|lia|].
  apply (fits_requests _ _ (benchmark_request 1024 <$> seqZ 0 1000)).
  - unfold benchmark_jobs. rewrite <- list_fmap_compose. reflexivity.
  - apply fits_computed. by vm_compute.
Defined.

(** ** The programs *)

Lemma benchmark_program_reports_witness :
  ∃ ls, benchmark_main (λ n, 1000 * Z.of_nat n) = done_with ls ∧ last ls = Some "== benchmark complete ==".
Proof.
  destruct (benchmark_program_reports (λ n, 1000 * Z.of_nat n)) as (s & chunks & tokens & ps & blob & E & _).
  - apply bench_fits. by vm_compute.
  - apply (bench_fits 1024). by vm_compute.
  - apply bench_fits. by vm_compute.
  - eexists. split; [exact E|]. reflexivity.
Defined.

(** The programs over files in memory. *)
Lemma programs_succeed_witness :
  cached_prefix_remainder = done_with ["completed_tokens=4000"] ∧
  cancellation = done_with ["b_terminal=1 cancelled=1"] ∧
  (persistence_recovery (λ fs p, delete p fs) (∅ : gmap string (list Z))).1
  = done_with ["recovered=1 requests=1"].
Proof.
  destruct (programs_succeed memory_files_reliable (λ fs p, delete p fs) ∅ 1000)
    as (_ & H2 & _ & _ & _ & _ & _ & _ & H9 & H10 & _).
  - lia.
  - apply (bool_decide_eq_true_1 _). by vm_compute.
  - intros st path. reflexivity.
  - split; [exact H2|]. split; [exact H9|exact H10].
Defined.
